(** * GoShield: a shallow embedding of goshield.go and its properties

    The development follows the layout of the Go file: the pieces of the Go
    runtime and standard library the program relies on (strings as byte
    sequences, UTF-8, fmt verbs, math/rand, strconv, regexp, go/ast), then
    the name generator, the literal encoders, the tree passes and the text
    sweeps.  All definitions come first; the lemmas and theorems about them
    follow in the second half of the file. *)

From Stdlib Require Import ZArith String Ascii List Lia Bool.
From Stdlib Require Import Decimal DecimalString DecimalZ DecimalPos DecimalN.
From Stdlib Require Import Hexadecimal HexadecimalString HexadecimalZ.
From stdpp Require Import gmap strings list.

Local Open Scope string_scope.
Local Open Scope Z_scope.

#[local] Set Warnings "-clear-no-such-hyp".

(* ===================================================================== *)
(** * Part I: definitions                                                 *)
(* ===================================================================== *)

(** ** Go strings and bytes

    A Go [string] is an immutable sequence of bytes; it is modelled by
    [String.string], whose characters are the bytes.  A [rune] is a [Z]. *)

Definition byteZ (b : ascii) : Z := Z.of_N (N_of_ascii b).

(** [byte(z)]: the conversion keeps the low eight bits. *)
Definition byte_of_Z (z : Z) : ascii := ascii_of_N (Z.to_N (z mod 256)).

(** [len(s)] *)
Definition len (s : string) : Z := Z.of_nat (String.length s).

(** ** math/rand

    The generator is an oracle: a run consumes a sequence of raw draws.  A
    state is the list of draws still to come, [Intn n] reduces the next one
    into [[0, n)]; once the list is used up every draw is [0].  Quantifying
    over all lists covers every sequence of results the real generator can
    deliver to a terminating run. *)

Definition Rand := list Z.

Definition Intn (n : Z) (r : Rand) : Z * Rand :=
  match r with
  | [] => (0, [])
  | x :: r' => (x mod n, r')
  end.

Definition Int63n (n : Z) (r : Rand) : Z * Rand := Intn n r.

(** ** int64 arithmetic: results wrap around modulo 2^64 *)

Definition MinInt64 : Z := - 2 ^ 63.
Definition MaxInt64 : Z := 2 ^ 63 - 1.
Definition is_int64 (z : Z) : Prop := MinInt64 <= z <= MaxInt64.
Definition wrap64 (z : Z) : Z := (z + 2 ^ 63) mod 2 ^ 64 - 2 ^ 63.

Definition add64 (a b : Z) : Z := wrap64 (a + b).
Definition sub64 (a b : Z) : Z := wrap64 (a - b).
Definition mul64 (a b : Z) : Z := wrap64 (a * b).
Definition xor64 (a b : Z) : Z := wrap64 (Z.lxor a b).
(** Go's [/] truncates toward zero. *)
Definition quo64 (a b : Z) : Z := wrap64 (Z.quot a b).

(** ** fmt verbs *)

(** [%d] *)
Definition fmt_d (z : Z) : string := DecimalString.NilZero.string_of_int (Z.to_int z).

(** [%x] (lower case digits) *)
Definition fmt_x (z : Z) : string :=
  HexadecimalString.NilZero.string_of_int (Z.to_hex_int z).

(** ** INTEGER OBFUSCATION *)

(** [func obfuscateInteger(n int64) string] *)
Definition obfuscateInteger (n : Z) (r : Rand) : string * Rand :=
  let '(c, r) := Intn 4 r in
  if c =? 0 then
    let '(d, r) := Int63n 1000 r in
    let x := add64 d 1 in
    ("(" +:+ (fmt_d (sub64 n x) +:+ ("+" +:+ (fmt_d x +:+ ")"))), r)
  else if c =? 1 then
    let '(d, r) := Int63n 1000 r in
    let x := add64 d 1 in
    ("(" +:+ (fmt_d (add64 n x) +:+ ("-" +:+ (fmt_d x +:+ ")"))), r)
  else if c =? 2 then
    let '(d, r) := Int63n 1000 r in
    let x := add64 d 1 in
    ("(" +:+ (fmt_d (xor64 n x) +:+ ("^" +:+ (fmt_d x +:+ ")"))), r)
  else
    let '(d, r) := Int63n 10 r in
    let x := add64 d 2 in
    ("(" +:+ (fmt_d (mul64 n x) +:+ ("/" +:+ (fmt_d x +:+ ")"))), r).

(** ** Reading the emitted expressions back

    The encoders emit Go source text.  To state what that text evaluates
    to, the fragment of Go expressions they emit is parsed back
    ([parse_iexpr]) and evaluated. *)

Inductive binop := OAdd | OSub | OXor | OQuo.

(** An integer expression of the emitted fragment: a literal, or one binary
    operation on two literals. *)
Inductive iexpr :=
  | INum (z : Z)
  | IBin (op : binop) (a b : Z).

Definition dec_digit (a : ascii) : option (Decimal.uint -> Decimal.uint) :=
  match a with
  | "0" => Some Decimal.D0 | "1" => Some Decimal.D1 | "2" => Some Decimal.D2
  | "3" => Some Decimal.D3 | "4" => Some Decimal.D4 | "5" => Some Decimal.D5
  | "6" => Some Decimal.D6 | "7" => Some Decimal.D7 | "8" => Some Decimal.D8
  | "9" => Some Decimal.D9
  | _ => None
  end%char.

Definition hex_digit (a : ascii) : option (Hexadecimal.uint -> Hexadecimal.uint) :=
  match a with
  | "0" => Some Hexadecimal.D0 | "1" => Some Hexadecimal.D1 | "2" => Some Hexadecimal.D2
  | "3" => Some Hexadecimal.D3 | "4" => Some Hexadecimal.D4 | "5" => Some Hexadecimal.D5
  | "6" => Some Hexadecimal.D6 | "7" => Some Hexadecimal.D7 | "8" => Some Hexadecimal.D8
  | "9" => Some Hexadecimal.D9 | "a" => Some Hexadecimal.Da | "b" => Some Hexadecimal.Db
  | "c" => Some Hexadecimal.Dc | "d" => Some Hexadecimal.Dd | "e" => Some Hexadecimal.De
  | "f" => Some Hexadecimal.Df
  | _ => None
  end%char.

(** The longest prefix of decimal digits, and what follows it. *)
Fixpoint scan_dec (s : string) : Decimal.uint * string :=
  match s with
  | String a s' =>
      match dec_digit a with
      | Some D => let '(d, rest) := scan_dec s' in (D d, rest)
      | None => (Decimal.Nil, s)
      end
  | EmptyString => (Decimal.Nil, EmptyString)
  end.

Fixpoint scan_hex (s : string) : Hexadecimal.uint * string :=
  match s with
  | String a s' =>
      match hex_digit a with
      | Some D => let '(d, rest) := scan_hex s' in (D d, rest)
      | None => (Hexadecimal.Nil, s)
      end
  | EmptyString => (Hexadecimal.Nil, EmptyString)
  end.

(** An unsigned literal: [0x] and hexadecimal digits, or decimal digits. *)
Definition parse_unum (s : string) : option (Z * string) :=
  match s with
  | String "0" (String "x" s') =>
      match scan_hex s' with
      | (Hexadecimal.Nil, _) => None
      | (d, rest) => Some (Z.of_hex_uint d, rest)
      end
  | _ =>
      match scan_dec s with
      | (Decimal.Nil, _) => None
      | (d, rest) => Some (Z.of_uint d, rest)
      end
  end.

(** A literal with an optional unary minus. *)
Definition parse_num (s : string) : option (Z * string) :=
  match s with
  | String "-" s' =>
      match parse_unum s' with
      | Some (z, rest) => Some (- z, rest)
      | None => None
      end
  | _ => parse_unum s
  end.

Definition parse_binop (a : ascii) : option binop :=
  match a with
  | "+" => Some OAdd | "-" => Some OSub | "^" => Some OXor | "/" => Some OQuo
  | _ => None
  end%char.

Definition parse_iexpr (s : string) : option (iexpr * string) :=
  match parse_num s with
  | None => None
  | Some (a, rest) =>
      match rest with
      | String c rest' =>
          match parse_binop c with
          | Some op =>
              match parse_num rest' with
              | Some (b, rest'') => Some (IBin op a b, rest'')
              | None => None
              end
          | None => Some (INum a, rest)
          end
      | EmptyString => Some (INum a, rest)
      end
  end.

(** A parenthesised integer expression, the shape [obfuscateInteger] emits. *)
Definition parse_int_literal (s : string) : option iexpr :=
  match s with
  | String "(" s' =>
      match parse_iexpr s' with
      | Some (e, ")") => Some e
      | _ => None
      end
  | _ => None
  end.

(** Evaluation in int64 arithmetic; division by zero has no value. *)
Definition eval64 (e : iexpr) : option Z :=
  match e with
  | INum z => Some (wrap64 z)
  | IBin OAdd a b => Some (add64 a b)
  | IBin OSub a b => Some (sub64 a b)
  | IBin OXor a b => Some (xor64 a b)
  | IBin OQuo a b => if b =? 0 then None else Some (quo64 a b)
  end.

(** Exact evaluation, as Go does for untyped constant expressions. *)
Definition eval_const (e : iexpr) : option Z :=
  match e with
  | INum z => Some z
  | IBin OAdd a b => Some (a + b)
  | IBin OSub a b => Some (a - b)
  | IBin OXor a b => Some (Z.lxor a b)
  | IBin OQuo a b => if b =? 0 then None else Some (Z.quot a b)
  end.

(** The value of the text [obfuscateInteger] emits, in int64 arithmetic. *)
Definition eval_int_text (s : string) : option Z :=
  match parse_int_literal s with
  | Some e => eval64 e
  | None => None
  end.

(** The strategy and the magnitude [k] that [obfuscateInteger] draws from a
    generator state: [rand.Intn(4)], then [rand.Int63n(1000) + 1] for the
    first three strategies and [rand.Int63n(10) + 2] for the last. *)
Definition int_strategy (r : Rand) : Z := fst (Intn 4 r).

Definition int_magnitude (r : Rand) : Z :=
  let '(c, r1) := Intn 4 r in
  if (c =? 0) || (c =? 1) || (c =? 2)
  then add64 (fst (Int63n 1000 r1)) 1
  else add64 (fst (Int63n 10 r1)) 2.

(** ** unicode/utf8 *)

Definition RuneError : Z := 65533.       (* U+FFFD *)
Definition RuneSelf : Z := 128.
Definition MaxRune : Z := 1114111.       (* U+10FFFF *)
Definition surrogateMin : Z := 55296.    (* 0xD800 *)
Definition surrogateMax : Z := 57343.    (* 0xDFFF *)
Definition rune1Max : Z := 127.
Definition rune2Max : Z := 2047.
Definition rune3Max : Z := 65535.
Definition t2 : Z := 192.                (* 0xC0 *)
Definition t3 : Z := 224.                (* 0xE0 *)
Definition t4 : Z := 240.                (* 0xF0 *)
Definition tx : Z := 128.                (* 0x80 *)
Definition maskx : Z := 63.              (* 0x3F *)
Definition mask2 : Z := 31.              (* 0x1F *)
Definition mask3 : Z := 15.              (* 0x0F *)
Definition mask4 : Z := 7.               (* 0x07 *)
Definition locb : Z := 128.              (* 0x80 *)
Definition hicb : Z := 191.              (* 0xBF *)

(** [byte(z)] as a number *)
Definition tobyte (z : Z) : Z := z mod 256.

Definition bytes_string (l : list Z) : string :=
  fold_right (fun z s => String (byte_of_Z z) s) "" l.

(** [utf8.EncodeRune], which is also the conversion [string(r)] of an
    integer: values that are not valid code points become U+FFFD. *)
Definition EncodeRune (r : Z) : string :=
  if (0 <=? r) && (r <=? rune1Max) then
    bytes_string [tobyte r]
  else if (0 <=? r) && (r <=? rune2Max) then
    bytes_string [Z.lor t2 (tobyte (Z.shiftr r 6));
                  Z.lor tx (Z.land (tobyte r) maskx)]
  else
    let r := if (r <? 0) || (MaxRune <? r) ||
                ((surrogateMin <=? r) && (r <=? surrogateMax))
             then RuneError else r in
    if r <=? rune3Max then
      bytes_string [Z.lor t3 (tobyte (Z.shiftr r 12));
                    Z.lor tx (Z.land (tobyte (Z.shiftr r 6)) maskx);
                    Z.lor tx (Z.land (tobyte r) maskx)]
    else
      bytes_string [Z.lor t4 (tobyte (Z.shiftr r 18));
                    Z.lor tx (Z.land (tobyte (Z.shiftr r 12)) maskx);
                    Z.lor tx (Z.land (tobyte (Z.shiftr r 6)) maskx);
                    Z.lor tx (Z.land (tobyte r) maskx)].

(** [string(runes)] for a slice of runes *)
Definition string_of_runes (rs : list Z) : string :=
  fold_right (fun r s => EncodeRune r +:+ s) "" rs.

(** The table [first] with its accept ranges: for a leading byte, the
    length of the sequence and the range accepted for the second byte;
    [None] for a byte that cannot start a sequence.  (ASCII bytes are
    handled before the table is consulted.) *)
Definition first (s0 : Z) : option (Z * Z * Z) :=
  if s0 <? 194 then None                                   (* 0x80-0xC1 *)
  else if s0 <=? 223 then Some (2, locb, hicb)             (* 0xC2-0xDF *)
  else if s0 =? 224 then Some (3, 160, hicb)               (* 0xE0 *)
  else if s0 <=? 236 then Some (3, locb, hicb)             (* 0xE1-0xEC *)
  else if s0 =? 237 then Some (3, locb, 159)               (* 0xED *)
  else if s0 <=? 239 then Some (3, locb, hicb)             (* 0xEE-0xEF *)
  else if s0 =? 240 then Some (4, 144, hicb)               (* 0xF0 *)
  else if s0 <=? 243 then Some (4, locb, hicb)             (* 0xF1-0xF3 *)
  else if s0 =? 244 then Some (4, locb, 143)               (* 0xF4 *)
  else None.                                               (* 0xF5-0xFF *)

(** [utf8.DecodeRuneInString]: the rune, its width in bytes, and the rest
    of the string after it; [None] stands for the empty string (Go returns
    [(RuneError, 0)]).  An invalid sequence gives [(RuneError, 1)]. *)
Definition DecodeRuneInString (s : string) : option (Z * Z * string) :=
  match s with
  | EmptyString => None
  | String b0 rest1 =>
      let s0 := byteZ b0 in
      let invalid := Some (RuneError, 1, rest1) in
      if s0 <? RuneSelf then Some (s0, 1, rest1) else
      match first s0 with
      | None => invalid
      | Some (sz, lo, hi) =>
          match rest1 with
          | EmptyString => invalid
          | String b1 rest2 =>
              let s1 := byteZ b1 in
              if (s1 <? lo) || (hi <? s1) then invalid
              else if sz <=? 2 then
                Some (Z.lor (Z.shiftl (Z.land s0 mask2) 6) (Z.land s1 maskx), 2, rest2)
              else
              match rest2 with
              | EmptyString => invalid
              | String b2 rest3 =>
                  let s2 := byteZ b2 in
                  if (s2 <? locb) || (hicb <? s2) then invalid
                  else if sz <=? 3 then
                    Some (Z.lor (Z.lor (Z.shiftl (Z.land s0 mask3) 12)
                                       (Z.shiftl (Z.land s1 maskx) 6))
                                (Z.land s2 maskx), 3, rest3)
                  else
                  match rest3 with
                  | EmptyString => invalid
                  | String b3 rest4 =>
                      let s3 := byteZ b3 in
                      if (s3 <? locb) || (hicb <? s3) then invalid
                      else
                        Some (Z.lor (Z.lor (Z.lor (Z.shiftl (Z.land s0 mask4) 18)
                                                  (Z.shiftl (Z.land s1 maskx) 12))
                                           (Z.shiftl (Z.land s2 maskx) 6))
                                    (Z.land s3 maskx), 4, rest4)
                  end
              end
          end
      end
  end.

(** [for _, r := range s]: the runes the loop body sees, in order.  Every
    step consumes at least one byte, so [length s] steps are enough. *)
Fixpoint range_runes_n (n : nat) (s : string) : list Z :=
  match n with
  | O => []
  | S n' =>
      match DecodeRuneInString s with
      | None => []
      | Some (r, _, rest) => r :: range_runes_n n' rest
      end
  end.

Definition range_runes (s : string) : list Z := range_runes_n (String.length s) s.

(** [utf8.ValidString] *)
Fixpoint ValidString_n (n : nat) (s : string) : bool :=
  match n with
  | O => true
  | S n' =>
      match DecodeRuneInString s with
      | None => true
      | Some (r, size, rest) =>
          if (r =? RuneError) && (size =? 1) then false else ValidString_n n' rest
      end
  end.

Definition ValidString (s : string) : bool := ValidString_n (String.length s) s.

(** ** strings *)

(** [strings.Join(elems, sep)] *)
Fixpoint Join (elems : list string) (sep : string) : string :=
  match elems with
  | [] => ""
  | [e] => e
  | e :: rest => e +:+ (sep +:+ Join rest sep)
  end.

(** [strings.HasPrefix(s, prefix)] *)
Fixpoint HasPrefix (s prefix : string) {struct prefix} : bool :=
  match prefix, s with
  | EmptyString, _ => true
  | String p prefix', String a s' => Ascii.eqb a p && HasPrefix s' prefix'
  | String _ _, EmptyString => false
  end.

(** [strings.CutPrefix(s, prefix)]: what follows [prefix], when [s] starts
    with it. *)
Fixpoint CutPrefix (s prefix : string) {struct prefix} : option string :=
  match prefix, s with
  | EmptyString, _ => Some s
  | String p prefix', String a s' => if Ascii.eqb a p then CutPrefix s' prefix' else None
  | String _ _, EmptyString => None
  end.

(** [strings.Contains(s, substr)] *)
Fixpoint Contains (s substr : string) : bool :=
  HasPrefix s substr ||
  match s with
  | EmptyString => false
  | String _ s' => Contains s' substr
  end.

(** The double quote, the backslash and the line feed. *)
Definition dquote : ascii := "034"%char.
Definition backslash : ascii := "092"%char.
Definition newline : ascii := "010"%char.

(** [quoted s] is [s] between double quotes. *)
Definition quoted (s : string) : string := String dquote (s +:+ String dquote "").

(** ** STRING OBFUSCATION *)

(** The body of the loop of [obfuscateStringLiteral]: the part appended
    for one rune. *)
Definition obfuscateRune (r : Z) (rng : Rand) : string * Rand :=
  let '(c, rng) := Intn 4 rng in
  if c =? 0 then
    ("string(" +:+ (fmt_d r +:+ ")"), rng)
  else if c =? 1 then
    ("string(0x" +:+ (fmt_x r +:+ ")"), rng)
  else if c =? 2 then
    let '(d, rng) := Intn 50 rng in
    let offset := d + 1 in
    ("string(" +:+ (fmt_d (r - offset) +:+ ("+" +:+ (fmt_d offset +:+ ")"))), rng)
  else
    if (r =? 34) || (r =? 92) || (127 <? r) then      (* quote, backslash *)
      ("string(" +:+ (fmt_d r +:+ ")"), rng)
    else if (32 <=? r) && (r <? 127) then
      (quoted (EncodeRune r), rng)
    else
      ("string(" +:+ (fmt_d r +:+ ")"), rng).

(** [for _, r := range s { ... parts = append(parts, ...) }] *)
Fixpoint obfuscateRunes (rs : list Z) (rng : Rand) : list string * Rand :=
  match rs with
  | [] => ([], rng)
  | r :: rs' =>
      let '(p, rng) := obfuscateRune r rng in
      let '(ps, rng) := obfuscateRunes rs' rng in
      (p :: ps, rng)
  end.

(** [func obfuscateStringLiteral(s string) string] *)
Definition obfuscateStringLiteral (s : string) (rng : Rand) : string * Rand :=
  if String.eqb s "" then (quoted "", rng)
  else
    let '(parts, rng) := obfuscateRunes (range_runes s) rng in
    ("(" +:+ (Join parts "+" +:+ ")"), rng).

(** ** Reading the emitted string expressions back

    The fragment: an interpreted string literal without escapes, a
    conversion [string(e)] of a constant integer expression, and a
    parenthesised sum of such expressions. *)

(** The characters of a string literal up to its closing quote. *)
Fixpoint scan_strlit (s : string) : option (string * string) :=
  match s with
  | EmptyString => None
  | String a s' =>
      if Ascii.eqb a dquote then Some ("", s')
      else if Ascii.eqb a backslash || Ascii.eqb a newline then None
      else match scan_strlit s' with
           | Some (v, rest) => Some (String a v, rest)
           | None => None
           end
  end.

Fixpoint eval_sexpr (fuel : nat) (s : string) : option (string * string) :=
  match fuel with
  | O => None
  | S fuel' =>
      match s with
      | String "034" s' => scan_strlit s'
      | String "(" s' => eval_sum fuel' s'
      | _ =>
          match CutPrefix s "string(" with
          | Some s' =>
              match parse_iexpr s' with
              | Some (e, String ")" rest) =>
                  match eval_const e with
                  | Some z => Some (EncodeRune z, rest)
                  | None => None
                  end
              | _ => None
              end
          | None => None
          end
      end
  end
with eval_sum (fuel : nat) (s : string) : option (string * string) :=
  match fuel with
  | O => None
  | S fuel' =>
      match eval_sexpr fuel' s with
      | Some (v, String "+" rest) =>
          match eval_sum fuel' rest with
          | Some (w, rest') => Some (v +:+ w, rest')
          | None => None
          end
      | Some (v, String ")" rest) => Some (v, rest)
      | _ => None
      end
  end.

(** The value of a whole text of the fragment. *)
Definition eval_string_text (s : string) : option string :=
  match eval_sexpr (String.length s) s with
  | Some (v, "") => Some v
  | _ => None
  end.

(** ** regexp

    Go's regexp package matches with leftmost-first semantics: among the
    matches that start at the leftmost possible position it returns the one
    a backtracking matcher finds first, preferring the left branch of an
    alternation and more iterations of a (greedy) star.  [match_re] is that
    backtracking matcher, in continuation-passing style.  The patterns of
    this program only name ASCII characters and never split a multi-byte
    sequence, so matching bytes instead of runes finds the same matches. *)

Inductive regex : Type :=
  | REmpty
  | RByte (c : ascii)                  (* a literal character *)
  | RClass (p : ascii -> bool)         (* a character class *)
  | RSeq (r1 r2 : regex)
  | RAlt (r1 r2 : regex)
  | RStar (r : regex).                 (* greedy star *)

Definition RPlus (r : regex) : regex := RSeq r (RStar r).
Definition ROpt (r : regex) : regex := RAlt r REmpty.

(** Membership of a character in a set given as a string. *)
Fixpoint one_of (set : string) (a : ascii) : bool :=
  match set with
  | EmptyString => false
  | String c set' => Ascii.eqb a c || one_of set' a
  end.

Definition is_digit (a : ascii) : bool := one_of "0123456789" a.

(** [match_re r s k]: match [r] at the start of [s] and pass the rest of
    the string to [k]; on failure of [k] the next alternative is tried.  An
    iteration of a star that consumes nothing is not repeated. *)
Fixpoint match_re {A : Type} (r : regex) (s : string) (k : string -> option A)
  {struct r} : option A :=
  match r with
  | REmpty => k s
  | RByte c =>
      match s with
      | String a s' => if Ascii.eqb a c then k s' else None
      | EmptyString => None
      end
  | RClass p =>
      match s with
      | String a s' => if p a then k s' else None
      | EmptyString => None
      end
  | RSeq r1 r2 => match_re r1 s (fun s' => match_re r2 s' k)
  | RAlt r1 r2 =>
      match match_re r1 s k with
      | Some x => Some x
      | None => match_re r2 s k
      end
  | RStar r1 =>
      (fix loop (n : nat) (s : string) {struct n} : option A :=
         match n with
         | O => k s
         | S n' =>
             match match_re r1 s
                     (fun s' => if (String.length s' <? String.length s)%nat
                                then loop n' s' else None) with
             | Some x => Some x
             | None => k s
             end
         end) (String.length s) s
  end.

(** The first [n] bytes of [s], and [s] without them. *)
Fixpoint take (n : nat) (s : string) : string :=
  match n, s with
  | S n', String a s' => String a (take n' s')
  | _, _ => ""
  end.

Fixpoint drop (n : nat) (s : string) : string :=
  match n, s with
  | S n', String _ s' => drop n' s'
  | _, _ => s
  end.

(** The slice expression [s[lo:hi]] (for [0 <= lo <= hi <= len(s)]; Go
    panics otherwise). *)
Definition slice (s : string) (lo hi : Z) : string :=
  take (Z.to_nat (hi - lo)) (drop (Z.to_nat lo) s).

(** The match of [r] at the very start of [s]: its length. *)
Definition match_here (r : regex) (s : string) : option nat :=
  match match_re r s Some with
  | Some rest => Some (String.length s - String.length rest)%nat
  | None => None
  end.

(** The leftmost match in [s]: the offset where it starts and its
    length. *)
Fixpoint find_first (r : regex) (s : string) : option (nat * nat) :=
  match match_here r s with
  | Some n => Some (O, n)
  | None =>
      match s with
      | EmptyString => None
      | String _ s' =>
          match find_first r s' with
          | Some (i, n) => Some (S i, n)
          | None => None
          end
      end
  end.

(** All successive non-overlapping matches in [s], which starts at offset
    [pos] of the whole text, as pairs [(start, end)] of offsets into the
    whole text.  The search resumes where the previous match ended; the
    patterns of this program never match the empty string, and an empty
    match ends the search here. *)
Fixpoint find_all (fuel : nat) (r : regex) (pos : Z) (s : string) : list (Z * Z) :=
  match fuel with
  | O => []
  | S fuel' =>
      match find_first r s with
      | None => []
      | Some (i, n) =>
          let start := pos + Z.of_nat i in
          let stop := start + Z.of_nat n in
          (start, stop) ::
          match n with
          | O => []
          | S _ => find_all fuel' r stop (drop (i + n) s)
          end
      end
  end.

(** [re.FindAllStringIndex(s, -1)] *)
Definition FindAllStringIndex (r : regex) (s : string) : list (Z * Z) :=
  find_all (String.length s) r 0 s.

(** [formatRe]: [%[-+#0 ]*[0-9]*(\.[0-9]+)?[dsvftxXboqpeEgGUcTw%]] *)
Definition formatRe : regex :=
  RSeq (RByte "%")
  (RSeq (RStar (RClass (one_of "-+#0 ")))
  (RSeq (RStar (RClass is_digit))
  (RSeq (ROpt (RSeq (RByte ".") (RPlus (RClass is_digit))))
        (RClass (one_of "dsvftxXboqpeEgGUcTw%"))))).

(** The loop of [obfuscateFormatString] over the matches. *)
Fixpoint formatParts (s : string) (matches : list (Z * Z)) (lastEnd : Z)
  (parts : list string) (rng : Rand) : list string * Z * Rand :=
  match matches with
  | [] => (parts, lastEnd, rng)
  | (start, stop) :: matches' =>
      let '(parts, rng) :=
        if lastEnd <? start then
          let textPart := slice s lastEnd start in
          if 0 <? len textPart then
            let '(e, rng) := obfuscateStringLiteral textPart rng in
            ((parts ++ [e])%list, rng)
          else (parts, rng)
        else (parts, rng) in
      let formatSpec := slice s start stop in
      let parts := (parts ++ [quoted formatSpec])%list in
      formatParts s matches' stop parts rng
  end.

(** [func obfuscateFormatString(s string) string] *)
Definition obfuscateFormatString (s : string) (rng : Rand) : string * Rand :=
  let matches := FindAllStringIndex formatRe s in
  match matches with
  | [] => obfuscateStringLiteral s rng
  | _ =>
      let '(parts, lastEnd, rng) := formatParts s matches 0 [] rng in
      let '(parts, rng) :=
        if lastEnd <? len s then
          let textPart := slice s lastEnd (len s) in
          if 0 <? len textPart then
            let '(e, rng) := obfuscateStringLiteral textPart rng in
            ((parts ++ [e])%list, rng)
          else (parts, rng)
        else (parts, rng) in
      ("(" +:+ (Join parts "+" +:+ ")"), rng)
  end.

(** Every byte of [s] satisfies [p]. *)
Fixpoint string_forall (p : ascii -> bool) (s : string) : bool :=
  match s with
  | EmptyString => true
  | String a s' => p a && string_forall p s'
  end.

(** The characters a match of [r] can contain. *)
Fixpoint re_chars (r : regex) (a : ascii) : bool :=
  match r with
  | REmpty => false
  | RByte c => Ascii.eqb a c
  | RClass p => p a
  | RSeq r1 r2 | RAlt r1 r2 => re_chars r1 a || re_chars r2 a
  | RStar r1 => re_chars r1 a
  end.

(** What the emitted expressions evaluate to: the concatenation of the
    encodings of the runes of [s].  On valid UTF-8 this is [s] itself. *)
Definition reencode (s : string) : string := string_of_runes (range_runes s).

(** A list of matches as [FindAllStringIndex] returns it: successive,
    non-empty, inside the text, made of characters satisfying [p]. *)
Fixpoint match_chain (p : ascii -> bool) (s : string) (lastEnd : Z)
  (ms : list (Z * Z)) : Prop :=
  match ms with
  | [] => True
  | (start, stop) :: ms' =>
      lastEnd <= start /\ start < stop /\ stop <= len s /\
      string_forall p (slice s start stop) = true /\
      match_chain p s stop ms'
  end.

(** A part of a sum: source text that evaluates to [v] whatever follows
    it. *)
Definition part_ok (p v : string) : Prop :=
  (1 <= String.length p)%nat /\
  forall (fuel : nat) (rest : string),
    (String.length p <= fuel)%nat -> eval_sexpr fuel (p +:+ rest) = Some (v, rest).

(** The parts that pass a format specifier through start with a quote;
    the encoded ones start with a parenthesis. *)
Definition is_quoted (p : string) : bool := HasPrefix p (String dquote "").

(** The bytes a quoted specifier may contain: ASCII, and neither a quote,
    a backslash nor a line feed. *)
Definition plain_ascii (a : ascii) : bool :=
  (byteZ a <? 128) && negb (Ascii.eqb a dquote) && negb (Ascii.eqb a backslash)
  && negb (Ascii.eqb a newline).

Definition concat_all (l : list string) : string := fold_right String.append "" l.

(** The quoted specifiers of a list of matches, in order. *)
Definition passthrough (s : string) (ms : list (Z * Z)) : list string :=
  map (fun m : Z * Z => quoted (slice s m.1 m.2)) ms.

(** A part is either a quoted specifier or the encoding of a slice of
    the text. *)
Definition format_part (s : string) (p : string) : Prop :=
  is_quoted p = true \/
  exists lo hi rng, p = (obfuscateStringLiteral (slice s lo hi) rng).1.

(** ** CONFIGURATION: the command-line toggles *)

Record Config := {
  noInts : bool;
  noStrings : bool;
  noVars : bool;
  noFunctions : bool;
  noImports : bool
}.

(** ** GLOBAL STATE and the tables of the [Obfuscator] struct

    The three global maps, the state of the random generator, and the
    fields of [Obfuscator] other than the file.  A Go [map[string]bool] in
    which only [true] is ever stored is a set. *)

Record State := mkState {
  nameMap : gmap string string;
  structTypeMapping : gmap string string;
  typeAliasMapping : gmap string string;
  rand : Rand;
  declaredFuncs : gset string;
  declaredMethods : gset string;
  importAliases : gmap string string;
  structFields : gset string;
  typeNames : gset string;
  structTypes : gset string
}.

(** The state at the start of [main], with the generator seeded. *)
Definition initState (rng : Rand) : State :=
  mkState ∅ ∅ ∅ rng ∅ ∅ ∅ ∅ ∅ ∅.

Definition set_nameMap (m : gmap string string) (rng : Rand) (s : State) : State :=
  mkState m (structTypeMapping s) (typeAliasMapping s) rng (declaredFuncs s)
          (declaredMethods s) (importAliases s) (structFields s) (typeNames s)
          (structTypes s).

Definition set_structTypeMapping (m : gmap string string) (s : State) : State :=
  mkState (nameMap s) m (typeAliasMapping s) (rand s) (declaredFuncs s)
          (declaredMethods s) (importAliases s) (structFields s) (typeNames s)
          (structTypes s).

Definition set_typeAliasMapping (m : gmap string string) (s : State) : State :=
  mkState (nameMap s) (structTypeMapping s) m (rand s) (declaredFuncs s)
          (declaredMethods s) (importAliases s) (structFields s) (typeNames s)
          (structTypes s).

Definition set_declaredFuncs (x : gset string) (s : State) : State :=
  mkState (nameMap s) (structTypeMapping s) (typeAliasMapping s) (rand s) x
          (declaredMethods s) (importAliases s) (structFields s) (typeNames s)
          (structTypes s).

Definition set_declaredMethods (x : gset string) (s : State) : State :=
  mkState (nameMap s) (structTypeMapping s) (typeAliasMapping s) (rand s)
          (declaredFuncs s) x (importAliases s) (structFields s) (typeNames s)
          (structTypes s).

Definition set_importAliases (m : gmap string string) (s : State) : State :=
  mkState (nameMap s) (structTypeMapping s) (typeAliasMapping s) (rand s)
          (declaredFuncs s) (declaredMethods s) m (structFields s) (typeNames s)
          (structTypes s).

Definition set_structFields (x : gset string) (s : State) : State :=
  mkState (nameMap s) (structTypeMapping s) (typeAliasMapping s) (rand s)
          (declaredFuncs s) (declaredMethods s) (importAliases s) x (typeNames s)
          (structTypes s).

Definition set_typeNames (x : gset string) (s : State) : State :=
  mkState (nameMap s) (structTypeMapping s) (typeAliasMapping s) (rand s)
          (declaredFuncs s) (declaredMethods s) (importAliases s) (structFields s) x
          (structTypes s).

Definition set_structTypes (x : gset string) (s : State) : State :=
  mkState (nameMap s) (structTypeMapping s) (typeAliasMapping s) (rand s)
          (declaredFuncs s) (declaredMethods s) (importAliases s) (structFields s)
          (typeNames s) x.

(** Unicode lookalike characters: O 0 o, l I 1, then Latin/Cyrillic pairs
    a e p c x y k B H M T. *)
Definition obfuscationChars : list Z :=
  [79; 48; 111;
   108; 73; 49;
   97; 1072;
   101; 1077;
   112; 1088;
   99; 1089;
   120; 1093;
   121; 1091;
   107; 1082;
   66; 1042;
   72; 1053;
   77; 1052;
   84; 1058].

(** Reserved names that should never be obfuscated (stdlib
    interfaces/methods). *)
Definition reservedNames : gset string :=
  list_to_set
    ["Error"; "String";
     "Read"; "Write"; "Close"; "Seek";
     "Len"; "Cap"; "Copy"; "Append";
     "ServeHTTP"; "Header"; "Body"; "Status"; "StatusCode";
     "MarshalJSON"; "UnmarshalJSON";
     "Context"; "Err"; "Done"; "Value"; "Deadline";
     "Lock"; "Unlock"; "RLock"; "RUnlock";
     "ID"; "URL"; "URI"; "HTML"].

Definition reserved (name : string) : bool := bool_decide (name ∈ reservedNames).

(** ** NAME GENERATION *)

(** [[]rune("abcdefghijklmnopqrstuvwxyzABCDEFGHIJKLMNOPQRSTUVWXYZ")] *)
Definition letters : list Z :=
  range_runes "abcdefghijklmnopqrstuvwxyzABCDEFGHIJKLMNOPQRSTUVWXYZ".

(** [for i := 1; i < length; i++ { result[i] = obfuscationChars[...] }],
    for the [n] remaining positions *)
Fixpoint generateTail (n : nat) (rng : Rand) : list Z * Rand :=
  match n with
  | O => ([], rng)
  | S n' =>
      let '(i, rng) := Intn (Z.of_nat (length obfuscationChars)) rng in
      let c := nth (Z.to_nat i) obfuscationChars 0 in
      let '(cs, rng) := generateTail n' rng in
      (c :: cs, rng)
  end.

(** [func generateObfuscatedName(length int) string]; the assignment to
    [result[0]] panics for a zero length ([None]). *)
Definition generateObfuscatedName (length : nat) (rng : Rand) : option (string * Rand) :=
  match length with
  | O => None
  | S n =>
      let '(i, rng) := Intn (Z.of_nat (List.length letters)) rng in
      let c0 := nth (Z.to_nat i) letters 0 in
      let '(cs, rng) := generateTail n rng in
      Some (string_of_runes (c0 :: cs), rng)
  end.

(** [for _, v := range nameMap { if v == newName { exists = true; break } }] *)
Definition nameExists (m : gmap string string) (newName : string) : bool :=
  existsb (String.eqb newName) (snd <$> map_to_list m).

(** The retry loop of [getObfuscatedName].  It has no bound in the
    source; [fuel] bounds the number of candidates tried, and [None] is a
    loop that has not ended within it. *)
Fixpoint freshName (fuel : nat) (m : gmap string string) (rng : Rand)
  : option (string * Rand) :=
  match fuel with
  | O => None
  | S fuel' =>
      match generateObfuscatedName 20 rng with
      | None => None
      | Some (newName, rng) =>
          if nameExists m newName then freshName fuel' m rng
          else Some (newName, rng)
      end
  end.

(** [func getObfuscatedName(original string) string] *)
Definition getObfuscatedName (fuel : nat) (original : string) (s : State)
  : option (string * State) :=
  match nameMap s !! original with
  | Some existing => Some (existing, s)
  | None =>
      match freshName fuel (nameMap s) (rand s) with
      | None => None
      | Some (newName, rng) =>
          Some (newName, set_nameMap (<[original := newName]> (nameMap s)) rng s)
      end
  end.

(** A run of the allocator over a list of original names. *)
Fixpoint allocateAll (fuel : nat) (names : list string) (s : State) : option State :=
  match names with
  | [] => Some s
  | name :: names' =>
      match getObfuscatedName fuel name s with
      | None => None
      | Some (_, s') => allocateAll fuel names' s'
      end
  end.

(** No two distinct keys share a value. *)
Definition injective_map (m : gmap string string) : Prop :=
  forall a b v, m !! a = Some v -> m !! b = Some v -> a = b.

Definition nameMapInjective (s : State) : Prop := injective_map (nameMap s).

(** ** go/ast

    The part of the syntax tree the passes look at.  Every node kind no
    pass distinguishes (statements, the other expressions and types, field
    lists) is an [NOther] node holding its children in the order
    [ast.Walk] visits them.  Positions, comments and struct tags are left
    out: no pass reads them. *)

(** [ast.ObjKind] *)
Inductive ObjKind := Bad | Pkg | Con | Typ | Var | Fun | Lbl.

(** [ast.Ident]: its name and the kind of the object the parser resolved
    it to ([None] when [Obj] is nil). *)
Record Ident := mkIdent { Name : string; Obj : option ObjKind }.

(** The tokens of a [GenDecl]. *)
Inductive Token := IMPORT | CONST | TYPE | VAR.

#[local] Set Warnings "-register-all".

Inductive Node :=
  | NIdent (id : Ident)
  | NBasicLit (value : string)
  | NSelectorExpr (x : Node) (sel : Ident)
  | NCallExpr (fn : Node) (args : list Node)
  | NStructType (fields : option (list Node))     (* [Fields.List], of [NField] *)
  | NField (names : list Ident) (type : Node)
  | NImportSpec (name : option Ident) (path : string)  (* [Path.Value] *)
  | NTypeSpec (name : Ident) (type : Node)
  | NValueSpec (names : list Ident) (type : option Node) (values : list Node)
  | NGenDecl (tok : Token) (specs : list Node)
  | NFuncDecl (recv : option (list Node)) (name : Ident) (type : Node)
              (body : option Node)
  | NOther (children : list Node).

(** [ast.File] *)
Record File := mkFile { PkgName : Ident; Decls : list Node }.

Definition setName (id : Ident) (name : string) : Ident := mkIdent name (Obj id).

(** Steps that thread a state and may not return. *)
Definition bindS {A B S : Type} (m : option (A * S)) (k : A -> S -> option (B * S))
  : option (B * S) :=
  match m with
  | Some (a, s) => k a s
  | None => None
  end.

Notation "'let*' ( x , s ) := m 'in' k" :=
  (bindS m (fun x s => k))
  (at level 10, x name, s name, m at level 100, k at level 200, only parsing).

Fixpoint mapS {A S : Type} (g : A -> S -> option (A * S)) (l : list A) (s : S)
  : option (list A * S) :=
  match l with
  | [] => Some ([], s)
  | a :: l' =>
      let* (a, s) := g a s in
      let* (l', s) := mapS g l' s in
      Some (a :: l', s)
  end.

Definition optS {A S : Type} (g : A -> S -> option (A * S)) (o : option A) (s : S)
  : option (option A * S) :=
  match o with
  | None => Some (None, s)
  | Some a => let* (a, s) := g a s in Some (Some a, s)
  end.

Definition as_ident (n : Node) (d : Ident) : Ident :=
  match n with
  | NIdent id => id
  | _ => d
  end.

(** [ast.Inspect(node, f)] for a function [f] that always returns [true]:
    [f] is called on the node, then on its children in the order of
    [ast.Walk], depth first.  [f] works on the node in place; here it
    returns the node as it left it, and the walk goes on into that.
    [fuel] bounds the depth of the walk. *)
Fixpoint Inspect {S : Type} (f : Node -> S -> option (Node * S)) (fuel : nat)
  (n : Node) (s : S) : option (Node * S) :=
  match fuel with
  | O => None
  | S fuel' =>
      let walk := Inspect f fuel' in
      let walkIdent := fun (id : Ident) (s : S) =>
        let* (n', s) := walk (NIdent id) s in Some (as_ident n' id, s) in
      let* (n, s) := f n s in
      match n with
      | NIdent _ | NBasicLit _ => Some (n, s)
      | NSelectorExpr x sel =>
          let* (x, s) := walk x s in
          let* (sel, s) := walkIdent sel s in
          Some (NSelectorExpr x sel, s)
      | NCallExpr fn args =>
          let* (fn, s) := walk fn s in
          let* (args, s) := mapS walk args s in
          Some (NCallExpr fn args, s)
      | NStructType fields =>
          let* (fields, s) := optS (mapS walk) fields s in
          Some (NStructType fields, s)
      | NField names type =>
          let* (names, s) := mapS walkIdent names s in
          let* (type, s) := walk type s in
          Some (NField names type, s)
      | NImportSpec name path =>
          let* (name, s) := optS walkIdent name s in
          Some (NImportSpec name path, s)
      | NTypeSpec name type =>
          let* (name, s) := walkIdent name s in
          let* (type, s) := walk type s in
          Some (NTypeSpec name type, s)
      | NValueSpec names type values =>
          let* (names, s) := mapS walkIdent names s in
          let* (type, s) := optS walk type s in
          let* (values, s) := mapS walk values s in
          Some (NValueSpec names type values, s)
      | NGenDecl tok specs =>
          let* (specs, s) := mapS walk specs s in
          Some (NGenDecl tok specs, s)
      | NFuncDecl recv name type body =>
          let* (recv, s) := optS (mapS walk) recv s in
          let* (name, s) := walkIdent name s in
          let* (type, s) := walk type s in
          let* (body, s) := optS walk body s in
          Some (NFuncDecl recv name type body, s)
      | NOther children =>
          let* (children, s) := mapS walk children s in
          Some (NOther children, s)
      end
  end.

(** [ast.Inspect(o.file, f)]: the package name, then the declarations. *)
Definition InspectFile {S : Type} (f : Node -> S -> option (Node * S)) (fuel : nat)
  (file : File) (s : S) : option (File * S) :=
  let* (pkg, s) := Inspect f fuel (NIdent (PkgName file)) s in
  let* (decls, s) := mapS (Inspect f fuel) (Decls file) s in
  Some (mkFile (as_ident pkg (PkgName file)) decls, s).

(** ** strings, continued *)

(** [strings.TrimLeft(s, cutset)] and [strings.TrimRight(s, cutset)] for a
    cutset given as the set of its characters *)
Fixpoint TrimLeft (s : string) (cutset : ascii -> bool) : string :=
  match s with
  | EmptyString => EmptyString
  | String a s' => if cutset a then TrimLeft s' cutset else s
  end.

Fixpoint TrimRight (s : string) (cutset : ascii -> bool) : string :=
  match s with
  | EmptyString => EmptyString
  | String a s' =>
      match TrimRight s' cutset with
      | EmptyString => if cutset a then EmptyString else String a EmptyString
      | t => String a t
      end
  end.

(** [strings.Trim(s, cutset)] *)
Definition Trim (s : string) (cutset : ascii -> bool) : string :=
  TrimRight (TrimLeft s cutset) cutset.

(** [strings.Split(s, sep)] for a separator of one byte, which is what the
    program passes (a slash, a line feed): the pieces between the
    separators, at least one. *)
Fixpoint Split (s : string) (sep : ascii) : list string :=
  match s with
  | EmptyString => [EmptyString]
  | String a s' =>
      if Ascii.eqb a sep then EmptyString :: Split s' sep
      else match Split s' sep with
           | piece :: pieces => String a piece :: pieces
           | [] => [String a EmptyString]
           end
  end.

(** [strings.Join] with a separator of one byte *)
Definition JoinSep (elems : list string) (sep : ascii) : string :=
  Join elems (String sep EmptyString).

(** ** COLLECTION PASSES *)

(** The result of a visitor that leaves node and state as they are. *)
Definition keep {S : Type} (n : Node) (s : S) : option (Node * S) := Some (n, s).

(** [func (o *Obfuscator) collectTypeNames()] *)
Definition collectTypeNames (fuel : nat) (file : File) (s : State) : option (File * State) :=
  InspectFile (fun n s =>
    match n with
    | NTypeSpec name _ => Some (n, set_typeNames ({[Name name]} ∪ typeNames s) s)
    | _ => keep n s
    end) fuel file s.

(** [func (o *Obfuscator) collectDeclaredFunctions()] *)
Definition collectDeclaredFunctions (fuel : nat) (file : File) (s : State)
  : option (File * State) :=
  InspectFile (fun n s =>
    match n with
    | NFuncDecl recv fname _ _ =>
        let name := Name fname in
        if String.eqb name "main" || String.eqb name "init" then keep n s
        else match recv with
             | None => Some (n, set_declaredFuncs ({[name]} ∪ declaredFuncs s) s)
             | Some _ => Some (n, set_declaredMethods ({[name]} ∪ declaredMethods s) s)
             end
    | _ => keep n s
    end) fuel file s.

(** The names of the fields of a struct type, in order. *)
Definition fieldListNames (fields : list Node) : list string :=
  flat_map (fun field =>
              match field with
              | NField names _ => map Name names
              | _ => []
              end) fields.

(** [func (o *Obfuscator) collectStructFields()] *)
Definition collectStructFields (fuel : nat) (file : File) (s : State)
  : option (File * State) :=
  InspectFile (fun n s =>
    match n with
    | NStructType (Some fields) =>
        Some (n, fold_left (fun s name =>
                              if reserved name then s
                              else set_structFields ({[name]} ∪ structFields s) s)
                           (fieldListNames fields) s)
    | _ => keep n s
    end) fuel file s.

(** [func (o *Obfuscator) collectStructTypes()] *)
Definition collectStructTypes (fuel : nat) (file : File) (s : State)
  : option (File * State) :=
  InspectFile (fun n s =>
    match n with
    | NTypeSpec name type =>
        let originalName := Name name in
        match type with
        | NStructType _ =>
            let* (obfuscatedName, s) := getObfuscatedName fuel originalName s in
            let s := set_structTypes ({[originalName]} ∪ structTypes s) s in
            Some (n, set_structTypeMapping
                       (<[originalName := obfuscatedName]> (structTypeMapping s)) s)
        | _ =>
            let* (obfuscatedName, s) := getObfuscatedName fuel originalName s in
            Some (n, set_typeAliasMapping
                       (<[originalName := obfuscatedName]> (typeAliasMapping s)) s)
        end
    | _ => keep n s
    end) fuel file s.

(** ** OBFUSCATION PASSES *)

(** [func (o *Obfuscator) obfuscateConsts()] *)
Definition obfuscateConsts (fuel : nat) (file : File) (s : State) : option (File * State) :=
  InspectFile (fun n s =>
    match n with
    | NGenDecl CONST specs => Some (NGenDecl VAR specs, s)
    | _ => keep n s
    end) fuel file s.

(** The last segment of an import path: the path value with its quotes
    trimmed ([strings.Trim]), split at the slashes ([strings.Split]), and
    the last of the parts. *)
Definition importBaseName (pathValue : string) : string :=
  let path := Trim pathValue (Ascii.eqb dquote) in
  let parts := Split path "/" in
  List.last parts "".

(** The body of the inner loop of [obfuscateImports]. *)
Definition obfuscateImportSpec (fuel : nat) (spec : Node) (s : State)
  : option (Node * State) :=
  match spec with
  | NImportSpec _ path =>
      let baseName := importBaseName path in
      let* (alias, s) := getObfuscatedName fuel baseName s in
      let s := set_importAliases (<[baseName := alias]> (importAliases s)) s in
      Some (NImportSpec (Some (mkIdent alias None)) path, s)
  | _ => keep spec s
  end.

(** The body of the outer loop of [obfuscateImports]. *)
Definition obfuscateImportDecl (fuel : nat) (decl : Node) (s : State)
  : option (Node * State) :=
  match decl with
  | NGenDecl IMPORT specs =>
      let* (specs, s) := mapS (obfuscateImportSpec fuel) specs s in
      Some (NGenDecl IMPORT specs, s)
  | _ => keep decl s
  end.

(** [func (o *Obfuscator) obfuscateImports()] *)
Definition obfuscateImports (cfg : Config) (fuel : nat) (file : File) (s : State)
  : option (File * State) :=
  if noImports cfg then Some (file, s)
  else
    let* (decls, s) := mapS (obfuscateImportDecl fuel) (Decls file) s in
    Some (mkFile (PkgName file) decls, s).

(** [func (o *Obfuscator) updateImportReferences()] *)
Definition updateImportReferences (cfg : Config) (fuel : nat) (file : File) (s : State)
  : option (File * State) :=
  if noImports cfg then Some (file, s)
  else
    InspectFile (fun n s =>
      match n with
      | NSelectorExpr (NIdent ident) sel =>
          match importAliases s !! Name ident with
          | Some alias => Some (NSelectorExpr (NIdent (setName ident alias)) sel, s)
          | None => keep n s
          end
      | _ => keep n s
      end) fuel file s.

(** The visitor of the second walk of [obfuscateStructTypes]. *)
Definition renameTypeIdent (fieldNameSet : gset string) (s : State) (ident : Ident) : Ident :=
  if bool_decide (Name ident ∈ fieldNameSet) then ident
  else
    let ident :=
      match structTypeMapping s !! Name ident with
      | Some obfuscated => setName ident obfuscated
      | None => ident
      end in
    match typeAliasMapping s !! Name ident with
    | Some obfuscated => setName ident obfuscated
    | None => ident
    end.

(** The first walk of [obfuscateStructTypes]: the local [fieldNameSet]. *)
Definition collectFieldNameSet (fuel : nat) (file : File) : option (File * gset string) :=
  InspectFile (fun n (fieldNameSet : gset string) =>
    match n with
    | NStructType (Some fields) =>
        Some (n, list_to_set (fieldListNames fields) ∪ fieldNameSet)
    | _ => keep n fieldNameSet
    end) fuel file ∅.

(** [func (o *Obfuscator) obfuscateStructTypes()] *)
Definition obfuscateStructTypes (fuel : nat) (file : File) (s : State)
  : option (File * State) :=
  match collectFieldNameSet fuel file with
  | None => None
  | Some (_, fieldNameSet) =>
      InspectFile (fun n s =>
        match n with
        | NIdent ident => Some (NIdent (renameTypeIdent fieldNameSet s ident), s)
        | _ => keep n s
        end) fuel file s
  end.

(** The names of a [ValueSpec] that count as package variables. *)
Definition valueSpecVars (spec : Node) : list string :=
  match spec with
  | NValueSpec names _ _ =>
      List.filter (fun name => negb (String.eqb name "_") && negb (reserved name))
                  (map Name names)
  | _ => []
  end.

(** The first loop of [obfuscateVariables]: [packageVars]. *)
Definition packageVarNames (decls : list Node) : gset string :=
  list_to_set
    (flat_map (fun decl =>
                 match decl with
                 | NGenDecl VAR specs => flat_map valueSpecVars specs
                 | _ => []
                 end) decls).

(** The visitor of [obfuscateVariables]. *)
Definition renameVariable (fuel : nat) (packageVars : gset string) (n : Node) (s : State)
  : option (Node * State) :=
  match n with
  | NIdent ident =>
      let name := Name ident in
      if reserved name || bool_decide (name ∈ structTypes s)
         || bool_decide (name ∈ structFields s) then keep n s
      else if bool_decide (is_Some (typeAliasMapping s !! name)) then keep n s
      else if bool_decide (name ∈ packageVars) then
        let* (obfuscated, s) := getObfuscatedName fuel name s in
        Some (NIdent (setName ident obfuscated), s)
      else
        match Obj ident with
        | Some Var =>
            if negb (String.eqb name "_") then
              let* (obfuscated, s) := getObfuscatedName fuel name s in
              Some (NIdent (setName ident obfuscated), s)
            else keep n s
        | _ => keep n s
        end
  | _ => keep n s
  end.

(** [func (o *Obfuscator) obfuscateVariables()] *)
Definition obfuscateVariables (cfg : Config) (fuel : nat) (file : File) (s : State)
  : option (File * State) :=
  if noVars cfg then Some (file, s)
  else InspectFile (renameVariable fuel (packageVarNames (Decls file))) fuel file s.

(** The three visitors of [obfuscateFunctions]. *)
Definition renameFuncDecl (fuel : nat) (n : Node) (s : State) : option (Node * State) :=
  match n with
  | NFuncDecl recv fname type body =>
      let name := Name fname in
      if bool_decide (name ∈ declaredFuncs s) || bool_decide (name ∈ declaredMethods s)
      then
        let* (obfuscated, s) := getObfuscatedName fuel name s in
        Some (NFuncDecl recv (setName fname obfuscated) type body, s)
      else keep n s
  | _ => keep n s
  end.

Definition renameCall (fuel : nat) (n : Node) (s : State) : option (Node * State) :=
  match n with
  | NCallExpr (NIdent ident) args =>
      if bool_decide (Name ident ∈ declaredFuncs s) then
        let* (obfuscated, s) := getObfuscatedName fuel (Name ident) s in
        Some (NCallExpr (NIdent (setName ident obfuscated)) args, s)
      else keep n s
  | NCallExpr (NSelectorExpr x sel) args =>
      if bool_decide (Name sel ∈ declaredMethods s) then
        let* (obfuscated, s) := getObfuscatedName fuel (Name sel) s in
        Some (NCallExpr (NSelectorExpr x (setName sel obfuscated)) args, s)
      else keep n s
  | _ => keep n s
  end.

Definition renameSelector (fuel : nat) (n : Node) (s : State) : option (Node * State) :=
  match n with
  | NSelectorExpr x sel =>
      if bool_decide (Name sel ∈ declaredMethods s)
         && negb (bool_decide (Name sel ∈ structFields s)) then
        let* (obfuscated, s) := getObfuscatedName fuel (Name sel) s in
        Some (NSelectorExpr x (setName sel obfuscated), s)
      else keep n s
  | _ => keep n s
  end.

(** [func (o *Obfuscator) obfuscateFunctions()] *)
Definition obfuscateFunctions (cfg : Config) (fuel : nat) (file : File) (s : State)
  : option (File * State) :=
  if noFunctions cfg then Some (file, s)
  else
    let* (file, s) := InspectFile (renameFuncDecl fuel) fuel file s in
    let* (file, s) := InspectFile (renameCall fuel) fuel file s in
    InspectFile (renameSelector fuel) fuel file s.

(** ** MAIN: the collection and tree passes of [main], in its order *)

Definition collect (fuel : nat) (file : File) (s : State) : option (File * State) :=
  let* (file, s) := collectTypeNames fuel file s in
  let* (file, s) := collectDeclaredFunctions fuel file s in
  let* (file, s) := collectStructFields fuel file s in
  collectStructTypes fuel file s.

Definition obfuscateTree (cfg : Config) (fuel : nat) (file : File) (s : State)
  : option (File * State) :=
  let* (file, s) := obfuscateConsts fuel file s in
  let* (file, s) := obfuscateImports cfg fuel file s in
  let* (file, s) := updateImportReferences cfg fuel file s in
  let* (file, s) := obfuscateStructTypes fuel file s in
  let* (file, s) := obfuscateVariables cfg fuel file s in
  obfuscateFunctions cfg fuel file s.

Definition mainTree (cfg : Config) (fuel : nat) (file : File) (rng : Rand)
  : option (File * State) :=
  let* (file, s) := collect fuel file (initState rng) in
  obfuscateTree cfg fuel file s.

(** ** Sample inputs for the examples *)

(** A supply of raw draws: 0, 1, 2, ... *)
Definition draws (n : nat) : Rand := map Z.of_nat (seq 0 n).

Definition allOn : Config := Build_Config false false false false false.
Definition importsOff : Config := Build_Config false false false false true.

Definition ident (name : string) : Ident := mkIdent name None.
Definition identOf (kind : ObjKind) (name : string) : Ident := mkIdent name (Some kind).

(** [package p; type T struct{}; func (t T) String() string { return "x" }] *)
Definition stringerFile : File :=
  mkFile (ident "p")
    [NGenDecl TYPE [NTypeSpec (identOf Typ "T") (NStructType (Some []))];
     NFuncDecl (Some [NField [identOf Var "t"] (NIdent (identOf Typ "T"))])
               (ident "String")
               (NOther [NField [] (NIdent (ident "string"))])
               (Some (NOther [NOther [NBasicLit (quoted "x")]]))].

(** ** The nodes of a tree

    [subnodes n] lists the nodes [ast.Inspect] visits below and including
    [n], in the order it visits them; an identifier held in a field of a
    node is visited as an [NIdent] node. *)

Fixpoint subnodes (n : Node) : list Node :=
  n ::
  match n with
  | NIdent _ | NBasicLit _ => []
  | NSelectorExpr x sel => subnodes x ++ [NIdent sel]
  | NCallExpr fn args => subnodes fn ++ flat_map subnodes args
  | NStructType fields =>
      match fields with
      | Some l => flat_map subnodes l
      | None => []
      end
  | NField names type => map NIdent names ++ subnodes type
  | NImportSpec name _ =>
      match name with
      | Some id => [NIdent id]
      | None => []
      end
  | NTypeSpec name type => NIdent name :: subnodes type
  | NValueSpec names type values =>
      map NIdent names ++
      match type with
      | Some t => subnodes t
      | None => []
      end ++ flat_map subnodes values
  | NGenDecl _ specs => flat_map subnodes specs
  | NFuncDecl recv name type body =>
      match recv with
      | Some l => flat_map subnodes l
      | None => []
      end ++ NIdent name :: subnodes type ++
      match body with
      | Some b => subnodes b
      | None => []
      end
  | NOther children => flat_map subnodes children
  end%list.

Definition fileNodes (file : File) : list Node :=
  (NIdent (PkgName file) :: flat_map subnodes (Decls file))%list.

(** The identifiers of a tree, in the order of the walk. *)
Definition identsOf (nodes : list Node) : list Ident :=
  flat_map (fun n => match n with NIdent id => [id] | _ => [] end) nodes.

Definition fileIdents (file : File) : list Ident := identsOf (fileNodes file).

(** The depth of a tree, which bounds the fuel a walk needs. *)
Fixpoint depth (n : Node) : nat :=
  match n with
  | NIdent _ | NBasicLit _ => 0
  | NSelectorExpr x _ => S (depth x)
  | NCallExpr fn args => S (Nat.max (depth fn) (list_max (map depth args)))
  | NStructType fields =>
      S (match fields with
         | Some l => list_max (map depth l)
         | None => 0
         end)
  | NField _ type => S (depth type)
  | NImportSpec _ _ => 1
  | NTypeSpec _ type => S (depth type)
  | NValueSpec _ type values =>
      S (Nat.max (match type with Some t => depth t | None => 0 end)
                 (list_max (map depth values)))
  | NGenDecl _ specs => S (list_max (map depth specs))
  | NFuncDecl recv _ type body =>
      S (Nat.max (match recv with Some l => list_max (map depth l) | None => 0 end)
                 (Nat.max (depth type)
                          (match body with Some b => depth b | None => 0 end)))
  | NOther children => S (list_max (map depth children))
  end.

Definition fileDepth (file : File) : nat := list_max (map depth (Decls file)).

(** Applying a renaming to every identifier of a tree. *)
Fixpoint mapIdents (g : Ident -> Ident) (n : Node) : Node :=
  match n with
  | NIdent id => NIdent (g id)
  | NBasicLit v => NBasicLit v
  | NSelectorExpr x sel => NSelectorExpr (mapIdents g x) (g sel)
  | NCallExpr fn args => NCallExpr (mapIdents g fn) (map (mapIdents g) args)
  | NStructType fields => NStructType (option_map (map (mapIdents g)) fields)
  | NField names type => NField (map g names) (mapIdents g type)
  | NImportSpec name path => NImportSpec (option_map g name) path
  | NTypeSpec name type => NTypeSpec (g name) (mapIdents g type)
  | NValueSpec names type values =>
      NValueSpec (map g names) (option_map (mapIdents g) type)
                 (map (mapIdents g) values)
  | NGenDecl tok specs => NGenDecl tok (map (mapIdents g) specs)
  | NFuncDecl recv name type body =>
      NFuncDecl (option_map (map (mapIdents g)) recv) (g name) (mapIdents g type)
                (option_map (mapIdents g) body)
  | NOther children => NOther (map (mapIdents g) children)
  end.

Definition mapFileIdents (g : Ident -> Ident) (file : File) : File :=
  mkFile (g (PkgName file)) (map (mapIdents g) (Decls file)).

(** The field names declared in the struct types of a file: the local
    [fieldNameSet] of [obfuscateStructTypes]. *)
Definition declaredFieldNames (file : File) : gset string :=
  list_to_set
    (flat_map (fun n =>
                 match n with
                 | NStructType (Some fields) => fieldListNames fields
                 | _ => []
                 end) (fileNodes file)).

(** [package p; type T struct{}; type aOOOOOOOOOOOOOOOOOOO int; var v T]:
    a program one of whose type names is spelled like a generated name. *)
Definition chainFile : File :=
  mkFile (ident "p")
    [NGenDecl TYPE [NTypeSpec (identOf Typ "T") (NStructType (Some []))];
     NGenDecl TYPE [NTypeSpec (identOf Typ "aOOOOOOOOOOOOOOOOOOO") (NIdent (ident "int"))];
     NGenDecl VAR [NValueSpec [identOf Var "v"] (Some (NIdent (identOf Typ "T"))) []]].

(** The import specs of the import declarations of a file. *)
Definition importSpecs (file : File) : list Node :=
  flat_map (fun decl =>
              match decl with
              | NGenDecl IMPORT specs => specs
              | _ => []
              end) (Decls file).

(** [package p; import ("text/template"; "html/template"; "os")] *)
Definition templatesFile : File :=
  mkFile (ident "p")
    [NGenDecl IMPORT [NImportSpec None (quoted "text/template");
                      NImportSpec None (quoted "html/template");
                      NImportSpec None (quoted "os")]].

(** The rune literal that holds a double quote: the quote between two
    single quotes. *)
Definition quoteRune : string := String "039" (String dquote (String "039" "")).

(** A raw string literal: the text between two backticks. *)
Definition rawQuoted (s : string) : string := String "096" (s +:+ String "096" "").

(** [package p; import ("html/template"; `text/template`)], the second
    path written as a raw string literal. *)
Definition rawPathFile : File :=
  mkFile (ident "p")
    [NGenDecl IMPORT [NImportSpec None (quoted "html/template");
                      NImportSpec None (rawQuoted "text/template")]].

(** [package p; import ("html/template"; "text/templat\x65")], the second
    path written with an escape for its last letter. *)
Definition escapedPathFile : File :=
  mkFile (ident "p")
    [NGenDecl IMPORT [NImportSpec None (quoted "html/template");
                      NImportSpec None (quoted ("text/templat" +:+ String backslash "x65"))]].

(** The path literals of the import specs of a file, in order. *)
Definition importPaths (file : File) : list string :=
  flat_map (fun spec => match spec with
                        | NImportSpec _ path => [path]
                        | _ => []
                        end) (importSpecs file).

(** The last segment of a path: the text after the last slash of the
    path, and the whole path when it holds no slash.  [afterLastSlash p]
    is that text when [p] holds a slash.  (The pass computes its key
    another way, see [importBaseName].) *)
Fixpoint afterLastSlash (p : string) : option string :=
  match p with
  | EmptyString => None
  | String a p' =>
      match afterLastSlash p' with
      | Some seg => Some seg
      | None => if Ascii.eqb a "/" then Some p' else None
      end
  end.

Definition lastSegment (p : string) : string :=
  match afterLastSlash p with
  | Some seg => seg
  | None => p
  end.

(** A path that a double-quoted literal spells out byte for byte, without
    escapes: it holds neither a double quote nor a backslash, and
    [quoted p] is the literal of [p]. *)
Definition plainPath (p : string) : bool :=
  string_forall (fun a => negb (Ascii.eqb a dquote) && negb (Ascii.eqb a backslash)) p.

(** An import spec carries the alias the maps record for the last segment
    of its path. *)
Definition aliased (s : State) (spec : Node) : Prop :=
  match spec with
  | NImportSpec name path =>
      exists alias,
        name = Some (mkIdent alias None) /\
        nameMap s !! importBaseName path = Some alias /\
        importAliases s !! importBaseName path = Some alias
  | _ => True
  end.

(** The maps only grow: the name map keeps its entries, and so does the
    alias record where it agrees with the name map. *)
Definition grows (s s' : State) : Prop :=
  (forall k x, nameMap s !! k = Some x -> nameMap s' !! k = Some x) /\
  (forall k x, importAliases s !! k = Some x -> nameMap s !! k = Some x ->
               importAliases s' !! k = Some x).

(** The names of the function declarations of a file. *)
Definition funcDeclNames (file : File) : list string :=
  flat_map (fun decl =>
              match decl with
              | NFuncDecl _ name _ _ => [Name name]
              | _ => []
              end) (Decls file).

(** [package p; import foo "os"; var A = foo.Args; func f() { type foo int }] *)
Definition aliasFile : File :=
  mkFile (ident "p")
    [NGenDecl IMPORT [NImportSpec (Some (ident "foo")) (quoted "os")];
     NGenDecl VAR [NValueSpec [identOf Var "A"] None
                              [NSelectorExpr (NIdent (ident "foo")) (ident "Args")]];
     NFuncDecl None (identOf Fun "f") (NOther [])
       (Some (NOther [NOther [NGenDecl TYPE
                                [NTypeSpec (identOf Typ "foo") (NIdent (ident "int"))]]]))].

(** The tree passes other than the two import passes, in the order of
    [main]. *)
Definition obfuscateTreeNoImports (cfg : Config) (fuel : nat) (file : File) (s : State)
  : option (File * State) :=
  let* (file, s) := obfuscateConsts fuel file s in
  let* (file, s) := obfuscateStructTypes fuel file s in
  let* (file, s) := obfuscateVariables cfg fuel file s in
  obfuscateFunctions cfg fuel file s.

(** A configuration with another value of the import toggle. *)
Definition withNoImports (b : bool) (cfg : Config) : Config :=
  Build_Config (noInts cfg) (noStrings cfg) (noVars cfg) (noFunctions cfg) b.

(** ** unicode, strings and strconv for the text sweeps *)

(** [unicode.IsSpace] *)
Definition IsSpace (r : Z) : bool :=
  if r <=? 255 then
    (r =? 9) || (r =? 10) || (r =? 11) || (r =? 12) || (r =? 13) || (r =? 32)
    || (r =? 133) || (r =? 160)
  else
    (r =? 5760) || ((8192 <=? r) && (r <=? 8202)) || (r =? 8232) || (r =? 8233)
    || (r =? 8239) || (r =? 8287) || (r =? 12288).

(** Leading white space removed, rune by rune. *)
Fixpoint trimLeftSpace (fuel : nat) (s : string) : string :=
  match fuel with
  | O => s
  | S fuel' =>
      match DecodeRuneInString s with
      | Some (r, _, rest) => if IsSpace r then trimLeftSpace fuel' rest else s
      | None => s
      end
  end.

(** Trailing white space removed.  Go decodes backwards from the end of
    the string; on valid UTF-8, which rendered source is, the runes are the
    ones met decoding forwards. *)
Fixpoint trimRightSpace (fuel : nat) (s : string) : string :=
  match fuel with
  | O => s
  | S fuel' =>
      match DecodeRuneInString s with
      | Some (r, size, rest) =>
          match trimRightSpace fuel' rest with
          | EmptyString => if IsSpace r then EmptyString else take (Z.to_nat size) s
          | t => take (Z.to_nat size) s +:+ t
          end
      | None => EmptyString
      end
  end.

(** [strings.TrimSpace(s)] *)
Definition TrimSpace (s : string) : string :=
  let t := trimLeftSpace (String.length s) s in
  trimRightSpace (String.length t) t.

(** The offset of the first byte [c] in [s]. *)
Fixpoint IndexByte (s : string) (c : ascii) : option nat :=
  match s with
  | EmptyString => None
  | String a s' =>
      if Ascii.eqb a c then Some O
      else match IndexByte s' c with
           | Some i => Some (S i)
           | None => None
           end
  end.

Definition containsByte (s : string) (c : ascii) : bool :=
  match IndexByte s c with
  | Some _ => true
  | None => false
  end.

(** [unhex] *)
Definition unhex (b : ascii) : option Z :=
  let c := byteZ b in
  if (48 <=? c) && (c <=? 57) then Some (c - 48)
  else if (97 <=? c) && (c <=? 102) then Some (c - 97 + 10)
  else if (65 <=? c) && (c <=? 70) then Some (c - 65 + 10)
  else None.

(** The value of the first [n] bytes of [s] read as hexadecimal digits,
    on top of [v], and the rest of [s]. *)
Fixpoint unhexN (n : nat) (v : Z) (s : string) : option (Z * string) :=
  match n with
  | O => Some (v, s)
  | S n' =>
      match s with
      | EmptyString => None
      | String b s' =>
          match unhex b with
          | Some x => unhexN n' (Z.lor (Z.shiftl v 4) x) s'
          | None => None
          end
      end
  end.

(** Two more octal digits on top of [v]. *)
Fixpoint unoctN (n : nat) (v : Z) (s : string) : option (Z * string) :=
  match n with
  | O => Some (v, s)
  | S n' =>
      match s with
      | EmptyString => None
      | String b s' =>
          let x := byteZ b - 48 in
          if (x <? 0) || (7 <? x) then None
          else unoctN n' (Z.lor (Z.shiftl v 3) x) s'
      end
  end.

(** [utf8.ValidRune] *)
Definition ValidRune (r : Z) : bool :=
  ((0 <=? r) && (r <? surrogateMin)) || ((surrogateMax <? r) && (r <=? MaxRune)).

(** [strconv.UnquoteChar(s, quote)] for the double quote: the value, the
    multibyte flag and the tail; [None] is [ErrSyntax]. *)
Definition UnquoteChar (s : string) : option (Z * bool * string) :=
  match s with
  | EmptyString => None
  | String c0 s1 =>
      if Ascii.eqb c0 dquote then None
      else if RuneSelf <=? byteZ c0 then
        match DecodeRuneInString s with
        | Some (r, _, rest) => Some (r, true, rest)
        | None => None
        end
      else if negb (Ascii.eqb c0 backslash) then Some (byteZ c0, false, s1)
      else
        match s1 with
        | EmptyString => None
        | String c s2 =>
            let simple (v : Z) := Some (v, false, s2) in
            match c with
            | "a"%char => simple 7 | "b"%char => simple 8 | "f"%char => simple 12
            | "n"%char => simple 10 | "r"%char => simple 13 | "t"%char => simple 9
            | "v"%char => simple 11
            | "x"%char =>
                match unhexN 2 0 s2 with
                | Some (v, rest) => Some (v, false, rest)
                | None => None
                end
            | "u"%char =>
                match unhexN 4 0 s2 with
                | Some (v, rest) => if ValidRune v then Some (v, true, rest) else None
                | None => None
                end
            | "U"%char =>
                match unhexN 8 0 s2 with
                | Some (v, rest) => if ValidRune v then Some (v, true, rest) else None
                | None => None
                end
            | "0"%char | "1"%char | "2"%char | "3"%char
            | "4"%char | "5"%char | "6"%char | "7"%char =>
                match unoctN 2 (byteZ c - 48) s2 with
                | Some (v, rest) => if 255 <? v then None else Some (v, false, rest)
                | None => None
                end
            | "092"%char => simple 92
            | "034"%char => simple 34
            | _ => None
            end
        end
  end.

(** The loop of [unquote] over the characters after the opening quote, up
    to and including the terminating quote; the result is the buffer and
    what follows the terminating quote. *)
Fixpoint unquoteLoop (fuel : nat) (s : string) : option (string * string) :=
  match fuel with
  | O => None
  | S fuel' =>
      match s with
      | EmptyString => None
      | String c rest =>
          if Ascii.eqb c dquote then Some (EmptyString, rest)
          else if Ascii.eqb c newline then None
          else
            match UnquoteChar s with
            | None => None
            | Some (r, multibyte, rem) =>
                match unquoteLoop fuel' rem with
                | None => None
                | Some (buf, after) =>
                    if (r <? RuneSelf) || negb multibyte
                    then Some (String (byte_of_Z r) buf, after)
                    else Some (EncodeRune r +:+ buf, after)
                end
            end
      end
  end.

(** [strconv.Unquote(s)] for a double-quoted literal, the only kind the
    string sweep passes; [None] is an error. *)
Definition Unquote (s : string) : option string :=
  match s with
  | String q in1 =>
      if negb (Ascii.eqb q dquote) then None
      else
        match IndexByte in1 dquote with
        | None => None
        | Some e =>
            let inner := take e in1 in
            if negb (containsByte inner backslash) && negb (containsByte inner newline)
               && ValidString inner
            then
              match drop (S e) in1 with
              | EmptyString => Some inner
              | _ => None
              end
            else
              match unquoteLoop (S (String.length in1)) in1 with
              | Some (buf, EmptyString) => Some buf
              | _ => None
              end
        end
  | EmptyString => None
  end.

(** [strconv.ParseInt(s, 10, 64)] on a string of decimal digits, which is
    what the integer sweep passes: [None] when the value exceeds the int64
    range. *)
Definition ParseInt (s : string) : option Z :=
  match scan_dec s with
  | (Decimal.Nil, _) => None
  | (d, EmptyString) =>
      let n := Z.of_uint d in
      if MaxInt64 <? n then None else Some n
  | _ => None
  end.

(** The value Go gives an integer literal written with digits only (The
    Go Programming Language Specification, Integer literals): a literal
    that starts with [0] and goes on is octal and holds octal digits only;
    any other is decimal. *)
Definition oct_digit (a : ascii) : option Z :=
  if (48 <=? byteZ a) && (byteZ a <=? 55) then Some (byteZ a - 48) else None.

Fixpoint octal_value (s : string) (acc : Z) : option Z :=
  match s with
  | EmptyString => Some acc
  | String a s' =>
      match oct_digit a with
      | Some d => octal_value s' (8 * acc + d)
      | None => None
      end
  end.

Definition leadingZero (digits : string) : bool :=
  match digits with
  | String "0" (String _ _) => true
  | _ => false
  end.

Definition goIntLit (digits : string) : option Z :=
  if leadingZero digits then octal_value digits 0
  else
    match scan_dec digits with
    | (Decimal.Nil, _) => None
    | (d, EmptyString) => Some (Z.of_uint d)
    | _ => None
    end.

(** [re.ReplaceAllStringFunc(src, repl)] for a replacement function that
    threads a state: the successive non-overlapping matches are replaced by
    what [repl] returns for them.  The patterns of this program never match
    the empty string; an empty match ends the replacement here. *)
Fixpoint replaceAll {S : Type} (fuel : nat) (r : regex)
  (repl : string -> S -> string * S) (src : string) (st : S) : string * S :=
  match fuel with
  | O => (src, st)
  | S fuel' =>
      match find_first r src with
      | None => (src, st)
      | Some (i, n) =>
          let before := take i src in
          let m := take n (drop i src) in
          let rest := drop (i + n) src in
          let '(m', st) := repl m st in
          match n with
          | O => (before +:+ (m' +:+ rest), st)
          | S _ =>
              let '(rest', st) := replaceAll fuel' r repl rest st in
              (before +:+ (m' +:+ rest'), st)
          end
      end
  end.

Definition ReplaceAllStringFunc {S : Type} (r : regex)
  (repl : string -> S -> string * S) (src : string) (st : S) : string * S :=
  replaceAll (String.length src) r repl src st.

(** [re.MatchString(s)] for a pattern anchored at both ends: the whole
    string matches. *)
Definition MatchWhole (r : regex) (s : string) : bool :=
  match match_re r s (fun rest => if String.eqb rest "" then Some tt else None) with
  | Some _ => true
  | None => false
  end.

(** [re.FindString(s)]: the text of the leftmost match, or the empty
    string. *)
Definition FindString (r : regex) (s : string) : string :=
  match find_first r s with
  | Some (i, n) => take n (drop i s)
  | None => EmptyString
  end.

(** ** TEXT-BASED OBFUSCATION *)

(** The class [\s] of Go regular expressions: tab, line feed, form feed,
    carriage return, space. *)
Definition reSpace (a : ascii) : bool :=
  Ascii.eqb a "009" || Ascii.eqb a "010" || Ascii.eqb a "012" || Ascii.eqb a "013"
  || Ascii.eqb a " ".

(** The pattern of a double-quoted literal: a quote, then characters other
    than quote and backslash or a backslash followed by any character but a
    line feed, then a quote. *)
Definition stringLitRe : regex :=
  RSeq (RByte dquote)
  (RSeq (RStar (RAlt (RClass (fun a => negb (Ascii.eqb a dquote)
                                       && negb (Ascii.eqb a backslash)))
                     (RSeq (RByte backslash)
                           (RClass (fun a => negb (Ascii.eqb a newline))))))
        (RByte dquote)).

(** [typeAliasPattern]: white space, a word, white space, a word, an equals
    sign and one double-quoted literal without quotes inside, with optional
    white space around them; anchored at both ends. *)
Definition typeAliasPattern : regex :=
  let word := RPlus (RClass (fun a => negb (reSpace a))) in
  let sp := RStar (RClass reSpace) in
  RSeq sp (RSeq word (RSeq (RPlus (RClass reSpace)) (RSeq word (RSeq sp
  (RSeq (RByte "=") (RSeq sp (RSeq (RByte dquote)
  (RSeq (RStar (RClass (fun a => negb (Ascii.eqb a dquote))))
  (RSeq (RByte dquote) sp))))))))).

(** The replacement function of the string sweep, for one match.  (The
    counter it increments is only printed.) *)
Definition obfuscateLiteral (isVarAssignment : bool) (m : string) (rng : Rand)
  : string * Rand :=
  match Unquote m with
  | None => (m, rng)
  | Some s =>
      if len s <? 3 then (m, rng)
      else if Contains s (String backslash "") then (m, rng)
      else if Contains s "://" && negb isVarAssignment then (m, rng)
      else if Contains s "%" then obfuscateFormatString s rng
      else obfuscateStringLiteral s rng
  end.

(** The lines the string sweep passes over for what they contain. *)
Definition skipStringLine (line trimmed : string) : bool :=
  HasPrefix trimmed "const " ||
  HasPrefix trimmed "case " ||
  HasPrefix trimmed "Set(" ||
  HasPrefix trimmed ".Set(" ||
  Contains line ".Set(" ||
  Contains line "`json:" ||
  Contains line "`xml:" ||
  Contains line "`yaml:" ||
  Contains line "Flag" ||
  Contains line "flag." ||
  Contains line "launcher.".

(** [isVarAssignment] *)
Definition isVarAssignment (line : string) : bool :=
  Contains line "=" && negb (Contains line "==") && negb (Contains line "!=")
  && negb (Contains line "(").

(** The loop of [obfuscateStringsInText] over the lines. *)
Fixpoint stringLines (lines : list string) (inImportBlock : bool) (rng : Rand)
  : list string * Rand :=
  match lines with
  | [] => ([], rng)
  | line :: lines' =>
      let trimmed := TrimSpace line in
      if HasPrefix trimmed "import (" then
        let '(out, rng) := stringLines lines' true rng in (line :: out, rng)
      else if inImportBlock && String.eqb trimmed ")" then
        let '(out, rng) := stringLines lines' false rng in (line :: out, rng)
      else if inImportBlock || HasPrefix trimmed "import " then
        let '(out, rng) := stringLines lines' inImportBlock rng in (line :: out, rng)
      else if skipStringLine line trimmed then
        let '(out, rng) := stringLines lines' inImportBlock rng in (line :: out, rng)
      else if MatchWhole typeAliasPattern line then
        let '(out, rng) := stringLines lines' inImportBlock rng in (line :: out, rng)
      else
        let '(line', rng) :=
          ReplaceAllStringFunc stringLitRe (obfuscateLiteral (isVarAssignment line))
                               line rng in
        let '(out, rng) := stringLines lines' inImportBlock rng in
        (line' :: out, rng)
  end.

(** [func obfuscateStringsInText(content string) string] *)
Definition obfuscateStringsInText (cfg : Config) (content : string) (rng : Rand)
  : string * Rand :=
  if noStrings cfg then (content, rng)
  else
    let '(lines, rng) := stringLines (Split content newline) false rng in
    (JoinSep lines newline, rng).

(** The pattern of an integer token: a separator (white space or one of
    the characters in [(=:,]), digits, a separator (white space or one of
    the characters in [),;]] and the closing bracket). *)
Definition intTokenRe : regex :=
  RSeq (RClass (fun a => reSpace a || one_of "(=:," a))
  (RSeq (RPlus (RClass is_digit))
        (RClass (fun a => reSpace a || one_of "),;]" a))).

(** [numRe]: one digit or more *)
Definition numRe : regex := RPlus (RClass is_digit).

(** The replacement function of the integer sweep, for one match. *)
Definition obfuscateIntToken (m : string) (rng : Rand) : string * Rand :=
  let numStr := FindString numRe m in
  match ParseInt numStr with
  | None => (m, rng)
  | Some n =>
      if (n <=? 10) || (100000 <? n) then (m, rng)
      else
        let prefix := slice m 0 1 in
        let suffix := slice m (len m - 1) (len m) in
        let '(e, rng) := obfuscateInteger n rng in
        (prefix +:+ (e +:+ suffix), rng)
  end.

(** The lines the integer sweep passes over: the ones with a quoting
    character or a string conversion, and the declaration headers. *)
Definition hasQuoting (line : string) : bool :=
  Contains line "string(" ||
  Contains line (String dquote "") ||
  Contains line "`" ||
  Contains line "'".

Definition isHeaderLine (line : string) : bool :=
  let trimmed := TrimSpace line in
  HasPrefix trimmed "func " ||
  Contains line "func (" ||
  HasPrefix trimmed "import" ||
  HasPrefix trimmed "package" ||
  HasPrefix trimmed "type " ||
  HasPrefix trimmed "const " ||
  HasPrefix trimmed "var ".

(** The loop of [obfuscateIntegersInText] over the lines. *)
Fixpoint intLines (lines : list string) (rng : Rand) : list string * Rand :=
  match lines with
  | [] => ([], rng)
  | line :: lines' =>
      if hasQuoting line then
        let '(out, rng) := intLines lines' rng in (line :: out, rng)
      else if isHeaderLine line then
        let '(out, rng) := intLines lines' rng in (line :: out, rng)
      else
        let '(line', rng) := ReplaceAllStringFunc intTokenRe obfuscateIntToken line rng in
        let '(out, rng) := intLines lines' rng in
        (line' :: out, rng)
  end.

(** [func obfuscateIntegersInText(content string) string] *)
Definition obfuscateIntegersInText (cfg : Config) (content : string) (rng : Rand)
  : string * Rand :=
  if noInts cfg then (content, rng)
  else
    let '(lines, rng) := intLines (Split content newline) rng in
    (JoinSep lines newline, rng).

(** A tab, for the sample lines. *)
Definition tab : string := String "009" "".

(** The successive matches of a pattern in a text, each with the text in
    front of it, and the text after the last match. *)
Fixpoint segments (fuel : nat) (r : regex) (src : string)
  : list (string * string) * string :=
  match fuel with
  | O => ([], src)
  | S fuel' =>
      match find_first r src with
      | None => ([], src)
      | Some (i, n) =>
          let before := take i src in
          let m := take n (drop i src) in
          let rest := drop (i + n) src in
          match n with
          | O => ([(before, m)], rest)
          | S _ =>
              let '(segs, tail) := segments fuel' r rest in
              ((before, m) :: segs, tail)
          end
      end
  end.

(** The text rebuilt from its segments with every match replaced. *)
Fixpoint rebuild {S : Type} (repl : string -> S -> string * S)
  (segs : list (string * string)) (tail : string) (st : S) : string * S :=
  match segs with
  | [] => (tail, st)
  | (before, m) :: segs' =>
      let '(m', st) := repl m st in
      let '(out, st) := rebuild repl segs' tail st in
      (before +:+ (m' +:+ out), st)
  end.

(** The text rebuilt from its segments with the matches replaced by the
    texts [outs], in order. *)
Fixpoint assemble (segs : list (string * string)) (outs : list string) (tail : string)
  : string :=
  match segs, outs with
  | (before, _) :: segs', out :: outs' => before +:+ (out +:+ assemble segs' outs' tail)
  | _, _ => tail
  end.

(** What the integer sweep may put in the place of a token [m], where [n]
    is the number the digits of the token spell in base 10
    ([strconv.ParseInt(numStr, 10, 64)]): the token itself, or, when
    [10 < n <= 100000], the separators of the token around an encoding of
    [n] that evaluates to [n]; a token whose [n] is outside these bounds,
    or whose digits do not parse, stays. *)
Definition intTokenGate (m out : string) : Prop :=
  (out = m \/
   exists n rng,
     ParseInt (FindString numRe m) = Some n /\ 10 < n <= 100000 /\
     out = slice m 0 1 +:+ ((obfuscateInteger n rng).1 +:+ slice m (len m - 1) (len m)) /\
     eval_int_text (obfuscateInteger n rng).1 = Some n) /\
  (forall n, ParseInt (FindString numRe m) = Some n -> n <= 10 \/ 100000 < n -> out = m) /\
  (ParseInt (FindString numRe m) = None -> out = m).

(** A line of the text before and after the integer sweep. *)
Definition intLineGate (line line' : string) : Prop :=
  (hasQuoting line = true -> line' = line) /\
  exists outs,
    Forall2 (fun seg out => intTokenGate seg.2 out)
            (segments (String.length line) intTokenRe line).1 outs /\
    line' = assemble (segments (String.length line) intTokenRe line).1 outs
                     (segments (String.length line) intTokenRe line).2.

(** The gate on a token whose digits have no leading zero, with [n] the
    value Go gives the literal: the token stays, or, only when
    [10 < n <= 100000], it is replaced by its separators around an encoding
    that evaluates to [n]; a token with [n <= 10] or [n > 100000] stays. *)
Definition intValueGate (m out : string) : Prop :=
  leadingZero (FindString numRe m) = false ->
  forall n, goIntLit (FindString numRe m) = Some n ->
    (out = m \/
     (10 < n <= 100000 /\
      exists rng,
        out = slice m 0 1 +:+ ((obfuscateInteger n rng).1
                               +:+ slice m (len m - 1) (len m)) /\
        eval_int_text (obfuscateInteger n rng).1 = Some n)) /\
    (n <= 10 \/ 100000 < n -> out = m).

(** A line of the text before and after the integer sweep, token by
    token: each token by the base-10 reading of its digits, which is what
    the sweep tests, and, when it has no leading zero, by its value. *)
Definition intSweepLine (line line' : string) : Prop :=
  (hasQuoting line = true -> line' = line) /\
  exists outs,
    Forall2 (fun seg out => intTokenGate seg.2 out /\ intValueGate seg.2 out)
            (segments (String.length line) intTokenRe line).1 outs /\
    line' = assemble (segments (String.length line) intTokenRe line).1 outs
                     (segments (String.length line) intTokenRe line).2.

(** The literals the string sweep leaves alone, by their unquoted value:
    shorter than 3 bytes, containing a backslash, or containing [://]
    outside a plain assignment. *)
Definition excludedValue (isVar : bool) (s : string) : bool :=
  (len s <? 3) || Contains s (String backslash "")
  || (Contains s "://" && negb isVar).

(** What the string sweep may put in the place of a match [m] of
    [stringLitRe]. *)
Definition stringLitGate (isVar : bool) (m out : string) : Prop :=
  match Unquote m with
  | None => out = m
  | Some s =>
      if excludedValue isVar s then out = m
      else exists rng,
          out = (if Contains s "%" then obfuscateFormatString s rng
                 else obfuscateStringLiteral s rng).1
  end.

(** The lines the loop of [obfuscateStringsInText] passes over with
    [continue], in order: the import lines, the lines [skipStringLine]
    names and the lines of the shape of [typeAliasPattern]. *)
Fixpoint skippedLines (lines : list string) (inImportBlock : bool) : list bool :=
  match lines with
  | [] => []
  | line :: lines' =>
      let trimmed := TrimSpace line in
      if HasPrefix trimmed "import (" then true :: skippedLines lines' true
      else if inImportBlock && String.eqb trimmed ")" then true :: skippedLines lines' false
      else if inImportBlock || HasPrefix trimmed "import " then
        true :: skippedLines lines' inImportBlock
      else if skipStringLine line trimmed then true :: skippedLines lines' inImportBlock
      else if MatchWhole typeAliasPattern line then true :: skippedLines lines' inImportBlock
      else false :: skippedLines lines' inImportBlock
  end.

(** The lines the string sweep passes over: all of them when the sweep is
    off. *)
Definition stringSweepSkips (cfg : Config) (lines : list string) : list bool :=
  if noStrings cfg then map (fun _ => true) lines else skippedLines lines false.

(** A line of the text before and after the string sweep: left as it is
    when it is passed over, and otherwise scanned from the left for the
    successive matches of [stringLitRe], which do not overlap; each match
    is treated by [stringLitGate] and the text between the matches stays.
    A match is a string literal of the line as long as no double quote
    stands outside the literals (in a rune literal, a raw string or a
    comment); after such a quote a match runs from it to the next quote. *)
Definition stringLineGate (line : string * bool) (line' : string) : Prop :=
  if line.2 then line' = line.1
  else
    exists outs,
      Forall2 (fun seg out => stringLitGate (isVarAssignment line.1) seg.2 out)
              (segments (String.length line.1) stringLitRe line.1).1 outs /\
      line' = assemble (segments (String.length line.1) stringLitRe line.1).1 outs
                       (segments (String.length line.1) stringLitRe line.1).2.

(** ** Texts whose delimiters all belong to literals

    A text given as its literals, each with the text in front of it, and
    the text after the last literal. *)
Fixpoint textOf (parts : list (string * string)) (tail : string) : string :=
  match parts with
  | [] => tail
  | (before, lit) :: parts' => before +:+ (lit +:+ textOf parts' tail)
  end.

Definition noByte (c : ascii) (s : string) : bool :=
  string_forall (fun a => negb (Ascii.eqb a c)) s.

(** [closesLiteral s]: [s] is what follows the opening quote of an
    interpreted string literal: characters other than the double quote,
    the backslash and the line feed, or a backslash and the character it
    escapes, up to the closing quote, with nothing behind it. *)
Fixpoint closesLiteral (s : string) : bool :=
  match s with
  | EmptyString => false
  | String a s' =>
      if Ascii.eqb a dquote then String.eqb s' ""
      else if Ascii.eqb a backslash then
        match s' with
        | String c s'' => negb (Ascii.eqb c newline) && closesLiteral s''
        | EmptyString => false
        end
      else negb (Ascii.eqb a newline) && closesLiteral s'
  end.

(** An interpreted string literal, from its opening to its closing quote. *)
Definition isLiteral (lit : string) : bool :=
  match lit with
  | String a s => Ascii.eqb a dquote && closesLiteral s
  | EmptyString => false
  end.

(** A line all of whose double quotes belong to its string literals: none
    stands in the text between the literals (in a rune literal, a raw
    string or a comment). *)
Definition literalLine (parts : list (string * string)) (tail : string) : bool :=
  forallb (fun p : string * string => noByte dquote p.1 && isLiteral p.2) parts
  && noByte dquote tail.

(** ** What the passes leave alone

    [skeleton n] is [n] with every identifier name erased and a constant
    declaration shown as the variable declaration [obfuscateConsts] turns
    it into; two trees with the same skeleton differ only in the names of
    their identifiers and in [const] against [var]. *)

Definition eraseName (id : Ident) : Ident := mkIdent "" (Obj id).

Definition demote (tok : Token) : Token :=
  match tok with
  | CONST => VAR
  | _ => tok
  end.

Fixpoint skeleton (n : Node) : Node :=
  match n with
  | NIdent id => NIdent (eraseName id)
  | NBasicLit v => NBasicLit v
  | NSelectorExpr x sel => NSelectorExpr (skeleton x) (eraseName sel)
  | NCallExpr fn args => NCallExpr (skeleton fn) (map skeleton args)
  | NStructType fields => NStructType (option_map (map skeleton) fields)
  | NField names type => NField (map eraseName names) (skeleton type)
  | NImportSpec name path => NImportSpec (option_map eraseName name) path
  | NTypeSpec name type => NTypeSpec (eraseName name) (skeleton type)
  | NValueSpec names type values =>
      NValueSpec (map eraseName names) (option_map skeleton type) (map skeleton values)
  | NGenDecl tok specs => NGenDecl (demote tok) (map skeleton specs)
  | NFuncDecl recv name type body =>
      NFuncDecl (option_map (map skeleton) recv) (eraseName name) (skeleton type)
                (option_map skeleton body)
  | NOther children => NOther (map skeleton children)
  end.

Definition skeletonFile (file : File) : File :=
  mkFile (eraseName (PkgName file)) (map skeleton (Decls file)).

(** An import spec without an explicit name: [import "path"]. *)
Definition unaliased (spec : Node) : bool :=
  match spec with
  | NImportSpec None _ => true
  | _ => false
  end.

(** ** Generated names

    [generatedName v]: [v] is a first character taken from [letters]
    followed by 19 characters taken from [obfuscationChars], the shape of
    every value [generateObfuscatedName(20)] returns. *)
Definition generatedName (v : string) : Prop :=
  exists c0 cs,
    v = string_of_runes (c0 :: cs) /\ In c0 letters /\
    List.length cs = 19%nat /\ Forall (fun c => In c obfuscationChars) cs.

(** The replacements of a name map are all generated names, no two of
    them equal. *)
Definition wellFormedNames (m : gmap string string) : Prop :=
  injective_map m /\ forall k v, m !! k = Some v -> generatedName v.

(** ** What the collection passes record

    The names [collectDeclaredFunctions] finds: the function declarations
    without a receiver, and those with one, [main] and [init] left out. *)
Definition isEntryPoint (name : string) : bool :=
  String.eqb name "main" || String.eqb name "init".

Definition declaredFuncNames (nodes : list Node) : list string :=
  flat_map (fun n =>
              match n with
              | NFuncDecl None fname _ _ =>
                  if isEntryPoint (Name fname) then [] else [Name fname]
              | _ => []
              end) nodes.

Definition declaredMethodNames (nodes : list Node) : list string :=
  flat_map (fun n =>
              match n with
              | NFuncDecl (Some _) fname _ _ =>
                  if isEntryPoint (Name fname) then [] else [Name fname]
              | _ => []
              end) nodes.

(** The visitor of [collectDeclaredFunctions] as a change of the state. *)
Definition recordFuncDecl (n : Node) (s : State) : State :=
  match n with
  | NFuncDecl recv fname _ _ =>
      if isEntryPoint (Name fname) then s
      else match recv with
           | None => set_declaredFuncs ({[Name fname]} ∪ declaredFuncs s) s
           | Some _ => set_declaredMethods ({[Name fname]} ∪ declaredMethods s) s
           end
  | _ => s
  end.

(** The visitor of [collectStructFields] as a change of the state. *)
Definition recordStructFields (n : Node) (s : State) : State :=
  match n with
  | NStructType (Some fields) =>
      fold_left (fun s name =>
                   if reserved name then s
                   else set_structFields ({[name]} ∪ structFields s) s)
                (fieldListNames fields) s
  | _ => s
  end.

(** [package p; type T struct { n int; Value string }]: the field [Value]
    has a reserved name. *)
Definition fieldsFile : File :=
  mkFile (ident "p")
    [NGenDecl TYPE
       [NTypeSpec (identOf Typ "T")
          (NStructType (Some [NField [identOf Var "n"] (NIdent (ident "int"));
                              NField [identOf Var "Value"] (NIdent (ident "string"))]))]].

(** ** The replacement tables and the name map

    Every replacement stored in [structTypeMapping], [typeAliasMapping] and
    [importAliases] is the one [nameMap] holds for the same spelling. *)
Definition subMap (m names : gmap string string) : Prop :=
  forall k v, m !! k = Some v -> names !! k = Some v.

Definition tablesAgree (s : State) : Prop :=
  subMap (structTypeMapping s) (nameMap s) /\
  subMap (typeAliasMapping s) (nameMap s) /\
  subMap (importAliases s) (nameMap s).

(** ** The tree after [obfuscateConsts]

    [constsToVars n] is [n] with every [const] declaration turned into a
    [var] declaration. *)
Fixpoint constsToVars (n : Node) : Node :=
  match n with
  | NIdent id => NIdent id
  | NBasicLit v => NBasicLit v
  | NSelectorExpr x sel => NSelectorExpr (constsToVars x) sel
  | NCallExpr fn args => NCallExpr (constsToVars fn) (map constsToVars args)
  | NStructType fields => NStructType (option_map (map constsToVars) fields)
  | NField names type => NField names (constsToVars type)
  | NImportSpec name path => NImportSpec name path
  | NTypeSpec name type => NTypeSpec name (constsToVars type)
  | NValueSpec names type values =>
      NValueSpec names (option_map constsToVars type) (map constsToVars values)
  | NGenDecl tok specs => NGenDecl (demote tok) (map constsToVars specs)
  | NFuncDecl recv name type body =>
      NFuncDecl (option_map (map constsToVars) recv) name (constsToVars type)
                (option_map constsToVars body)
  | NOther children => NOther (map constsToVars children)
  end.

(** The declaration tokens of a tree, in the order of the walk. *)
Definition declTokens (nodes : list Node) : list Token :=
  flat_map (fun n => match n with NGenDecl tok _ => [tok] | _ => [] end) nodes.

(** Whether a tree holds a [const] declaration. *)
Fixpoint hasConst (n : Node) : bool :=
  match n with
  | NIdent _ | NBasicLit _ | NImportSpec _ _ => false
  | NSelectorExpr x _ => hasConst x
  | NCallExpr fn args => hasConst fn || existsb hasConst args
  | NStructType fields =>
      match fields with
      | Some l => existsb hasConst l
      | None => false
      end
  | NField _ type => hasConst type
  | NTypeSpec _ type => hasConst type
  | NValueSpec _ type values =>
      match type with
      | Some t => hasConst t
      | None => false
      end || existsb hasConst values
  | NGenDecl tok specs =>
      match tok with
      | CONST => true
      | _ => false
      end || existsb hasConst specs
  | NFuncDecl recv _ type body =>
      match recv with
      | Some l => existsb hasConst l
      | None => false
      end || hasConst type ||
      match body with
      | Some b => hasConst b
      | None => false
      end
  | NOther children => existsb hasConst children
  end.

(** [package p; const Limit = 10; func f() { const k = 1 }] *)
Definition constFile : File :=
  mkFile (ident "p")
    [NGenDecl CONST [NValueSpec [identOf Con "Limit"] None [NBasicLit "10"]];
     NFuncDecl None (identOf Fun "f") (NOther [])
       (Some (NOther [NOther [NGenDecl CONST
                                [NValueSpec [identOf Con "k"] None [NBasicLit "1"]]]]))].

(** ** The import declarations after [obfuscateImports]

    An import spec keeps its path and carries a new name, whatever name it
    had; a declaration that is not an import declaration stays. *)
Definition importSpecRenamed (spec spec' : Node) : Prop :=
  match spec with
  | NImportSpec _ path => exists alias, spec' = NImportSpec (Some (mkIdent alias None)) path
  | _ => spec' = spec
  end.

Definition importDeclRenamed (decl decl' : Node) : Prop :=
  match decl with
  | NGenDecl IMPORT specs =>
      exists specs', decl' = NGenDecl IMPORT specs' /\ Forall2 importSpecRenamed specs specs'
  | _ => decl' = decl
  end.

(** ** The tree after [updateImportReferences]

    [requalify aliases n]: the qualifier of a selector expression, when it
    is a bare identifier whose spelling is a key of [aliases], carries the
    recorded alias; nothing else changes. *)
Definition requalifyIdent (aliases : gmap string string) (id : Ident) : Ident :=
  match aliases !! Name id with
  | Some alias => setName id alias
  | None => id
  end.

Fixpoint requalify (aliases : gmap string string) (n : Node) : Node :=
  match n with
  | NIdent id => NIdent id
  | NBasicLit v => NBasicLit v
  | NSelectorExpr x sel =>
      NSelectorExpr (match x with
                     | NIdent id => NIdent (requalifyIdent aliases id)
                     | _ => requalify aliases x
                     end) sel
  | NCallExpr fn args => NCallExpr (requalify aliases fn) (map (requalify aliases) args)
  | NStructType fields => NStructType (option_map (map (requalify aliases)) fields)
  | NField names type => NField names (requalify aliases type)
  | NImportSpec name path => NImportSpec name path
  | NTypeSpec name type => NTypeSpec name (requalify aliases type)
  | NValueSpec names type values =>
      NValueSpec names (option_map (requalify aliases) type)
                 (map (requalify aliases) values)
  | NGenDecl tok specs => NGenDecl tok (map (requalify aliases) specs)
  | NFuncDecl recv name type body =>
      NFuncDecl (option_map (map (requalify aliases)) recv) name (requalify aliases type)
                (option_map (requalify aliases) body)
  | NOther children => NOther (map (requalify aliases) children)
  end.

(** [package p; import ("fmt"; str "strings"); var A = fmt.Sprint(str.ToUpper(x.fmt))] *)
Definition qualifiedFile : File :=
  mkFile (ident "p")
    [NGenDecl IMPORT [NImportSpec None (quoted "fmt");
                      NImportSpec (Some (ident "str")) (quoted "strings")];
     NGenDecl VAR
       [NValueSpec [identOf Var "A"] None
          [NCallExpr (NSelectorExpr (NIdent (ident "fmt")) (ident "Sprint"))
             [NCallExpr (NSelectorExpr (NIdent (ident "str")) (ident "ToUpper"))
                [NSelectorExpr (NIdent (ident "x")) (ident "fmt")]]]]].

(** ** The shape of a tree

    [shape n] is [skeleton n] without the names of the import specs: what
    is left of a tree when identifier names, the difference between [const]
    and [var], and the import names are set aside. *)
Fixpoint dropImportNames (n : Node) : Node :=
  match n with
  | NIdent id => NIdent id
  | NBasicLit v => NBasicLit v
  | NSelectorExpr x sel => NSelectorExpr (dropImportNames x) sel
  | NCallExpr fn args => NCallExpr (dropImportNames fn) (map dropImportNames args)
  | NStructType fields => NStructType (option_map (map dropImportNames) fields)
  | NField names type => NField names (dropImportNames type)
  | NImportSpec _ path => NImportSpec None path
  | NTypeSpec name type => NTypeSpec name (dropImportNames type)
  | NValueSpec names type values =>
      NValueSpec names (option_map dropImportNames type) (map dropImportNames values)
  | NGenDecl tok specs => NGenDecl tok (map dropImportNames specs)
  | NFuncDecl recv name type body =>
      NFuncDecl (option_map (map dropImportNames) recv) name (dropImportNames type)
                (option_map dropImportNames body)
  | NOther children => NOther (map dropImportNames children)
  end.

Definition shape (n : Node) : Node := dropImportNames (skeleton n).

Definition shapeFile (file : File) : File :=
  mkFile (eraseName (PkgName file)) (map shape (Decls file)).

(** ** The identifiers [obfuscateVariables] renames

    A spelling the variable pass never renames: a reserved name, the name
    of a struct type or of a struct field, or a key of the alias map. *)
Definition protectedName (s : State) (name : string) : bool :=
  reserved name || bool_decide (name ∈ structTypes s)
  || bool_decide (name ∈ structFields s)
  || bool_decide (is_Some (typeAliasMapping s !! name)).

(** An identifier the pass takes for a variable: its spelling is that of a
    package-level variable, or the parser resolved it to a variable and it
    is not the blank identifier. *)
Definition isVariable (packageVars : gset string) (id : Ident) : bool :=
  bool_decide (Name id ∈ packageVars) ||
  match Obj id with
  | Some Var => negb (String.eqb (Name id) "_")
  | _ => false
  end.

(** An identifier before and after the pass: renamed to the replacement
    the name map holds for its spelling when it is taken for a variable and
    its spelling is not protected, and left as it is otherwise. *)
Definition variableRenamed (tables : State) (names : gmap string string)
  (packageVars : gset string) (id id' : Ident) : Prop :=
  if negb (protectedName tables (Name id)) && isVariable packageVars id
  then exists v, names !! Name id = Some v /\ id' = setName id v
  else id' = id.

(** The tables the variable pass reads stay as they are, and the name map
    keeps its entries. *)
Definition sameTables (s s' : State) : Prop :=
  structTypes s' = structTypes s /\ structFields s' = structFields s /\
  typeAliasMapping s' = typeAliasMapping s /\
  structTypeMapping s' = structTypeMapping s /\
  importAliases s' = importAliases s /\
  declaredFuncs s' = declaredFuncs s /\ declaredMethods s' = declaredMethods s /\
  forall k x, nameMap s !! k = Some x -> nameMap s' !! k = Some x.

(** [package p; var Count, Value int; type T struct { n int };
    func f(n int) int { kept := Count; return kept + n }] *)
Definition variablesFile : File :=
  mkFile (ident "p")
    [NGenDecl VAR [NValueSpec [identOf Var "Count"; identOf Var "Value"]
                     (Some (NIdent (ident "int"))) []];
     NGenDecl TYPE [NTypeSpec (identOf Typ "T")
                      (NStructType (Some [NField [identOf Var "n"] (NIdent (ident "int"))]))];
     NFuncDecl None (identOf Fun "f")
       (NOther [NField [identOf Var "n"] (NIdent (ident "int"))])
       (Some (NOther [NOther [NIdent (identOf Var "kept"); NIdent (identOf Var "Count")];
                      NOther [NIdent (identOf Var "kept"); NIdent (identOf Var "n")]]))].

(** ** The declarations [obfuscateFunctions] renames

    The name a declaration gives to a function, if it is a function
    declaration. *)
Definition declFuncName (decl : Node) : list string :=
  match decl with
  | NFuncDecl _ name _ _ => [Name name]
  | _ => []
  end.

(** The name of a function declaration before and after the pass: the
    replacement the name map holds for it when it was collected as a
    function or a method, and the name itself otherwise. *)
Definition funcRenamed (tables : State) (names : gmap string string)
  (old new : string) : Prop :=
  if bool_decide (old ∈ declaredFuncs tables) || bool_decide (old ∈ declaredMethods tables)
  then names !! old = Some new
  else new = old.

(** [package p; func helper() {}; func (t T) Run() { helper() }; func main() { x.Run() }] *)
Definition functionsFile : File :=
  mkFile (ident "p")
    [NFuncDecl None (identOf Fun "helper") (NOther []) (Some (NOther []));
     NFuncDecl (Some [NField [identOf Var "t"] (NIdent (identOf Typ "T"))])
               (ident "Run") (NOther [])
               (Some (NOther [NOther [NCallExpr (NIdent (identOf Fun "helper")) []]]));
     NFuncDecl None (identOf Fun "main") (NOther [])
               (Some (NOther [NOther [NCallExpr (NSelectorExpr (NIdent (ident "x"))
                                                               (ident "Run")) []]]))].

(** ** TEXT-BASED OBFUSCATION: the backtick strings *)

Definition backtick : ascii := "096"%char.
Definition squote : ascii := "039"%char.

(** The pattern of a raw string: a backtick, one character or more other
    than a backtick (line feeds included), a backtick. *)
Definition backtickRe : regex :=
  RSeq (RByte backtick)
  (RSeq (RPlus (RClass (fun a => negb (Ascii.eqb a backtick))))
        (RByte backtick)).

(** The body of the loop over the bytes of [innerContent]: the part
    appended for one byte. *)
Definition obfuscateByte (c : ascii) (rng : Rand) : string * Rand :=
  let '(k, rng) := Intn 3 rng in
  if k =? 0 then
    ("string(" +:+ (fmt_d (byteZ c) +:+ ")"), rng)
  else if k =? 1 then
    ("string(0x" +:+ (fmt_x (byteZ c) +:+ ")"), rng)
  else
    if (32 <=? byteZ c) && (byteZ c <? 127) && negb (Ascii.eqb c dquote)
       && negb (Ascii.eqb c backslash) && negb (Ascii.eqb c squote)
    then (quoted (String c ""), rng)
    else ("string(" +:+ (fmt_d (byteZ c) +:+ ")"), rng).

(** [for i := 0; i < len(innerContent); i++ { ... }] *)
Fixpoint obfuscateBytes (s : string) (rng : Rand) : list string * Rand :=
  match s with
  | EmptyString => ([], rng)
  | String c s' =>
      let '(p, rng) := obfuscateByte c rng in
      let '(ps, rng) := obfuscateBytes s' rng in
      (p :: ps, rng)
  end.

(** The struct tags the pass leaves alone. *)
Definition hasStructTag (innerContent : string) : bool :=
  Contains innerContent "json:" || Contains innerContent "xml:" ||
  Contains innerContent "yaml:" || Contains innerContent "gorm:".

(** [isCode]: the raw string looks like JavaScript or SQL. *)
Definition isCode (innerContent : string) : bool :=
  Contains innerContent "function" ||
  Contains innerContent "await" ||
  Contains innerContent "async" ||
  Contains innerContent "const " ||
  Contains innerContent "var " ||
  Contains innerContent "let " ||
  Contains innerContent "try {" ||
  Contains innerContent "catch" ||
  Contains innerContent "return " ||
  Contains innerContent "SELECT " ||
  Contains innerContent "INSERT " ||
  Contains innerContent "UPDATE ".

(** The replacement function of [obfuscateBacktickStrings], for one match.
    (The counter it increments is only printed.) *)
Definition obfuscateBacktick (m : string) (rng : Rand) : string * Rand :=
  let innerContent := slice m 1 (len m - 1) in
  if len innerContent <? 20 then (m, rng)
  else if hasStructTag innerContent then (m, rng)
  else if negb (isCode innerContent) then (m, rng)
  else
    let '(parts, rng) := obfuscateBytes innerContent rng in
    ("(" +:+ (Join parts "+" +:+ ")"), rng).

(** [func obfuscateBacktickStrings(content string) string] *)
Definition obfuscateBacktickStrings (cfg : Config) (content : string) (rng : Rand)
  : string * Rand :=
  if noStrings cfg then (content, rng)
  else ReplaceAllStringFunc backtickRe obfuscateBacktick content rng.

(** The bytes of a string, one string each. *)
Fixpoint singletons (s : string) : list string :=
  match s with
  | EmptyString => []
  | String c s' => String c "" :: singletons s'
  end.

(** A raw string the pass leaves as it is: shorter than 20 bytes between
    the backticks, or holding a struct tag, or not looking like code. *)
Definition keptBacktick (m : string) : bool :=
  let innerContent := slice m 1 (len m - 1) in
  (len innerContent <? 20) || hasStructTag innerContent || negb (isCode innerContent).

Definition isASCII (s : string) : bool := string_forall (fun c => byteZ c <? 128) s.

(** What the pass may put in the place of a raw string [m]. *)
Definition backtickGate (cfg : Config) (m out : string) : Prop :=
  if noStrings cfg || keptBacktick m then out = m
  else
    exists rng,
      out = "(" +:+ (Join (obfuscateBytes (slice m 1 (len m - 1)) rng).1 "+" +:+ ")") /\
      (isASCII (slice m 1 (len m - 1)) = true ->
       eval_string_text out = Some (slice m 1 (len m - 1))).

(** [closesRaw s]: [s] is what follows the first character of the text of
    a raw string literal: characters other than the backtick, up to the
    closing backtick, with nothing behind it. *)
Fixpoint closesRaw (s : string) : bool :=
  match s with
  | EmptyString => false
  | String a s' => if Ascii.eqb a backtick then String.eqb s' "" else closesRaw s'
  end.

(** A raw string literal that is not empty, from its opening to its
    closing backtick. *)
Definition isRawString (lit : string) : bool :=
  match lit with
  | String a (String b s) =>
      Ascii.eqb a backtick && negb (Ascii.eqb b backtick) && closesRaw s
  | _ => false
  end.

(** A text all of whose backticks belong to raw string literals that are
    not empty: none stands in the text between them (in a quoted or rune
    literal or a comment). *)
Definition rawStringText (parts : list (string * string)) (tail : string) : bool :=
  forallb (fun p : string * string => noByte backtick p.1 && isRawString p.2) parts
  && noByte backtick tail.

(** A text one of the string encoders has emitted. *)
Definition encodedText (e : string) : Prop :=
  (exists s rng, e = (obfuscateStringLiteral s rng).1) \/
  (exists s rng, e = (obfuscateFormatString s rng).1) \/
  (exists m rng, keptBacktick m = false /\ e = (obfuscateBacktick m rng).1).

(** A line that holds an encoded text. *)
Definition holdsEncoded (line : string) : Prop :=
  exists front e back, encodedText e /\ line = front +:+ (e +:+ back).

(** A line of text: it holds no line feed. *)
Definition isLine (line : string) : bool :=
  string_forall (fun a => negb (Ascii.eqb a newline)) line.

(** ** The value of a literal through the string sweep

    The value of a piece of source text that is either a double-quoted
    literal or an expression of the fragment the encoders emit. *)
Definition literalValue (text : string) : option string :=
  match Unquote text with
  | Some v => Some v
  | None => eval_string_text text
  end.

(** What stands in the place of a literal has the value of the literal,
    when that value is valid UTF-8. *)
Definition valueKept (m out : string) : Prop :=
  forall s, Unquote m = Some s -> ValidString s = true -> literalValue out = Some s.

(** A line before and after the string sweep: the literals replaced by
    texts of the same value, the text between them as it was. *)
Definition lineValuesKept (line line' : string) : Prop :=
  exists outs,
    Forall2 (fun seg out => valueKept seg.2 out)
            (segments (String.length line) stringLitRe line).1 outs /\
    line' = assemble (segments (String.length line) stringLitRe line).1 outs
                     (segments (String.length line) stringLitRe line).2.

(* ===================================================================== *)
(** * Part II: lemmas and theorems                                        *)
(* ===================================================================== *)

Example obfuscateInteger_42 :
  obfuscateInteger 42 [0; 23] = ("(18+24)", []).
Proof. vm_compute. reflexivity. Qed.

Example eval_42 : eval_int_text "(18+24)" = Some 42.
Proof. vm_compute. reflexivity. Qed.

(** ** Strings *)

Lemma append_cons (a : ascii) (s t : string) : String a s +:+ t = String a (s +:+ t).
Proof. reflexivity. Qed.

Lemma append_nil_l (t : string) : "" +:+ t = t.
Proof. reflexivity. Qed.

Lemma append_nil_r (s : string) : s +:+ "" = s.
Proof. induction s as [|a s IH]; [reflexivity|]. rewrite append_cons, IH. reflexivity. Qed.

Lemma append_assoc (s t u : string) : (s +:+ t) +:+ u = s +:+ (t +:+ u).
Proof.
  induction s as [|a s IH]; [reflexivity|].
  rewrite !append_cons, IH. reflexivity.
Qed.

(** ** Printing and reading back decimal literals *)

(** What may follow a decimal literal for it to be read back whole. *)
Definition ends_number (rest : string) : Prop :=
  match rest with
  | EmptyString => True
  | String a _ => dec_digit a = None /\ a <> "x"%char
  end.

Lemma scan_dec_print (d : Decimal.uint) (rest : string) :
  ends_number rest ->
  scan_dec (DecimalString.NilEmpty.string_of_uint d +:+ rest) = (d, rest).
Proof.
  intros Hrest. induction d; simpl; try (rewrite IHd; reflexivity).
  destruct rest as [|a rest']; [reflexivity|].
  simpl in *. destruct Hrest as [-> _]. reflexivity.
Qed.

Lemma parse_unum_print (d : Decimal.uint) (rest : string) :
  d <> Decimal.Nil -> ends_number rest ->
  parse_unum (DecimalString.NilEmpty.string_of_uint d +:+ rest) = Some (Z.of_uint d, rest).
Proof.
  intros Hd Hrest.
  assert (Hscan := scan_dec_print d rest Hrest).
  unfold parse_unum.
  destruct d as [|d|d|d|d|d|d|d|d|d|d]; try congruence;
    simpl in *;
    try (destruct (scan_dec _) as [d' rest0]; inversion Hscan; subst; reflexivity).
  destruct d; simpl in *;
    try (destruct (scan_dec _) as [d' rest0]; inversion Hscan; subst; reflexivity).
  destruct rest as [|a rest']; [reflexivity|].
  simpl in Hrest. destruct Hrest as [Hdig Hx].
  destruct (ascii_dec a "x") as [->|Hne]; [congruence|].
  simpl. rewrite Hdig.
  destruct a as [[|] [|] [|] [|] [|] [|] [|] [|]]; try reflexivity; congruence.
Qed.

Lemma parse_num_fmt_d (z : Z) (rest : string) :
  ends_number rest ->
  parse_num (fmt_d z +:+ rest) = Some (z, rest).
Proof.
  intros Hrest. unfold fmt_d.
  destruct z as [|p|p]; simpl.
  - destruct rest as [|a rest']; [reflexivity|].
    simpl in Hrest. destruct Hrest as [Hdig Hx].
    unfold parse_num, parse_unum. simpl. rewrite Hdig.
    destruct a as [[|] [|] [|] [|] [|] [|] [|] [|]]; try reflexivity; congruence.
  - unfold DecimalString.NilZero.string_of_uint.
    pose proof (DecimalPos.Unsigned.to_uint_nonnil p) as Hnn.
    destruct (Pos.to_uint p) eqn:E; try congruence;
      rewrite <- E in *;
      (assert (Hp := parse_unum_print (Pos.to_uint p) rest Hnn Hrest);
       rewrite E in *; unfold parse_num; simpl in *; rewrite Hp;
       rewrite <- E; unfold Z.of_uint; rewrite DecimalPos.Unsigned.of_to; reflexivity).
  - unfold DecimalString.NilZero.string_of_uint.
    pose proof (DecimalPos.Unsigned.to_uint_nonnil p) as Hnn.
    unfold parse_num.
    destruct (Pos.to_uint p) eqn:E; try congruence;
      rewrite <- E in *;
      (rewrite (parse_unum_print (Pos.to_uint p) rest Hnn Hrest);
       unfold Z.of_uint; rewrite DecimalPos.Unsigned.of_to; reflexivity).
Qed.

(** ** int64 arithmetic *)

Lemma wrap64_id (z : Z) : is_int64 z -> wrap64 z = z.
Proof.
  unfold is_int64, MinInt64, MaxInt64, wrap64. intros H.
  change (2 ^ 63) with 9223372036854775808 in *.
  change (2 ^ 64) with 18446744073709551616.
  rewrite Z.mod_small; lia.
Qed.

Lemma wrap64_range (z : Z) : is_int64 (wrap64 z).
Proof.
  unfold is_int64, MinInt64, MaxInt64, wrap64.
  change (2 ^ 63) with 9223372036854775808.
  change (2 ^ 64) with 18446744073709551616.
  pose proof (Z.mod_pos_bound (z + 9223372036854775808) 18446744073709551616).
  lia.
Qed.

Lemma add64_sub64 (n x : Z) : is_int64 n -> add64 (sub64 n x) x = n.
Proof.
  unfold is_int64, MinInt64, MaxInt64, add64, sub64, wrap64. intros H.
  change (2 ^ 63) with 9223372036854775808 in *.
  change (2 ^ 64) with 18446744073709551616.
  Z.div_mod_to_equations. lia.
Qed.

Lemma sub64_add64 (n x : Z) : is_int64 n -> sub64 (add64 n x) x = n.
Proof.
  unfold is_int64, MinInt64, MaxInt64, add64, sub64, wrap64. intros H.
  change (2 ^ 63) with 9223372036854775808 in *.
  change (2 ^ 64) with 18446744073709551616.
  Z.div_mod_to_equations. lia.
Qed.

(** XOR with a magnitude below 1024 only touches the ten low bits. *)
Lemma lxor_small_int64 (n x : Z) :
  is_int64 n -> 0 <= x < 1024 -> is_int64 (Z.lxor n x).
Proof.
  unfold is_int64, MinInt64, MaxInt64. intros Hn Hx.
  change (2 ^ 63) with 9223372036854775808 in *.
  assert (Hq : Z.lxor n x / 2 ^ 10 = n / 2 ^ 10).
  { rewrite <- !Z.shiftr_div_pow2 by lia.
    rewrite Z.shiftr_lxor.
    rewrite (Z.shiftr_div_pow2 x) by lia.
    rewrite (Z.div_small x) by (change (2 ^ 10) with 1024; lia).
    apply Z.lxor_0_r. }
  change (2 ^ 10) with 1024 in Hq.
  Z.div_mod_to_equations. lia.
Qed.

Lemma xor64_xor64 (n x : Z) :
  is_int64 n -> 0 <= x < 1024 -> xor64 (xor64 n x) x = n.
Proof.
  intros Hn Hx. unfold xor64.
  rewrite (wrap64_id (Z.lxor n x)) by (apply lxor_small_int64; assumption).
  rewrite Z.lxor_assoc, Z.lxor_nilpotent, Z.lxor_0_r.
  apply wrap64_id; assumption.
Qed.

Lemma quo64_mul64 (n x : Z) :
  is_int64 n -> is_int64 (n * x) -> x <> 0 -> quo64 (mul64 n x) x = n.
Proof.
  intros Hn Hnx Hx. unfold quo64, mul64.
  rewrite (wrap64_id (n * x)) by assumption.
  rewrite Z.quot_mul by assumption.
  apply wrap64_id; assumption.
Qed.

Lemma Intn_range (n : Z) (r : Rand) : 0 < n -> 0 <= fst (Intn n r) < n.
Proof.
  intros Hn. destruct r as [|x r']; simpl; [lia|].
  apply Z.mod_pos_bound; assumption.
Qed.

Lemma add64_small (d k : Z) : 0 <= d < 1000 -> 0 <= k <= 2 -> add64 d k = d + k.
Proof.
  intros Hd Hk. apply wrap64_id. unfold is_int64, MinInt64, MaxInt64.
  change (2 ^ 63) with 9223372036854775808. lia.
Qed.

(** ** C2: the integer encoder *)

Lemma parse_int_literal_emit (op : binop) (c : ascii) (a b : Z) :
  parse_binop c = Some op -> dec_digit c = None -> c <> "x"%char ->
  parse_int_literal ("(" +:+ (fmt_d a +:+ String c (fmt_d b +:+ ")"))) = Some (IBin op a b).
Proof.
  intros Hop Hdig Hx. rewrite append_cons, append_nil_l.
  cbn [parse_int_literal]. unfold parse_iexpr.
  rewrite parse_num_fmt_d by (simpl; split; assumption).
  rewrite Hop.
  rewrite parse_num_fmt_d by (simpl; split; [reflexivity | discriminate]).
  reflexivity.
Qed.

(** The text emitted for each strategy, read back. *)
Lemma obfuscateInteger_parse (n : Z) (r : Rand) :
  let k := int_magnitude r in
  parse_int_literal (obfuscateInteger n r).1 =
  Some (if int_strategy r =? 0 then IBin OAdd (sub64 n k) k
        else if int_strategy r =? 1 then IBin OSub (add64 n k) k
        else if int_strategy r =? 2 then IBin OXor (xor64 n k) k
        else IBin OQuo (mul64 n k) k).
Proof.
  unfold obfuscateInteger, int_strategy, int_magnitude.
  destruct (Intn 4 r) as [c r1]. cbn [fst].
  destruct (c =? 0) eqn:E0; [|destruct (c =? 1) eqn:E1; [|destruct (c =? 2) eqn:E2]];
    cbn [orb]; [destruct (Int63n 1000 r1) as [d r2]..|destruct (Int63n 10 r1) as [d r2]];
    cbn [fst]; apply parse_int_literal_emit; first [reflexivity | discriminate].
Qed.

Lemma int_strategy_range (r : Rand) : 0 <= int_strategy r < 4.
Proof. apply Intn_range; lia. Qed.

Lemma int_magnitude_range (r : Rand) :
  (int_strategy r = 3 -> 2 <= int_magnitude r <= 11) /\
  (int_strategy r <> 3 -> 1 <= int_magnitude r <= 1000).
Proof.
  pose proof (int_strategy_range r) as Hs.
  unfold int_strategy, int_magnitude in *.
  destruct (Intn 4 r) as [c r1]. cbn [fst] in *.
  pose proof (Intn_range 1000 r1 ltac:(lia)) as H1000.
  pose proof (Intn_range 10 r1 ltac:(lia)) as H10.
  unfold Int63n.
  split; intros Hc.
  - subst c. cbn [Z.eqb Pos.eqb orb]. rewrite add64_small by lia. lia.
  - assert (Hc' : c = 0 \/ c = 1 \/ c = 2) by lia.
    destruct Hc' as [->|[->| ->]]; cbn [Z.eqb Pos.eqb orb]; rewrite add64_small by lia; lia.
Qed.

(** The value of the emitted text, for every strategy. *)
Lemma obfuscateInteger_value (n : Z) (r : Rand) :
  is_int64 n ->
  (int_strategy r = 3 -> is_int64 (n * int_magnitude r)) ->
  eval_int_text (obfuscateInteger n r).1 = Some n.
Proof.
  intros Hn Hfit.
  pose proof (obfuscateInteger_parse n r) as Hparse. cbv zeta in Hparse.
  pose proof (int_strategy_range r) as Hs.
  pose proof (int_magnitude_range r) as [Hk3 Hk].
  unfold eval_int_text. rewrite Hparse.
  assert (Hc : int_strategy r = 0 \/ int_strategy r = 1 \/ int_strategy r = 2 \/
               int_strategy r = 3) by lia.
  destruct Hc as [Hc|[Hc|[Hc|Hc]]]; rewrite Hc in *; cbn [Z.eqb Pos.eqb eval64].
  - rewrite add64_sub64; auto.
  - rewrite sub64_add64; auto.
  - rewrite xor64_xor64; auto. specialize (Hk ltac:(lia)). lia.
  - specialize (Hk3 eq_refl). specialize (Hfit eq_refl).
    destruct (int_magnitude r =? 0) eqn:E; [lia|].
    rewrite quo64_mul64; auto. lia.
Qed.

(** C2 (as amended): for every int64 [n] and every state of the generator,
    the text emitted by [obfuscateInteger n] evaluates in int64 arithmetic
    to exactly [n] under the additive, subtractive and XOR strategies; under
    the multiplicative-division strategy it does so whenever the product
    [n * k] fits in an int64, and then the numerator is [n * k], an exact
    multiple of the divisor [k >= 2]. *)
Theorem obfuscateInteger_roundtrip (n : Z) (r : Rand) :
  is_int64 n ->
  (int_strategy r = 3 -> is_int64 (n * int_magnitude r)) ->
  eval_int_text (obfuscateInteger n r).1 = Some n /\
  (int_strategy r = 3 ->
   2 <= int_magnitude r /\
   parse_int_literal (obfuscateInteger n r).1 =
     Some (IBin OQuo (n * int_magnitude r) (int_magnitude r)) /\
   (int_magnitude r | n * int_magnitude r)).
Proof.
  intros Hn Hfit. split; [apply obfuscateInteger_value; assumption|].
  intros Hc. specialize (Hfit Hc).
  pose proof (obfuscateInteger_parse n r) as Hparse. cbv zeta in Hparse.
  destruct (int_magnitude_range r) as [Hk3 _]. specialize (Hk3 Hc).
  rewrite Hc in Hparse. cbn [Z.eqb Pos.eqb] in Hparse.
  split; [lia|]. split.
  - rewrite Hparse. unfold mul64. rewrite wrap64_id by assumption. reflexivity.
  - apply Z.divide_factor_r.
Qed.

Lemma obfuscateInteger_roundtrip_witness :
  eval_int_text (obfuscateInteger 42 [3; 5]).1 = Some 42 /\
  (int_strategy [3; 5] = 3 ->
   2 <= int_magnitude [3; 5] /\
   parse_int_literal (obfuscateInteger 42 [3; 5]).1 =
     Some (IBin OQuo (42 * int_magnitude [3; 5]) (int_magnitude [3; 5])) /\
   (int_magnitude [3; 5] | 42 * int_magnitude [3; 5])).
Proof.
  apply (obfuscateInteger_roundtrip 42 [3; 5]).
  - unfold is_int64, MinInt64, MaxInt64. lia.
  - intros _. vm_compute. split; discriminate.
Defined.

(** Every value the integer sweep passes on ([10 < n <= 100000]) is in the
    safe range of all four strategies. *)
Lemma obfuscateInteger_roundtrip_sweep (n : Z) (r : Rand) :
  10 < n <= 100000 -> eval_int_text (obfuscateInteger n r).1 = Some n.
Proof.
  intros Hn.
  apply obfuscateInteger_value.
  - unfold is_int64, MinInt64, MaxInt64. change (2 ^ 63) with 9223372036854775808. lia.
  - intros Hc. destruct (int_magnitude_range r) as [Hk _]. specialize (Hk Hc).
    unfold is_int64, MinInt64, MaxInt64. change (2 ^ 63) with 9223372036854775808. nia.
Qed.

(** C2 as stated fails: with [n = 2^62] and the multiplicative-division
    strategy drawing [k = 2], the product wraps to [-2^63]; the emitted
    text [(-9223372036854775808/2)] evaluates to [-2^62].  With
    [n = MaxInt64] and [k = 3] the emitted numerator is not a multiple of
    the divisor. *)
Lemma obfuscateInteger_overflow_counterexample :
  is_int64 (2 ^ 62) /\
  (obfuscateInteger (2 ^ 62) [3; 0]).1 = "(-9223372036854775808/2)" /\
  eval_int_text (obfuscateInteger (2 ^ 62) [3; 0]).1 = Some (- 2 ^ 62) /\
  eval_int_text (obfuscateInteger (2 ^ 62) [3; 0]).1 <> Some (2 ^ 62) /\
  is_int64 MaxInt64 /\
  parse_int_literal (obfuscateInteger MaxInt64 [3; 1]).1 =
    Some (IBin OQuo 9223372036854775805 3) /\
  ~ (3 | 9223372036854775805).
Proof.
  split; [vm_compute; split; discriminate|].
  split; [vm_compute; reflexivity|].
  split; [vm_compute; reflexivity|].
  split; [vm_compute; discriminate|].
  split; [vm_compute; split; discriminate|].
  split; [vm_compute; reflexivity|].
  intros [q Hq]. lia.
Qed.

(** ** UTF-8 *)

Example EncodeRune_cyrillic_a : EncodeRune 1072 = bytes_string [208; 176].
Proof. vm_compute. reflexivity. Qed.

Example range_runes_mixed :
  range_runes (bytes_string [72; 208; 176; 255; 226; 130; 172; 240; 159; 152; 128])
  = [72; 1072; 65533; 8364; 128512].
Proof. vm_compute. reflexivity. Qed.

Example string_of_runes_roundtrip :
  string_of_runes [72; 1072; 8364; 128512]
  = bytes_string [72; 208; 176; 226; 130; 172; 240; 159; 152; 128].
Proof. vm_compute. reflexivity. Qed.

Lemma byteZ_range (b : ascii) : 0 <= byteZ b < 256.
Proof.
  unfold byteZ. pose proof (N_ascii_bounded b) as H. lia.
Qed.

Lemma byte_of_Z_byteZ (b : ascii) : byte_of_Z (byteZ b) = b.
Proof.
  unfold byte_of_Z. rewrite Z.mod_small by apply byteZ_range.
  unfold byteZ. rewrite N2Z.id. apply ascii_N_embedding.
Qed.

Lemma byteZ_byte_of_Z (z : Z) : 0 <= z < 256 -> byteZ (byte_of_Z z) = z.
Proof.
  intros Hz. unfold byte_of_Z, byteZ. rewrite Z.mod_small by assumption.
  rewrite N_ascii_embedding by lia. lia.
Qed.

(** Bit operations on disjoint bit ranges are additions. *)
Lemma land_shiftl_low (x y n : Z) :
  0 <= n -> 0 <= y < 2 ^ n -> Z.land (Z.shiftl x n) y = 0.
Proof.
  intros Hn Hy. apply Z.bits_inj'. intros k Hk.
  rewrite Z.land_spec, Z.bits_0.
  destruct (Z.ltb_spec k n) as [Hlt|Hge].
  - rewrite Z.shiftl_spec_low by assumption. reflexivity.
  - rewrite <- (Z.mod_small y (2 ^ n)) by assumption.
    rewrite Z.mod_pow2_bits_high by lia. apply andb_false_r.
Qed.

Lemma lor_disjoint_add (a b n : Z) :
  0 <= n -> a mod 2 ^ n = 0 -> 0 <= b < 2 ^ n -> Z.lor a b = a + b.
Proof.
  intros Hn Ha Hb.
  assert (Hshift : a = Z.shiftl (a / 2 ^ n) n).
  { rewrite Z.shiftl_mul_pow2 by assumption.
    pose proof (Z.div_mod a (2 ^ n)) as Hdm. lia. }
  assert (Hland : Z.land a b = 0).
  { rewrite Hshift. apply land_shiftl_low; assumption. }
  rewrite <- Z.lxor_lor by assumption.
  symmetry. apply Z.add_nocarry_lxor. assumption.
Qed.

Lemma land_maskx (x : Z) : Z.land x maskx = x mod 64.
Proof. change maskx with (Z.ones 6). rewrite Z.land_ones by lia. reflexivity. Qed.

Lemma land_mask2 (x : Z) : Z.land x mask2 = x mod 32.
Proof. change mask2 with (Z.ones 5). rewrite Z.land_ones by lia. reflexivity. Qed.

Lemma land_mask3 (x : Z) : Z.land x mask3 = x mod 16.
Proof. change mask3 with (Z.ones 4). rewrite Z.land_ones by lia. reflexivity. Qed.

Lemma land_mask4 (x : Z) : Z.land x mask4 = x mod 8.
Proof. change mask4 with (Z.ones 3). rewrite Z.land_ones by lia. reflexivity. Qed.

Ltac bytes_eq :=
  unfold bytes_string; cbn [fold_right];
  repeat match goal with
         | |- String (byte_of_Z ?a) _ = String (byte_of_Z ?b) _ =>
             replace a with b by (Z.div_mod_to_equations; lia); f_equal
         end;
  try reflexivity.

(** The bytes [EncodeRune] produces, by range, in arithmetic form. *)
Lemma EncodeRune_1 (r : Z) :
  0 <= r <= 127 -> EncodeRune r = bytes_string [r].
Proof.
  intros Hr. unfold EncodeRune, rune1Max, tobyte.
  destruct (Z.leb_spec 0 r); [|lia]. destruct (Z.leb_spec r 127); [|lia].
  cbn [andb]. rewrite Z.mod_small by lia. reflexivity.
Qed.

Lemma EncodeRune_2 (r : Z) :
  128 <= r <= 2047 -> EncodeRune r = bytes_string [192 + r / 64; 128 + r mod 64].
Proof.
  intros Hr. unfold EncodeRune, rune1Max, rune2Max, tobyte, t2, tx.
  destruct (Z.leb_spec 0 r); [|lia]. destruct (Z.leb_spec r 127); [lia|].
  destruct (Z.leb_spec r 2047); [|lia]. cbn [andb].
  rewrite !land_maskx, Z.shiftr_div_pow2 by lia. change (2 ^ 6) with 64.
  rewrite (lor_disjoint_add 192 _ 6), (lor_disjoint_add 128 _ 6);
    try reflexivity; try lia; change (2 ^ 6) with 64;
    try (Z.div_mod_to_equations; lia).
  bytes_eq.
Qed.

Lemma EncodeRune_3 (r : Z) :
  2048 <= r <= 65535 -> ~ (surrogateMin <= r <= surrogateMax) ->
  EncodeRune r =
  bytes_string [224 + r / 4096; 128 + (r / 64) mod 64; 128 + r mod 64].
Proof.
  intros Hr Hs.
  unfold EncodeRune, rune1Max, rune2Max, rune3Max, MaxRune, tobyte, t3, tx in *.
  unfold surrogateMin, surrogateMax in *.
  destruct (Z.leb_spec 0 r); [|lia]. destruct (Z.leb_spec r 127); [lia|].
  destruct (Z.leb_spec r 2047); [lia|]. cbn [andb].
  destruct (Z.ltb_spec r 0); [lia|]. destruct (Z.ltb_spec 1114111 r); [lia|].
  cbn [orb].
  replace ((55296 <=? r) && (r <=? 57343)) with false
    by (symmetry; apply andb_false_iff; rewrite !Z.leb_gt; lia).
  destruct (Z.leb_spec r 65535); [|lia].
  rewrite !land_maskx, !Z.shiftr_div_pow2 by lia.
  change (2 ^ 6) with 64. change (2 ^ 12) with 4096.
  rewrite (lor_disjoint_add 224 _ 4), !(lor_disjoint_add 128 _ 6);
    try reflexivity; try lia; try change (2 ^ 6) with 64; try change (2 ^ 4) with 16;
    try (Z.div_mod_to_equations; lia).
  bytes_eq.
Qed.

Lemma EncodeRune_4 (r : Z) :
  65536 <= r <= MaxRune ->
  EncodeRune r =
  bytes_string [240 + r / 262144; 128 + (r / 4096) mod 64;
                128 + (r / 64) mod 64; 128 + r mod 64].
Proof.
  intros Hr.
  unfold EncodeRune, rune1Max, rune2Max, rune3Max, MaxRune, tobyte, t4, tx in *.
  unfold surrogateMin, surrogateMax in *.
  destruct (Z.leb_spec 0 r); [|lia]. destruct (Z.leb_spec r 127); [lia|].
  destruct (Z.leb_spec r 2047); [lia|]. cbn [andb].
  destruct (Z.ltb_spec r 0); [lia|]. destruct (Z.ltb_spec 1114111 r); [lia|].
  cbn [orb].
  replace ((55296 <=? r) && (r <=? 57343)) with false
    by (symmetry; apply andb_false_iff; rewrite !Z.leb_gt; lia).
  destruct (Z.leb_spec r 65535); [lia|].
  rewrite !land_maskx, !Z.shiftr_div_pow2 by lia.
  change (2 ^ 6) with 64. change (2 ^ 12) with 4096. change (2 ^ 18) with 262144.
  rewrite (lor_disjoint_add 240 _ 3), !(lor_disjoint_add 128 _ 6);
    try reflexivity; try lia; try change (2 ^ 6) with 64; try change (2 ^ 3) with 8;
    try (Z.div_mod_to_equations; lia).
  bytes_eq.
Qed.

Lemma first_spec (s0 sz lo hi : Z) :
  first s0 = Some (sz, lo, hi) ->
  128 <= lo /\ hi <= 191 /\
  ((sz = 2 /\ 194 <= s0 <= 223) \/
   (sz = 3 /\ 224 <= s0 <= 239 /\ (s0 = 224 -> lo = 160) /\ (s0 = 237 -> hi = 159)) \/
   (sz = 4 /\ 240 <= s0 <= 244 /\ (s0 = 240 -> lo = 144) /\ (s0 = 244 -> hi = 143))).
Proof.
  unfold first, locb, hicb.
  repeat match goal with
         | |- context [if ?c then _ else _] =>
             let E := fresh "E" in destruct c eqn:E
         end;
    intros [= <- <- <-] || discriminate; lia.
Qed.

(** Decoding a well-formed sequence and encoding the rune gives the bytes
    back; an ill-formed one decodes to [(RuneError, 1)]. *)
Lemma DecodeRune_EncodeRune (s rest : string) (r size : Z) :
  DecodeRuneInString s = Some (r, size, rest) ->
  (r =? RuneError) && (size =? 1) = false ->
  EncodeRune r +:+ rest = s.
Proof.
  unfold DecodeRuneInString.
  destruct s as [|b0 rest1]; [discriminate|].
  pose proof (byteZ_range b0) as H0. pose proof (byte_of_Z_byteZ b0) as B0.
  set (s0 := byteZ b0) in *.
  unfold RuneSelf, locb, hicb.
  destruct (Z.ltb_spec s0 128) as [Hascii|Hhigh].
  { intros [= <- <- <-] _. rewrite EncodeRune_1 by lia.
    cbn [bytes_string fold_right]. rewrite B0. reflexivity. }
  assert (Hbad : forall x : string,
             Some (RuneError, 1, rest1) = Some (r, size, rest) ->
             (r =? RuneError) && (size =? 1) = false -> x = String b0 rest1).
  { intros x [= <- <- <-]. discriminate. }
  destruct (first s0) as [[[sz lo] hi]|] eqn:Hfirst; [|apply Hbad].
  apply first_spec in Hfirst. destruct Hfirst as (Hlo & Hhi & Hsz).
  destruct rest1 as [|b1 rest2]; [apply Hbad|].
  pose proof (byteZ_range b1) as H1. pose proof (byte_of_Z_byteZ b1) as B1.
  set (s1 := byteZ b1) in *.
  destruct (Z.ltb_spec s1 lo) as [|Hlo1]; [apply Hbad|].
  destruct (Z.ltb_spec hi s1) as [|Hhi1]; [apply Hbad|]. cbn [orb].
  destruct (Z.leb_spec sz 2) as [Hsz2|Hsz2].
  { intros [= <- <- <-] _.
    rewrite land_mask2, land_maskx, Z.shiftl_mul_pow2 by lia. change (2 ^ 6) with 64.
    rewrite (lor_disjoint_add _ _ 6) by
      (try change (2 ^ 6) with 64; try (Z.div_mod_to_equations; lia); lia).
    rewrite EncodeRune_2 by (Z.div_mod_to_equations; lia).
    rewrite <- B0, <- B1.
    unfold bytes_string; cbn [fold_right]. rewrite !append_cons, append_nil_l.
    f_equal; [|f_equal]; f_equal; Z.div_mod_to_equations; lia. }
  destruct rest2 as [|b2 rest3]; [apply Hbad|].
  pose proof (byteZ_range b2) as H2. pose proof (byte_of_Z_byteZ b2) as B2.
  set (s2 := byteZ b2) in *.
  destruct (Z.ltb_spec s2 128) as [|Hlo2]; [apply Hbad|].
  destruct (Z.ltb_spec 191 s2) as [|Hhi2]; [apply Hbad|]. cbn [orb].
  destruct (Z.leb_spec sz 3) as [Hsz3|Hsz3].
  { intros [= <- <- <-] _.
    rewrite land_mask3, !land_maskx, !Z.shiftl_mul_pow2 by lia.
    change (2 ^ 6) with 64. change (2 ^ 12) with 4096.
    rewrite (lor_disjoint_add (s0 mod 16 * 4096) _ 12) by
      (try change (2 ^ 12) with 4096; try (Z.div_mod_to_equations; lia); lia).
    rewrite (lor_disjoint_add _ _ 6) by
      (try change (2 ^ 6) with 64; try (Z.div_mod_to_equations; lia); lia).
    rewrite EncodeRune_3 by
      (unfold surrogateMin, surrogateMax; Z.div_mod_to_equations; lia).
    rewrite <- B0, <- B1, <- B2. fold s0 s1 s2.
    unfold bytes_string; cbn [fold_right]. rewrite !append_cons, append_nil_l.
    f_equal; [|f_equal; [|f_equal]]; f_equal; Z.div_mod_to_equations; lia. }
  destruct rest3 as [|b3 rest4]; [apply Hbad|].
  pose proof (byteZ_range b3) as H3. pose proof (byte_of_Z_byteZ b3) as B3.
  set (s3 := byteZ b3) in *.
  destruct (Z.ltb_spec s3 128) as [|Hlo3]; [apply Hbad|].
  destruct (Z.ltb_spec 191 s3) as [|Hhi3]; [apply Hbad|]. cbn [orb].
  intros [= <- <- <-] _.
  rewrite land_mask4, !land_maskx, !Z.shiftl_mul_pow2 by lia.
  change (2 ^ 6) with 64. change (2 ^ 12) with 4096. change (2 ^ 18) with 262144.
  rewrite (lor_disjoint_add (s0 mod 8 * 262144) _ 18) by
    (try change (2 ^ 18) with 262144; try (Z.div_mod_to_equations; lia); lia).
  rewrite (lor_disjoint_add _ (s2 mod 64 * 64) 12) by
    (try change (2 ^ 12) with 4096; try (Z.div_mod_to_equations; lia); lia).
  rewrite (lor_disjoint_add _ _ 6) by
    (try change (2 ^ 6) with 64; try (Z.div_mod_to_equations; lia); lia).
  rewrite EncodeRune_4 by (unfold MaxRune; Z.div_mod_to_equations; lia).
  rewrite <- B0, <- B1, <- B2, <- B3. fold s0 s1 s2 s3.
  unfold bytes_string; cbn [fold_right]. rewrite !append_cons, append_nil_l.
  f_equal; [|f_equal; [|f_equal; [|f_equal]]]; f_equal; Z.div_mod_to_equations; lia.
Qed.

(** ** C1: the string encoder *)

Example obfuscateStringLiteral_Hi :
  obfuscateStringLiteral "Hi" [0; 3] = ("(string(72)+" +:+ (quoted "i" +:+ ")"), []).
Proof. vm_compute. reflexivity. Qed.

Example obfuscateStringLiteral_all_strategies :
  obfuscateStringLiteral "a-bc" [0; 1; 2; 9; 3] =
  ("(string(97)+string(0x2d)+string(88+10)+" +:+ (quoted "c" +:+ ")"), []).
Proof. vm_compute. reflexivity. Qed.

Example eval_string_text_ex :
  eval_string_text ("(string(97)+string(0x2d)+string(88+10)+" +:+ (quoted "c" +:+ ")"))
  = Some "a-bc".
Proof. vm_compute. reflexivity. Qed.

(** *** Reading back the emitted terms *)

Definition ends_hex (rest : string) : Prop :=
  match rest with
  | EmptyString => True
  | String a _ => hex_digit a = None
  end.

Lemma scan_hex_print (d : Hexadecimal.uint) (rest : string) :
  ends_hex rest ->
  scan_hex (HexadecimalString.NilEmpty.string_of_uint d +:+ rest) = (d, rest).
Proof.
  intros Hrest. induction d; simpl; try (rewrite IHd; reflexivity).
  destruct rest as [|a rest']; [reflexivity|].
  simpl in *. rewrite Hrest. reflexivity.
Qed.

Lemma parse_num_fmt_x (z : Z) (rest : string) :
  0 <= z -> ends_hex rest ->
  parse_num ("0x" +:+ (fmt_x z +:+ rest)) = Some (z, rest).
Proof.
  intros Hz Hrest. rewrite !append_cons, append_nil_l.
  unfold parse_num, parse_unum, fmt_x.
  destruct z as [|p|p]; [| |lia]; cbn [Z.to_hex_int HexadecimalString.NilZero.string_of_int].
  - change (HexadecimalString.NilZero.string_of_uint (Hexadecimal.D0 Hexadecimal.Nil))
      with (HexadecimalString.NilEmpty.string_of_uint (Hexadecimal.D0 Hexadecimal.Nil)).
    rewrite scan_hex_print by assumption. reflexivity.
  - unfold HexadecimalString.NilZero.string_of_uint.
    pose proof (HexadecimalPos.Unsigned.to_uint_nonnil p) as Hnn.
    pose proof (HexadecimalPos.Unsigned.of_to p) as Hof.
    destruct (Pos.to_hex_uint p) eqn:E; try congruence;
      rewrite scan_hex_print by assumption;
      unfold Z.of_hex_uint; rewrite Hof; reflexivity.
Qed.

Lemma eval_sexpr_conv (fuel : nat) (t : string) :
  eval_sexpr (S fuel) ("string(" +:+ t) =
  match parse_iexpr t with
  | Some (e, String ")" rest) =>
      match eval_const e with
      | Some z => Some (EncodeRune z, rest)
      | None => None
      end
  | _ => None
  end.
Proof. reflexivity. Qed.

(** [string(%d)] *)
Lemma eval_conv_dec (fuel : nat) (r : Z) (rest : string) :
  eval_sexpr (S fuel) (("string(" +:+ (fmt_d r +:+ ")")) +:+ rest)
  = Some (EncodeRune r, rest).
Proof.
  rewrite !append_assoc, eval_sexpr_conv. unfold parse_iexpr.
  rewrite parse_num_fmt_d by (simpl; split; [reflexivity|discriminate]).
  reflexivity.
Qed.

(** [string(0x%x)] *)
Lemma eval_conv_hex (fuel : nat) (r : Z) (rest : string) :
  0 <= r ->
  eval_sexpr (S fuel) (("string(0x" +:+ (fmt_x r +:+ ")")) +:+ rest)
  = Some (EncodeRune r, rest).
Proof.
  intros Hr.
  change (("string(0x" +:+ (fmt_x r +:+ ")")) +:+ rest)
    with (("string(" +:+ ("0x" +:+ (fmt_x r +:+ ")"))) +:+ rest).
  rewrite !append_assoc, eval_sexpr_conv. unfold parse_iexpr.
  rewrite parse_num_fmt_x by (try assumption; reflexivity).
  reflexivity.
Qed.

(** [string(%d+%d)] *)
Lemma eval_conv_add (fuel : nat) (a b : Z) (rest : string) :
  eval_sexpr (S fuel)
    (("string(" +:+ (fmt_d a +:+ ("+" +:+ (fmt_d b +:+ ")")))) +:+ rest)
  = Some (EncodeRune (a + b), rest).
Proof.
  rewrite !append_assoc, eval_sexpr_conv. unfold parse_iexpr.
  rewrite parse_num_fmt_d by (simpl; split; [reflexivity|discriminate]).
  rewrite append_cons, append_nil_l. cbn [parse_binop].
  rewrite parse_num_fmt_d by (simpl; split; [reflexivity|discriminate]).
  reflexivity.
Qed.

(** A quoted printable character other than the quote and the backslash. *)
Lemma eval_quoted_char (fuel : nat) (r : Z) (rest : string) :
  32 <= r < 127 -> r <> 34 -> r <> 92 ->
  eval_sexpr (S fuel) (quoted (EncodeRune r) +:+ rest) = Some (EncodeRune r, rest).
Proof.
  intros Hr Hq Hb. rewrite EncodeRune_1 by lia.
  unfold quoted, bytes_string. cbn [fold_right].
  rewrite !append_cons, !append_nil_l. cbn [eval_sexpr dquote].
  cbn [scan_strlit].
  assert (Hne : forall c : ascii, byteZ c <> r -> Ascii.eqb (byte_of_Z r) c = false).
  { intros c Hc. apply Ascii.eqb_neq. intros <-.
    rewrite byteZ_byte_of_Z in Hc by lia. congruence. }
  rewrite !Hne by (unfold dquote, backslash, newline; vm_compute; lia).
  cbn [orb]. rewrite append_cons, append_nil_l. cbn [scan_strlit].
  rewrite Ascii.eqb_refl. reflexivity.
Qed.

(** Whatever strategy is drawn, the part emitted for a rune evaluates to
    the UTF-8 encoding of that rune. *)
Lemma eval_obfuscateRune (fuel : nat) (r : Z) (rng : Rand) (rest : string) :
  0 <= r ->
  eval_sexpr (S fuel) ((obfuscateRune r rng).1 +:+ rest) = Some (EncodeRune r, rest).
Proof.
  intros Hr. unfold obfuscateRune.
  destruct (Intn 4 rng) as [c rng1].
  destruct (c =? 0); [apply eval_conv_dec|].
  destruct (c =? 1); [apply eval_conv_hex; assumption|].
  destruct (c =? 2).
  { destruct (Intn 50 rng1) as [d rng2]. cbv zeta. cbn [fst].
    rewrite eval_conv_add. do 3 f_equal. lia. }
  destruct (Z.eqb_spec r 34); [apply eval_conv_dec|].
  destruct (Z.eqb_spec r 92); [apply eval_conv_dec|].
  destruct (Z.ltb_spec 127 r); [apply eval_conv_dec|].
  cbn [orb].
  destruct (Z.leb_spec 32 r); [|apply eval_conv_dec].
  destruct (Z.ltb_spec r 127); [|apply eval_conv_dec].
  cbn [andb fst]. apply eval_quoted_char; lia.
Qed.

(** *** The runes of a string *)

Lemma length_append (s t : string) :
  String.length (s +:+ t) = (String.length s + String.length t)%nat.
Proof.
  induction s as [|a s IH]; [reflexivity|].
  rewrite append_cons. cbn [String.length]. rewrite IH. reflexivity.
Qed.

Ltac decode_cases H :=
  unfold DecodeRuneInString in H;
  repeat match type of H with
         | context [match ?x with _ => _ end] => destruct x eqn:?
         end;
  inversion H; subst; clear H.

Lemma DecodeRune_nonneg (s rest : string) (r size : Z) :
  DecodeRuneInString s = Some (r, size, rest) -> 0 <= r.
Proof.
  intros H. decode_cases H; try (unfold RuneError; lia);
    try apply byteZ_range;
    repeat (apply Z.lor_nonneg; split);
    try (apply Z.shiftl_nonneg); apply Z.land_nonneg; left; apply byteZ_range.
Qed.

Lemma DecodeRune_length (s rest : string) (r size : Z) :
  DecodeRuneInString s = Some (r, size, rest) ->
  (String.length rest < String.length s)%nat.
Proof.
  intros H. decode_cases H; cbn [String.length]; lia.
Qed.

Lemma range_runes_n_nonneg (n : nat) (s : string) :
  Forall (fun r => 0 <= r) (range_runes_n n s).
Proof.
  revert s. induction n as [|n IH]; intros s; cbn [range_runes_n]; [constructor|].
  destruct (DecodeRuneInString s) as [[[r size] rest]|] eqn:E; [|constructor].
  constructor; [eapply DecodeRune_nonneg; eassumption|apply IH].
Qed.

Lemma range_runes_nonempty (s : string) : s <> "" -> range_runes s <> [].
Proof.
  intros Hs. unfold range_runes. destruct s as [|a s']; [congruence|].
  cbn [String.length range_runes_n].
  destruct (DecodeRuneInString (String a s')) as [[[r size] rest]|] eqn:E; [discriminate|].
  unfold DecodeRuneInString in E.
  repeat match type of E with
         | context [match ?x with _ => _ end] => destruct x
         end; discriminate.
Qed.

(** A valid string is the concatenation of the encodings of its runes. *)
Lemma string_of_range_runes_n (n : nat) (s : string) :
  (String.length s <= n)%nat -> ValidString_n n s = true ->
  string_of_runes (range_runes_n n s) = s.
Proof.
  revert s. induction n as [|n IH]; intros s Hlen Hvalid.
  - destruct s; [reflexivity|cbn [String.length] in Hlen; lia].
  - cbn [range_runes_n ValidString_n] in *.
    destruct (DecodeRuneInString s) as [[[r size] rest]|] eqn:E.
    + destruct ((r =? RuneError) && (size =? 1)) eqn:Hbad; [discriminate|].
      cbn [string_of_runes fold_right]. fold (string_of_runes (range_runes_n n rest)).
      rewrite IH; [|apply DecodeRune_length in E; lia|assumption].
      eapply DecodeRune_EncodeRune; eassumption.
    + destruct s; [reflexivity|].
      unfold DecodeRuneInString in E.
      repeat match type of E with
             | context [match ?x with _ => _ end] => destruct x
             end; discriminate.
Qed.

Lemma string_of_range_runes (s : string) :
  ValidString s = true -> string_of_runes (range_runes s) = s.
Proof. apply string_of_range_runes_n. reflexivity. Qed.

(** *** The whole expression *)

Lemma obfuscateRune_nonempty (r : Z) (rng : Rand) :
  (1 <= String.length (obfuscateRune r rng).1)%nat.
Proof.
  unfold obfuscateRune.
  repeat match goal with
         | |- context [let '(_, _) := ?x in _] => destruct x
         | |- context [if ?c then _ else _] => destruct c
         end; cbn [fst]; unfold quoted; rewrite ?append_cons; cbn [String.length]; lia.
Qed.

Lemma obfuscateRunes_length (rs : list Z) (rng : Rand) :
  (length rs <= String.length (Join (obfuscateRunes rs rng).1 "+"))%nat.
Proof.
  revert rng. induction rs as [|r rs IH]; intros rng; [cbn; lia|].
  cbn [obfuscateRunes].
  pose proof (obfuscateRune_nonempty r rng) as Hp.
  destruct (obfuscateRune r rng) as [p rng1]. specialize (IH rng1).
  destruct (obfuscateRunes rs rng1) as [ps rng2]. cbn [fst] in *.
  destruct ps as [|p' ps'].
  - destruct rs; cbn [Join length String.length] in *; lia.
  - cbn [Join length] in *. rewrite !length_append.
    cbn [Join String.length length] in *. lia.
Qed.

Lemma eval_sum_S (fuel : nat) (s : string) :
  eval_sum (S fuel) s =
  match eval_sexpr fuel s with
  | Some (v, String "+" rest) =>
      match eval_sum fuel rest with
      | Some (w, rest') => Some (v +:+ w, rest')
      | None => None
      end
  | Some (v, String ")" rest) => Some (v, rest)
  | _ => None
  end.
Proof. reflexivity. Qed.

Lemma eval_sum_obfuscateRunes (rs : list Z) (rng : Rand) (rest : string) (fuel : nat) :
  rs <> [] -> Forall (fun r => 0 <= r) rs -> (length rs < fuel)%nat ->
  eval_sum fuel (Join (obfuscateRunes rs rng).1 "+" +:+ String ")" rest)
  = Some (string_of_runes rs, rest).
Proof.
  revert rng fuel. induction rs as [|r rs IH]; intros rng fuel Hne Hpos Hfuel;
    [congruence|].
  inversion Hpos as [|? ? Hr Hpos']; subst.
  cbn [obfuscateRunes].
  pose proof (fun f rest => eval_obfuscateRune f r rng rest Hr) as Hpart.
  destruct (obfuscateRune r rng) as [p rng1].
  destruct rs as [|r' rs'].
  - cbn [obfuscateRunes fst Join length] in *.
    destruct fuel as [|[|fuel]]; try lia.
    rewrite eval_sum_S, Hpart.
    cbn [string_of_runes fold_right]. rewrite append_nil_r. reflexivity.
  - specialize (IH rng1).
    destruct (obfuscateRunes (r' :: rs') rng1) as [ps rng2] eqn:Eps.
    assert (Hps : exists p' ps', ps = p' :: ps').
    { cbn [obfuscateRunes] in Eps.
      destruct (obfuscateRune r' rng1), (obfuscateRunes rs' r0).
      inversion Eps. eauto. }
    destruct Hps as (p' & ps' & ->).
    cbn [fst] in *. cbn [length] in Hfuel.
    change (Join (p :: p' :: ps') "+") with (p +:+ ("+" +:+ Join (p' :: ps') "+")).
    destruct fuel as [|[|fuel]]; try lia.
    rewrite eval_sum_S, !append_assoc, Hpart, append_cons, append_nil_l.
    rewrite IH by (try discriminate; try assumption; cbn [length]; lia).
    reflexivity.
Qed.

(** For every string, the emitted expression evaluates to the
    concatenation of the UTF-8 encodings of the runes the [range] loop
    sees. *)
Lemma obfuscateStringLiteral_eval (s : string) (rng : Rand) :
  eval_string_text (obfuscateStringLiteral s rng).1
  = Some (string_of_runes (range_runes s)).
Proof.
  unfold obfuscateStringLiteral.
  destruct (String.eqb_spec s "") as [->|Hs]; [reflexivity|].
  pose proof (obfuscateRunes_length (range_runes s) rng) as Hlen.
  pose proof (eval_sum_obfuscateRunes (range_runes s) rng "") as Hsum.
  destruct (obfuscateRunes (range_runes s) rng) as [parts rng1].
  cbn [fst] in *. unfold eval_string_text.
  rewrite append_cons, append_nil_l. cbn [String.length eval_sexpr].
  rewrite Hsum; [reflexivity| | |].
  - apply range_runes_nonempty; assumption.
  - apply range_runes_n_nonneg.
  - rewrite length_append. cbn [String.length]. lia.
Qed.

(** C1 (as amended): the empty string is emitted as the empty-string
    literal; for a non-empty string the emitted text is the parenthesised
    sum, in order, of one part per rune of the string; whatever strategy is
    drawn, the part for a rune evaluates to that rune as a string; and for
    every string that is valid UTF-8 the whole expression evaluates to
    exactly that string. *)
Theorem obfuscateStringLiteral_roundtrip (s : string) (rng : Rand) :
  ValidString s = true ->
  obfuscateStringLiteral "" rng = (quoted "", rng) /\
  (s <> "" ->
   (obfuscateStringLiteral s rng).1
   = "(" +:+ (Join (obfuscateRunes (range_runes s) rng).1 "+" +:+ ")")) /\
  (forall r rng' fuel rest,
     0 <= r ->
     eval_sexpr (S fuel) ((obfuscateRune r rng').1 +:+ rest) = Some (EncodeRune r, rest)) /\
  eval_string_text (obfuscateStringLiteral s rng).1 = Some s.
Proof.
  intros Hvalid. split; [reflexivity|]. split; [|split].
  - intros Hne. unfold obfuscateStringLiteral.
    destruct (String.eqb_spec s ""); [contradiction|].
    destruct (obfuscateRunes (range_runes s) rng). reflexivity.
  - intros r rng' fuel rest Hr. apply eval_obfuscateRune. exact Hr.
  - rewrite obfuscateStringLiteral_eval, string_of_range_runes by assumption.
    reflexivity.
Qed.

Lemma obfuscateStringLiteral_roundtrip_witness :
  obfuscateStringLiteral "" [0; 1; 2; 7; 3] = (quoted "", [0; 1; 2; 7; 3]) /\
  ("Hi!?" <> "" ->
   (obfuscateStringLiteral "Hi!?" [0; 1; 2; 7; 3]).1
   = "(" +:+ (Join (obfuscateRunes (range_runes "Hi!?") [0; 1; 2; 7; 3]).1 "+" +:+ ")")) /\
  (forall r rng' fuel rest,
     0 <= r ->
     eval_sexpr (S fuel) ((obfuscateRune r rng').1 +:+ rest) = Some (EncodeRune r, rest)) /\
  eval_string_text (obfuscateStringLiteral "Hi!?" [0; 1; 2; 7; 3]).1 = Some "Hi!?".
Proof.
  apply (obfuscateStringLiteral_roundtrip "Hi!?" [0; 1; 2; 7; 3]).
  vm_compute. reflexivity.
Defined.

(** C1 as stated fails on a string that is not valid UTF-8: the [range]
    loop yields U+FFFD for the byte 0xFF, and [string(65533)] is the three
    bytes EF BF BD. *)
Lemma obfuscateStringLiteral_invalid_utf8_counterexample :
  (obfuscateStringLiteral (String "255" "") [0]).1 = "(string(65533))" /\
  eval_string_text (obfuscateStringLiteral (String "255" "") [0]).1
    = Some (bytes_string [239; 191; 189]) /\
  eval_string_text (obfuscateStringLiteral (String "255" "") [0]).1
    <> Some (String "255" "").
Proof.
  split; [vm_compute; reflexivity|].
  split; [vm_compute; reflexivity|].
  vm_compute. discriminate.
Qed.

(** ** C5: the format-string encoder *)

Example FindAll_format :
  FindAllStringIndex formatRe "id=%d, name=%-10s (%5.2f%%)" =
  [(3, 5); (12, 17); (19, 24); (24, 26)].
Proof. vm_compute. reflexivity. Qed.

Example FindAll_format_partial :
  FindAllStringIndex formatRe "100% sure %5 d %.x" = [(3, 6)].
Proof. vm_compute. reflexivity. Qed.

Example obfuscateFormatString_ex :
  (obfuscateFormatString "n=%d!" [0; 3; 1]).1 =
  "((string(110)+" +:+ (quoted "=" +:+ (")+" +:+ (quoted "%d" +:+ "+(string(0x21)))"))).
Proof. vm_compute. reflexivity. Qed.

Example obfuscateFormatString_eval_ex :
  eval_string_text (obfuscateFormatString "n=%d!" [0; 3; 1]).1 = Some "n=%d!".
Proof. vm_compute. reflexivity. Qed.

(** *** The backtracking matcher *)

Lemma string_forall_app (p : ascii -> bool) (s t : string) :
  string_forall p (s +:+ t) = string_forall p s && string_forall p t.
Proof.
  induction s as [|a s IH]; [reflexivity|].
  rewrite append_cons. cbn [string_forall]. rewrite IH, andb_assoc. reflexivity.
Qed.

Lemma string_forall_impl (p q : ascii -> bool) (s : string) :
  (forall a, p a = true -> q a = true) ->
  string_forall p s = true -> string_forall q s = true.
Proof.
  intros Hpq. induction s as [|a s IH]; [reflexivity|].
  cbn [string_forall]. rewrite !andb_true_iff. intros [Ha Hs]. auto.
Qed.

(** A successful match splits the string into the matched part, made of
    characters the pattern admits, and the rest handed to the
    continuation. *)
Lemma match_re_split {A : Type} (r : regex) :
  forall (s : string) (k : string -> option A) (x : A),
    match_re r s k = Some x ->
    exists m rest, s = m +:+ rest /\ k rest = Some x /\
                   string_forall (re_chars r) m = true.
Proof.
  induction r as [|c|p|r1 IH1 r2 IH2|r1 IH1 r2 IH2|r1 IH1]; intros s k x H;
    cbn [match_re] in H.
  - exists "", s. auto.
  - destruct s as [|a s']; [discriminate|].
    destruct (Ascii.eqb a c) eqn:E; [|discriminate].
    exists (String a ""), s'. cbn. rewrite E. auto.
  - destruct s as [|a s']; [discriminate|].
    destruct (p a) eqn:E; [|discriminate].
    exists (String a ""), s'. cbn. rewrite E. auto.
  - apply IH1 in H. destruct H as (m1 & rest1 & -> & H & Hm1).
    apply IH2 in H. destruct H as (m2 & rest & -> & H & Hm2).
    exists (m1 +:+ m2), rest. rewrite append_assoc. split; [reflexivity|].
    split; [assumption|]. rewrite string_forall_app. apply andb_true_iff. split.
    + eapply string_forall_impl; [|eassumption]. intros a Ha. cbn. rewrite Ha. reflexivity.
    + eapply string_forall_impl; [|eassumption]. intros a Ha. cbn. rewrite Ha.
      apply orb_true_r.
  - destruct (match_re r1 s k) as [y|] eqn:E.
    + inversion H; subst y. apply IH1 in E. destruct E as (m & rest & -> & Hk & Hm).
      exists m, rest. repeat split; try assumption.
      eapply string_forall_impl; [|eassumption]. intros a Ha. cbn. rewrite Ha. reflexivity.
    + apply IH2 in H. destruct H as (m & rest & -> & Hk & Hm).
      exists m, rest. repeat split; try assumption.
      eapply string_forall_impl; [|eassumption]. intros a Ha. cbn. rewrite Ha.
      apply orb_true_r.
  - revert H. generalize (String.length s) as n. intros n. revert s.
    induction n as [|n IHn]; intros s H.
    + exists "", s. auto.
    + match type of H with
      | match ?e with _ => _ end = _ => destruct e as [y|] eqn:E
      end.
      * inversion H; subst y. apply IH1 in E.
        destruct E as (m1 & rest1 & -> & Hk & Hm1).
        destruct (String.length rest1 <? String.length (m1 +:+ rest1))%nat; [|discriminate].
        apply IHn in Hk. destruct Hk as (m2 & rest & -> & Hk & Hm2).
        exists (m1 +:+ m2), rest. rewrite append_assoc. split; [reflexivity|].
        split; [assumption|]. rewrite string_forall_app. apply andb_true_iff. auto.
      * exists "", s. auto.
Qed.

Lemma take_app_length (m rest : string) : take (String.length m) (m +:+ rest) = m.
Proof.
  induction m as [|a m IH]; [destruct rest; reflexivity|].
  rewrite append_cons. cbn [String.length take]. rewrite IH. reflexivity.
Qed.

Lemma drop_app_length (m rest : string) : drop (String.length m) (m +:+ rest) = rest.
Proof.
  induction m as [|a m IH]; [destruct rest; reflexivity|].
  rewrite append_cons. cbn [String.length drop]. apply IH.
Qed.

Lemma take_drop (n : nat) (s : string) : take n s +:+ drop n s = s.
Proof.
  revert s. induction n as [|n IH]; intros s; [destruct s; reflexivity|].
  destruct s as [|a s]; [reflexivity|].
  cbn [take drop]. rewrite append_cons, IH. reflexivity.
Qed.

Lemma length_take (n : nat) (s : string) :
  (n <= String.length s)%nat -> String.length (take n s) = n.
Proof.
  revert s. induction n as [|n IH]; intros s Hn; [destruct s; reflexivity|].
  destruct s as [|a s]; cbn [String.length] in *; [lia|].
  cbn [take String.length]. rewrite IH by lia. reflexivity.
Qed.

Lemma length_drop (n : nat) (s : string) :
  String.length (drop n s) = (String.length s - n)%nat.
Proof.
  revert s. induction n as [|n IH]; intros s; [destruct s; cbn; lia|].
  destruct s as [|a s]; [reflexivity|]. cbn [drop String.length]. apply IH.
Qed.

Lemma drop_drop (n m : nat) (s : string) : drop n (drop m s) = drop (m + n) s.
Proof.
  revert s. induction m as [|m IH]; intros s; [destruct s; reflexivity|].
  destruct s as [|a s]; [destruct n; reflexivity|].
  cbn [drop Nat.add]. apply IH.
Qed.

Lemma match_here_spec (r : regex) (s : string) (n : nat) :
  match_here r s = Some n ->
  (n <= String.length s)%nat /\ string_forall (re_chars r) (take n s) = true.
Proof.
  unfold match_here. destruct (match_re r s Some) as [rest|] eqn:E; [|discriminate].
  intros [= <-]. apply match_re_split in E.
  destruct E as (m & rest' & -> & [= ->] & Hm).
  rewrite length_append.
  replace (String.length m + String.length rest - String.length rest)%nat
    with (String.length m) by lia.
  rewrite take_app_length. split; [lia|assumption].
Qed.

Lemma find_first_spec (r : regex) (s : string) (i n : nat) :
  find_first r s = Some (i, n) ->
  (i + n <= String.length s)%nat /\
  string_forall (re_chars r) (take n (drop i s)) = true.
Proof.
  revert i. induction s as [|a s IH]; intros i; cbn [find_first].
  - destruct (match_here r "") as [n0|] eqn:E; [|discriminate].
    intros [= <- <-]. apply match_here_spec in E. cbn [Nat.add drop]. assumption.
  - destruct (match_here r (String a s)) as [n0|] eqn:E.
    + intros [= <- <-]. apply match_here_spec in E. cbn [Nat.add drop]. assumption.
    + destruct (find_first r s) as [[i0 n0]|]; [|discriminate].
      intros [= <- <-]. specialize (IH i0 eq_refl).
      cbn [String.length drop]. split; [lia|apply IH].
Qed.

Lemma find_first_match_here (r : regex) (s : string) (i n : nat) :
  find_first r s = Some (i, n) -> match_here r (drop i s) = Some n.
Proof.
  revert i. induction s as [|a s IH]; intros i; cbn [find_first].
  - destruct (match_here r "") as [n0|] eqn:E; [|discriminate].
    intros [= <- <-]. assumption.
  - destruct (match_here r (String a s)) as [n0|] eqn:E.
    + intros [= <- <-]. assumption.
    + destruct (find_first r s) as [[i0 n0]|]; [|discriminate].
      intros [= <- <-]. cbn [drop]. apply IH. reflexivity.
Qed.

Lemma find_all_chain (r : regex) (whole : string) :
  (forall s n, match_here r s = Some n -> (1 <= n)%nat) ->
  forall (fuel : nat) (pos : nat),
    (pos <= String.length whole)%nat ->
    match_chain (re_chars r) whole (Z.of_nat pos)
      (find_all fuel r (Z.of_nat pos) (drop pos whole)).
Proof.
  intros Hpos. induction fuel as [|fuel IH]; intros pos Hle; cbn [find_all]; [exact I|].
  destruct (find_first r (drop pos whole)) as [[i n]|] eqn:E; [|exact I].
  pose proof (find_first_match_here _ _ _ _ E) as Hn. apply Hpos in Hn.
  apply find_first_spec in E. destruct E as [Hlen Hchars].
  rewrite length_drop in Hlen. rewrite drop_drop in Hchars.
  cbn [match_chain]. unfold len.
  split; [lia|]. split; [lia|]. split; [lia|]. split.
  - unfold slice.
    replace (Z.to_nat (Z.of_nat pos + Z.of_nat i + Z.of_nat n - (Z.of_nat pos + Z.of_nat i)))
      with n by lia.
    replace (Z.to_nat (Z.of_nat pos + Z.of_nat i)) with (pos + i)%nat by lia.
    assumption.
  - destruct n as [|n']; [lia|].
    rewrite drop_drop.
    replace (Z.of_nat pos + Z.of_nat i + Z.of_nat (S n'))
      with (Z.of_nat (pos + (i + S n'))) by lia.
    apply IH. lia.
Qed.

Lemma match_here_formatRe_pos (s : string) (n : nat) :
  match_here formatRe s = Some n -> (1 <= n)%nat.
Proof.
  unfold match_here, formatRe.
  change (match_re (RSeq (RByte "%") ?r) s Some)
    with (match s with
          | String a s' => if Ascii.eqb a "%" then match_re r s' Some else None
          | EmptyString => None
          end).
  destruct s as [|a s']; [discriminate|].
  destruct (Ascii.eqb a "%"); [|discriminate].
  match goal with
  | |- match ?e with _ => _ end = _ -> _ => destruct e as [rest|] eqn:E
  end; [|discriminate].
  intros [= <-]. apply match_re_split in E. destruct E as (m & rest' & -> & [= ->] & _).
  cbn [String.length]. rewrite length_append. lia.
Qed.

Lemma formatRe_chars_plain (a : ascii) :
  re_chars formatRe a = true -> plain_ascii a = true.
Proof.
  destruct a as [[|] [|] [|] [|] [|] [|] [|] [|]]; vm_compute; congruence.
Qed.

(** The matches [obfuscateFormatString] iterates over. *)
Lemma FindAll_formatRe_chain (s : string) :
  match_chain plain_ascii s 0 (FindAllStringIndex formatRe s).
Proof.
  unfold FindAllStringIndex.
  pose proof (find_all_chain formatRe s match_here_formatRe_pos
                (String.length s) O ltac:(lia)) as H.
  change (Z.of_nat 0) with 0 in H. change (drop 0 s) with s in H.
  replace (drop 0 s) with s in H by (destruct s; reflexivity).
  revert H. generalize (find_all (String.length s) formatRe 0 s) as ms.
  generalize 0 as pos. intros pos ms. revert pos.
  induction ms as [|[start stop] ms IH]; intros pos; cbn [match_chain]; [auto|].
  intros (H1 & H2 & H3 & H4 & H5). repeat split; try assumption.
  - eapply string_forall_impl; [|eassumption]. apply formatRe_chars_plain.
  - apply IH. assumption.
Qed.

(** *** Runes across an ASCII byte *)

Lemma range_runes_n_enough (n m : nat) (s : string) :
  (String.length s <= n)%nat -> (String.length s <= m)%nat ->
  range_runes_n n s = range_runes_n m s.
Proof.
  revert m s. induction n as [|n IH]; intros m s Hn Hm.
  - destruct s; [|cbn [String.length] in Hn; lia]. destruct m; reflexivity.
  - destruct m as [|m].
    + destruct s; [reflexivity|cbn [String.length] in Hm; lia].
    + cbn [range_runes_n].
      destruct (DecodeRuneInString s) as [[[r size] rest]|] eqn:E; [|reflexivity].
      apply DecodeRune_length in E. f_equal. apply IH; lia.
Qed.

Lemma range_runes_unfold (s : string) :
  range_runes s =
  match DecodeRuneInString s with
  | None => []
  | Some (r, _, rest) => r :: range_runes rest
  end.
Proof.
  unfold range_runes. destruct s as [|a s']; [reflexivity|].
  cbn [String.length range_runes_n].
  destruct (DecodeRuneInString (String a s')) as [[[r size] rest]|] eqn:E; [|reflexivity].
  apply DecodeRune_length in E. cbn [String.length] in E.
  f_equal. apply range_runes_n_enough; lia.
Qed.

Lemma DecodeRune_ascii (c : ascii) (b : string) :
  byteZ c < 128 -> DecodeRuneInString (String c b) = Some (byteZ c, 1, b).
Proof.
  intros Hc. unfold DecodeRuneInString, RuneSelf.
  destruct (Z.ltb_spec (byteZ c) 128); [reflexivity|lia].
Qed.

(** Decoding never looks past an ASCII byte: in front of one, a sequence
    decodes as it does at the end of the string. *)
Lemma DecodeRune_before_ascii (a rest : string) (c : ascii) (b : string) (r size : Z) :
  byteZ c < 128 ->
  DecodeRuneInString a = Some (r, size, rest) ->
  DecodeRuneInString (a +:+ String c b) = Some (r, size, rest +:+ String c b).
Proof.
  intros Hc. unfold DecodeRuneInString, RuneSelf, locb, hicb.
  destruct a as [|b0 rest1]; [discriminate|]. rewrite append_cons.
  destruct (byteZ b0 <? 128); [intros [= <- <- <-]; reflexivity|].
  destruct (first (byteZ b0)) as [[[sz lo] hi]|] eqn:Hfirst;
    [|intros [= <- <- <-]; reflexivity].
  apply first_spec in Hfirst. destruct Hfirst as (Hlo & Hhi & Hsz).
  destruct rest1 as [|b1 rest2].
  { intros [= <- <- <-]. rewrite append_nil_l.
    destruct (Z.ltb_spec (byteZ c) lo); [reflexivity|lia]. }
  rewrite append_cons.
  destruct ((byteZ b1 <? lo) || (hi <? byteZ b1)); [intros [= <- <- <-]; reflexivity|].
  destruct (sz <=? 2); [intros [= <- <- <-]; reflexivity|].
  destruct rest2 as [|b2 rest3].
  { intros [= <- <- <-]. rewrite append_nil_l.
    destruct (Z.ltb_spec (byteZ c) 128); [reflexivity|lia]. }
  rewrite append_cons.
  destruct ((byteZ b2 <? 128) || (191 <? byteZ b2)); [intros [= <- <- <-]; reflexivity|].
  destruct (sz <=? 3); [intros [= <- <- <-]; reflexivity|].
  destruct rest3 as [|b3 rest4].
  { intros [= <- <- <-]. rewrite append_nil_l.
    destruct (Z.ltb_spec (byteZ c) 128); [reflexivity|lia]. }
  rewrite append_cons.
  destruct ((byteZ b3 <? 128) || (191 <? byteZ b3)); intros [= <- <- <-]; reflexivity.
Qed.

Lemma range_runes_before_ascii (a : string) (c : ascii) (b : string) :
  byteZ c < 128 ->
  range_runes (a +:+ String c b) = (range_runes a ++ range_runes (String c b))%list.
Proof.
  intros Hc.
  remember (String.length a) as n eqn:Hn.
  assert (Hle : (String.length a <= n)%nat) by lia. clear Hn.
  revert a Hle. induction n as [|n IH]; intros a Hle.
  - destruct a; [reflexivity|cbn [String.length] in Hle; lia].
  - rewrite (range_runes_unfold a), (range_runes_unfold (a +:+ String c b)).
    destruct (DecodeRuneInString a) as [[[r size] rest]|] eqn:E.
    + rewrite (DecodeRune_before_ascii _ _ _ _ _ _ Hc E).
      apply DecodeRune_length in E. rewrite IH by lia. reflexivity.
    + destruct a as [|b0 a']; [|exfalso].
      * rewrite append_nil_l. rewrite <- range_runes_unfold. reflexivity.
      * unfold DecodeRuneInString in E.
        repeat match type of E with
               | context [match ?x with _ => _ end] => destruct x
               end; discriminate.
Qed.

Lemma string_of_runes_app (l1 l2 : list Z) :
  string_of_runes (l1 ++ l2) = string_of_runes l1 +:+ string_of_runes l2.
Proof.
  induction l1 as [|r l1 IH]; [reflexivity|].
  cbn [app string_of_runes fold_right]. fold (string_of_runes (l1 ++ l2)).
  fold (string_of_runes l1). rewrite IH, append_assoc. reflexivity.
Qed.

Lemma reencode_ascii (c : ascii) (b : string) :
  byteZ c < 128 -> reencode (String c b) = String c (reencode b).
Proof.
  intros Hc. unfold reencode. rewrite range_runes_unfold, DecodeRune_ascii by assumption.
  cbn [string_of_runes fold_right]. fold (string_of_runes (range_runes b)).
  pose proof (byteZ_range c). rewrite EncodeRune_1 by lia.
  cbn [bytes_string fold_right]. rewrite byte_of_Z_byteZ. reflexivity.
Qed.

Lemma plain_ascii_lt (a : ascii) : plain_ascii a = true -> byteZ a < 128.
Proof.
  unfold plain_ascii. rewrite !andb_true_iff. intros [[[H _] _] _].
  apply Z.ltb_lt. assumption.
Qed.

Lemma reencode_plain (m b : string) :
  string_forall plain_ascii m = true -> reencode (m +:+ b) = m +:+ reencode b.
Proof.
  induction m as [|c m IH]; [reflexivity|].
  cbn [string_forall]. rewrite andb_true_iff. intros [Hc Hm].
  rewrite !append_cons, reencode_ascii by (apply plain_ascii_lt; assumption).
  rewrite IH by assumption. reflexivity.
Qed.

(** Re-encoding distributes over a non-empty run of plain ASCII. *)
Lemma reencode_around_plain (a m b : string) :
  (1 <= String.length m)%nat -> string_forall plain_ascii m = true ->
  reencode (a +:+ (m +:+ b)) = reencode a +:+ (m +:+ reencode b).
Proof.
  intros Hlen Hm. destruct m as [|c m']; [cbn [String.length] in Hlen; lia|].
  rewrite <- reencode_plain by assumption.
  rewrite append_cons. cbn [string_forall] in Hm. apply andb_true_iff in Hm.
  destruct Hm as [Hc _]. apply plain_ascii_lt in Hc.
  unfold reencode. rewrite range_runes_before_ascii by assumption.
  apply string_of_runes_app.
Qed.

Lemma reencode_valid (s : string) : ValidString s = true -> reencode s = s.
Proof. apply string_of_range_runes. Qed.

(** *** Parts and sums *)

Lemma scan_strlit_plain (m rest : string) :
  string_forall plain_ascii m = true ->
  scan_strlit (m +:+ String dquote rest) = Some (m, rest).
Proof.
  induction m as [|c m IH]; intros Hm.
  - rewrite append_nil_l. cbn [scan_strlit]. rewrite Ascii.eqb_refl. reflexivity.
  - cbn [string_forall] in Hm. apply andb_true_iff in Hm. destruct Hm as [Hc Hm].
    rewrite append_cons. cbn [scan_strlit]. rewrite IH by assumption.
    unfold plain_ascii in Hc. rewrite !andb_true_iff, !negb_true_iff in Hc.
    destruct Hc as [[[_ ->] ->] ->]. reflexivity.
Qed.

Lemma part_ok_quoted (m : string) :
  string_forall plain_ascii m = true -> part_ok (quoted m) m.
Proof.
  intros Hm. split; [unfold quoted; cbn [String.length]; lia|].
  intros fuel rest Hfuel. unfold quoted in *. cbn [String.length] in Hfuel.
  destruct fuel as [|fuel]; [lia|].
  rewrite append_cons, append_assoc, append_cons, append_nil_l.
  cbn [eval_sexpr dquote]. apply scan_strlit_plain. assumption.
Qed.

Lemma part_ok_obfuscateStringLiteral (t : string) (rng : Rand) :
  t <> "" -> part_ok (obfuscateStringLiteral t rng).1 (reencode t).
Proof.
  intros Ht. unfold obfuscateStringLiteral.
  destruct (String.eqb_spec t "") as [->|_]; [congruence|].
  pose proof (obfuscateRunes_length (range_runes t) rng) as Hlen.
  pose proof (eval_sum_obfuscateRunes (range_runes t) rng) as Hsum.
  destruct (obfuscateRunes (range_runes t) rng) as [parts rng1]. cbn [fst] in *.
  split; [rewrite append_cons; cbn [String.length]; lia|].
  intros fuel rest Hfuel.
  rewrite append_cons, append_nil_l in *. cbn [String.length] in Hfuel.
  rewrite length_append in Hfuel. cbn [String.length] in Hfuel.
  destruct fuel as [|fuel]; [lia|].
  rewrite append_cons, append_assoc, append_cons, append_nil_l.
  cbn [eval_sexpr]. apply Hsum.
  - apply range_runes_nonempty; assumption.
  - apply range_runes_n_nonneg.
  - lia.
Qed.

Lemma eval_sum_parts (parts vals : list string) :
  Forall2 part_ok parts vals -> parts <> [] ->
  forall (fuel : nat) (rest : string),
    (String.length (Join parts "+") < fuel)%nat ->
    eval_sum fuel (Join parts "+" +:+ String ")" rest) = Some (concat_all vals, rest).
Proof.
  induction 1 as [|p v ps vs [Hp1 Hp] Hall IH]; intros Hne fuel rest Hfuel; [congruence|].
  destruct Hall as [|p' v' ps' vs' Hp' Hall'].
  - cbn [Join] in *. destruct fuel as [|fuel]; [lia|].
    rewrite eval_sum_S, Hp by lia.
    unfold concat_all. cbn [fold_right]. rewrite append_nil_r. reflexivity.
  - change (Join (p :: p' :: ps') "+") with (p +:+ ("+" +:+ Join (p' :: ps') "+")) in *.
    rewrite !length_append in Hfuel. cbn [String.length] in Hfuel.
    destruct fuel as [|fuel]; [lia|].
    rewrite eval_sum_S, !append_assoc, Hp, append_cons, append_nil_l by lia.
    rewrite IH by (try discriminate; lia). reflexivity.
Qed.

Lemma is_quoted_quoted (m : string) : is_quoted (quoted m) = true.
Proof. unfold is_quoted, quoted. cbn [HasPrefix]. rewrite Ascii.eqb_refl. reflexivity. Qed.

Lemma is_quoted_obfuscateStringLiteral (t : string) (rng : Rand) :
  t <> "" -> is_quoted (obfuscateStringLiteral t rng).1 = false.
Proof.
  intros Ht. unfold obfuscateStringLiteral.
  destruct (String.eqb_spec t "") as [->|_]; [congruence|].
  destruct (obfuscateRunes (range_runes t) rng) as [parts rng1]. reflexivity.
Qed.

(** *** Slices *)

Lemma drop_slice (s : string) (lo hi : Z) :
  0 <= lo <= hi -> hi <= len s ->
  drop (Z.to_nat lo) s = slice s lo hi +:+ drop (Z.to_nat hi) s.
Proof.
  intros Hlo Hhi. unfold slice.
  replace (Z.to_nat hi) with (Z.to_nat lo + Z.to_nat (hi - lo))%nat by lia.
  rewrite <- drop_drop, take_drop. reflexivity.
Qed.

Lemma length_slice (s : string) (lo hi : Z) :
  0 <= lo <= hi -> hi <= len s -> len (slice s lo hi) = hi - lo.
Proof.
  intros Hlo Hhi. unfold slice, len in *.
  rewrite length_take; [lia|]. rewrite length_drop. lia.
Qed.

(** *** The loop over the matches *)

Lemma textPart_spec (s : string) (lo hi : Z) (rng : Rand) :
  0 <= lo -> lo < hi -> hi <= len s ->
  (0 <? len (slice s lo hi)) = true /\
  part_ok (obfuscateStringLiteral (slice s lo hi) rng).1 (reencode (slice s lo hi)) /\
  is_quoted (obfuscateStringLiteral (slice s lo hi) rng).1 = false.
Proof.
  intros Hlo Hlt Hhi.
  pose proof (length_slice s lo hi ltac:(lia) Hhi) as Hlen.
  assert (Hne : slice s lo hi <> "").
  { intros E. rewrite E in Hlen. unfold len in Hlen. cbn [String.length] in Hlen. lia. }
  split; [apply Z.ltb_lt; lia|].
  split; [apply part_ok_obfuscateStringLiteral|apply is_quoted_obfuscateStringLiteral];
    assumption.
Qed.

Lemma formatParts_spec (s : string) :
  forall (ms : list (Z * Z)) (lastEnd : Z) (parts : list string) (rng : Rand),
    0 <= lastEnd -> lastEnd <= len s -> match_chain plain_ascii s lastEnd ms ->
    exists new vals lastEnd' rng',
      formatParts s ms lastEnd parts rng = ((parts ++ new)%list, lastEnd', rng') /\
      Forall2 part_ok new vals /\
      lastEnd <= lastEnd' <= len s /\
      reencode (drop (Z.to_nat lastEnd) s)
        = concat_all vals +:+ reencode (drop (Z.to_nat lastEnd') s) /\
      List.filter is_quoted new = passthrough s ms /\
      Forall (format_part s) new /\
      (ms <> [] -> new <> []).
Proof.
  induction ms as [|[start stop] ms IH]; intros lastEnd parts rng H0 Hle Hchain.
  - exists [], [], lastEnd, rng. cbn [formatParts]. rewrite app_nil_r.
    repeat split; try constructor; try lia; congruence.
  - cbn [match_chain] in Hchain. destruct Hchain as (H1 & H2 & H3 & Hplain & Hchain).
    pose proof (length_slice s start stop ltac:(lia) H3) as Hmlen.
    assert (Hm1 : (1 <= String.length (slice s start stop))%nat) by (unfold len in Hmlen; lia).
    assert (Hsplit : reencode (drop (Z.to_nat lastEnd) s) =
                     reencode (slice s lastEnd start) +:+
                     (slice s start stop +:+ reencode (drop (Z.to_nat stop) s))).
    { rewrite (drop_slice s lastEnd start) by lia.
      rewrite (drop_slice s start stop) by lia.
      apply reencode_around_plain; assumption. }
    cbn [formatParts].
    destruct (Z.ltb_spec lastEnd start) as [Hlt|Hge].
    + destruct (textPart_spec s lastEnd start rng H0 Hlt ltac:(lia)) as (-> & Hok & Hnq).
      destruct (obfuscateStringLiteral (slice s lastEnd start) rng) as [e rng1] eqn:Ee.
      cbn [fst] in *.
      destruct (IH stop ((parts ++ [e]) ++ [quoted (slice s start stop)])%list rng1
                  ltac:(lia) H3 Hchain)
        as (new & vals & lastEnd' & rng' & Hrun & Hall & Hbound & Henc & Hfilter & Hkind & _).
      exists (e :: quoted (slice s start stop) :: new),
             (reencode (slice s lastEnd start) :: slice s start stop :: vals),
             lastEnd', rng'.
      split; [rewrite Hrun, <- !app_assoc; reflexivity|].
      split; [constructor; [assumption|constructor; [apply part_ok_quoted; assumption|assumption]]|].
      split; [lia|].
      split; [rewrite Hsplit, Henc; unfold concat_all; cbn [fold_right];
              rewrite !append_assoc; reflexivity|].
      split; [cbn [List.filter passthrough map fst snd]; rewrite Hnq, is_quoted_quoted;
              f_equal; exact Hfilter|].
      split; [|discriminate].
      constructor; [right; exists lastEnd, start, rng; rewrite Ee; reflexivity|].
      constructor; [left; apply is_quoted_quoted|assumption].
    + assert (start = lastEnd) by lia. subst start.
      destruct (IH stop (parts ++ [quoted (slice s lastEnd stop)])%list rng
                  ltac:(lia) H3 Hchain)
        as (new & vals & lastEnd' & rng' & Hrun & Hall & Hbound & Henc & Hfilter & Hkind & _).
      exists (quoted (slice s lastEnd stop) :: new), (slice s lastEnd stop :: vals),
             lastEnd', rng'.
      split; [rewrite Hrun, <- !app_assoc; reflexivity|].
      split; [constructor; [apply part_ok_quoted; assumption|assumption]|].
      split; [lia|].
      split.
      { rewrite Hsplit, Henc. unfold slice at 1. rewrite Z.sub_diag.
        cbn [Z.to_nat take]. unfold reencode at 1. cbn.
        unfold concat_all. cbn [fold_right]. rewrite !append_assoc. reflexivity. }
      split; [cbn [List.filter passthrough map fst snd]; rewrite is_quoted_quoted;
              f_equal; exact Hfilter|].
      split; [|discriminate].
      constructor; [left; apply is_quoted_quoted|assumption].
Qed.

Lemma drop_all (s : string) : drop (String.length s) s = "".
Proof. induction s as [|a s IH]; [reflexivity|]. cbn [String.length drop]. apply IH. Qed.

Lemma concat_all_app (l1 l2 : list string) :
  concat_all (l1 ++ l2) = concat_all l1 +:+ concat_all l2.
Proof.
  unfold concat_all. induction l1 as [|x l1 IH]; [reflexivity|].
  cbn [app fold_right]. rewrite IH, append_assoc. reflexivity.
Qed.

Lemma eval_string_text_sum (parts vals : list string) :
  Forall2 part_ok parts vals -> parts <> [] ->
  eval_string_text ("(" +:+ (Join parts "+" +:+ ")")) = Some (concat_all vals).
Proof.
  intros Hall Hne. unfold eval_string_text.
  rewrite append_cons, append_nil_l. cbn [String.length eval_sexpr].
  rewrite eval_sum_parts with (vals := vals); try assumption; [reflexivity|].
  rewrite length_append. cbn [String.length]. lia.
Qed.

(** The parts of the expression [obfuscateFormatString] emits when the
    template has a specifier, and what they evaluate to. *)
Lemma obfuscateFormatString_parts (s : string) (rng : Rand) :
  FindAllStringIndex formatRe s <> [] ->
  exists parts vals,
    (obfuscateFormatString s rng).1 = "(" +:+ (Join parts "+" +:+ ")") /\
    Forall2 part_ok parts vals /\ parts <> [] /\
    concat_all vals = reencode s /\
    List.filter is_quoted parts = passthrough s (FindAllStringIndex formatRe s) /\
    Forall (format_part s) parts.
Proof.
  intros Hms. unfold obfuscateFormatString.
  pose proof (FindAll_formatRe_chain s) as Hchain.
  pose proof (Zle_0_nat (String.length s)) as Hlen0. fold (len s) in Hlen0.
  destruct (formatParts_spec s (FindAllStringIndex formatRe s) 0 [] rng
              ltac:(lia) Hlen0 Hchain)
    as (new & vals & lastEnd & rng1 & Hrun & Hall & Hbound & Henc & Hfilter & Hkind & Hne).
  specialize (Hne Hms).
  destruct (FindAllStringIndex formatRe s) as [|m ms] eqn:E; [congruence|].
  rewrite Hrun. cbn [app].
  change (drop (Z.to_nat 0) s) with (drop 0 s) in Henc.
  replace (drop 0 s) with s in Henc by (destruct s; reflexivity).
  destruct (Z.ltb_spec lastEnd (len s)) as [Hlt|Hge].
  - destruct (textPart_spec s lastEnd (len s) rng1 ltac:(lia) Hlt ltac:(lia))
      as (-> & Hok & Hnq).
    destruct (obfuscateStringLiteral (slice s lastEnd (len s)) rng1) as [e rng2] eqn:Ee.
    cbn [fst] in *.
    exists (new ++ [e])%list, (vals ++ [reencode (slice s lastEnd (len s))])%list.
    split; [reflexivity|].
    split; [apply Forall2_app; [assumption|constructor; [assumption|constructor]]|].
    split; [destruct new; discriminate|].
    split.
    { rewrite concat_all_app, Henc. f_equal.
      rewrite (drop_slice s lastEnd (len s)) by lia.
      unfold len at 3. rewrite Nat2Z.id, drop_all, append_nil_r.
      unfold concat_all. cbn [fold_right]. rewrite append_nil_r. reflexivity. }
    split.
    { rewrite List.filter_app. cbn [List.filter]. rewrite Hnq, app_nil_r. assumption. }
    apply Forall_app. split; [assumption|].
    constructor; [|constructor]. right. exists lastEnd, (len s), rng1.
    rewrite Ee. reflexivity.
  - assert (lastEnd = len s) by lia. subst lastEnd.
    exists new, vals. cbn [fst].
    split; [reflexivity|]. split; [assumption|]. split; [assumption|].
    split; [|split; assumption].
    rewrite Henc. unfold len. rewrite Nat2Z.id, drop_all.
    change (reencode "") with "". rewrite append_nil_r. reflexivity.
Qed.

(** C5 (as amended): for every template [s] with at least one recognised
    format specifier, valid UTF-8 or not, the expression emitted by
    [obfuscateFormatString] is a parenthesised sum of parts; its quoted
    parts, in order, are exactly the specifiers [FindAllStringIndex] finds
    in [s], each passed through verbatim; every other part is the
    character-split encoding of a slice of the text.  When [s] is valid
    UTF-8, the whole expression evaluates to [s]. *)
Theorem obfuscateFormatString_preserves_specifiers (s : string) (rng : Rand) :
  FindAllStringIndex formatRe s <> [] ->
  exists parts,
    (obfuscateFormatString s rng).1 = "(" +:+ (Join parts "+" +:+ ")") /\
    List.filter is_quoted parts = passthrough s (FindAllStringIndex formatRe s) /\
    Forall (format_part s) parts /\
    (ValidString s = true ->
     eval_string_text (obfuscateFormatString s rng).1 = Some s).
Proof.
  intros Hms.
  destruct (obfuscateFormatString_parts s rng Hms)
    as (parts & vals & Htext & Hall & Hne & Hvals & Hfilter & Hkind).
  exists parts. repeat split; try assumption.
  intros Hvalid.
  rewrite Htext, (eval_string_text_sum parts vals Hall Hne), Hvals.
  rewrite reencode_valid by assumption. reflexivity.
Qed.

(** The theorem at a valid template, where the expression evaluates to the
    template, and at the template of the counterexample below, where the
    specifier is passed through all the same. *)
Lemma obfuscateFormatString_preserves_specifiers_witness :
  (exists parts,
     (obfuscateFormatString "n=%d, w=%-5.2f!" [0; 3; 1; 2; 4]).1
       = "(" +:+ (Join parts "+" +:+ ")") /\
     List.filter is_quoted parts = [quoted "%d"; quoted "%-5.2f"] /\
     Forall (format_part "n=%d, w=%-5.2f!") parts /\
     eval_string_text (obfuscateFormatString "n=%d, w=%-5.2f!" [0; 3; 1; 2; 4]).1
       = Some "n=%d, w=%-5.2f!") /\
  (exists parts,
     (obfuscateFormatString (String "255" "%d") [0]).1
       = "(" +:+ (Join parts "+" +:+ ")") /\
     List.filter is_quoted parts = [quoted "%d"] /\
     Forall (format_part (String "255" "%d")) parts).
Proof.
  split.
  - destruct (obfuscateFormatString_preserves_specifiers "n=%d, w=%-5.2f!" [0; 3; 1; 2; 4])
      as (parts & Htext & Hfilter & Hkind & Heval); [vm_compute; discriminate|].
    exists parts. split; [exact Htext|]. split; [exact Hfilter|]. split; [exact Hkind|].
    apply Heval. vm_compute. reflexivity.
  - destruct (obfuscateFormatString_preserves_specifiers (String "255" "%d") [0])
      as (parts & Htext & Hfilter & Hkind & _); [vm_compute; discriminate|].
    exists parts. split; [exact Htext|]. split; [exact Hfilter|]. exact Hkind.
Defined.

Example passthrough_ex :
  passthrough "n=%d, w=%-5.2f!" (FindAllStringIndex formatRe "n=%d, w=%-5.2f!")
  = [quoted "%d"; quoted "%-5.2f"].
Proof. vm_compute. reflexivity. Qed.

(** C5 as stated fails on a template that is not valid UTF-8: the byte
    0xFF in front of the specifier is re-encoded as U+FFFD. *)
Lemma obfuscateFormatString_invalid_utf8_counterexample :
  FindAllStringIndex formatRe (String "255" "%d") = [(1, 3)] /\
  (obfuscateFormatString (String "255" "%d") [0]).1
    = "((string(65533))+" +:+ (quoted "%d" +:+ ")") /\
  eval_string_text (obfuscateFormatString (String "255" "%d") [0]).1
    = Some (bytes_string [239; 191; 189] +:+ "%d") /\
  eval_string_text (obfuscateFormatString (String "255" "%d") [0]).1
    <> Some (String "255" "%d").
Proof.
  split; [vm_compute; reflexivity|].
  split; [vm_compute; reflexivity|].
  split; [vm_compute; reflexivity|].
  vm_compute. discriminate.
Qed.

(** ** C3: the name generator *)

Example letters_length : length letters = 52%nat /\ length obfuscationChars = 28%nat.
Proof. vm_compute. split; reflexivity. Qed.

Example generateObfuscatedName_zero_draws :
  generateObfuscatedName 20 [] = Some ("aOOOOOOOOOOOOOOOOOOO", []).
Proof. vm_compute. reflexivity. Qed.

Example getObfuscatedName_twice :
  match getObfuscatedName 5 "count" (initState [3; 7; 7]) with
  | Some (r, s1) =>
      getObfuscatedName 5 "count" s1 = Some (r, s1) /\ String.length r = 22%nat
  | None => False
  end.
Proof. vm_compute. split; reflexivity. Qed.

Lemma nameExists_spec (m : gmap string string) (v : string) :
  nameExists m v = true <-> exists k, m !! k = Some v.
Proof.
  unfold nameExists. rewrite existsb_exists. split.
  - intros (x & Hin & Heq). apply String.eqb_eq in Heq. subst x.
    apply list_elem_of_In, list_elem_of_fmap in Hin.
    destruct Hin as ([k v'] & -> & Hin). apply elem_of_map_to_list in Hin.
    exists k. assumption.
  - intros (k & Hk). exists v. split; [|apply String.eqb_refl].
    apply list_elem_of_In, list_elem_of_fmap. exists (k, v).
    split; [reflexivity|]. apply elem_of_map_to_list. assumption.
Qed.

(** A candidate is accepted only if no key maps to it. *)
Lemma freshName_fresh (fuel : nat) (m : gmap string string) (rng rng' : Rand) (v : string) :
  freshName fuel m rng = Some (v, rng') -> forall k, m !! k <> Some v.
Proof.
  revert rng. induction fuel as [|fuel IH]; intros rng; cbn [freshName]; [discriminate|].
  destruct (generateObfuscatedName 20 rng) as [[newName rng1]|]; [|discriminate].
  destruct (nameExists m newName) eqn:E; [apply IH|].
  intros [= <- <-] k Hk.
  assert (nameExists m newName = true) by (apply nameExists_spec; eauto).
  congruence.
Qed.

(** The loop ends as soon as a candidate is fresh. *)
Lemma freshName_first (fuel : nat) (m : gmap string string) (rng rng' : Rand) (v : string) :
  generateObfuscatedName 20 rng = Some (v, rng') -> nameExists m v = false ->
  freshName (S fuel) m rng = Some (v, rng').
Proof. intros Hgen Hfresh. cbn [freshName]. rewrite Hgen, Hfresh. reflexivity. Qed.

(** The retry loop has no bound in the source: a call returns when the
    name is already recorded, or as soon as a candidate is not among the
    recorded replacements; here, when the first candidate is not. *)
Lemma getObfuscatedName_returns (fuel : nat) (original : string) (s : State) :
  is_Some (nameMap s !! original) \/
  (exists v rng', generateObfuscatedName 20 (rand s) = Some (v, rng') /\
                  nameExists (nameMap s) v = false) ->
  is_Some (getObfuscatedName (S fuel) original s).
Proof.
  intros H. unfold getObfuscatedName.
  destruct (nameMap s !! original) as [existing|] eqn:E; [eexists; reflexivity|].
  destruct H as [[x Hx]|(v & rng' & Hgen & Hfresh)]; [discriminate|].
  rewrite (freshName_first fuel _ _ _ _ Hgen Hfresh). eexists; reflexivity.
Qed.

Lemma getObfuscatedName_cases (fuel : nat) (original : string) (s s' : State) (v : string) :
  getObfuscatedName fuel original s = Some (v, s') ->
  (nameMap s !! original = Some v /\ s' = s) \/
  (nameMap s !! original = None /\ (forall k, nameMap s !! k <> Some v) /\
   exists rng, s' = set_nameMap (<[original := v]> (nameMap s)) rng s).
Proof.
  unfold getObfuscatedName.
  destruct (nameMap s !! original) as [existing|] eqn:E.
  - intros [= <- <-]. left. auto.
  - destruct (freshName fuel (nameMap s) (rand s)) as [[newName rng]|] eqn:F; [|discriminate].
    intros [= <- <-]. right. split; [reflexivity|]. split; [|eauto].
    eapply freshName_fresh; eassumption.
Qed.

Lemma getObfuscatedName_lookup (fuel : nat) (original : string) (s s' : State) (v : string) :
  getObfuscatedName fuel original s = Some (v, s') -> nameMap s' !! original = Some v.
Proof.
  intros H. apply getObfuscatedName_cases in H.
  destruct H as [[H ->]|(_ & _ & rng & ->)]; [assumption|].
  cbn. apply lookup_insert_eq.
Qed.

(** The map is write-once per key. *)
Lemma getObfuscatedName_keeps (fuel : nat) (original : string) (s s' : State) (v : string) :
  getObfuscatedName fuel original s = Some (v, s') ->
  forall k x, nameMap s !! k = Some x -> nameMap s' !! k = Some x.
Proof.
  intros H k x Hk. apply getObfuscatedName_cases in H.
  destruct H as [[_ ->]|(Hnone & _ & rng & ->)]; [assumption|].
  cbn. rewrite lookup_insert_ne; [assumption|]. intros <-. congruence.
Qed.

Lemma getObfuscatedName_injective (fuel : nat) (original : string) (s s' : State) (v : string) :
  injective_map (nameMap s) ->
  getObfuscatedName fuel original s = Some (v, s') ->
  injective_map (nameMap s').
Proof.
  intros Hinj H. apply getObfuscatedName_cases in H.
  destruct H as [[_ ->]|(Hnone & Hfresh & rng & ->)]; [assumption|].
  cbn. intros a b x Ha Hb.
  destruct (decide (original = a)) as [<-|Ha'], (decide (original = b)) as [<-|Hb'];
    try reflexivity.
  - rewrite lookup_insert_eq in Ha. rewrite lookup_insert_ne in Hb by assumption.
    inversion Ha; subst x. exfalso. eapply Hfresh; eassumption.
  - rewrite lookup_insert_eq in Hb. rewrite lookup_insert_ne in Ha by assumption.
    inversion Hb; subst x. exfalso. eapply Hfresh; eassumption.
  - rewrite lookup_insert_ne in Ha, Hb by assumption. eapply Hinj; eassumption.
Qed.

Lemma allocateAll_spec (fuel : nat) (names : list string) :
  forall s s', injective_map (nameMap s) -> allocateAll fuel names s = Some s' ->
    injective_map (nameMap s') /\
    (forall k x, nameMap s !! k = Some x -> nameMap s' !! k = Some x) /\
    (forall a, a ∈ names -> is_Some (nameMap s' !! a)).
Proof.
  induction names as [|name names IH]; intros s s' Hinj; cbn [allocateAll].
  - intros [= <-]. split; [assumption|]. split; [auto|]. intros a Ha. inversion Ha.
  - destruct (getObfuscatedName fuel name s) as [[v s1]|] eqn:E; [|discriminate].
    intros Hrun.
    pose proof (getObfuscatedName_injective _ _ _ _ _ Hinj E) as Hinj1.
    destruct (IH s1 s' Hinj1 Hrun) as (Hinj' & Hkeep & Hdom).
    split; [assumption|]. split.
    + intros k x Hk. apply Hkeep. eapply getObfuscatedName_keeps; eassumption.
    + intros a Ha. apply elem_of_cons in Ha. destruct Ha as [->|Ha]; [|auto].
      exists v. apply Hkeep. eapply getObfuscatedName_lookup; eassumption.
Qed.

(** C3: the name map stays injective through any run of the allocator:
    starting from an injective map (the empty map at the start of a run),
    after any sequence of calls of [getObfuscatedName] that return, any two
    distinct original names that were processed have distinct replacements,
    and the map as a whole is injective. *)
Theorem nameMap_injective (fuel : nat) (names : list string) (s s' : State) :
  injective_map (nameMap s) ->
  allocateAll fuel names s = Some s' ->
  injective_map (nameMap s') /\
  forall a b, a ∈ names -> b ∈ names -> a <> b ->
    exists ra rb, nameMap s' !! a = Some ra /\ nameMap s' !! b = Some rb /\ ra <> rb.
Proof.
  intros Hinj Hrun.
  destruct (allocateAll_spec fuel names s s' Hinj Hrun) as (Hinj' & _ & Hdom).
  split; [assumption|].
  intros a b Ha Hb Hne.
  destruct (Hdom a Ha) as [ra Hra], (Hdom b Hb) as [rb Hrb].
  exists ra, rb. repeat split; try assumption.
  intros <-. apply Hne. eapply Hinj'; eassumption.
Qed.

Lemma injective_map_empty : injective_map ∅.
Proof. intros a b v Ha. rewrite lookup_empty in Ha. discriminate. Qed.

Lemma nameMap_injective_witness :
  injective_map
    (nameMap (default (initState [])
       (allocateAll 3 ["count"; "total"; "count"] (initState (repeat 0 20 ++ [1])%list)))) /\
  forall a b, a ∈ ["count"; "total"; "count"] -> b ∈ ["count"; "total"; "count"] -> a <> b ->
    exists ra rb,
      nameMap (default (initState [])
        (allocateAll 3 ["count"; "total"; "count"] (initState (repeat 0 20 ++ [1])%list)))
        !! a = Some ra /\
      nameMap (default (initState [])
        (allocateAll 3 ["count"; "total"; "count"] (initState (repeat 0 20 ++ [1])%list)))
        !! b = Some rb /\ ra <> rb.
Proof.
  apply (nameMap_injective 3 ["count"; "total"; "count"] (initState (repeat 0 20 ++ [1])%list)).
  - apply injective_map_empty.
  - vm_compute. reflexivity.
Defined.

Example allocateAll_ex :
  nameMap <$> allocateAll 3 ["count"; "total"; "count"] (initState (repeat 0 20 ++ [1])%list)
  = Some (<["count" := "aOOOOOOOOOOOOOOOOOOO"]> (<["total" := "bOOOOOOOOOOOOOOOOOOO"]> ∅)).
Proof. vm_compute. reflexivity. Qed.

(** ** Walking a tree *)

Lemma mapS_pure {A S : Type} (g : A -> S -> option (A * S)) (h : A -> A)
  (l : list A) (s : S) :
  Forall (fun a => g a s = Some (h a, s)) l -> mapS g l s = Some (map h l, s).
Proof.
  induction 1 as [|a l Ha _ IH]; [reflexivity|].
  cbn [mapS map bindS]. rewrite Ha. cbn [bindS]. rewrite IH. reflexivity.
Qed.

Lemma list_max_lt (l : list nat) (n : nat) :
  (list_max l < n)%nat -> Forall (fun k => (k < n)%nat) l.
Proof.
  intros H. apply Forall_forall. intros k Hk.
  assert (Hle : (list_max l <= list_max l)%nat) by lia.
  rewrite list_max_le in Hle. rewrite List.Forall_forall in Hle.
  apply list_elem_of_In in Hk. specialize (Hle k Hk). lia.
Qed.

Lemma depth_children_lt (l : list Node) (n : nat) :
  (list_max (map depth l) < n)%nat -> Forall (fun c => (depth c < n)%nat) l.
Proof.
  intros H. apply list_max_lt in H. rewrite Forall_fmap in H. exact H.
Qed.

Section InspectRename.

Context {S : Type} (g : S -> Ident -> Ident) (f : Node -> S -> option (Node * S)).
Hypothesis f_ident : forall id s, f (NIdent id) s = Some (NIdent (g s id), s).
Hypothesis f_other : forall n s, (forall id, n <> NIdent id) -> f n s = Some (n, s).

Lemma Inspect_rename_nodes (fuel : nat) (l : list Node) (s : S) :
  (forall n s, (depth n < fuel)%nat -> Inspect f fuel n s = Some (mapIdents (g s) n, s)) ->
  Forall (fun c => (depth c < fuel)%nat) l ->
  mapS (Inspect f fuel) l s = Some (map (mapIdents (g s)) l, s).
Proof.
  intros IH Hall. apply mapS_pure. eapply Forall_impl; [exact Hall|].
  intros c Hc. apply IH. exact Hc.
Qed.

Lemma Inspect_rename_idents (fuel : nat) (l : list Ident) (s : S) :
  (forall n s, (depth n < fuel)%nat -> Inspect f fuel n s = Some (mapIdents (g s) n, s)) ->
  (0 < fuel)%nat ->
  mapS (fun id s => bindS (Inspect f fuel (NIdent id) s)
                          (fun n' s => Some (as_ident n' id, s))) l s
  = Some (map (g s) l, s).
Proof.
  intros IH Hfuel. apply mapS_pure. apply Forall_forall. intros id _.
  rewrite IH by (cbn [depth]; lia). reflexivity.
Qed.

(** A visitor that only renames identifiers, by a function of the
    identifier alone, renames every identifier of the tree. *)
Lemma Inspect_rename (fuel : nat) :
  forall (n : Node) (s : S),
    (depth n < fuel)%nat -> Inspect f fuel n s = Some (mapIdents (g s) n, s).
Proof.
  induction fuel as [|fuel IH]; intros n s Hd; [lia|].
  cbn [Inspect].
  destruct n as [id|v|x sel|fn args|fields|names type|name path|name type
                 |names type values|tok specs|recv name type body|children];
    [rewrite f_ident; reflexivity|rewrite f_other by discriminate..];
    cbn [bindS mapIdents]; cbn [depth] in Hd;
    repeat match goal with
           | |- context [optS _ ?o] => is_var o; destruct o
           end;
    repeat (cbn [bindS optS option_map mapIdents as_ident];
            first [ rewrite IH by (cbn [depth]; lia)
                  | rewrite (Inspect_rename_idents fuel _ _ IH) by lia
                  | rewrite (Inspect_rename_nodes fuel _ _ IH)
                      by (apply depth_children_lt; lia) ]);
    cbn [bindS optS option_map mapIdents as_ident]; reflexivity.
Qed.

Lemma InspectFile_rename (fuel : nat) (file : File) (s : S) :
  (fileDepth file < fuel)%nat ->
  InspectFile f fuel file s = Some (mapFileIdents (g s) file, s).
Proof.
  intros Hd. unfold InspectFile, fileDepth in *.
  rewrite Inspect_rename by (cbn [depth]; lia). cbn [bindS].
  rewrite (Inspect_rename_nodes fuel (Decls file) s (Inspect_rename fuel))
    by (apply depth_children_lt; lia).
  reflexivity.
Qed.

End InspectRename.

Lemma mapS_collect {A S : Type} (g : A -> S -> option (A * S)) (k : A -> S -> S)
  (l : list A) (s : S) :
  Forall (fun a => forall s, g a s = Some (a, k a s)) l ->
  mapS g l s = Some (l, fold_left (fun s a => k a s) l s).
Proof.
  intros H. revert s. induction H as [|a l Ha _ IH]; intros s; [reflexivity|].
  cbn [mapS fold_left bindS]. rewrite Ha. cbn [bindS]. rewrite IH. reflexivity.
Qed.

Lemma fold_left_flat_map {A B S : Type} (F : S -> B -> S) (sub : A -> list B)
  (l : list A) (s : S) :
  fold_left F (flat_map sub l) s = fold_left (fun s a => fold_left F (sub a) s) l s.
Proof.
  revert s. induction l as [|a l IH]; intros s; [reflexivity|].
  cbn [flat_map fold_left]. rewrite fold_left_app. apply IH.
Qed.

Lemma fold_left_map {A B S : Type} (F : S -> B -> S) (m : A -> B) (l : list A) (s : S) :
  fold_left F (map m l) s = fold_left (fun s a => F s (m a)) l s.
Proof. revert s. induction l as [|a l IH]; intros s; [reflexivity|]. cbn. apply IH. Qed.

Section InspectCollect.

Context {S : Type} (h : Node -> S -> S) (f : Node -> S -> option (Node * S)).
Hypothesis f_collect : forall n s, f n s = Some (n, h n s).

Let visit (s : S) (n : Node) : S := h n s.

Lemma Inspect_collect_nodes (fuel : nat) (l : list Node) (s : S) :
  (forall n s, (depth n < fuel)%nat ->
               Inspect f fuel n s = Some (n, fold_left visit (subnodes n) s)) ->
  Forall (fun c => (depth c < fuel)%nat) l ->
  mapS (Inspect f fuel) l s = Some (l, fold_left visit (flat_map subnodes l) s).
Proof.
  intros IH Hall. rewrite fold_left_flat_map.
  apply (mapS_collect (Inspect f fuel) (fun c s => fold_left visit (subnodes c) s)).
  eapply Forall_impl; [exact Hall|]. intros c Hc s0. apply IH. exact Hc.
Qed.

Lemma Inspect_collect_idents (fuel : nat) (l : list Ident) (s : S) :
  (forall n s, (depth n < fuel)%nat ->
               Inspect f fuel n s = Some (n, fold_left visit (subnodes n) s)) ->
  (0 < fuel)%nat ->
  mapS (fun id s => bindS (Inspect f fuel (NIdent id) s)
                          (fun n' s => Some (as_ident n' id, s))) l s
  = Some (l, fold_left visit (map NIdent l) s).
Proof.
  intros IH Hfuel. rewrite fold_left_map.
  apply (mapS_collect _ (fun id s => visit s (NIdent id))).
  apply Forall_forall. intros id _ s0.
  rewrite IH by (cbn [depth]; lia). reflexivity.
Qed.

(** A visitor that leaves the nodes alone folds its effect on the state
    over the nodes of the tree, in the order of the walk. *)
Lemma Inspect_collect (fuel : nat) :
  forall (n : Node) (s : S),
    (depth n < fuel)%nat ->
    Inspect f fuel n s = Some (n, fold_left visit (subnodes n) s).
Proof.
  induction fuel as [|fuel IH]; intros n s Hd; [lia|].
  cbn [Inspect]. rewrite f_collect. cbn [bindS].
  destruct n as [id|v|x sel|fn args|fields|names type|name path|name type
                 |names type values|tok specs|recv name type body|children];
    cbn [depth] in Hd; cbn [subnodes fold_left]; fold (visit s);
    repeat match goal with
           | |- context [optS _ ?o] => is_var o; destruct o
           end;
    repeat (cbn [bindS optS as_ident];
            first [ rewrite IH by (cbn [depth]; lia)
                  | rewrite (Inspect_collect_idents fuel _ _ IH) by lia
                  | rewrite (Inspect_collect_nodes fuel _ _ IH)
                      by (apply depth_children_lt; lia) ]);
    cbn [bindS optS as_ident subnodes fold_left app];
    rewrite ?fold_left_app; cbn [fold_left]; rewrite ?fold_left_app;
    try reflexivity.
Qed.

Lemma InspectFile_collect (fuel : nat) (file : File) (s : S) :
  (fileDepth file < fuel)%nat ->
  InspectFile f fuel file s = Some (file, fold_left visit (fileNodes file) s).
Proof.
  intros Hd. unfold InspectFile, fileDepth, fileNodes in *.
  rewrite Inspect_collect by (cbn [depth]; lia). cbn [bindS subnodes fold_left as_ident].
  rewrite (Inspect_collect_nodes fuel (Decls file) _ (Inspect_collect fuel))
    by (apply depth_children_lt; lia).
  destruct file; reflexivity.
Qed.

End InspectCollect.

(** ** C6: rewriting of struct-type and alias names *)

Lemma identsOf_app (l1 l2 : list Node) :
  identsOf (l1 ++ l2) = (identsOf l1 ++ identsOf l2)%list.
Proof. unfold identsOf. apply flat_map_app. Qed.

Lemma identsOf_idents (names : list Ident) : identsOf (map NIdent names) = names.
Proof.
  induction names as [|a l IH]; [reflexivity|].
  change (identsOf (map NIdent (a :: l))) with (a :: identsOf (map NIdent l)).
  rewrite IH. reflexivity.
Qed.

Lemma identsOf_flat_map (g : Ident -> Ident) (l : list Node) :
  Forall (fun c => identsOf (subnodes (mapIdents g c)) = map g (identsOf (subnodes c))) l ->
  identsOf (flat_map subnodes (map (mapIdents g) l))
  = map g (identsOf (flat_map subnodes l)).
Proof.
  induction 1 as [|c l Hc _ IH]; [reflexivity|].
  cbn [map flat_map]. rewrite !identsOf_app, Hc, IH, map_app. reflexivity.
Qed.

Lemma identsOf_mapIdents (g : Ident -> Ident) (fuel : nat) :
  forall n, (depth n < fuel)%nat ->
    identsOf (subnodes (mapIdents g n)) = map g (identsOf (subnodes n)).
Proof.
  induction fuel as [|fuel IH]; intros n Hd; [lia|].
  assert (Hl : forall l, (list_max (map depth l) < fuel)%nat ->
               identsOf (flat_map subnodes (map (mapIdents g) l))
               = map g (identsOf (flat_map subnodes l))).
  { intros l Hl. apply identsOf_flat_map. apply depth_children_lt in Hl.
    eapply Forall_impl; [exact Hl|]. intros c Hc. apply IH. exact Hc. }
  destruct n as [id|v|x sel|fn args|fields|names type|name path|name type
                 |names type values|tok specs|recv name type body|children];
    cbn [depth] in Hd; cbn [mapIdents subnodes];
    repeat match goal with
           | o : option _ |- _ => destruct o
           end;
    cbn [option_map];
    change (identsOf (?a :: ?l)) with (identsOf [a] ++ identsOf l)%list;
    rewrite ?identsOf_app;
    change (identsOf (?a :: ?l)) with (identsOf [a] ++ identsOf l)%list;
    rewrite ?identsOf_app, ?identsOf_idents, ?map_app, ?identsOf_idents;
    repeat first [ rewrite Hl by lia | rewrite IH by lia ];
    reflexivity.
Qed.

Lemma fileIdents_mapFileIdents (g : Ident -> Ident) (file : File) :
  fileIdents (mapFileIdents g file) = map g (fileIdents file).
Proof.
  unfold fileIdents, fileNodes, mapFileIdents. cbn [PkgName Decls].
  change (identsOf (?a :: ?l)) with (identsOf [a] ++ identsOf l)%list.
  rewrite map_app. f_equal.
  apply identsOf_flat_map. apply Forall_forall. intros c _.
  apply (identsOf_mapIdents g (S (depth c))). lia.
Qed.

Lemma declaredFieldNames_fold (nodes : list Node) (acc : gset string) :
  fold_left (fun (fs : gset string) n =>
               match n with
               | NStructType (Some fields) => list_to_set (fieldListNames fields) ∪ fs
               | _ => fs
               end) nodes acc
  = list_to_set
      (flat_map (fun n => match n with
                          | NStructType (Some fields) => fieldListNames fields
                          | _ => []
                          end) nodes) ∪ acc.
Proof.
  revert acc. induction nodes as [|n nodes IH]; intros acc.
  - cbn. set_solver.
  - cbn [fold_left flat_map]. rewrite IH, list_to_set_app_L.
    destruct n as [| | | |[fields|]| | | | | | |]; set_solver.
Qed.

Lemma collectFieldNameSet_spec (fuel : nat) (file : File) :
  (fileDepth file < fuel)%nat ->
  collectFieldNameSet fuel file = Some (file, declaredFieldNames file).
Proof.
  intros Hd. unfold collectFieldNameSet.
  rewrite (InspectFile_collect
             (fun n (fs : gset string) =>
                match n with
                | NStructType (Some fields) => list_to_set (fieldListNames fields) ∪ fs
                | _ => fs
                end)) by
    (try assumption; intros n s; destruct n as [| | | |[fields|]| | | | | | |]; reflexivity).
  f_equal. f_equal. unfold declaredFieldNames.
  rewrite declaredFieldNames_fold. set_solver.
Qed.

(** [obfuscateStructTypes] returns, and applies [renameTypeIdent] to every
    identifier of the file. *)
Lemma obfuscateStructTypes_spec (fuel : nat) (file : File) (s : State) :
  (fileDepth file < fuel)%nat ->
  obfuscateStructTypes fuel file s
  = Some (mapFileIdents (renameTypeIdent (declaredFieldNames file) s) file, s).
Proof.
  intros Hd. unfold obfuscateStructTypes.
  rewrite collectFieldNameSet_spec by assumption.
  apply (InspectFile_rename (fun s => renameTypeIdent (declaredFieldNames file) s)).
  - reflexivity.
  - intros n s0 Hn. destruct n; try reflexivity. exfalso. eapply Hn. reflexivity.
  - assumption.
Qed.

(** What the visitor does to one identifier. *)
Lemma renameTypeIdent_cases (fns : gset string) (s : State) (id : Ident) :
  (Name id ∈ fns -> renameTypeIdent fns s id = id) /\
  (Name id ∉ fns ->
   (forall r, structTypeMapping s !! Name id = Some r ->
              typeAliasMapping s !! r = None ->
              renameTypeIdent fns s id = setName id r) /\
   (forall r, structTypeMapping s !! Name id = None ->
              typeAliasMapping s !! Name id = Some r ->
              renameTypeIdent fns s id = setName id r) /\
   (structTypeMapping s !! Name id = None ->
    typeAliasMapping s !! Name id = None ->
    renameTypeIdent fns s id = id)).
Proof.
  unfold renameTypeIdent. split.
  - intros Hin. rewrite bool_decide_eq_true_2 by assumption. reflexivity.
  - intros Hnin. rewrite bool_decide_eq_false_2 by assumption.
    repeat split.
    + intros r Hs Ha. rewrite Hs. cbn [setName Name]. rewrite Ha. reflexivity.
    + intros r Hs Ha. rewrite Hs, Ha. reflexivity.
    + intros Hs Ha. rewrite Hs, Ha. reflexivity.
Qed.

(** C6 (as amended): during the struct-type/alias rewriting every
    identifier of the file is treated by its spelling alone.  An identifier
    whose spelling is a field name declared inside some struct type is left
    unchanged.  Otherwise, an identifier whose spelling is a key of the
    alias map (and not of the struct-type map) is rewritten to the recorded
    replacement, and one whose spelling is a key of the struct-type map is
    rewritten to the recorded replacement provided that replacement is not
    itself a key of the alias map.  An identifier whose spelling is in
    neither map is left unchanged. *)
Theorem obfuscateStructTypes_rewrites (fuel : nat) (file : File) (s : State) :
  (fileDepth file < fuel)%nat ->
  exists file',
    obfuscateStructTypes fuel file s = Some (file', s) /\
    fileIdents file'
      = map (renameTypeIdent (declaredFieldNames file) s) (fileIdents file) /\
    forall id,
      (Name id ∈ declaredFieldNames file ->
       renameTypeIdent (declaredFieldNames file) s id = id) /\
      (Name id ∉ declaredFieldNames file ->
       (forall r, structTypeMapping s !! Name id = Some r ->
                  typeAliasMapping s !! r = None ->
                  renameTypeIdent (declaredFieldNames file) s id = setName id r) /\
       (forall r, structTypeMapping s !! Name id = None ->
                  typeAliasMapping s !! Name id = Some r ->
                  renameTypeIdent (declaredFieldNames file) s id = setName id r) /\
       (structTypeMapping s !! Name id = None ->
        typeAliasMapping s !! Name id = None ->
        renameTypeIdent (declaredFieldNames file) s id = id)).
Proof.
  intros Hd. eexists. split; [apply obfuscateStructTypes_spec; assumption|].
  split; [apply fileIdents_mapFileIdents|].
  intros id. apply renameTypeIdent_cases.
Qed.

(** The field names of the local set are those declared in the struct
    types of the file. *)
Lemma declaredFieldNames_spec (file : File) (x : string) :
  x ∈ declaredFieldNames file <->
  exists fields, NStructType (Some fields) ∈ fileNodes file /\ x ∈ fieldListNames fields.
Proof.
  unfold declaredFieldNames. rewrite elem_of_list_to_set, list_elem_of_In, in_flat_map.
  split.
  - intros (n & Hn & Hx). destruct n as [| | | |[fields|]| | | | | | |];
      try (cbn in Hx; contradiction).
    exists fields. split; apply list_elem_of_In; assumption.
  - intros (fields & Hn & Hx). exists (NStructType (Some fields)).
    split; apply list_elem_of_In; assumption.
Qed.

(** C6 as stated fails on the chained lookup: [T] is recorded with the
    replacement [aOOOOOOOOOOOOOOOOOOO]; the program declares an alias type
    of that very spelling, so the second lookup of the visitor rewrites the
    identifier once more: [T] does not end as its recorded replacement, and
    both types end up with one name.  (Whatever the generator draws, the
    program that names its alias type as the replacement drawn for [T]
    behaves so.) *)
Lemma obfuscateStructTypes_chain_counterexample :
  match collect 10 chainFile (initState (repeat 0 20 ++ [1])%list) with
  | Some (file, s) =>
      file = chainFile /\
      structTypeMapping s !! "T" = Some "aOOOOOOOOOOOOOOOOOOO" /\
      bool_decide ("T" ∈ declaredFieldNames file) = false /\
      fileIdents file =
        [ident "p"; identOf Typ "T"; identOf Typ "aOOOOOOOOOOOOOOOOOOO"; ident "int";
         identOf Var "v"; identOf Typ "T"] /\
      fileIdents <$> (fst <$> obfuscateStructTypes 10 file s) =
        Some [ident "p"; identOf Typ "bOOOOOOOOOOOOOOOOOOO";
              identOf Typ "bOOOOOOOOOOOOOOOOOOO"; ident "int";
              identOf Var "v"; identOf Typ "bOOOOOOOOOOOOOOOOOOO"]
  | None => False
  end.
Proof. vm_compute. repeat split. Qed.

Lemma obfuscateStructTypes_rewrites_witness :
  exists file',
    obfuscateStructTypes 10 chainFile
      (set_structTypeMapping {["T" := "x1"]} (initState [])) =
      Some (file', set_structTypeMapping {["T" := "x1"]} (initState [])) /\
    fileIdents file'
      = map (renameTypeIdent (declaredFieldNames chainFile)
               (set_structTypeMapping {["T" := "x1"]} (initState [])))
            (fileIdents chainFile) /\
    forall id,
      (Name id ∈ declaredFieldNames chainFile ->
       renameTypeIdent (declaredFieldNames chainFile)
         (set_structTypeMapping {["T" := "x1"]} (initState [])) id = id) /\
      (Name id ∉ declaredFieldNames chainFile ->
       (forall r, structTypeMapping (set_structTypeMapping {["T" := "x1"]} (initState []))
                    !! Name id = Some r ->
                  typeAliasMapping (set_structTypeMapping {["T" := "x1"]} (initState []))
                    !! r = None ->
                  renameTypeIdent (declaredFieldNames chainFile)
                    (set_structTypeMapping {["T" := "x1"]} (initState [])) id
                  = setName id r) /\
       (forall r, structTypeMapping (set_structTypeMapping {["T" := "x1"]} (initState []))
                    !! Name id = None ->
                  typeAliasMapping (set_structTypeMapping {["T" := "x1"]} (initState []))
                    !! Name id = Some r ->
                  renameTypeIdent (declaredFieldNames chainFile)
                    (set_structTypeMapping {["T" := "x1"]} (initState [])) id
                  = setName id r) /\
       (structTypeMapping (set_structTypeMapping {["T" := "x1"]} (initState []))
          !! Name id = None ->
        typeAliasMapping (set_structTypeMapping {["T" := "x1"]} (initState []))
          !! Name id = None ->
        renameTypeIdent (declaredFieldNames chainFile)
          (set_structTypeMapping {["T" := "x1"]} (initState [])) id = id)).
Proof.
  apply (obfuscateStructTypes_rewrites 10 chainFile
           (set_structTypeMapping {["T" := "x1"]} (initState []))).
  vm_compute. lia.
Defined.

Example obfuscateStructTypes_ex :
  fileIdents <$> (fst <$> obfuscateStructTypes 10 chainFile
                    (set_structTypeMapping {["T" := "x1"]} (initState [])))
  = Some [ident "p"; identOf Typ "x1"; identOf Typ "aOOOOOOOOOOOOOOOOOOO"; ident "int";
          identOf Var "v"; identOf Typ "x1"].
Proof. vm_compute. reflexivity. Qed.

(** ** C10: imports whose paths end in the same segment *)

Example importBaseName_ex :
  importBaseName (quoted "text/template") = "template" /\
  importBaseName (quoted "html/template") = "template" /\
  importBaseName (quoted "os") = "os".
Proof. vm_compute. repeat split. Qed.

Lemma grows_refl (s : State) : grows s s.
Proof. split; auto. Qed.

Lemma grows_trans (s1 s2 s3 : State) : grows s1 s2 -> grows s2 s3 -> grows s1 s3.
Proof.
  intros [Hn12 Ha12] [Hn23 Ha23]. split; [auto|].
  intros k x Ha Hn. apply Ha23; [apply Ha12|apply Hn12]; assumption.
Qed.

Lemma aliased_grows (s s' : State) (spec : Node) :
  grows s s' -> aliased s spec -> aliased s' spec.
Proof.
  intros [Hn Ha]. destruct spec; cbn [aliased]; try (intros _; exact I).
  intros (alias & -> & Hname & Halias). exists alias. auto.
Qed.

Lemma mapS_grows {A : Type} (g : A -> State -> option (A * State))
  (Q : State -> A -> Prop) :
  (forall s s' a, grows s s' -> Q s a -> Q s' a) ->
  (forall a s a' s', g a s = Some (a', s') -> grows s s' /\ Q s' a') ->
  forall l s l' s', mapS g l s = Some (l', s') -> grows s s' /\ Forall (Q s') l'.
Proof.
  intros Hstable Hstep. induction l as [|a l IH]; intros s l' s'; cbn [mapS].
  - intros [= <- <-]. split; [apply grows_refl|constructor].
  - destruct (g a s) as [[a1 s1]|] eqn:Ea; [|discriminate]. cbn [bindS].
    destruct (mapS g l s1) as [[l1 s2]|] eqn:El; [|discriminate]. cbn [bindS].
    intros [= <- <-].
    destruct (Hstep _ _ _ _ Ea) as [Hg1 Hq1].
    destruct (IH _ _ _ El) as [Hg2 Hq2].
    split; [eapply grows_trans; eassumption|].
    constructor; [eapply Hstable; eassumption|assumption].
Qed.

(** One import: the alias is the allocator's answer for the last segment,
    recorded under that segment and attached to the import. *)
Lemma obfuscateImportSpec_spec (fuel : nat) (spec spec' : Node) (s s' : State) :
  obfuscateImportSpec fuel spec s = Some (spec', s') ->
  grows s s' /\ aliased s' spec'.
Proof.
  destruct spec; cbn [obfuscateImportSpec keep];
    try (intros [= <- <-]; split; [apply grows_refl|exact I]).
  destruct (getObfuscatedName fuel (importBaseName path) s) as [[alias s1]|] eqn:E;
    [|discriminate].
  cbn [bindS]. intros [= <- <-].
  pose proof (getObfuscatedName_lookup _ _ _ _ _ E) as Hlook.
  pose proof (getObfuscatedName_keeps _ _ _ _ _ E) as Hkeep.
  assert (Hal : importAliases s1 = importAliases s).
  { apply getObfuscatedName_cases in E.
    destruct E as [[_ ->]|(_ & _ & rng & ->)]; reflexivity. }
  split; [split|].
  - cbn. exact Hkeep.
  - cbn. intros k x Ha Hn. rewrite Hal.
    destruct (decide (importBaseName path = k)) as [<-|Hne].
    + rewrite lookup_insert_eq. apply Hkeep in Hn. congruence.
    + rewrite lookup_insert_ne by assumption. assumption.
  - cbn. exists alias. split; [reflexivity|]. split; [assumption|].
    apply lookup_insert_eq.
Qed.

Lemma obfuscateImportDecl_spec (fuel : nat) (decl decl' : Node) (s s' : State) :
  obfuscateImportDecl fuel decl s = Some (decl', s') ->
  grows s s' /\
  match decl' with
  | NGenDecl IMPORT specs => Forall (aliased s') specs
  | _ => True
  end.
Proof.
  destruct decl as [| | | | | | | | |tok specs| |]; cbn [obfuscateImportDecl keep];
    try (intros [= <- <-]; split; [apply grows_refl|exact I]).
  destruct tok; try (intros [= <- <-]; split; [apply grows_refl|exact I]).
  destruct (mapS (obfuscateImportSpec fuel) specs s) as [[specs' s1]|] eqn:E;
    [|discriminate].
  cbn [bindS]. intros [= <- <-].
  eapply (mapS_grows _ aliased); [| |exact E].
  - intros s0 s0' a. apply aliased_grows.
  - intros a s0 a' s0'. apply obfuscateImportSpec_spec.
Qed.

(** The last part of [strings.Split(p, "/")] is the text after the last
    slash of [p]. *)
Lemma Split_afterLastSlash (p : string) :
  match afterLastSlash p with
  | None => Split p "/" = [p]
  | Some seg =>
      exists piece pieces,
        Split p "/" = piece :: pieces /\ pieces <> [] /\ List.last pieces "" = seg
  end.
Proof.
  induction p as [|a p IH]; [reflexivity|].
  cbn [afterLastSlash Split].
  destruct (afterLastSlash p) as [seg|].
  - destruct IH as (piece & pieces & -> & Hne & Hlast).
    destruct (Ascii.eqb a "/").
    + exists "", (piece :: pieces). split; [reflexivity|]. split; [discriminate|].
      destruct pieces; [congruence|exact Hlast].
    + exists (String a piece), pieces. auto.
  - rewrite IH. destruct (Ascii.eqb a "/"); [|reflexivity].
    exists "", [p]. split; [reflexivity|]. split; [discriminate|reflexivity].
Qed.

Lemma last_Split_lastSegment (p : string) :
  List.last (Split p "/") "" = lastSegment p.
Proof.
  unfold lastSegment. pose proof (Split_afterLastSlash p) as H.
  destruct (afterLastSlash p) as [seg|].
  - destruct H as (piece & pieces & -> & Hne & Hlast).
    destruct pieces; [congruence|exact Hlast].
  - rewrite H. reflexivity.
Qed.

Lemma TrimRight_closing (cutset : ascii -> bool) (c : ascii) (p : string) :
  cutset c = true -> string_forall (fun a => negb (cutset a)) p = true ->
  TrimRight (p +:+ String c "") cutset = p.
Proof.
  intros Hc. induction p as [|a p IH]; cbn [string_forall].
  - intros _. rewrite append_nil_l. cbn [TrimRight]. rewrite Hc. reflexivity.
  - intros H. apply andb_true_iff in H. destruct H as [Ha Hp].
    rewrite append_cons. cbn [TrimRight].
    rewrite (IH Hp). apply negb_true_iff in Ha. rewrite Ha.
    destruct p; reflexivity.
Qed.

(** On the double-quoted literal of a path that holds no quote, the key the
    pass computes is the last segment of the path. *)
Lemma importBaseName_quoted (p : string) :
  plainPath p = true -> importBaseName (quoted p) = lastSegment p.
Proof.
  intros Hp. unfold importBaseName. rewrite <- last_Split_lastSegment. do 2 f_equal.
  assert (Hq : string_forall (fun a => negb (Ascii.eqb dquote a)) p = true).
  { revert Hp. unfold plainPath. apply string_forall_impl.
    intros a Ha. apply andb_true_iff in Ha. destruct Ha as [Ha _].
    rewrite Ascii.eqb_sym. exact Ha. }
  unfold Trim, quoted. cbn [TrimLeft]. rewrite Ascii.eqb_refl.
  destruct p as [|a p].
  - rewrite append_nil_l. cbn [TrimLeft]. rewrite Ascii.eqb_refl. reflexivity.
  - rewrite append_cons. cbn [TrimLeft]. rewrite <- append_cons. pose proof Hq as Hq'.
    cbn [string_forall] in Hq'. apply andb_true_iff in Hq'. destruct Hq' as [Ha _].
    apply negb_true_iff in Ha. rewrite Ha.
    apply (TrimRight_closing (Ascii.eqb dquote) dquote (String a p));
      [apply Ascii.eqb_refl|exact Hq].
Qed.

Lemma mapS_flat_map {A B St : Type} (h : A -> list B) (g : A -> St -> option (A * St)) :
  (forall a s a' s', g a s = Some (a', s') -> h a' = h a) ->
  forall l s l' s', mapS g l s = Some (l', s') -> flat_map h l' = flat_map h l.
Proof.
  intros Hg. induction l as [|a l IH]; intros s l' s'; cbn [mapS].
  - intros [= <- <-]. reflexivity.
  - destruct (g a s) as [[a1 s1]|] eqn:Ea; [|discriminate]. cbn [bindS].
    destruct (mapS g l s1) as [[l1 s2]|] eqn:El; [|discriminate]. cbn [bindS].
    intros [= <- <-]. cbn [flat_map]. rewrite (Hg _ _ _ _ Ea), (IH _ _ _ El). reflexivity.
Qed.

Lemma flat_map_flat_map {A B C : Type} (f : A -> list B) (g : B -> list C) (l : list A) :
  flat_map g (flat_map f l) = flat_map (fun x => flat_map g (f x)) l.
Proof.
  induction l as [|a l IH]; [reflexivity|].
  cbn [flat_map]. rewrite flat_map_app, IH. reflexivity.
Qed.

(** The pass keeps the path literals of the import specs, in order. *)
Lemma obfuscateImports_paths (cfg : Config) (fuel : nat) (file file' : File)
  (s s' : State) :
  obfuscateImports cfg fuel file s = Some (file', s') ->
  importPaths file' = importPaths file.
Proof.
  unfold obfuscateImports. destruct (noImports cfg); [intros [= <- <-]; reflexivity|].
  destruct (mapS (obfuscateImportDecl fuel) (Decls file) s) as [[decls s1]|] eqn:E;
    [|discriminate].
  cbn [bindS]. intros [= <- <-].
  unfold importPaths, importSpecs. cbn [Decls]. rewrite !flat_map_flat_map.
  eapply mapS_flat_map; [|exact E]. clear.
  intros decl s decl' s'. unfold obfuscateImportDecl.
  destruct decl as [| | | | | | | | |tok specs| |]; cbn [keep];
    try (intros [= <- <-]; reflexivity).
  destruct tok; try (intros [= <- <-]; reflexivity).
  destruct (mapS (obfuscateImportSpec fuel) specs s) as [[specs' s1]|] eqn:E;
    [|discriminate].
  cbn [bindS]. intros [= <- <-].
  eapply mapS_flat_map; [|exact E]. clear.
  intros spec s spec' s'. unfold obfuscateImportSpec.
  destruct spec; cbn [keep]; try (intros [= <- <-]; reflexivity).
  destruct (getObfuscatedName fuel (importBaseName path) s) as [[alias s1]|];
    [|discriminate].
  cbn [bindS]. intros [= <- <-]. reflexivity.
Qed.

(** C10 (as amended): a run of the import-aliasing pass (toggle on) that
    returns keeps the path literals of the import specs, and any two
    import specs whose paths are written out between double quotes, as
    [quoted p1] and [quoted p2] without escapes, with [p1] and [p2] ending
    in the same last segment (the text after the last slash), carry the
    identical alias:
    the replacement the name map holds for that segment, which is also the
    one entry the base-to-alias record holds for it. *)
Theorem obfuscateImports_same_base (cfg : Config) (fuel : nat)
  (file file' : File) (s s' : State) :
  noImports cfg = false ->
  obfuscateImports cfg fuel file s = Some (file', s') ->
  importPaths file' = importPaths file /\
  forall name1 p1 name2 p2,
    NImportSpec name1 (quoted p1) ∈ importSpecs file' ->
    NImportSpec name2 (quoted p2) ∈ importSpecs file' ->
    plainPath p1 = true -> plainPath p2 = true ->
    lastSegment p1 = lastSegment p2 ->
    exists alias,
      name1 = Some (mkIdent alias None) /\ name2 = Some (mkIdent alias None) /\
      nameMap s' !! lastSegment p1 = Some alias /\
      importAliases s' !! lastSegment p1 = Some alias.
Proof.
  intros Hcfg Hrun. split; [eapply obfuscateImports_paths; exact Hrun|].
  revert Hrun. unfold obfuscateImports. rewrite Hcfg.
  destruct (mapS (obfuscateImportDecl fuel) (Decls file) s) as [[decls s1]|] eqn:E;
    [|discriminate].
  cbn [bindS]. intros [= <- <-].
  apply (mapS_grows _ (fun s decl => match decl with
                                     | NGenDecl IMPORT specs => Forall (aliased s) specs
                                     | _ => True
                                     end)) in E.
  - destruct E as [_ Hall].
    assert (Hspec : forall spec, spec ∈ importSpecs (mkFile (PkgName file) decls) ->
                                 aliased s1 spec).
    { intros spec Hin. unfold importSpecs in Hin. cbn [Decls] in Hin.
      apply list_elem_of_In, in_flat_map in Hin. destruct Hin as (decl & Hdecl & Hin).
      rewrite List.Forall_forall in Hall. specialize (Hall decl Hdecl).
      destruct decl as [| | | | | | | | |tok specs| |]; try contradiction.
      destruct tok; try contradiction.
      rewrite List.Forall_forall in Hall. apply Hall. assumption. }
    intros name1 p1 name2 p2 H1 H2 Hp1 Hp2 Hbase.
    apply Hspec in H1, H2. cbn [aliased] in H1, H2.
    rewrite (importBaseName_quoted p1 Hp1) in H1.
    rewrite (importBaseName_quoted p2 Hp2), <- Hbase in H2.
    destruct H1 as (alias1 & -> & Hn1 & Ha1), H2 as (alias2 & -> & Hn2 & Ha2).
    exists alias1. repeat split; try assumption.
    congruence.
  - intros s0 s0' decl Hg.
    destruct decl as [| | | | | | | | |tok specs| |]; try (intros _; exact I).
    destruct tok; try (intros _; exact I).
    intros Hall. eapply Forall_impl; [exact Hall|].
    intros spec. apply aliased_grows. assumption.
  - intros a s0 a' s0'. apply obfuscateImportDecl_spec.
Qed.

Example obfuscateImports_templates :
  match obfuscateImports allOn 5 templatesFile (initState (draws 60)) with
  | Some (file', s') =>
      importSpecs file' =
        [NImportSpec (Some (ident "a0olI1aаeеpрcсxхyуkк")) (quoted "text/template");
         NImportSpec (Some (ident "a0olI1aаeеpрcсxхyуkк")) (quoted "html/template");
         NImportSpec (Some (ident "uВHНMМTТO0olI1aаeеpр")) (quoted "os")] /\
      importAliases s' =
        {[ "template" := "a0olI1aаeеpрcсxхyуkк"; "os" := "uВHНMМTТO0olI1aаeеpр" ]}
  | None => False
  end.
Proof. vm_compute. split; reflexivity. Qed.

(** The theorem on [text/template] and [html/template]: both imports come
    out under the one alias recorded for [template]. *)
Lemma obfuscateImports_same_base_witness :
  lastSegment "text/template" = "template" /\
  lastSegment "html/template" = "template" /\
  match obfuscateImports allOn 5 templatesFile (initState (draws 60)) with
  | Some (file', s') =>
      exists name1 name2 alias,
        NImportSpec name1 (quoted "text/template") ∈ importSpecs file' /\
        NImportSpec name2 (quoted "html/template") ∈ importSpecs file' /\
        name1 = Some (mkIdent alias None) /\ name2 = Some (mkIdent alias None) /\
        nameMap s' !! lastSegment "text/template" = Some alias /\
        importAliases s' !! lastSegment "text/template" = Some alias
  | None => False
  end.
Proof.
  split; [reflexivity|]. split; [reflexivity|].
  destruct (obfuscateImports allOn 5 templatesFile (initState (draws 60)))
    as [[file' s']|] eqn:Hrun; [|vm_compute in Hrun; discriminate Hrun].
  pose proof (obfuscateImports_same_base allOn 5 templatesFile file' _ s' eq_refl Hrun)
    as [_ Hsame].
  assert (Hspecs : importSpecs file' =
            [NImportSpec (Some (ident "a0olI1aаeеpрcсxхyуkк")) (quoted "text/template");
             NImportSpec (Some (ident "a0olI1aаeеpрcсxхyуkк")) (quoted "html/template");
             NImportSpec (Some (ident "uВHНMМTТO0olI1aаeеpр")) (quoted "os")]).
  { vm_compute in Hrun. injection Hrun as <- _. reflexivity. }
  assert (H1 : NImportSpec (Some (ident "a0olI1aаeеpрcсxхyуkк")) (quoted "text/template")
               ∈ importSpecs file').
  { rewrite Hspecs. apply list_elem_of_In. cbn [In]. auto. }
  assert (H2 : NImportSpec (Some (ident "a0olI1aаeеpрcсxхyуkк")) (quoted "html/template")
               ∈ importSpecs file').
  { rewrite Hspecs. apply list_elem_of_In. cbn [In]. auto. }
  destruct (Hsame _ _ _ _ H1 H2 eq_refl eq_refl eq_refl) as (alias & Hn1 & Hn2 & Hm & Ha).
  exists (Some (ident "a0olI1aаeеpрcсxхyуkк")), (Some (ident "a0olI1aаeеpрcсxхyуkк")), alias.
  auto 10.
Defined.

(** C10 as stated fails on a path written as a raw string literal: the
    pass trims double quotes only, so the key of [`text/template`] keeps
    the closing backtick, and the two imports, whose paths end in the same
    segment, come out under different aliases and two entries of the
    record.  It fails as well on a path written with an escape: the key is
    cut from the text of the literal, not from the path it denotes. *)
Lemma obfuscateImports_raw_path_counterexample :
  lastSegment "html/template" = lastSegment "text/template" /\
  importBaseName (rawQuoted "text/template") = "template`" /\
  match obfuscateImports allOn 5 rawPathFile (initState (draws 60)) with
  | Some (file', s') =>
      importSpecs file' =
        [NImportSpec (Some (ident "a0olI1aаeеpрcсxхyуkк")) (quoted "html/template");
         NImportSpec (Some (ident "uВHНMМTТO0olI1aаeеpр")) (rawQuoted "text/template")] /\
      importAliases s' =
        {[ "template" := "a0olI1aаeеpрcсxхyуkк"; "template`" := "uВHНMМTТO0olI1aаeеpр" ]}
  | None => False
  end /\
  Unquote (quoted ("text/templat" +:+ String backslash "x65")) = Some "text/template" /\
  match obfuscateImports allOn 5 escapedPathFile (initState (draws 60)) with
  | Some (file', s') =>
      importSpecs file' =
        [NImportSpec (Some (ident "a0olI1aаeеpрcсxхyуkк")) (quoted "html/template");
         NImportSpec (Some (ident "uВHНMМTТO0olI1aаeеpр"))
                     (quoted ("text/templat" +:+ String backslash "x65"))]
  | None => False
  end.
Proof. vm_compute. repeat split. Qed.

(** ** C4: reserved names *)

(** C4 fails on the code: the method [String] of the sample program is a
    reserved name, yet [collectDeclaredFunctions] records it (it only
    excludes [main] and [init]) and [obfuscateFunctions] renames its
    declaration: after the run [String] is a key of the name map and the
    declaration carries the generated name. *)
Theorem reserved_method_is_renamed :
  reserved "String" = true /\
  funcDeclNames stringerFile = ["String"] /\
  match mainTree allOn 10 stringerFile (draws 60) with
  | Some (file', s') =>
      nameMap s' !! "String" = Some "OсxхyуkкBВHНMМTТO0ol" /\
      funcDeclNames file' = ["OсxхyуkкBВHНMМTТO0ol"]
  | None => False
  end.
Proof. vm_compute. repeat split. Qed.

(** ** The text sweeps on sample inputs *)

Example Unquote_ex :
  Unquote (quoted "abc") = Some "abc" /\
  Unquote (quoted (String backslash "tb")) = Some (String "009" "b") /\
  Unquote (quoted (String backslash "x41" +:+ String backslash "101"
                   +:+ String backslash "u0041")) = Some "AAA" /\
  Unquote (quoted (String backslash "q")) = None /\
  Unquote (quoted (String backslash (String backslash ""))) = Some (String backslash "").
Proof. vm_compute. repeat split. Qed.

Example TrimSpace_ex : TrimSpace (tab +:+ "  x := 1 " +:+ tab) = "x := 1".
Proof. vm_compute. reflexivity. Qed.

Example obfuscateIntegersInText_ex :
  (obfuscateIntegersInText allOn
     (tab +:+ "x := 42" +:+ String newline (tab +:+ "y := f(7, 300)")
      +:+ String newline (tab +:+ "s := 'a' + 99 "))
     [0; 23; 1; 5]).1
  = tab +:+ "x := 42" +:+ String newline (tab +:+ "y := f(7, (276+24))")
    +:+ String newline (tab +:+ "s := 'a' + 99 ").
Proof. vm_compute. reflexivity. Qed.

(** ** Replacing the matches of a pattern *)

Lemma replaceAll_rebuild {St : Type} (fuel : nat) (r : regex)
  (repl : string -> St -> string * St) (src : string) (st : St) :
  replaceAll fuel r repl src st
  = rebuild repl (segments fuel r src).1 (segments fuel r src).2 st.
Proof.
  revert src st. induction fuel as [|fuel IH]; intros src st; [reflexivity|].
  cbn [replaceAll segments].
  destruct (find_first r src) as [[i n]|]; [|reflexivity].
  destruct n as [|n].
  - cbn [fst snd rebuild]. destruct (repl (take 0 (drop i src)) st). reflexivity.
  - specialize (IH (drop (i + S n) src)).
    destruct (segments fuel r (drop (i + S n) src)) as [segs tail].
    cbn [fst snd rebuild] in *.
    destruct (repl (take (S n) (drop i src)) st) as [m' st1].
    rewrite IH. reflexivity.
Qed.

(** The segments are a partition of the text. *)
Lemma rebuild_id {St : Type} (fuel : nat) (r : regex) (src : string) (st : St) :
  rebuild (fun m st => (m, st)) (segments fuel r src).1 (segments fuel r src).2 st
  = (src, st).
Proof.
  revert src. induction fuel as [|fuel IH]; intros src; [reflexivity|].
  cbn [segments].
  destruct (find_first r src) as [[i n]|] eqn:E; [|reflexivity].
  assert (Hsrc : take i src +:+ (take n (drop i src) +:+ drop (i + n) src) = src).
  { rewrite <- drop_drop, take_drop, take_drop. reflexivity. }
  destruct n as [|n].
  - cbn [fst snd rebuild]. rewrite Hsrc. reflexivity.
  - specialize (IH (drop (i + S n) src)).
    destruct (segments fuel r (drop (i + S n) src)) as [segs tail].
    cbn [fst snd rebuild] in *. rewrite IH, Hsrc. reflexivity.
Qed.

(** A replacement function that returns every match of the text as it is
    leaves the text as it is. *)
Lemma rebuild_unchanged {St : Type} (repl : string -> St -> string * St)
  (segs : list (string * string)) (tail : string) (st : St) :
  Forall (fun seg => forall st, repl seg.2 st = (seg.2, st)) segs ->
  rebuild repl segs tail st = rebuild (fun m st => (m, st)) segs tail st.
Proof.
  induction 1 as [|[before m] segs Hm _ IH]; [reflexivity|].
  cbn [rebuild]. cbn [snd] in Hm. rewrite Hm, IH. reflexivity.
Qed.

Lemma rebuild_assemble {St : Type} (repl : string -> St -> string * St)
  (segs : list (string * string)) (tail : string) (st : St) :
  exists outs,
    Forall2 (fun seg out => exists st0, out = (repl seg.2 st0).1) segs outs /\
    (rebuild repl segs tail st).1 = assemble segs outs tail.
Proof.
  revert st. induction segs as [|[before m] segs IH]; intros st.
  - exists []. split; [constructor|reflexivity].
  - cbn [rebuild]. destruct (repl m st) as [m' st1] eqn:Em.
    destruct (IH st1) as (outs & Hall & Hout).
    destruct (rebuild repl segs tail st1) as [out st2]. cbn [fst] in *.
    exists (m' :: outs). split.
    + constructor; [|assumption]. exists st. cbn [snd]. rewrite Em. reflexivity.
    + cbn [assemble]. rewrite Hout. reflexivity.
Qed.

Lemma assemble_id (fuel : nat) (r : regex) (src : string) :
  assemble (segments fuel r src).1 (map snd (segments fuel r src).1)
           (segments fuel r src).2 = src.
Proof.
  pose proof (rebuild_id fuel r src tt) as Hid.
  revert Hid. generalize (segments fuel r src).2 as tail.
  generalize (segments fuel r src).1 as segs. intros segs tail.
  revert src. induction segs as [|[before m] segs IH]; intros src; cbn [rebuild].
  - intros [= <-]. reflexivity.
  - destruct (rebuild (fun m st => (m, st)) segs tail tt) as [out st] eqn:E.
    intros [= <-]. cbn [map assemble snd]. rewrite (IH out); [reflexivity|].
    destruct st. reflexivity.
Qed.

Lemma Split_nonempty (s : string) (sep : ascii) : Split s sep <> [].
Proof.
  destruct s as [|a s]; cbn [Split]; [discriminate|].
  destruct (Ascii.eqb a sep); [discriminate|].
  destruct (Split s sep); discriminate.
Qed.

Lemma Join_Split (s : string) (sep : ascii) : JoinSep (Split s sep) sep = s.
Proof.
  unfold JoinSep. induction s as [|a s IH]; [reflexivity|].
  pose proof (Split_nonempty s sep) as Hne.
  cbn [Split]. destruct (Ascii.eqb_spec a sep) as [->|Hneq].
  - destruct (Split s sep) as [|piece pieces] eqn:E; [congruence|].
    change (Join ("" :: piece :: pieces) (String sep ""))
      with ("" +:+ (String sep "" +:+ Join (piece :: pieces) (String sep ""))).
    rewrite IH. reflexivity.
  - destruct (Split s sep) as [|piece pieces] eqn:E; [congruence|].
    destruct pieces as [|piece' pieces'].
    + cbn [Join] in *. rewrite IH. reflexivity.
    + change (Join (String a piece :: piece' :: pieces') (String sep ""))
        with (String a piece +:+ (String sep "" +:+ Join (piece' :: pieces') (String sep ""))).
      change (Join (piece :: piece' :: pieces') (String sep ""))
        with (piece +:+ (String sep "" +:+ Join (piece' :: pieces') (String sep ""))) in IH.
      rewrite append_cons, IH. reflexivity.
Qed.

(** ** C9: the integer sweep *)

Lemma intTokenGate_refl (m : string) : intTokenGate m m.
Proof. repeat split; auto. Qed.

(** The replacement function rewrites a token only when the number its
    digits spell in base 10 is above 10 and at most 100000. *)
Lemma obfuscateIntToken_gate (m : string) (rng : Rand) :
  intTokenGate m (obfuscateIntToken m rng).1.
Proof.
  unfold obfuscateIntToken.
  destruct (ParseInt (FindString numRe m)) as [n|] eqn:E; [|apply intTokenGate_refl].
  destruct (Z.leb_spec n 10) as [Hle|Hgt]; [apply intTokenGate_refl|].
  destruct (Z.ltb_spec 100000 n) as [Hbig|Hok]; [apply intTokenGate_refl|].
  cbn [orb].
  pose proof (obfuscateInteger_roundtrip_sweep n rng ltac:(lia)) as Heval.
  destruct (obfuscateInteger n rng) as [e rng1] eqn:Ee. cbn [fst] in *.
  unfold intTokenGate. rewrite E. split; [|split].
  - right. exists n, rng. rewrite Ee. cbn [fst]. repeat split; try assumption; lia.
  - intros n0 [= <-] Hn. lia.
  - discriminate.
Qed.

Lemma intLines_gate (lines : list string) (rng : Rand) :
  Forall2 intLineGate lines (intLines lines rng).1.
Proof.
  assert (Hkeep : forall line, intLineGate line line).
  { intros line. split; [reflexivity|].
    exists (map snd (segments (String.length line) intTokenRe line).1).
    split; [|symmetry; apply assemble_id].
    generalize (segments (String.length line) intTokenRe line).1 as segs.
    induction segs as [|seg segs IH]; constructor; [apply intTokenGate_refl|assumption]. }
  revert rng. induction lines as [|line lines IH]; intros rng; cbn [intLines];
    [constructor|].
  destruct (hasQuoting line) eqn:Hq.
  { specialize (IH rng). destruct (intLines lines rng) as [out rng1].
    constructor; [apply Hkeep|assumption]. }
  destruct (isHeaderLine line).
  { specialize (IH rng). destruct (intLines lines rng) as [out rng1].
    constructor; [apply Hkeep|assumption]. }
  unfold ReplaceAllStringFunc. rewrite replaceAll_rebuild.
  destruct (rebuild_assemble obfuscateIntToken
              (segments (String.length line) intTokenRe line).1
              (segments (String.length line) intTokenRe line).2 rng)
    as (outs & Hall & Hout).
  destruct (rebuild obfuscateIntToken _ _ rng) as [line' rng1]. cbn [fst] in Hout.
  specialize (IH rng1). destruct (intLines lines rng1) as [out rng2].
  constructor; [|assumption].
  split; [intros Hq'; congruence|]. exists outs. split; [|assumption].
  eapply Forall2_impl; [exact Hall|].
  intros seg o (st0 & ->). apply obfuscateIntToken_gate.
Qed.

(** For digits without a leading zero the base-10 reading of the sweep is
    the value Go gives the literal, as long as it fits in 64 bits. *)
Lemma goIntLit_ParseInt (digits : string) (n : Z) :
  leadingZero digits = false -> goIntLit digits = Some n ->
  ParseInt digits = if MaxInt64 <? n then None else Some n.
Proof.
  intros Hz. unfold ParseInt, goIntLit. rewrite Hz.
  destruct (scan_dec digits) as [d rest].
  destruct d; try discriminate;
    (destruct rest; [|discriminate]); intros [= <-]; reflexivity.
Qed.

Lemma intTokenGate_value (m out : string) : intTokenGate m out -> intValueGate m out.
Proof.
  intros (Hcases & Hout & Hnone) Hz n Hv.
  pose proof (goIntLit_ParseInt _ _ Hz Hv) as Hparse.
  destruct (Z.ltb_spec MaxInt64 n) as [Hbig|Hfit].
  - rewrite (Hnone Hparse). split; [left; reflexivity|reflexivity].
  - split; [|apply Hout; exact Hparse].
    destruct Hcases as [->|(n' & rng & Hn' & Hrange & -> & Heval)]; [left; reflexivity|].
    rewrite Hparse in Hn'. injection Hn' as <-.
    right. split; [exact Hrange|]. exists rng. split; [reflexivity|exact Heval].
Qed.

(** C9 (as amended): the text after the bare-integer sweep is the text
    before it, line by line, where a line containing a quoting character
    or a string conversion is left as it is, and in any line each
    separator-bounded integer token without a leading zero is either left
    as it is or, only when its value [n] satisfies [10 < n <= 100000],
    replaced by its separators around an arithmetic encoding that evaluates
    to [n]; every such token with [n <= 10] or [n > 100000] is left as it
    is.  The sweep tests the number the digits spell in base 10
    ([intTokenGate]), which is the value of a token without a leading
    zero. *)
Theorem obfuscateIntegersInText_gate (cfg : Config) (content : string) (rng : Rand) :
  exists lines',
    (obfuscateIntegersInText cfg content rng).1 = JoinSep lines' newline /\
    Forall2 intSweepLine (Split content newline) lines'.
Proof.
  assert (Hline : forall line line', intLineGate line line' -> intSweepLine line line').
  { intros line line' (Hq & outs & Hall & Hout). split; [exact Hq|].
    exists outs. split; [|exact Hout].
    eapply Forall2_impl; [exact Hall|].
    intros seg out Hgate. split; [exact Hgate|apply intTokenGate_value; exact Hgate]. }
  unfold obfuscateIntegersInText. destruct (noInts cfg).
  - exists (Split content newline). cbn [fst]. split; [symmetry; apply Join_Split|].
    generalize (Split content newline) as lines.
    induction lines as [|line lines IH]; constructor; [|assumption].
    apply Hline. split; [reflexivity|].
    exists (map snd (segments (String.length line) intTokenRe line).1).
    split; [|symmetry; apply assemble_id].
    generalize (segments (String.length line) intTokenRe line).1 as segs.
    induction segs as [|seg segs IHs]; constructor; [apply intTokenGate_refl|assumption].
  - pose proof (intLines_gate (Split content newline) rng) as H.
    destruct (intLines (Split content newline) rng) as [lines' rng1].
    exists lines'. split; [reflexivity|].
    eapply Forall2_impl; [exact H|]. exact Hline.
Qed.

(** The theorem on a line that calls [f] on the token [644]: what stands
    in its place is the token or an encoding that evaluates to 644. *)
Lemma obfuscateIntegersInText_gate_witness :
  goIntLit "644" = Some 644 /\
  exists out,
    (out = "(644)" \/
     exists rng, out = "(" +:+ ((obfuscateInteger 644 rng).1 +:+ ")") /\
                 eval_int_text (obfuscateInteger 644 rng).1 = Some 644) /\
    (obfuscateIntegersInText allOn (tab +:+ "n := f(644)") [1; 7]).1
    = tab +:+ "n := f" +:+ out.
Proof.
  split; [reflexivity|].
  destruct (obfuscateIntegersInText_gate allOn (tab +:+ "n := f(644)") [1; 7])
    as (lines' & Hout & Hall).
  inversion Hall as [|line l' lines l'' Hgate Hrest]; subst.
  inversion Hrest; subst.
  destruct Hgate as [_ (outs & Houts & Hline)].
  change (Forall2 (fun seg out => intTokenGate seg.2 out /\ intValueGate seg.2 out)
                  [(tab +:+ "n := f", "(644)")] outs) in Houts.
  inversion Houts as [|seg o1 segs os1 [_ Hvalue] Hrest1]; subst.
  inversion Hrest1; subst.
  change ((obfuscateIntegersInText allOn (tab +:+ "n := f(644)") [1; 7]).1
          = tab +:+ "n := f" +:+ (o1 +:+ "")) in Hout.
  rewrite append_nil_r in Hout.
  exists o1. split; [|exact Hout].
  destruct (Hvalue eq_refl 644 eq_refl) as [[->|(_ & rng & -> & Heval)] _].
  - left. reflexivity.
  - right. exists rng. split; [reflexivity|exact Heval].
Defined.

(** C9 as stated fails on a token with a leading zero, which Go reads as
    octal: [012] has the value 10, which is not above 10, yet the sweep
    reads it as 12 and replaces it by an expression that evaluates to 12;
    and [0644], of value 420, is replaced by an expression that evaluates
    to 644.  A token of value 10 written [10] is left as it is. *)
Lemma obfuscateIntegersInText_octal_counterexample :
  goIntLit "012" = Some 10 /\
  (obfuscateIntegersInText allOn (tab +:+ "n := f(012)") [0; 4]).1
    = tab +:+ "n := f((7+5))" /\
  eval_int_text "(7+5)" = Some 12 /\
  (obfuscateIntegersInText allOn (tab +:+ "n := f(10)") [0; 4]).1
    = tab +:+ "n := f(10)" /\
  goIntLit "0644" = Some 420 /\
  (obfuscateIntegersInText allOn (tab +:+ "os.Chmod(name, 0644)") [1; 7]).1
    = tab +:+ "os.Chmod(name, (652-8))" /\
  eval_int_text "(652-8)" = Some 644.
Proof. vm_compute. repeat split. Qed.

(** ** C8: the string-literal sweep *)

(** The replacement function: a match that does not unquote or whose
    value is excluded is returned as it is; any other is handed to the
    format-string encoder when its value contains a percent sign and to the
    plain string encoder otherwise. *)
Lemma obfuscateLiteral_gate (isVar : bool) (m : string) (rng : Rand) :
  stringLitGate isVar m (obfuscateLiteral isVar m rng).1.
Proof.
  unfold stringLitGate, obfuscateLiteral, excludedValue.
  destruct (Unquote m) as [s|]; [|reflexivity].
  destruct (len s <? 3); [reflexivity|].
  destruct (Contains s (String backslash "")); [reflexivity|].
  destruct (Contains s "://" && negb isVar); [reflexivity|].
  cbn [orb]. exists rng. destruct (Contains s "%"); reflexivity.
Qed.

Lemma stringLines_gate (lines : list string) (inImportBlock : bool) (rng : Rand) :
  Forall2 stringLineGate (zip lines (skippedLines lines inImportBlock))
          (stringLines lines inImportBlock rng).1.
Proof.
  revert inImportBlock rng.
  induction lines as [|line lines IH]; intros inImportBlock rng;
    cbn [stringLines skippedLines]; [constructor|].
  repeat match goal with
         | |- context [if ?c then _ else _] =>
             destruct c;
             [match goal with
              | |- context [stringLines lines ?b ?r] =>
                  specialize (IH b r); destruct (stringLines lines b r) as [out rng1];
                  constructor; [reflexivity|exact IH]
              end|]
         end.
  unfold ReplaceAllStringFunc. rewrite replaceAll_rebuild.
  destruct (rebuild_assemble (obfuscateLiteral (isVarAssignment line))
              (segments (String.length line) stringLitRe line).1
              (segments (String.length line) stringLitRe line).2 rng)
    as (outs & Hall & Hout).
  destruct (rebuild (obfuscateLiteral (isVarAssignment line)) _ _ rng) as [line' rng1].
  cbn [fst] in Hout.
  specialize (IH inImportBlock rng1).
  destruct (stringLines lines inImportBlock rng1) as [out rng2].
  constructor; [|assumption].
  exists outs. split; [|assumption].
  eapply Forall2_impl; [exact Hall|].
  intros seg o (st0 & ->). apply obfuscateLiteral_gate.
Qed.

(** ** Scanning a text whose delimiters all belong to literals *)

Section Scan.

Variable r : regex.
Variable delim : ascii.
Variable isLit : string -> bool.

Hypothesis match_other : forall a s, Ascii.eqb a delim = false -> match_here r (String a s) = None.
Hypothesis match_empty : match_here r "" = None.
Hypothesis match_lit :
  forall lit rest, isLit lit = true -> match_here r (lit +:+ rest) = Some (String.length lit).
Hypothesis lit_nonempty : forall lit, isLit lit = true -> lit <> "".

Lemma find_first_none (s : string) : noByte delim s = true -> find_first r s = None.
Proof.
  unfold noByte. induction s as [|a s IH]; cbn [find_first string_forall].
  - intros _. rewrite match_empty. reflexivity.
  - intros H. apply andb_true_iff in H. destruct H as [Ha Hs].
    apply negb_true_iff in Ha. rewrite (match_other _ _ Ha), (IH Hs). reflexivity.
Qed.

Lemma find_first_literal (before lit rest : string) :
  noByte delim before = true -> isLit lit = true ->
  find_first r (before +:+ (lit +:+ rest)) = Some (String.length before, String.length lit).
Proof.
  intros Hb Hl. unfold noByte in Hb. induction before as [|a before IH].
  - rewrite append_nil_l. pose proof (match_lit lit rest Hl) as Hm.
    destruct (lit +:+ rest); cbn [find_first]; rewrite Hm; reflexivity.
  - cbn [string_forall] in Hb. apply andb_true_iff in Hb. destruct Hb as [Ha Hb].
    apply negb_true_iff in Ha. rewrite append_cons. cbn [find_first].
    rewrite (match_other _ _ Ha), (IH Hb). reflexivity.
Qed.

Lemma segments_textOf (parts : list (string * string)) (tail : string) :
  forallb (fun p : string * string => noByte delim p.1 && isLit p.2) parts = true ->
  noByte delim tail = true ->
  forall fuel, (List.length parts <= fuel)%nat ->
    segments fuel r (textOf parts tail) = (parts, tail).
Proof.
  intros Hparts Htail. induction parts as [|[before lit] parts IH]; intros fuel Hfuel.
  - cbn [textOf]. destruct fuel; cbn [segments]; [reflexivity|].
    rewrite (find_first_none _ Htail). reflexivity.
  - cbn [forallb fst snd] in Hparts. apply andb_true_iff in Hparts.
    destruct Hparts as [Hp Hparts]. apply andb_true_iff in Hp. destruct Hp as [Hb Hl].
    cbn [List.length] in Hfuel. destruct fuel as [|fuel]; [lia|].
    cbn [textOf segments]. rewrite (find_first_literal _ _ _ Hb Hl).
    rewrite take_app_length, drop_app_length, take_app_length.
    replace (drop (String.length before + String.length lit)
                  (before +:+ (lit +:+ textOf parts tail)))
      with (textOf parts tail).
    2:{ rewrite <- drop_drop, drop_app_length, drop_app_length. reflexivity. }
    rewrite (IH Hparts fuel) by lia.
    pose proof (lit_nonempty lit Hl) as Hne.
    destruct lit as [|a lit]; [congruence|]. reflexivity.
Qed.

End Scan.

(** *** The pattern of a double-quoted literal *)

(** The greedy star of [stringLitRe] runs to the closing quote of a
    literal. *)
Lemma stringLit_star (rest s : string) :
  closesLiteral s = true ->
  match_re (RSeq (RStar (RAlt (RClass (fun a => negb (Ascii.eqb a dquote)
                                                && negb (Ascii.eqb a backslash)))
                              (RSeq (RByte backslash)
                                    (RClass (fun a => negb (Ascii.eqb a newline))))))
                 (RByte dquote)) (s +:+ rest) Some = Some rest.
Proof.
  intros Hs. cbn [match_re].
  match goal with |- ?f _ _ = _ => set (loop := f) end.
  assert (Hloop : forall n s0, (String.length s0 <= n)%nat -> closesLiteral s0 = true ->
                               loop n (s0 +:+ rest) = Some rest).
  { clear s Hs. induction n as [|n IH]; intros s Hlen Hc;
      (destruct s as [|a s]; [discriminate|]);
      cbn [closesLiteral] in Hc; rewrite append_cons; cbn [String.length] in Hlen;
      [lia|].
    destruct (Ascii.eqb a dquote) eqn:Eq.
    - apply String.eqb_eq in Hc. subst s. rewrite append_nil_l.
      apply Ascii.eqb_eq in Eq. subst a. reflexivity.
    - destruct (Ascii.eqb a backslash) eqn:Eb.
      + destruct s as [|c s]; [discriminate|].
        apply andb_true_iff in Hc. destruct Hc as [Hnl Hc].
        rewrite append_cons. cbn [loop]. rewrite Eq, Eb, Hnl. cbn [negb andb].
        cbn [String.length] in *.
        destruct (Nat.ltb_spec (String.length (s +:+ rest))
                               (S (S (String.length (s +:+ rest))))) as [_|Hge]; [|lia].
        rewrite (IH s) by (assumption || lia). reflexivity.
      + apply andb_true_iff in Hc. destruct Hc as [_ Hc].
        cbn [loop]. rewrite Eq, Eb. cbn [negb andb String.length].
        destruct (Nat.ltb_spec (String.length (s +:+ rest))
                               (S (String.length (s +:+ rest)))) as [_|Hge]; [|lia].
        rewrite (IH s) by (assumption || lia). reflexivity. }
  apply Hloop; [|exact Hs]. rewrite length_append. lia.
Qed.

Lemma stringLit_other (a : ascii) (s : string) :
  Ascii.eqb a dquote = false -> match_here stringLitRe (String a s) = None.
Proof.
  intros Ha. unfold match_here, stringLitRe.
  change (match_re (RSeq (RByte dquote) ?r) (String a s) Some)
    with (if Ascii.eqb a dquote then match_re r s Some else None).
  rewrite Ha. reflexivity.
Qed.

Lemma stringLit_literal (lit rest : string) :
  isLiteral lit = true -> match_here stringLitRe (lit +:+ rest) = Some (String.length lit).
Proof.
  destruct lit as [|a s]; [discriminate|]. cbn [isLiteral].
  intros H. apply andb_true_iff in H. destruct H as [Ha Hs].
  apply Ascii.eqb_eq in Ha. subst a. rewrite append_cons.
  unfold match_here, stringLitRe.
  change (match_re (RSeq (RByte dquote) ?r) (String dquote (s +:+ rest)) Some)
    with (match_re r (s +:+ rest) Some).
  rewrite (stringLit_star rest s Hs). cbn [String.length]. rewrite length_append.
  f_equal. lia.
Qed.

Lemma textOf_length (isLit : string -> bool) (parts : list (string * string)) (tail : string) :
  (forall lit, isLit lit = true -> lit <> "") ->
  forallb (fun p : string * string => isLit p.2) parts = true ->
  (List.length parts <= String.length (textOf parts tail))%nat.
Proof.
  intros Hne. induction parts as [|[before lit] parts IH]; cbn [forallb snd textOf List.length];
    [lia|].
  intros H. apply andb_true_iff in H. destruct H as [Hl Hp]. specialize (IH Hp).
  rewrite !length_append. pose proof (Hne lit Hl).
  destruct lit; [congruence|]. cbn [String.length]. lia.
Qed.

(** On a line all of whose double quotes belong to its string literals,
    the matches of the scan are the literals. *)
Lemma segments_literalLine (parts : list (string * string)) (tail : string) :
  literalLine parts tail = true ->
  segments (String.length (textOf parts tail)) stringLitRe (textOf parts tail)
  = (parts, tail).
Proof.
  unfold literalLine. intros H. apply andb_true_iff in H. destruct H as [Hp Ht].
  apply (segments_textOf stringLitRe dquote isLiteral).
  - apply stringLit_other.
  - reflexivity.
  - apply stringLit_literal.
  - intros lit Hl ->. discriminate Hl.
  - exact Hp.
  - exact Ht.
  - apply (textOf_length isLiteral); [intros lit Hl ->; discriminate Hl|].
    clear Ht. induction parts as [|p parts IH]; [reflexivity|].
    cbn [forallb] in *. apply andb_true_iff in Hp. destruct Hp as [Hp1 Hp].
    apply andb_true_iff in Hp1. destruct Hp1 as [_ Hl]. rewrite Hl, (IH Hp). reflexivity.
Qed.



Example obfuscateStringsInText_ex :
  (obfuscateStringsInText allOn
     ("import (" +:+ String newline (tab +:+ quoted "fmt") +:+ String newline ")"
      +:+ String newline (tab +:+ "fmt.Printf(" +:+ quoted "n=%d" +:+ ", " +:+ quoted "ab"
                          +:+ ", " +:+ quoted "http://x" +:+ ")"))
     [0; 0; 0; 0]).1
  = "import (" +:+ String newline (tab +:+ quoted "fmt") +:+ String newline ")"
    +:+ String newline (tab +:+ "fmt.Printf(((string(110)+string(61))+" +:+ quoted "%d"
                        +:+ "), " +:+ quoted "ab" +:+ ", " +:+ quoted "http://x" +:+ ")").
Proof. vm_compute. reflexivity. Qed.


(** ** Invariants of a walk *)

Lemma bindS_inv {A B St : Type} (m : option (A * St)) (k : A -> St -> option (B * St))
  (r : B * St) :
  bindS m k = Some r -> exists a s, m = Some (a, s) /\ k a s = Some r.
Proof. destruct m as [[a s]|]; [eauto|discriminate]. Qed.

Ltac bind_inv H :=
  let a := fresh "a" in
  let s := fresh "s" in
  let E := fresh "E" in
  apply bindS_inv in H; destruct H as (a & s & E & H).

Ltac binds_inv H :=
  repeat (bind_inv H); try (injection H as <- <-).

Lemma mapS_state_inv {A St : Type} (P : St -> Prop) (g : A -> St -> option (A * St)) :
  (forall a s a' s', P s -> g a s = Some (a', s') -> P s') ->
  forall l s l' s', P s -> mapS g l s = Some (l', s') -> P s'.
Proof.
  intros Hg. induction l as [|a l IH]; intros s l' s' Hs H; cbn [mapS] in H.
  - injection H as <- <-. assumption.
  - binds_inv H. eapply IH; [|eassumption]. eapply Hg; eassumption.
Qed.

Lemma optS_state_inv {A St : Type} (P : St -> Prop) (g : A -> St -> option (A * St)) :
  (forall a s a' s', P s -> g a s = Some (a', s') -> P s') ->
  forall o s o' s', P s -> optS g o s = Some (o', s') -> P s'.
Proof.
  intros Hg [a|] s o' s' Hs H; cbn [optS] in H.
  - binds_inv H. eapply Hg; eassumption.
  - injection H as <- <-. assumption.
Qed.

(** A property of the state that every call of the visitor preserves is
    preserved by the walk. *)
Lemma Inspect_state_inv {St : Type} (P : St -> Prop) (f : Node -> St -> option (Node * St)) :
  (forall n s n' s', P s -> f n s = Some (n', s') -> P s') ->
  forall fuel n s n' s', P s -> Inspect f fuel n s = Some (n', s') -> P s'.
Proof.
  intros Hf. induction fuel as [|fuel IH]; intros n s n' s' Hs H; [discriminate|].
  cbn [Inspect] in H. bind_inv H.
  assert (Hs0 : P s0) by (eapply Hf; eassumption). clear E Hs.
  set (walkIdent := fun (id : Ident) (s : St) =>
                      bindS (Inspect f fuel (NIdent id) s)
                            (fun n' s => Some (as_ident n' id, s))) in *.
  assert (Hid : forall (id : Ident) s1 (id' : Ident) s2,
             P s1 -> walkIdent id s1 = Some (id', s2) -> P s2).
  { intros id s1 id' s2 H1 H2. unfold walkIdent in H2. binds_inv H2.
    eapply IH; eassumption. }
  pose proof (mapS_state_inv P _ IH) as Hnodes.
  pose proof (mapS_state_inv P _ Hid) as Hidents.
  pose proof (optS_state_inv P _ IH) as Hopt.
  pose proof (optS_state_inv P _ Hnodes) as Hoptnodes.
  pose proof (optS_state_inv P _ Hid) as Hoptid.
  destruct a; binds_inv H;
    repeat match goal with
           | E : Inspect f fuel _ ?s1 = Some (_, ?s2) |- _ =>
               assert (P s2) by (eapply IH; [|exact E]; assumption); clear E
           | E : mapS (Inspect f fuel) _ ?s1 = Some (_, ?s2) |- _ =>
               assert (P s2) by (eapply Hnodes; [|exact E]; assumption); clear E
           | E : mapS _ _ ?s1 = Some (_, ?s2) |- _ =>
               assert (P s2) by (eapply Hidents; [|exact E]; assumption); clear E
           | E : optS (Inspect f fuel) _ ?s1 = Some (_, ?s2) |- _ =>
               assert (P s2) by (eapply Hopt; [|exact E]; assumption); clear E
           | E : optS (mapS (Inspect f fuel)) _ ?s1 = Some (_, ?s2) |- _ =>
               assert (P s2) by (eapply Hoptnodes; [|exact E]; assumption); clear E
           | E : optS _ _ ?s1 = Some (_, ?s2) |- _ =>
               assert (P s2) by (eapply Hoptid; [|exact E]; assumption); clear E
           | E : walkIdent _ ?s1 = Some (_, ?s2) |- _ =>
               assert (P s2) by (eapply Hid; [|exact E]; assumption); clear E
           | E : bindS (Inspect f fuel (NIdent ?id) ?s1) _ = Some (_, ?s2) |- _ =>
               assert (P s2) by (eapply (Hid id); [|exact E]; assumption); clear E
           end;
    assumption.
Qed.

Lemma InspectFile_state_inv {St : Type} (P : St -> Prop)
  (f : Node -> St -> option (Node * St)) :
  (forall n s n' s', P s -> f n s = Some (n', s') -> P s') ->
  forall fuel file s file' s', P s -> InspectFile f fuel file s = Some (file', s') -> P s'.
Proof.
  intros Hf fuel file s file' s' Hs H. unfold InspectFile in H. binds_inv H.
  eapply (mapS_state_inv P _ (Inspect_state_inv P f Hf fuel)); [|eassumption].
  eapply Inspect_state_inv; eassumption.
Qed.

(** ** The name map through the tree stage *)

Lemma structFields_fold_nameMap (names : list string) :
  forall s,
    nameMap (fold_left (fun s name =>
                          if reserved name then s
                          else set_structFields ({[name]} ∪ structFields s) s)
                       names s) = nameMap s.
Proof.
  induction names as [|name names IH]; intros s; cbn [fold_left]; [reflexivity|].
  rewrite IH. destruct (reserved name); reflexivity.
Qed.

Ltac visitor_injective :=
  repeat match goal with
         | H : context [match ?x with _ => _ end] |- _ => is_var x; destruct x
         | H : context [if ?b then _ else _] |- _ => destruct b eqn:?
         | H : keep _ _ = Some _ |- _ => injection H as <- <-
         | H : Some _ = Some _ |- _ => injection H as <- <-
         | H : bindS _ _ = Some _ |- _ => bind_inv H
         | H : None = Some _ |- _ => discriminate H
         | H : context [match ?x with _ => _ end] |- _ => destruct x eqn:?
         end;
  try assumption;
  try (unfold nameMapInjective in *; cbn; eapply getObfuscatedName_injective; eassumption).

Lemma collect_injective (fuel : nat) (file file' : File) (s s' : State) :
  nameMapInjective s -> collect fuel file s = Some (file', s') -> nameMapInjective s'.
Proof.
  intros Hs H. unfold collect in H. do 3 bind_inv H.
  unfold collectTypeNames, collectDeclaredFunctions, collectStructFields,
    collectStructTypes in *.
  eapply InspectFile_state_inv in E; [|clear|exact Hs].
  2:{ intros n x n' x' Hx Hv. destruct n; visitor_injective. }
  eapply InspectFile_state_inv in E0; [|clear|exact E].
  2:{ intros n x n' x' Hx Hv. destruct n; cbn beta iota zeta in Hv; visitor_injective. }
  eapply InspectFile_state_inv in E1; [|clear|exact E0].
  2:{ intros n x n' x' Hx Hv. destruct n; visitor_injective.
      unfold nameMapInjective. rewrite structFields_fold_nameMap. exact Hx. }
  eapply InspectFile_state_inv in H; [exact H|clear|exact E1].
  intros n x n' x' Hx Hv. destruct n; cbn beta iota zeta in Hv; visitor_injective.
Qed.

Lemma obfuscateImportSpec_injective (fuel : nat) (spec spec' : Node) (s s' : State) :
  nameMapInjective s -> obfuscateImportSpec fuel spec s = Some (spec', s') ->
  nameMapInjective s'.
Proof.
  intros Hs H. unfold obfuscateImportSpec in H. destruct spec; visitor_injective.
Qed.

Lemma obfuscateImports_injective (cfg : Config) (fuel : nat) (file file' : File)
  (s s' : State) :
  nameMapInjective s -> obfuscateImports cfg fuel file s = Some (file', s') ->
  nameMapInjective s'.
Proof.
  intros Hs H. unfold obfuscateImports in H.
  destruct (noImports cfg); [injection H as <- <-; exact Hs|].
  bind_inv H. injection H as <- <-.
  eapply (mapS_state_inv nameMapInjective) in E; [exact E| |exact Hs].
  clear. intros decl s decl' s' Hs H. unfold obfuscateImportDecl in H.
  destruct decl as [| | | | | | | | |tok specs| |]; try (injection H as <- <-; exact Hs).
  destruct tok; try (injection H as <- <-; exact Hs).
  bind_inv H. injection H as <- <-.
  eapply (mapS_state_inv nameMapInjective) in E; [exact E| |exact Hs].
  intros spec x spec' x'. apply obfuscateImportSpec_injective.
Qed.

Lemma obfuscateTree_injective (cfg : Config) (fuel : nat) (file file' : File)
  (s s' : State) :
  nameMapInjective s -> obfuscateTree cfg fuel file s = Some (file', s') ->
  nameMapInjective s'.
Proof.
  intros Hs H. unfold obfuscateTree in H. do 5 bind_inv H.
  unfold obfuscateConsts in E.
  eapply InspectFile_state_inv in E; [|clear|exact Hs].
  2:{ intros n x n' x' Hx Hv. destruct n; visitor_injective. }
  apply (obfuscateImports_injective _ _ _ _ _ _ E) in E0.
  unfold updateImportReferences in E1.
  assert (H2 : nameMapInjective s2).
  { destruct (noImports cfg); [injection E1 as <- <-; exact E0|].
    eapply InspectFile_state_inv in E1; [exact E1|clear|exact E0].
    intros n x n' x' Hx Hv. destruct n; visitor_injective. }
  clear E1. unfold obfuscateStructTypes in E2.
  assert (H3 : nameMapInjective s3).
  { destruct (collectFieldNameSet fuel a1) as [[? fieldNameSet]|]; [|discriminate].
    eapply InspectFile_state_inv in E2; [exact E2|clear|exact H2].
    intros n x n' x' Hx Hv. destruct n; visitor_injective. }
  clear E2. unfold obfuscateVariables in E3.
  assert (H4 : nameMapInjective s4).
  { destruct (noVars cfg); [injection E3 as <- <-; exact H3|].
    eapply InspectFile_state_inv in E3; [exact E3|clear|exact H3].
    intros n x n' x' Hx Hv. unfold renameVariable in Hv. destruct n; visitor_injective. }
  clear E3. unfold obfuscateFunctions in H.
  destruct (noFunctions cfg); [injection H as <- <-; exact H4|].
  do 2 bind_inv H.
  eapply InspectFile_state_inv in E1; [|clear|exact H4].
  2:{ intros n x n' x' Hx Hv. unfold renameFuncDecl in Hv. destruct n; visitor_injective. }
  eapply InspectFile_state_inv in E2; [|clear|exact E1].
  2:{ intros n x n' x' Hx Hv. unfold renameCall in Hv. destruct n; visitor_injective. }
  eapply InspectFile_state_inv in H; [exact H|clear|exact E2].
  intros n x n' x' Hx Hv. unfold renameSelector in Hv. destruct n; visitor_injective.
Qed.

(** The invariant of C3 on the program itself: after the whole tree
    stage of [main], started from the empty maps, no two original names
    share a replacement in [nameMap]. *)
Lemma mainTree_nameMap_injective (cfg : Config) (fuel : nat) (file file' : File)
  (rng : Rand) (s' : State) :
  mainTree cfg fuel file rng = Some (file', s') ->
  forall x y rx ry,
    nameMap s' !! x = Some rx -> nameMap s' !! y = Some ry -> x <> y -> rx <> ry.
Proof.
  intros H. unfold mainTree in H. bind_inv H.
  eapply collect_injective in E; [|exact injective_map_empty].
  eapply obfuscateTree_injective in H; [|exact E].
  intros x y rx ry Hx Hy Hne <-. apply Hne. eapply H; eassumption.
Qed.

(** ** The shape of the tree through the tree stage *)

Lemma mapS_map {A B St : Type} (h : A -> B) (g : A -> St -> option (A * St)) :
  (forall a s a' s', g a s = Some (a', s') -> h a' = h a) ->
  forall l s l' s', mapS g l s = Some (l', s') -> map h l' = map h l.
Proof.
  intros Hg. induction l as [|a l IH]; intros s l' s' H; cbn [mapS] in H.
  - injection H as <- <-. reflexivity.
  - binds_inv H. cbn [map]. f_equal; [eapply Hg|eapply IH]; eassumption.
Qed.

Lemma optS_map {A B St : Type} (h : A -> B) (g : A -> St -> option (A * St)) :
  (forall a s a' s', g a s = Some (a', s') -> h a' = h a) ->
  forall o s o' s', optS g o s = Some (o', s') -> option_map h o' = option_map h o.
Proof.
  intros Hg [a|] s o' s' H; cbn [optS] in H.
  - binds_inv H. cbn [option_map]. f_equal. eapply Hg; eassumption.
  - injection H as <- <-. reflexivity.
Qed.

(** A visitor that changes names only (and [const] into [var]) gives a
    walk that changes names only. *)
Lemma Inspect_skeleton {St : Type} (f : Node -> St -> option (Node * St)) :
  (forall n s n' s', f n s = Some (n', s') -> skeleton n' = skeleton n) ->
  forall fuel n s n' s', Inspect f fuel n s = Some (n', s') -> skeleton n' = skeleton n.
Proof.
  intros Hf. induction fuel as [|fuel IH]; intros n s n' s' H; [discriminate|].
  cbn [Inspect] in H. bind_inv H. rewrite <- (Hf _ _ _ _ E). clear E.
  set (walkIdent := fun (id : Ident) (s : St) =>
                      bindS (Inspect f fuel (NIdent id) s)
                            (fun n' s => Some (as_ident n' id, s))) in *.
  assert (Hid : forall (id : Ident) s1 (id' : Ident) s2,
             walkIdent id s1 = Some (id', s2) -> eraseName id' = eraseName id).
  { intros id s1 id' s2 H2. unfold walkIdent in H2. binds_inv H2.
    apply IH in E. destruct a0; cbn [skeleton] in E; try discriminate E.
    injection E as E. unfold eraseName. cbn [as_ident]. rewrite E. reflexivity. }
  pose proof (mapS_map skeleton _ IH) as Hnodes.
  pose proof (mapS_map eraseName _ Hid) as Hidents.
  pose proof (optS_map skeleton _ IH) as Hopt.
  pose proof (optS_map (map skeleton) _ Hnodes) as Hoptnodes.
  pose proof (optS_map eraseName _ Hid) as Hoptid.
  destruct a; binds_inv H; cbn [skeleton];
    repeat match goal with
           | E : Inspect f fuel _ _ = Some _ |- _ => apply IH in E; rewrite E; clear E
           | E : mapS (Inspect f fuel) _ _ = Some _ |- _ =>
               apply Hnodes in E; rewrite E; clear E
           | E : mapS walkIdent _ _ = Some _ |- _ =>
               apply Hidents in E; rewrite E; clear E
           | E : optS (Inspect f fuel) _ _ = Some _ |- _ =>
               apply Hopt in E; rewrite E; clear E
           | E : optS (mapS (Inspect f fuel)) _ _ = Some _ |- _ =>
               apply Hoptnodes in E; rewrite E; clear E
           | E : optS walkIdent _ _ = Some _ |- _ =>
               apply Hoptid in E; rewrite E; clear E
           | E : walkIdent _ _ = Some _ |- _ => apply Hid in E; rewrite E; clear E
           | E : bindS (Inspect f fuel (NIdent ?id) _) _ = Some _ |- _ =>
               apply (Hid id) in E; rewrite E; clear E
           end;
    reflexivity.
Qed.

Lemma InspectFile_skeleton {St : Type} (f : Node -> St -> option (Node * St)) :
  (forall n s n' s', f n s = Some (n', s') -> skeleton n' = skeleton n) ->
  forall fuel file s file' s',
    InspectFile f fuel file s = Some (file', s') -> skeletonFile file' = skeletonFile file.
Proof.
  intros Hf fuel file s file' s' H. unfold InspectFile in H. binds_inv H.
  unfold skeletonFile. cbn [PkgName Decls].
  apply (mapS_map skeleton _ (Inspect_skeleton f Hf fuel)) in E0. rewrite E0.
  apply (Inspect_skeleton f Hf) in E.
  destruct a; cbn [skeleton] in E; try discriminate E.
  injection E as E. unfold eraseName. cbn [as_ident]. rewrite E. reflexivity.
Qed.

Ltac visitor_skeleton :=
  repeat match goal with
         | H : context [match ?x with _ => _ end] |- _ => is_var x; destruct x
         | H : context [if ?b then _ else _] |- _ => destruct b eqn:?
         | H : keep _ _ = Some _ |- _ => injection H as <- <-
         | H : Some _ = Some _ |- _ => injection H as <- <-
         | H : bindS _ _ = Some _ |- _ => bind_inv H
         | H : None = Some _ |- _ => discriminate H
         | H : context [match ?x with _ => _ end] |- _ => destruct x eqn:?
         end;
  try reflexivity.

Lemma collect_skeleton (fuel : nat) (file file' : File) (s s' : State) :
  collect fuel file s = Some (file', s') -> skeletonFile file' = skeletonFile file.
Proof.
  intros H. unfold collect in H. do 3 bind_inv H.
  unfold collectTypeNames, collectDeclaredFunctions, collectStructFields,
    collectStructTypes in *.
  eapply InspectFile_skeleton in E.
  2:{ clear. intros n x n' x' Hv. destruct n; visitor_skeleton. }
  eapply InspectFile_skeleton in E0.
  2:{ clear. intros n x n' x' Hv. destruct n; cbn beta iota zeta in Hv; visitor_skeleton. }
  eapply InspectFile_skeleton in E1.
  2:{ clear. intros n x n' x' Hv. destruct n; visitor_skeleton. }
  eapply InspectFile_skeleton in H.
  2:{ clear. intros n x n' x' Hv. destruct n; cbn beta iota zeta in Hv; visitor_skeleton. }
  congruence.
Qed.

Lemma eraseName_renameTypeIdent (fieldNameSet : gset string) (s : State) (id : Ident) :
  eraseName (renameTypeIdent fieldNameSet s id) = eraseName id.
Proof.
  unfold renameTypeIdent.
  destruct (bool_decide (Name id ∈ fieldNameSet)); [reflexivity|].
  destruct (structTypeMapping s !! Name id) as [t|];
    match goal with
    | |- context [typeAliasMapping s !! ?k] => destruct (typeAliasMapping s !! k)
    end; reflexivity.
Qed.

Lemma obfuscateTree_skeleton (cfg : Config) (fuel : nat) (file file' : File)
  (s s' : State) :
  noImports cfg = true ->
  obfuscateTree cfg fuel file s = Some (file', s') ->
  skeletonFile file' = skeletonFile file.
Proof.
  intros Hoff H. unfold obfuscateTree in H. do 5 bind_inv H.
  unfold obfuscateImports in E0. unfold updateImportReferences in E1.
  rewrite Hoff in E0, E1. injection E0 as <- <-. injection E1 as <- <-.
  unfold obfuscateConsts in E.
  eapply InspectFile_skeleton in E.
  2:{ clear. intros n x n' x' Hv. destruct n; visitor_skeleton. }
  unfold obfuscateStructTypes in E2.
  assert (H3 : skeletonFile a2 = skeletonFile a).
  { destruct (collectFieldNameSet fuel a) as [[? fieldNameSet]|]; [|discriminate].
    eapply InspectFile_skeleton in E2; [exact E2|clear].
    intros n x n' x' Hv. destruct n; visitor_skeleton.
    cbn [skeleton]. rewrite eraseName_renameTypeIdent. reflexivity. }
  clear E2. unfold obfuscateVariables in E3.
  assert (H4 : skeletonFile a3 = skeletonFile a2).
  { destruct (noVars cfg); [injection E3 as <- <-; reflexivity|].
    eapply InspectFile_skeleton in E3; [exact E3|clear].
    intros n x n' x' Hv. unfold renameVariable in Hv. destruct n; visitor_skeleton. }
  clear E3. unfold obfuscateFunctions in H.
  assert (H5 : skeletonFile file' = skeletonFile a3).
  { destruct (noFunctions cfg); [injection H as <- <-; reflexivity|].
    do 2 bind_inv H.
    eapply InspectFile_skeleton in E0.
    2:{ clear. intros n x n' x' Hv. unfold renameFuncDecl in Hv.
        destruct n; visitor_skeleton. }
    eapply InspectFile_skeleton in E1.
    2:{ clear. intros n x n' x' Hv. unfold renameCall in Hv. destruct n; visitor_skeleton. }
    eapply InspectFile_skeleton in H.
    2:{ clear. intros n x n' x' Hv. unfold renameSelector in Hv.
        destruct n; visitor_skeleton. }
    congruence. }
  congruence.
Qed.

Lemma importSpecs_skeleton (file : File) :
  importSpecs (skeletonFile file) = map skeleton (importSpecs file).
Proof.
  unfold importSpecs, skeletonFile. cbn [Decls].
  induction (Decls file) as [|decl decls IH]; [reflexivity|].
  cbn [map flat_map]. rewrite IH, map_app. f_equal.
  destruct decl as [| | | | | | | | |tok specs| |]; try reflexivity.
  destruct tok; reflexivity.
Qed.

Lemma unaliased_skeleton (specs : list Node) :
  forallb unaliased specs = true ->
  forall specs', map skeleton specs' = map skeleton specs -> specs' = specs.
Proof.
  induction specs as [|spec specs IH]; intros Hall specs' H.
  - destruct specs'; [reflexivity|discriminate].
  - destruct specs' as [|spec' specs']; [discriminate|].
    cbn [map] in H. injection H as Hhd Htl.
    cbn [forallb] in Hall. apply andb_prop in Hall as [Hspec Hall].
    f_equal; [|apply IH; assumption].
    destruct spec as [| | | | | |[name|] path| | | | |]; try discriminate Hspec.
    destruct spec' as [| | | | | |[name'|] path'| | | | |]; try discriminate Hhd.
    cbn [skeleton option_map] in Hhd. congruence.
Qed.

(** ** C7: the import toggle *)




(* ===================================================================== *)
(** * Part III: further properties of the program                         *)
(* ===================================================================== *)

(** ** The name generator *)

(** Every character a name is made of decodes from its own encoding,
    whatever follows it. *)
Lemma DecodeRune_name_char (r : Z) :
  In r (letters ++ obfuscationChars)%list ->
  forall rest,
    exists size, DecodeRuneInString (EncodeRune r +:+ rest) = Some (r, size, rest).
Proof.
  intros Hin rest.
  assert (Hall : Forall (fun r => forall rest, exists size,
                             DecodeRuneInString (EncodeRune r +:+ rest) = Some (r, size, rest))
                        (letters ++ obfuscationChars)%list).
  { clear. vm_compute letters. unfold obfuscationChars. cbn [app].
    repeat (constructor; [intros rest; eexists; vm_compute; reflexivity|]).
    constructor. }
  rewrite List.Forall_forall in Hall. apply Hall. exact Hin.
Qed.

Lemma range_runes_name_chars (rs : list Z) :
  Forall (fun r => In r (letters ++ obfuscationChars)%list) rs ->
  range_runes (string_of_runes rs) = rs.
Proof.
  induction 1 as [|r rs Hr _ IH]; [reflexivity|].
  change (string_of_runes (r :: rs)) with (EncodeRune r +:+ string_of_runes rs).
  rewrite range_runes_unfold.
  destruct (DecodeRune_name_char r Hr (string_of_runes rs)) as [size ->].
  rewrite IH. reflexivity.
Qed.

Lemma generateTail_spec (n : nat) :
  forall rng,
    List.length (generateTail n rng).1 = n /\
    Forall (fun c => In c obfuscationChars) (generateTail n rng).1 /\
    (generateTail n rng).2 = List.skipn n rng.
Proof.
  induction n as [|n IH]; intros rng; cbn [generateTail].
  - cbn. repeat split; constructor.
  - destruct (Intn (Z.of_nat (List.length obfuscationChars)) rng) as [i rng1] eqn:Ei.
    specialize (IH rng1). destruct (generateTail n rng1) as [cs rng2].
    cbn [fst snd] in *. destruct IH as (Hlen & Hall & Hrng).
    assert (Hi : 0 <= i < 28 /\ rng1 = List.skipn 1 rng).
    { unfold Intn in Ei. destruct rng as [|x rng]; injection Ei as <- <-.
      - split; [vm_compute; split; [discriminate|reflexivity]|reflexivity].
      - split; [|reflexivity]. change (Z.of_nat (List.length obfuscationChars)) with 28.
        apply Z.mod_pos_bound. lia. }
    destruct Hi as [Hi ->].
    split; [cbn [List.length]; lia|]. split.
    + constructor; [|assumption]. apply nth_In.
      change (List.length obfuscationChars) with 28%nat. lia.
    + rewrite Hrng. destruct rng; [destruct n; reflexivity|reflexivity].
Qed.

Lemma generateObfuscatedName_spec (n : nat) (rng : Rand) :
  generateObfuscatedName 0 rng = None /\
  exists c0 cs,
    generateObfuscatedName (S n) rng
      = Some (string_of_runes (c0 :: cs), List.skipn (S n) rng) /\
    In c0 letters /\ List.length cs = n /\
    Forall (fun c => In c obfuscationChars) cs /\
    range_runes (string_of_runes (c0 :: cs)) = c0 :: cs.
Proof.
  split; [reflexivity|]. cbn [generateObfuscatedName].
  destruct (Intn (Z.of_nat (List.length letters)) rng) as [i rng1] eqn:Ei.
  pose proof (generateTail_spec n rng1) as Htail.
  destruct (generateTail n rng1) as [cs rng2]. cbn [fst snd] in Htail.
  destruct Htail as (Hlen & Hall & Hrng).
  assert (Hi : 0 <= i < 52 /\ rng1 = List.skipn 1 rng).
  { unfold Intn in Ei. destruct rng as [|x rng]; injection Ei as <- <-.
    - split; [vm_compute; split; [discriminate|reflexivity]|reflexivity].
    - split; [|reflexivity]. change (Z.of_nat (List.length letters)) with 52.
      apply Z.mod_pos_bound. lia. }
  destruct Hi as [Hi ->].
  assert (Hc0 : In (nth (Z.to_nat i) letters 0) letters).
  { apply nth_In. change (List.length letters) with 52%nat. lia. }
  exists (nth (Z.to_nat i) letters 0), cs.
  split; [|split; [exact Hc0|split; [exact Hlen|split; [exact Hall|]]]].
  - rewrite Hrng. destruct rng; [destruct n; reflexivity|reflexivity].
  - apply range_runes_name_chars. constructor.
    + apply in_or_app. left. exact Hc0.
    + eapply Forall_impl; [exact Hall|]. intros c Hc. apply in_or_app. right. exact Hc.
Qed.

Lemma generateObfuscatedName_generated (rng rng' : Rand) (v : string) :
  generateObfuscatedName 20 rng = Some (v, rng') -> generatedName v.
Proof.
  intros H. destruct (generateObfuscatedName_spec 19 rng) as (_ & c0 & cs & Hgen & Hrest).
  rewrite Hgen in H. injection H as <- <-.
  destruct Hrest as (Hc0 & Hlen & Hall & _).
  exists c0, cs. auto.
Qed.

Lemma freshName_generated (fuel : nat) (m : gmap string string) (rng rng' : Rand)
  (v : string) :
  freshName fuel m rng = Some (v, rng') -> generatedName v.
Proof.
  revert rng. induction fuel as [|fuel IH]; intros rng; cbn [freshName]; [discriminate|].
  destruct (generateObfuscatedName 20 rng) as [[newName rng1]|] eqn:E; [|discriminate].
  destruct (nameExists m newName); [apply IH|].
  intros [= <- <-]. eapply generateObfuscatedName_generated; eassumption.
Qed.



Lemma getObfuscatedName_alloc_spec (fuel : nat) (original : string)
  (s s' : State) (v : string) :
  nameMap s !! original = None ->
  getObfuscatedName fuel original s = Some (v, s') ->
  nameMap s' = <[original := v]> (nameMap s) /\
  generatedName v /\
  List.length (range_runes v) = 20%nat /\
  (forall k, nameMap s !! k <> Some v) /\
  (forall k x, nameMap s !! k = Some x -> nameMap s' !! k = Some x) /\
  structTypeMapping s' = structTypeMapping s /\
  typeAliasMapping s' = typeAliasMapping s /\
  importAliases s' = importAliases s /\
  declaredFuncs s' = declaredFuncs s /\
  declaredMethods s' = declaredMethods s /\
  structFields s' = structFields s /\
  structTypes s' = structTypes s.
Proof.
  intros Hnone H. unfold getObfuscatedName in H. rewrite Hnone in H.
  destruct (freshName fuel (nameMap s) (rand s)) as [[newName rng]|] eqn:F; [|discriminate].
  injection H as <- <-. cbn [nameMap set_nameMap structTypeMapping typeAliasMapping
    importAliases declaredFuncs declaredMethods structFields structTypes].
  pose proof (freshName_generated _ _ _ _ _ F) as Hgen.
  split; [reflexivity|]. split; [exact Hgen|]. split.
  { destruct Hgen as (c0 & cs & -> & Hc0 & Hlen & Hall).
    rewrite range_runes_name_chars.
    - cbn [List.length]. lia.
    - constructor; [apply in_or_app; left; exact Hc0|].
      eapply Forall_impl; [exact Hall|]. intros c Hc. apply in_or_app. right. exact Hc. }
  split; [eapply freshName_fresh; eassumption|].
  split; [|repeat split].
  intros k x Hk. destruct (decide (k = original)) as [->|Hne]; [congruence|].
  rewrite lookup_insert_ne by congruence. exact Hk.
Qed.


(** ** A property of the name map through the tree stage *)

Section NameMapInvariant.

Variable Q : gmap string string -> Prop.
Hypothesis Q_step : forall fuel original s v s',
  Q (nameMap s) -> getObfuscatedName fuel original s = Some (v, s') -> Q (nameMap s').

Let P (s : State) : Prop := Q (nameMap s).

Ltac visitor_keeps :=
  repeat match goal with
         | H : context [match ?x with _ => _ end] |- _ => is_var x; destruct x
         | H : context [if ?b then _ else _] |- _ => destruct b eqn:?
         | H : keep _ _ = Some _ |- _ => injection H as <- <-
         | H : Some _ = Some _ |- _ => injection H as <- <-
         | H : bindS _ _ = Some _ |- _ => bind_inv H
         | H : None = Some _ |- _ => discriminate H
         | H : context [match ?x with _ => _ end] |- _ => destruct x eqn:?
         end;
  try assumption;
  try (unfold P in *; cbn; eapply Q_step; eassumption).

Lemma collect_nameMap_inv (fuel : nat) (file file' : File) (s s' : State) :
  P s -> collect fuel file s = Some (file', s') -> P s'.
Proof.
  intros Hs H. unfold collect in H. do 3 bind_inv H.
  unfold collectTypeNames, collectDeclaredFunctions, collectStructFields,
    collectStructTypes in *.
  eapply (InspectFile_state_inv P) in E; [|clear - Q_step|exact Hs].
  2:{ intros n x n' x' Hx Hv. destruct n; visitor_keeps. }
  eapply (InspectFile_state_inv P) in E0; [|clear - Q_step|exact E].
  2:{ intros n x n' x' Hx Hv. destruct n; cbn beta iota zeta in Hv; visitor_keeps. }
  eapply (InspectFile_state_inv P) in E1; [|clear - Q_step|exact E0].
  2:{ intros n x n' x' Hx Hv. destruct n; visitor_keeps.
      unfold P. rewrite structFields_fold_nameMap. exact Hx. }
  eapply (InspectFile_state_inv P) in H; [exact H|clear - Q_step|exact E1].
  intros n x n' x' Hx Hv. destruct n; cbn beta iota zeta in Hv; visitor_keeps.
Qed.

Lemma obfuscateImports_nameMap_inv (cfg : Config) (fuel : nat) (file file' : File)
  (s s' : State) :
  P s -> obfuscateImports cfg fuel file s = Some (file', s') -> P s'.
Proof.
  intros Hs H. unfold obfuscateImports in H.
  destruct (noImports cfg); [injection H as <- <-; exact Hs|].
  bind_inv H. injection H as <- <-.
  eapply (mapS_state_inv P) in E; [exact E| |exact Hs].
  clear - Q_step. intros decl s decl' s' Hs H. unfold obfuscateImportDecl in H.
  destruct decl as [| | | | | | | | |tok specs| |]; try (injection H as <- <-; exact Hs).
  destruct tok; try (injection H as <- <-; exact Hs).
  bind_inv H. injection H as <- <-.
  eapply (mapS_state_inv P) in E; [exact E| |exact Hs].
  clear - Q_step. intros spec x spec' x' Hx Hv. unfold obfuscateImportSpec in Hv.
  destruct spec; visitor_keeps.
Qed.

Lemma obfuscateTree_nameMap_inv (cfg : Config) (fuel : nat) (file file' : File)
  (s s' : State) :
  P s -> obfuscateTree cfg fuel file s = Some (file', s') -> P s'.
Proof.
  intros Hs H. unfold obfuscateTree in H. do 5 bind_inv H.
  unfold obfuscateConsts in E.
  eapply (InspectFile_state_inv P) in E; [|clear - Q_step|exact Hs].
  2:{ intros n x n' x' Hx Hv. destruct n; visitor_keeps. }
  apply (obfuscateImports_nameMap_inv _ _ _ _ _ _ E) in E0.
  unfold updateImportReferences in E1.
  assert (H2 : P s2).
  { destruct (noImports cfg); [injection E1 as <- <-; exact E0|].
    eapply (InspectFile_state_inv P) in E1; [exact E1|clear - Q_step|exact E0].
    intros n x n' x' Hx Hv. destruct n; visitor_keeps. }
  clear E1. unfold obfuscateStructTypes in E2.
  assert (H3 : P s3).
  { destruct (collectFieldNameSet fuel a1) as [[? fieldNameSet]|]; [|discriminate].
    eapply (InspectFile_state_inv P) in E2; [exact E2|clear - Q_step|exact H2].
    intros n x n' x' Hx Hv. destruct n; visitor_keeps. }
  clear E2. unfold obfuscateVariables in E3.
  assert (H4 : P s4).
  { destruct (noVars cfg); [injection E3 as <- <-; exact H3|].
    eapply (InspectFile_state_inv P) in E3; [exact E3|clear - Q_step|exact H3].
    intros n x n' x' Hx Hv. unfold renameVariable in Hv. destruct n; visitor_keeps. }
  clear E3. unfold obfuscateFunctions in H.
  destruct (noFunctions cfg); [injection H as <- <-; exact H4|].
  do 2 bind_inv H.
  eapply (InspectFile_state_inv P) in E1; [|clear - Q_step|exact H4].
  2:{ intros n x n' x' Hx Hv. unfold renameFuncDecl in Hv. destruct n; visitor_keeps. }
  eapply (InspectFile_state_inv P) in E2; [|clear - Q_step|exact E1].
  2:{ intros n x n' x' Hx Hv. unfold renameCall in Hv. destruct n; visitor_keeps. }
  eapply (InspectFile_state_inv P) in H; [exact H|clear - Q_step|exact E2].
  intros n x n' x' Hx Hv. unfold renameSelector in Hv. destruct n; visitor_keeps.
Qed.

Lemma mainTree_nameMap_inv (cfg : Config) (fuel : nat) (file file' : File)
  (rng : Rand) (s' : State) :
  Q ∅ -> mainTree cfg fuel file rng = Some (file', s') -> Q (nameMap s').
Proof.
  intros H0 H. unfold mainTree in H. bind_inv H.
  eapply collect_nameMap_inv in E; [|exact H0].
  eapply obfuscateTree_nameMap_inv in H; [exact H|exact E].
Qed.

End NameMapInvariant.

Lemma getObfuscatedName_wellFormed (fuel : nat) (original : string) (s s' : State)
  (v : string) :
  wellFormedNames (nameMap s) -> getObfuscatedName fuel original s = Some (v, s') ->
  wellFormedNames (nameMap s').
Proof.
  intros [Hinj Hgen] H. split; [eapply getObfuscatedName_injective; eassumption|].
  destruct (nameMap s !! original) as [existing|] eqn:E.
  - unfold getObfuscatedName in H. rewrite E in H. injection H as <- <-. exact Hgen.
  - destruct (getObfuscatedName_alloc_spec _ _ _ _ _ E H) as (Hmap & Hv & _).
    intros k x. rewrite Hmap. destruct (decide (k = original)) as [->|Hne].
    + rewrite lookup_insert_eq. intros [= <-]. exact Hv.
    + rewrite lookup_insert_ne by congruence. apply Hgen.
Qed.

(** X1: [generateObfuscatedName] fails on a zero length (the assignment to
    [result[0]] is out of range); for a length [n + 1] it returns a name of
    exactly [n + 1] characters, a Latin letter from [letters] followed by
    [n] characters of [obfuscationChars], which reads back rune by rune as
    those characters, and it takes exactly [n + 1] draws from the
    generator. *)
Theorem generateObfuscatedName_shape (n : nat) (rng : Rand) :
  generateObfuscatedName 0 rng = None /\
  exists c0 cs,
    generateObfuscatedName (S n) rng
      = Some (string_of_runes (c0 :: cs), List.skipn (S n) rng) /\
    In c0 letters /\ List.length cs = n /\
    Forall (fun c => In c obfuscationChars) cs /\
    range_runes (string_of_runes (c0 :: cs)) = c0 :: cs.
Proof. apply generateObfuscatedName_spec. Qed.

(** X3: a call of [getObfuscatedName] that allocates (the name was not
    yet recorded) adds exactly one entry, for [original]; the replacement
    is a generated name of 20 characters that no name was mapped to before,
    every earlier entry stays as it was, and no table other than the name
    map and the generator changes. *)
Theorem getObfuscatedName_allocates (fuel : nat) (original : string)
  (s s' : State) (v : string) :
  nameMap s !! original = None ->
  getObfuscatedName fuel original s = Some (v, s') ->
  nameMap s' = <[original := v]> (nameMap s) /\
  generatedName v /\
  List.length (range_runes v) = 20%nat /\
  (forall k, nameMap s !! k <> Some v) /\
  (forall k x, nameMap s !! k = Some x -> nameMap s' !! k = Some x) /\
  structTypeMapping s' = structTypeMapping s /\
  typeAliasMapping s' = typeAliasMapping s /\
  importAliases s' = importAliases s /\
  declaredFuncs s' = declaredFuncs s /\
  declaredMethods s' = declaredMethods s /\
  structFields s' = structFields s /\
  structTypes s' = structTypes s.
Proof. apply getObfuscatedName_alloc_spec. Qed.

Lemma getObfuscatedName_allocates_witness :
  match getObfuscatedName 5 "count" (initState [3; 7; 7]) with
  | Some (v, s') =>
      nameMap s' = <[ "count" := v ]> (nameMap (initState [3; 7; 7])) /\
      generatedName v /\
      List.length (range_runes v) = 20%nat /\
      (forall k, nameMap (initState [3; 7; 7]) !! k <> Some v) /\
      (forall k x, nameMap (initState [3; 7; 7]) !! k = Some x -> nameMap s' !! k = Some x) /\
      structTypeMapping s' = structTypeMapping (initState [3; 7; 7]) /\
      typeAliasMapping s' = typeAliasMapping (initState [3; 7; 7]) /\
      importAliases s' = importAliases (initState [3; 7; 7]) /\
      declaredFuncs s' = declaredFuncs (initState [3; 7; 7]) /\
      declaredMethods s' = declaredMethods (initState [3; 7; 7]) /\
      structFields s' = structFields (initState [3; 7; 7]) /\
      structTypes s' = structTypes (initState [3; 7; 7])
  | None => False
  end.
Proof.
  destruct (getObfuscatedName 5 "count" (initState [3; 7; 7])) as [[v s']|] eqn:E.
  - apply (getObfuscatedName_allocates 5 "count" (initState [3; 7; 7]) s' v);
      [reflexivity|exact E].
  - vm_compute in E. discriminate E.
Defined.

(** X4: after the whole tree stage of [main], started from empty maps,
    every replacement recorded in [nameMap] is a generated name (a Latin
    letter followed by 19 lookalike characters), and no two original names
    share a replacement. *)
Theorem mainTree_names_wellFormed (cfg : Config) (fuel : nat) (file file' : File)
  (rng : Rand) (s' : State) :
  mainTree cfg fuel file rng = Some (file', s') ->
  (forall k v, nameMap s' !! k = Some v -> generatedName v) /\
  (forall x y v, nameMap s' !! x = Some v -> nameMap s' !! y = Some v -> x = y).
Proof.
  intros H.
  apply (mainTree_nameMap_inv wellFormedNames) in H.
  2:{ intros fuel0 original s v s0. apply getObfuscatedName_wellFormed. }
  2:{ split; [apply injective_map_empty|]. intros k v Hk.
      rewrite lookup_empty in Hk. discriminate. }
  destruct H as [Hinj Hgen]. split; [exact Hgen|exact Hinj].
Qed.

Lemma mainTree_names_wellFormed_witness :
  match mainTree allOn 10 stringerFile (draws 60) with
  | Some (file', s') =>
      (forall k v, nameMap s' !! k = Some v -> generatedName v) /\
      (forall x y v, nameMap s' !! x = Some v -> nameMap s' !! y = Some v -> x = y)
  | None => False
  end.
Proof.
  destruct (mainTree allOn 10 stringerFile (draws 60)) as [[file' s']|] eqn:E.
  - apply (mainTree_names_wellFormed allOn 10 stringerFile file' (draws 60) s' E).
  - vm_compute in E. discriminate E.
Defined.

(** ** The collection passes *)

Lemma recordFuncDecl_fold (nodes : list Node) :
  forall s,
    fold_left (fun s n => recordFuncDecl n s) nodes s
    = set_declaredMethods (list_to_set (declaredMethodNames nodes) ∪ declaredMethods s)
        (set_declaredFuncs (list_to_set (declaredFuncNames nodes) ∪ declaredFuncs s) s).
Proof.
  induction nodes as [|n nodes IH]; intros s.
  - destruct s. cbn. unfold set_declaredMethods, set_declaredFuncs. cbn.
    f_equal; set_solver.
  - cbn [fold_left]. rewrite IH. clear IH.
    unfold declaredFuncNames, declaredMethodNames. cbn [flat_map].
    fold (declaredFuncNames nodes). fold (declaredMethodNames nodes).
    rewrite !list_to_set_app_L.
    destruct s.
    destruct n as [| | | | | | | | | |recv fname type body|];
      cbn [recordFuncDecl];
      try destruct (isEntryPoint (Name fname));
      try destruct recv;
      unfold set_declaredMethods, set_declaredFuncs; cbn;
      f_equal; set_solver.
Qed.

Lemma collectDeclaredFunctions_fold (fuel : nat) (file : File) (s : State) :
  (fileDepth file < fuel)%nat ->
  collectDeclaredFunctions fuel file s
  = Some (file, fold_left (fun s n => recordFuncDecl n s) (fileNodes file) s).
Proof.
  intros Hd. unfold collectDeclaredFunctions.
  apply (InspectFile_collect recordFuncDecl); [|assumption].
  intros n s0. destruct n as [| | | | | | | | | |recv fname type body|]; try reflexivity.
  cbn [recordFuncDecl]. unfold isEntryPoint.
  destruct (String.eqb (Name fname) "main" || String.eqb (Name fname) "init");
    [reflexivity|destruct recv; reflexivity].
Qed.

Lemma isEntryPoint_false (x : string) :
  isEntryPoint x = false <-> x <> "main" /\ x <> "init".
Proof.
  unfold isEntryPoint. rewrite orb_false_iff.
  destruct (String.eqb_spec x "main"), (String.eqb_spec x "init"); intuition congruence.
Qed.

Lemma declaredFuncNames_spec (nodes : list Node) (x : string) :
  In x (declaredFuncNames nodes) <->
  exists fname type body,
    In (NFuncDecl None fname type body) nodes /\ Name fname = x /\
    x <> "main" /\ x <> "init".
Proof.
  unfold declaredFuncNames. rewrite in_flat_map. split.
  - intros (n & Hn & Hx).
    destruct n as [| | | | | | | | | |[recv|] fname type body|]; try contradiction.
    destruct (isEntryPoint (Name fname)) eqn:E; [contradiction|].
    destruct Hx as [<-|[]]. apply isEntryPoint_false in E.
    exists fname, type, body. tauto.
  - intros (fname & type & body & Hn & <- & Hm & Hi).
    exists (NFuncDecl None fname type body). split; [exact Hn|].
    cbn. destruct (isEntryPoint (Name fname)) eqn:E; [|left; reflexivity].
    assert (isEntryPoint (Name fname) = false) as E' by (apply isEntryPoint_false; tauto).
    congruence.
Qed.

Lemma declaredMethodNames_spec (nodes : list Node) (x : string) :
  In x (declaredMethodNames nodes) <->
  exists recv fname type body,
    In (NFuncDecl (Some recv) fname type body) nodes /\ Name fname = x /\
    x <> "main" /\ x <> "init".
Proof.
  unfold declaredMethodNames. rewrite in_flat_map. split.
  - intros (n & Hn & Hx).
    destruct n as [| | | | | | | | | |[recv|] fname type body|]; try contradiction.
    destruct (isEntryPoint (Name fname)) eqn:E; [contradiction|].
    destruct Hx as [<-|[]]. apply isEntryPoint_false in E.
    exists recv, fname, type, body. tauto.
  - intros (recv & fname & type & body & Hn & <- & Hm & Hi).
    exists (NFuncDecl (Some recv) fname type body). split; [exact Hn|].
    cbn. destruct (isEntryPoint (Name fname)) eqn:E; [|left; reflexivity].
    assert (isEntryPoint (Name fname) = false) as E' by (apply isEntryPoint_false; tauto).
    congruence.
Qed.

(** X5: on a tree within the depth bound [collectDeclaredFunctions]
    returns and leaves the tree as it is.  It adds to [declaredFuncs]
    exactly the names of the function declarations without a receiver, and
    to [declaredMethods] exactly the names of those with one, in both cases
    leaving out [main] and [init]; the name map, the generator and the other
    tables are untouched. *)
Theorem collectDeclaredFunctions_records (fuel : nat) (file : File) (s : State) :
  (fileDepth file < fuel)%nat ->
  exists s',
    collectDeclaredFunctions fuel file s = Some (file, s') /\
    (forall x, x ∈ declaredFuncs s' <->
       x ∈ declaredFuncs s \/
       exists fname type body,
         In (NFuncDecl None fname type body) (fileNodes file) /\ Name fname = x /\
         x <> "main" /\ x <> "init") /\
    (forall x, x ∈ declaredMethods s' <->
       x ∈ declaredMethods s \/
       exists recv fname type body,
         In (NFuncDecl (Some recv) fname type body) (fileNodes file) /\ Name fname = x /\
         x <> "main" /\ x <> "init") /\
    nameMap s' = nameMap s /\ rand s' = rand s /\
    structTypeMapping s' = structTypeMapping s /\
    typeAliasMapping s' = typeAliasMapping s /\
    importAliases s' = importAliases s /\
    structFields s' = structFields s /\
    structTypes s' = structTypes s.
Proof.
  intros Hd. eexists. split; [apply collectDeclaredFunctions_fold; exact Hd|].
  rewrite recordFuncDecl_fold. unfold set_declaredMethods, set_declaredFuncs.
  cbn [declaredFuncs declaredMethods nameMap rand structTypeMapping typeAliasMapping
       importAliases structFields structTypes].
  split; [|split; [|repeat split]].
  - intros x. rewrite elem_of_union, elem_of_list_to_set, list_elem_of_In,
      declaredFuncNames_spec. tauto.
  - intros x. rewrite elem_of_union, elem_of_list_to_set, list_elem_of_In,
      declaredMethodNames_spec. tauto.
Qed.

Lemma collectDeclaredFunctions_records_witness :
  exists s',
    collectDeclaredFunctions 10 stringerFile (initState []) = Some (stringerFile, s') /\
    (forall x, x ∈ declaredFuncs s' <->
       x ∈ declaredFuncs (initState []) \/
       exists fname type body,
         In (NFuncDecl None fname type body) (fileNodes stringerFile) /\ Name fname = x /\
         x <> "main" /\ x <> "init") /\
    (forall x, x ∈ declaredMethods s' <->
       x ∈ declaredMethods (initState []) \/
       exists recv fname type body,
         In (NFuncDecl (Some recv) fname type body) (fileNodes stringerFile) /\
         Name fname = x /\ x <> "main" /\ x <> "init") /\
    nameMap s' = nameMap (initState []) /\ rand s' = rand (initState []) /\
    structTypeMapping s' = structTypeMapping (initState []) /\
    typeAliasMapping s' = typeAliasMapping (initState []) /\
    importAliases s' = importAliases (initState []) /\
    structFields s' = structFields (initState []) /\
    structTypes s' = structTypes (initState []).
Proof.
  apply (collectDeclaredFunctions_records 10 stringerFile (initState [])).
  vm_compute. lia.
Defined.

Lemma union_swap_singleton (x : string) (A B : gset string) :
  A ∪ ({[x]} ∪ B) = {[x]} ∪ A ∪ B.
Proof. set_solver. Qed.

Lemma union_nil_l (A : gset string) : list_to_set [] ∪ A = A.
Proof. set_solver. Qed.

Lemma union_assoc_3 (A B C : gset string) : A ∪ (B ∪ C) = B ∪ A ∪ C.
Proof. set_solver. Qed.

Lemma structFields_fold (names : list string) :
  forall s,
    fold_left (fun s name =>
                 if reserved name then s
                 else set_structFields ({[name]} ∪ structFields s) s) names s
    = set_structFields
        (list_to_set (List.filter (fun name => negb (reserved name)) names)
         ∪ structFields s) s.
Proof.
  induction names as [|name names IH]; intros s.
  - cbn [fold_left List.filter]. rewrite union_nil_l. destruct s. reflexivity.
  - cbn [fold_left List.filter]. rewrite IH.
    destruct (reserved name); cbn [negb]; [reflexivity|].
    unfold set_structFields.
    cbn [structFields nameMap structTypeMapping typeAliasMapping
         rand declaredFuncs declaredMethods importAliases typeNames structTypes].
    rewrite list_to_set_cons, union_swap_singleton. reflexivity.
Qed.

Lemma recordStructFields_fold (nodes : list Node) :
  forall s,
    fold_left (fun s n => recordStructFields n s) nodes s
    = set_structFields
        (list_to_set
           (List.filter (fun name => negb (reserved name))
              (flat_map (fun n => match n with
                                  | NStructType (Some fields) => fieldListNames fields
                                  | _ => []
                                  end) nodes))
         ∪ structFields s) s.
Proof.
  induction nodes as [|n nodes IH]; intros s.
  - cbn [fold_left flat_map List.filter]. rewrite union_nil_l. destruct s. reflexivity.
  - cbn [fold_left flat_map]. rewrite IH. clear IH.
    rewrite List.filter_app, list_to_set_app_L.
    assert (Hskip : forall s0 : State,
               set_structFields
                 (list_to_set (List.filter (fun name => negb (reserved name)) [])
                  ∪ list_to_set
                      (List.filter (fun name => negb (reserved name))
                         (flat_map (fun n => match n with
                                             | NStructType (Some fields) =>
                                                 fieldListNames fields
                                             | _ => []
                                             end) nodes))
                  ∪ structFields s0) s0
               = set_structFields
                   (list_to_set
                      (List.filter (fun name => negb (reserved name))
                         (flat_map (fun n => match n with
                                             | NStructType (Some fields) =>
                                                 fieldListNames fields
                                             | _ => []
                                             end) nodes))
                    ∪ structFields s0) s0).
    { intros s0. cbn [List.filter]. rewrite union_nil_l. reflexivity. }
    destruct n as [| | | |[fields|]| | | | | | |]; cbn [recordStructFields];
      try (symmetry; apply Hskip).
    rewrite structFields_fold.
    unfold set_structFields; cbn [structFields nameMap structTypeMapping typeAliasMapping
      rand declaredFuncs declaredMethods importAliases typeNames structTypes].
    rewrite union_assoc_3. reflexivity.
Qed.

(** X6: on a tree within the depth bound [collectStructFields] returns and
    leaves the tree as it is.  It adds to [structFields] exactly the field
    names declared in the struct types of the file that are not reserved
    names; a reserved name is never recorded as a struct field.  Nothing
    else of the state changes. *)
Theorem collectStructFields_records (fuel : nat) (file : File) (s : State) :
  (fileDepth file < fuel)%nat ->
  exists s',
    collectStructFields fuel file s = Some (file, s') /\
    (forall x, x ∈ structFields s' <->
       x ∈ structFields s \/ (x ∈ declaredFieldNames file /\ reserved x = false)) /\
    nameMap s' = nameMap s /\ rand s' = rand s /\
    structTypeMapping s' = structTypeMapping s /\
    typeAliasMapping s' = typeAliasMapping s /\
    importAliases s' = importAliases s /\
    declaredFuncs s' = declaredFuncs s /\
    declaredMethods s' = declaredMethods s /\
    structTypes s' = structTypes s.
Proof.
  intros Hd. eexists. split.
  { unfold collectStructFields.
    apply (InspectFile_collect recordStructFields); [|exact Hd].
    intros n s0. destruct n as [| | | |[fields|]| | | | | | |]; reflexivity. }
  rewrite recordStructFields_fold. unfold set_structFields.
  cbn [declaredFuncs declaredMethods nameMap rand structTypeMapping typeAliasMapping
       importAliases structFields structTypes].
  split; [|repeat split].
  intros x. unfold declaredFieldNames.
  rewrite elem_of_union, !elem_of_list_to_set, !list_elem_of_In, filter_In,
    negb_true_iff. tauto.
Qed.

Lemma collectStructFields_records_witness :
  reserved "Value" = true /\
  exists s',
    collectStructFields 10 fieldsFile (initState []) = Some (fieldsFile, s') /\
    ("n" ∈ structFields s') /\ ("Value" ∉ structFields s') /\
    nameMap s' = nameMap (initState []) /\ rand s' = rand (initState []).
Proof.
  split; [reflexivity|].
  assert (Hd : (fileDepth fieldsFile < 10)%nat) by (vm_compute; lia).
  destruct (collectStructFields_records 10 fieldsFile (initState []) Hd)
    as (s' & Hrun & Hfields & Hnames & Hrand & _).
  exists s'. split; [exact Hrun|]. split; [|split; [|split; assumption]].
  - apply Hfields. right. split; [|reflexivity].
    apply (bool_decide_unpack _). vm_compute. exact I.
  - intros Hin. apply Hfields in Hin. destruct Hin as [Hin|[_ Hin]].
    + cbn in Hin. apply elem_of_empty in Hin. exact Hin.
    + discriminate Hin.
Defined.

(** ** The replacement tables agree with the name map *)

Lemma tablesAgree_alloc (fuel : nat) (original : string) (s s' : State) (v : string) :
  tablesAgree s -> getObfuscatedName fuel original s = Some (v, s') ->
  tablesAgree s' /\ nameMap s' !! original = Some v.
Proof.
  intros (H1 & H2 & H3) H.
  pose proof (getObfuscatedName_lookup _ _ _ _ _ H) as Hlook.
  pose proof (getObfuscatedName_keeps _ _ _ _ _ H) as Hkeep.
  split; [|exact Hlook].
  apply getObfuscatedName_cases in H.
  destruct H as [[_ ->]|(_ & _ & rng & ->)]; [repeat split; assumption|].
  repeat split; intros k x Hk; apply Hkeep; [apply H1|apply H2|apply H3]; exact Hk.
Qed.

Lemma subMap_insert (m names : gmap string string) (k v : string) :
  subMap m names -> names !! k = Some v -> subMap (<[k := v]> m) names.
Proof.
  intros Hm Hk k' v'. destruct (decide (k' = k)) as [->|Hne].
  - rewrite lookup_insert_eq. intros [= <-]. exact Hk.
  - rewrite lookup_insert_ne by congruence. apply Hm.
Qed.

Ltac visitor_agree :=
  repeat match goal with
         | H : context [match ?x with _ => _ end] |- _ => is_var x; destruct x
         | H : context [if ?b then _ else _] |- _ => destruct b eqn:?
         | H : keep _ _ = Some _ |- _ => injection H as <- <-
         | H : Some _ = Some _ |- _ => injection H as <- <-
         | H : bindS _ _ = Some _ |- _ => bind_inv H
         | H : None = Some _ |- _ => discriminate H
         | H : context [match ?x with _ => _ end] |- _ => destruct x eqn:?
         end;
  try assumption;
  try match goal with
      | Hs : tablesAgree ?s, E : getObfuscatedName _ _ ?s = Some _ |- _ =>
          destruct (tablesAgree_alloc _ _ _ _ _ Hs E) as [(? & ? & ?) ?];
          repeat split;
          cbn [structTypeMapping typeAliasMapping importAliases nameMap
               set_structTypeMapping set_typeAliasMapping set_importAliases
               set_structTypes];
          first [assumption | apply subMap_insert; assumption]
      end.

Lemma structFields_fold_tables (names : list string) (s : State) :
  tablesAgree s ->
  tablesAgree (fold_left (fun s name =>
                            if reserved name then s
                            else set_structFields ({[name]} ∪ structFields s) s)
                         names s).
Proof. rewrite structFields_fold. intros H. exact H. Qed.

Lemma collect_tablesAgree (fuel : nat) (file file' : File) (s s' : State) :
  tablesAgree s -> collect fuel file s = Some (file', s') -> tablesAgree s'.
Proof.
  intros Hs H. unfold collect in H. do 3 bind_inv H.
  unfold collectTypeNames, collectDeclaredFunctions, collectStructFields,
    collectStructTypes in *.
  eapply (InspectFile_state_inv tablesAgree) in E; [|clear|exact Hs].
  2:{ intros n x n' x' Hx Hv. destruct n; visitor_agree. }
  eapply (InspectFile_state_inv tablesAgree) in E0; [|clear|exact E].
  2:{ intros n x n' x' Hx Hv. destruct n; cbn beta iota zeta in Hv; visitor_agree. }
  eapply (InspectFile_state_inv tablesAgree) in E1; [|clear|exact E0].
  2:{ intros n x n' x' Hx Hv. destruct n; visitor_agree.
      apply structFields_fold_tables. exact Hx. }
  eapply (InspectFile_state_inv tablesAgree) in H; [exact H|clear|exact E1].
  intros n x n' x' Hx Hv. destruct n; cbn beta iota zeta in Hv; visitor_agree.
Qed.

Lemma obfuscateImports_tablesAgree (cfg : Config) (fuel : nat) (file file' : File)
  (s s' : State) :
  tablesAgree s -> obfuscateImports cfg fuel file s = Some (file', s') -> tablesAgree s'.
Proof.
  intros Hs H. unfold obfuscateImports in H.
  destruct (noImports cfg); [injection H as <- <-; exact Hs|].
  bind_inv H. injection H as <- <-.
  eapply (mapS_state_inv tablesAgree) in E; [exact E| |exact Hs].
  clear. intros decl s decl' s' Hs H. unfold obfuscateImportDecl in H.
  destruct decl as [| | | | | | | | |tok specs| |]; try (injection H as <- <-; exact Hs).
  destruct tok; try (injection H as <- <-; exact Hs).
  bind_inv H. injection H as <- <-.
  eapply (mapS_state_inv tablesAgree) in E; [exact E| |exact Hs].
  clear. intros spec x spec' x' Hx Hv. unfold obfuscateImportSpec in Hv.
  destruct spec; visitor_agree.
Qed.

Lemma obfuscateTree_tablesAgree (cfg : Config) (fuel : nat) (file file' : File)
  (s s' : State) :
  tablesAgree s -> obfuscateTree cfg fuel file s = Some (file', s') -> tablesAgree s'.
Proof.
  intros Hs H. unfold obfuscateTree in H. do 5 bind_inv H.
  unfold obfuscateConsts in E.
  eapply (InspectFile_state_inv tablesAgree) in E; [|clear|exact Hs].
  2:{ intros n x n' x' Hx Hv. destruct n; visitor_agree. }
  apply (obfuscateImports_tablesAgree _ _ _ _ _ _ E) in E0.
  unfold updateImportReferences in E1.
  assert (H2 : tablesAgree s2).
  { destruct (noImports cfg); [injection E1 as <- <-; exact E0|].
    eapply (InspectFile_state_inv tablesAgree) in E1; [exact E1|clear|exact E0].
    intros n x n' x' Hx Hv. destruct n; visitor_agree. }
  clear E1. unfold obfuscateStructTypes in E2.
  assert (H3 : tablesAgree s3).
  { destruct (collectFieldNameSet fuel a1) as [[? fieldNameSet]|]; [|discriminate].
    eapply (InspectFile_state_inv tablesAgree) in E2; [exact E2|clear|exact H2].
    intros n x n' x' Hx Hv. destruct n; visitor_agree. }
  clear E2. unfold obfuscateVariables in E3.
  assert (H4 : tablesAgree s4).
  { destruct (noVars cfg); [injection E3 as <- <-; exact H3|].
    eapply (InspectFile_state_inv tablesAgree) in E3; [exact E3|clear|exact H3].
    intros n x n' x' Hx Hv. unfold renameVariable in Hv. destruct n; visitor_agree. }
  clear E3. unfold obfuscateFunctions in H.
  destruct (noFunctions cfg); [injection H as <- <-; exact H4|].
  do 2 bind_inv H.
  eapply (InspectFile_state_inv tablesAgree) in E1; [|clear|exact H4].
  2:{ intros n x n' x' Hx Hv. unfold renameFuncDecl in Hv. destruct n; visitor_agree. }
  eapply (InspectFile_state_inv tablesAgree) in E2; [|clear|exact E1].
  2:{ intros n x n' x' Hx Hv. unfold renameCall in Hv. destruct n; visitor_agree. }
  eapply (InspectFile_state_inv tablesAgree) in H; [exact H|clear|exact E2].
  intros n x n' x' Hx Hv. unfold renameSelector in Hv. destruct n; visitor_agree.
Qed.

(** X7: after the tree stage of [main] the three replacement tables agree
    with the name map: a replacement recorded for a spelling in
    [structTypeMapping], in [typeAliasMapping] or in [importAliases] is the
    replacement [nameMap] holds for that spelling.  So a type, an import
    and a variable or function of one spelling all get the same
    replacement. *)
Theorem mainTree_tables_agree (cfg : Config) (fuel : nat) (file file' : File)
  (rng : Rand) (s' : State) :
  mainTree cfg fuel file rng = Some (file', s') ->
  forall k v,
    structTypeMapping s' !! k = Some v \/ typeAliasMapping s' !! k = Some v \/
    importAliases s' !! k = Some v ->
    nameMap s' !! k = Some v.
Proof.
  intros H. unfold mainTree in H. bind_inv H.
  eapply collect_tablesAgree in E.
  2:{ repeat split; intros k v Hk; cbn in Hk; rewrite lookup_empty in Hk; discriminate. }
  eapply obfuscateTree_tablesAgree in H; [|exact E].
  destruct H as (H1 & H2 & H3).
  intros k v [Hk|[Hk|Hk]]; [apply H1|apply H2|apply H3]; exact Hk.
Qed.

Lemma mainTree_tables_agree_witness :
  match mainTree allOn 10 chainFile (draws 90) with
  | Some (file', s') =>
      forall k v,
        structTypeMapping s' !! k = Some v \/ typeAliasMapping s' !! k = Some v \/
        importAliases s' !! k = Some v ->
        nameMap s' !! k = Some v
  | None => False
  end.
Proof.
  destruct (mainTree allOn 10 chainFile (draws 90)) as [[file' s']|] eqn:E.
  - apply (mainTree_tables_agree allOn 10 chainFile file' (draws 90) s' E).
  - vm_compute in E. discriminate E.
Defined.

(** ** [obfuscateConsts] *)

Section InspectConsts.

Let f (n : Node) (s : State) : option (Node * State) :=
  match n with
  | NGenDecl CONST specs => Some (NGenDecl VAR specs, s)
  | _ => keep n s
  end.

Lemma Inspect_consts_idents (fuel : nat) (l : list Ident) (s : State) :
  (forall n s, (depth n < fuel)%nat -> Inspect f fuel n s = Some (constsToVars n, s)) ->
  (0 < fuel)%nat ->
  mapS (fun id s => bindS (Inspect f fuel (NIdent id) s)
                          (fun n' s => Some (as_ident n' id, s))) l s
  = Some (l, s).
Proof.
  intros IH Hfuel. rewrite <- (map_id l) at 2. apply mapS_pure.
  apply Forall_forall. intros id _.
  rewrite IH by (cbn [depth]; lia). reflexivity.
Qed.

Lemma Inspect_consts_nodes (fuel : nat) (l : list Node) (s : State) :
  (forall n s, (depth n < fuel)%nat -> Inspect f fuel n s = Some (constsToVars n, s)) ->
  Forall (fun c => (depth c < fuel)%nat) l ->
  mapS (Inspect f fuel) l s = Some (map constsToVars l, s).
Proof.
  intros IH Hall. apply mapS_pure. eapply Forall_impl; [exact Hall|].
  intros c Hc. apply IH. exact Hc.
Qed.

Lemma Inspect_consts (fuel : nat) :
  forall (n : Node) (s : State),
    (depth n < fuel)%nat -> Inspect f fuel n s = Some (constsToVars n, s).
Proof.
  induction fuel as [|fuel IH]; intros n s Hd; [lia|].
  cbn [Inspect].
  destruct n as [id|v|x sel|fn args|fields|names type|name path|name type
                 |names type values|tok specs|recv name type body|children];
    try destruct tok;
    cbn [f keep bindS constsToVars demote]; cbn [depth] in Hd;
    repeat match goal with
           | |- context [optS _ ?o] => is_var o; destruct o
           end;
    repeat (cbn [bindS optS option_map constsToVars as_ident];
            first [ rewrite IH by (cbn [depth]; lia)
                  | rewrite (Inspect_consts_idents fuel _ _ IH) by lia
                  | rewrite (Inspect_consts_nodes fuel _ _ IH)
                      by (apply depth_children_lt; lia) ]);
    cbn [bindS optS option_map constsToVars as_ident]; reflexivity.
Qed.

Lemma obfuscateConsts_spec (fuel : nat) (file : File) (s : State) :
  (fileDepth file < fuel)%nat ->
  obfuscateConsts fuel file s
  = Some (mkFile (PkgName file) (map constsToVars (Decls file)), s).
Proof.
  intros Hd. unfold obfuscateConsts, InspectFile, fileDepth in *. fold f.
  rewrite Inspect_consts by (cbn [depth]; lia). cbn [bindS constsToVars as_ident].
  rewrite (Inspect_consts_nodes fuel (Decls file) s (Inspect_consts fuel))
    by (apply depth_children_lt; lia).
  reflexivity.
Qed.

End InspectConsts.

Lemma existsb_map_false {A : Type} (p : A -> bool) (g : A -> A) (l : list A) :
  Forall (fun c => p (g c) = false) l -> existsb p (map g l) = false.
Proof.
  induction 1 as [|c l Hc _ IH]; [reflexivity|].
  cbn [map existsb]. rewrite Hc, IH. reflexivity.
Qed.

Lemma map_fixed {A : Type} (p : A -> bool) (g : A -> A) (l : list A) :
  Forall (fun c => p c = false -> g c = c) l -> existsb p l = false -> map g l = l.
Proof.
  induction 1 as [|c l Hc _ IH]; [reflexivity|].
  cbn [map existsb]. rewrite orb_false_iff. intros [Hp Hl].
  rewrite Hc, IH by assumption. reflexivity.
Qed.

Lemma hasConst_constsToVars (fuel : nat) :
  forall n, (depth n < fuel)%nat -> hasConst (constsToVars n) = false.
Proof.
  induction fuel as [|fuel IH]; intros n Hd; [lia|].
  assert (Hl : forall l, (list_max (map depth l) < fuel)%nat ->
               existsb hasConst (map constsToVars l) = false).
  { intros l Hl. apply existsb_map_false. apply depth_children_lt in Hl.
    eapply Forall_impl; [exact Hl|]. intros c Hc. apply IH. exact Hc. }
  destruct n as [id|v|x sel|fn args|fields|names type|name path|name type
                 |names type values|tok specs|recv name type body|children];
    cbn [depth] in Hd; cbn [constsToVars hasConst];
    repeat match goal with
           | o : option _ |- _ => destruct o
           end;
    cbn [option_map];
    repeat first [ rewrite Hl by lia | rewrite IH by lia ];
    try reflexivity.
  destruct tok; reflexivity.
Qed.

Lemma constsToVars_fixed (fuel : nat) :
  forall n, (depth n < fuel)%nat -> hasConst n = false -> constsToVars n = n.
Proof.
  induction fuel as [|fuel IH]; intros n Hd; [lia|].
  assert (Hl : forall l, (list_max (map depth l) < fuel)%nat ->
               existsb hasConst l = false -> map constsToVars l = l).
  { intros l Hl. apply map_fixed. apply depth_children_lt in Hl.
    eapply Forall_impl; [exact Hl|]. intros c Hc. apply IH. exact Hc. }
  destruct n as [id|v|x sel|fn args|fields|names type|name path|name type
                 |names type values|tok specs|recv name type body|children];
    cbn [depth] in Hd; cbn [constsToVars hasConst];
    repeat match goal with
           | o : option _ |- _ => destruct o
           end;
    cbn [option_map]; rewrite ?orb_false_iff; intros Hc;
    repeat match goal with
           | H : _ /\ _ |- _ => destruct H
           end;
    repeat first [ rewrite Hl by (lia || assumption)
                 | rewrite IH by (lia || assumption) ];
    try reflexivity.
  destruct tok; [reflexivity|discriminate|reflexivity|reflexivity].
Qed.

(** X8: on a tree within the depth bound [obfuscateConsts] returns with
    the state as it was; the tree it leaves is the input with every
    [const] declaration, at any depth, turned into a [var] declaration and
    nothing else changed.  No [const] declaration is left, and a file
    without one comes back as it is. *)
Theorem obfuscateConsts_demotes (fuel : nat) (file : File) (s : State) :
  (fileDepth file < fuel)%nat ->
  obfuscateConsts fuel file s
    = Some (mkFile (PkgName file) (map constsToVars (Decls file)), s) /\
  existsb hasConst (map constsToVars (Decls file)) = false /\
  (existsb hasConst (Decls file) = false ->
   obfuscateConsts fuel file s = Some (file, s)).
Proof.
  intros Hd. split; [apply obfuscateConsts_spec; exact Hd|]. split.
  - apply existsb_map_false. apply Forall_forall. intros c _.
    apply (hasConst_constsToVars (S (depth c))). lia.
  - intros Hfree. rewrite obfuscateConsts_spec by exact Hd.
    rewrite (map_fixed hasConst constsToVars); [destruct file; reflexivity| |exact Hfree].
    apply Forall_forall. intros c _. apply (constsToVars_fixed (S (depth c))). lia.
Qed.

Lemma obfuscateConsts_demotes_witness :
  obfuscateConsts 10 constFile (initState [])
    = Some (mkFile (PkgName constFile) (map constsToVars (Decls constFile)), initState []) /\
  existsb hasConst (map constsToVars (Decls constFile)) = false /\
  (existsb hasConst (Decls constFile) = false ->
   obfuscateConsts 10 constFile (initState []) = Some (constFile, initState [])).
Proof.
  apply (obfuscateConsts_demotes 10 constFile (initState [])).
  vm_compute. lia.
Defined.

(** ** The import passes *)

Lemma mapS_Forall2 {A St : Type} (R : A -> A -> Prop) (g : A -> St -> option (A * St)) :
  (forall a s a' s', g a s = Some (a', s') -> R a a') ->
  forall l s l' s', mapS g l s = Some (l', s') -> Forall2 R l l'.
Proof.
  intros Hg. induction l as [|a l IH]; intros s l' s' H; cbn [mapS] in H.
  - injection H as <- <-. constructor.
  - binds_inv H. constructor; [eapply Hg|eapply IH]; eassumption.
Qed.

(** X9: with the toggle on, a run of [obfuscateImports] that returns keeps
    the package name, every declaration that is not an import declaration,
    and the number, the order and the paths of the import specs; every
    import spec comes out with a name, put in the place of whatever name it
    had (a blank or dot import included). *)
Theorem obfuscateImports_keeps_paths (cfg : Config) (fuel : nat) (file file' : File)
  (s s' : State) :
  noImports cfg = false ->
  obfuscateImports cfg fuel file s = Some (file', s') ->
  PkgName file' = PkgName file /\
  Forall2 importDeclRenamed (Decls file) (Decls file').
Proof.
  intros Hon H. unfold obfuscateImports in H. rewrite Hon in H.
  bind_inv H. injection H as <- <-. cbn [PkgName Decls]. split; [reflexivity|].
  eapply mapS_Forall2; [|exact E]. clear.
  intros decl s decl' s' H. unfold obfuscateImportDecl in H.
  destruct decl as [| | | | | | | | |tok specs| |];
    try (injection H as <- <-; reflexivity).
  destruct tok; try (injection H as <- <-; reflexivity).
  bind_inv H. injection H as <- <-. cbn [importDeclRenamed].
  exists a. split; [reflexivity|].
  eapply mapS_Forall2; [|exact E]. clear.
  intros spec s spec' s' H. unfold obfuscateImportSpec in H.
  destruct spec; try (injection H as <- <-; reflexivity).
  bind_inv H. injection H as <- <-. cbn [importSpecRenamed]. eexists. reflexivity.
Qed.

Lemma obfuscateImports_keeps_paths_witness :
  match obfuscateImports allOn 5 qualifiedFile (initState (draws 60)) with
  | Some (file', s') =>
      PkgName file' = PkgName qualifiedFile /\
      Forall2 importDeclRenamed (Decls qualifiedFile) (Decls file')
  | None => False
  end.
Proof.
  destruct (obfuscateImports allOn 5 qualifiedFile (initState (draws 60)))
    as [[file' s']|] eqn:E.
  - apply (obfuscateImports_keeps_paths allOn 5 qualifiedFile file'
             (initState (draws 60)) s' eq_refl E).
  - vm_compute in E. discriminate E.
Defined.

Section InspectRequalify.

Let f (n : Node) (s : State) : option (Node * State) :=
  match n with
  | NSelectorExpr (NIdent ident) sel =>
      match importAliases s !! Name ident with
      | Some alias => Some (NSelectorExpr (NIdent (setName ident alias)) sel, s)
      | None => keep n s
      end
  | _ => keep n s
  end.

Lemma Inspect_requalify_idents (fuel : nat) (l : list Ident) (s : State) :
  (forall n s, (depth n < fuel)%nat ->
               Inspect f fuel n s = Some (requalify (importAliases s) n, s)) ->
  (0 < fuel)%nat ->
  mapS (fun id s => bindS (Inspect f fuel (NIdent id) s)
                          (fun n' s => Some (as_ident n' id, s))) l s
  = Some (l, s).
Proof.
  intros IH Hfuel. rewrite <- (map_id l) at 2. apply mapS_pure.
  apply Forall_forall. intros id _.
  rewrite IH by (cbn [depth]; lia). reflexivity.
Qed.

Lemma Inspect_requalify_nodes (fuel : nat) (l : list Node) (s : State) :
  (forall n s, (depth n < fuel)%nat ->
               Inspect f fuel n s = Some (requalify (importAliases s) n, s)) ->
  Forall (fun c => (depth c < fuel)%nat) l ->
  mapS (Inspect f fuel) l s = Some (map (requalify (importAliases s)) l, s).
Proof.
  intros IH Hall. apply mapS_pure. eapply Forall_impl; [exact Hall|].
  intros c Hc. apply IH. exact Hc.
Qed.

Lemma Inspect_requalify (fuel : nat) :
  forall (n : Node) (s : State),
    (depth n < fuel)%nat ->
    Inspect f fuel n s = Some (requalify (importAliases s) n, s).
Proof.
  induction fuel as [|fuel IH]; intros n s Hd; [lia|].
  cbn [Inspect].
  destruct n as [id|v|x sel|fn args|fields|names type|name path|name type
                 |names type values|tok specs|recv name type body|children].
  3:{ cbn [depth] in Hd.
      assert (Hsel : bindS (Inspect f fuel (NIdent sel) s)
                           (fun n' s => Some (as_ident n' sel, s)) = Some (sel, s)).
      { rewrite IH by (cbn [depth]; lia). reflexivity. }
      destruct x as [id| | | | | | | | | | |];
        [|cbn [f keep bindS requalify];
          rewrite IH by lia; cbn [bindS]; rewrite Hsel; reflexivity..].
      cbn [f requalify]. unfold requalifyIdent.
      destruct (importAliases s !! Name id) as [alias|];
        cbn [keep bindS]; rewrite IH by (cbn [depth]; lia);
        cbn [bindS requalify]; rewrite Hsel; reflexivity. }
  all: cbn [f keep bindS requalify]; cbn [depth] in Hd;
    repeat match goal with
           | |- context [optS _ ?o] => is_var o; destruct o
           end;
    repeat (cbn [bindS optS option_map requalify as_ident];
            first [ rewrite IH by (cbn [depth]; lia)
                  | rewrite (Inspect_requalify_idents fuel _ _ IH) by lia
                  | rewrite (Inspect_requalify_nodes fuel _ _ IH)
                      by (apply depth_children_lt; lia) ]);
    cbn [bindS optS option_map requalify as_ident]; reflexivity.
Qed.

Lemma updateImportReferences_spec (cfg : Config) (fuel : nat) (file : File) (s : State) :
  noImports cfg = false ->
  (fileDepth file < fuel)%nat ->
  updateImportReferences cfg fuel file s
  = Some (mkFile (PkgName file) (map (requalify (importAliases s)) (Decls file)), s).
Proof.
  intros Hon Hd. unfold updateImportReferences, InspectFile, fileDepth in *.
  rewrite Hon. fold f.
  rewrite Inspect_requalify by (cbn [depth]; lia). cbn [bindS requalify as_ident].
  rewrite (Inspect_requalify_nodes fuel (Decls file) s (Inspect_requalify fuel))
    by (apply depth_children_lt; lia).
  reflexivity.
Qed.

End InspectRequalify.

Lemma obfuscateImports_aliased (cfg : Config) (fuel : nat) (file file' : File)
  (s s' : State) :
  noImports cfg = false ->
  obfuscateImports cfg fuel file s = Some (file', s') ->
  forall spec, In spec (importSpecs file') -> aliased s' spec.
Proof.
  intros Hon H. unfold obfuscateImports in H. rewrite Hon in H.
  bind_inv H. injection H as <- <-.
  apply (mapS_grows _ (fun s decl => match decl with
                                     | NGenDecl IMPORT specs => Forall (aliased s) specs
                                     | _ => True
                                     end)) in E.
  - destruct E as [_ Hall]. intros spec Hin.
    unfold importSpecs in Hin. cbn [Decls] in Hin.
    apply in_flat_map in Hin. destruct Hin as (decl & Hdecl & Hin).
    rewrite List.Forall_forall in Hall. specialize (Hall decl Hdecl).
    destruct decl as [| | | | | | | | |tok specs| |]; try contradiction.
    destruct tok; try contradiction.
    rewrite List.Forall_forall in Hall. apply Hall. exact Hin.
  - intros s1 s2 decl Hg Hq.
    destruct decl as [| | | | | | | | |tok specs| |]; try exact I.
    destruct tok; try exact I.
    eapply Forall_impl; [exact Hq|]. intros spec. apply aliased_grows. exact Hg.
  - intros decl s1 decl' s2. apply obfuscateImportDecl_spec.
Qed.

(** X10: the two import passes compose.  After [obfuscateImports] has
    returned (toggle on), [updateImportReferences] returns on a tree within
    the depth bound, with the state as it was, and rewrites exactly the
    qualifiers of selector expressions that are bare identifiers spelled
    like a key of the alias record.  For an import whose path [p] is
    written out between double quotes, without escapes, a qualifier spelled
    like the last segment of [p] (the text after its last slash) now
    carries the very name that import was given, and the import specs
    themselves stay as the first pass left them. *)
Theorem updateImportReferences_follows (cfg : Config) (fuel : nat)
  (file file1 : File) (s s1 : State) :
  noImports cfg = false ->
  obfuscateImports cfg fuel file s = Some (file1, s1) ->
  (fileDepth file1 < fuel)%nat ->
  updateImportReferences cfg fuel file1 s1
    = Some (mkFile (PkgName file1) (map (requalify (importAliases s1)) (Decls file1)), s1) /\
  forall name p,
    plainPath p = true ->
    In (NImportSpec name (quoted p)) (importSpecs file1) ->
    In (NImportSpec name (quoted p))
       (importSpecs (mkFile (PkgName file1)
                            (map (requalify (importAliases s1)) (Decls file1)))) /\
    exists alias,
      name = Some (mkIdent alias None) /\
      forall id, Name id = lastSegment p ->
                 requalifyIdent (importAliases s1) id = setName id alias.
Proof.
  intros Hon Hrun Hd. split; [apply updateImportReferences_spec; assumption|].
  intros name p Hp Hin. split.
  - unfold importSpecs in *. cbn [Decls]. apply in_flat_map in Hin.
    destruct Hin as (decl & Hdecl & Hin). apply in_flat_map.
    exists (requalify (importAliases s1) decl). split; [apply in_map; exact Hdecl|].
    destruct decl as [| | | | | | | | |tok specs| |]; try contradiction.
    destruct tok; try contradiction. cbn [requalify].
    change (NImportSpec name (quoted p))
      with (requalify (importAliases s1) (NImportSpec name (quoted p))).
    apply in_map. exact Hin.
  - pose proof (obfuscateImports_aliased _ _ _ _ _ _ Hon Hrun _ Hin) as Hal.
    cbn [aliased] in Hal. rewrite (importBaseName_quoted p Hp) in Hal.
    destruct Hal as (alias & -> & _ & Halias).
    exists alias. split; [reflexivity|]. intros id Hid.
    unfold requalifyIdent. rewrite Hid, Halias. reflexivity.
Qed.

(** The theorem on the sample file: the import of [fmt] and the qualifier
    spelled [fmt]. *)
Lemma updateImportReferences_follows_witness :
  lastSegment "fmt" = "fmt" /\
  match obfuscateImports allOn 10 qualifiedFile (initState (draws 60)) with
  | Some (file1, s1) =>
      updateImportReferences allOn 10 file1 s1
        = Some (mkFile (PkgName file1)
                       (map (requalify (importAliases s1)) (Decls file1)), s1) /\
      In (NImportSpec (Some (ident "a0olI1aаeеpрcсxхyуkк")) (quoted "fmt"))
         (importSpecs (mkFile (PkgName file1)
                              (map (requalify (importAliases s1)) (Decls file1)))) /\
      requalifyIdent (importAliases s1) (ident "fmt") = ident "a0olI1aаeеpрcсxхyуkк"
  | None => False
  end.
Proof.
  split; [reflexivity|].
  destruct (obfuscateImports allOn 10 qualifiedFile (initState (draws 60)))
    as [[file1 s1]|] eqn:E; [|vm_compute in E; discriminate E].
  assert (Hd : (fileDepth file1 < 10)%nat).
  { vm_compute in E. injection E as <- _. vm_compute. lia. }
  destruct (updateImportReferences_follows allOn 10 qualifiedFile file1
              (initState (draws 60)) s1 eq_refl E Hd) as [Hrun Hspecs].
  split; [exact Hrun|].
  assert (Hin : In (NImportSpec (Some (ident "a0olI1aаeеpрcсxхyуkк")) (quoted "fmt"))
                   (importSpecs file1)).
  { vm_compute in E. injection E as <- _. cbn. auto. }
  destruct (Hspecs _ "fmt" eq_refl Hin) as [Hkept (alias & Hname & Hid)].
  split; [exact Hkept|].
  injection Hname as <-. apply (Hid (ident "fmt")). reflexivity.
Defined.

(** On the sample file the qualifier [fmt] follows its import, the
    qualifier [str], which names an import by the alias the input gave it,
    is left behind, and a field selection [x.fmt] is not touched. *)
Example import_passes_ex :
  match obfuscateImports allOn 10 qualifiedFile (initState (draws 60)) with
  | Some (file1, s1) =>
      fileIdents <$> (fst <$> updateImportReferences allOn 10 file1 s1)
      = Some [ident "p"; ident "a0olI1aаeеpрcсxхyуkк"; ident "uВHНMМTТO0olI1aаeеpр";
              identOf Var "A";
              ident "a0olI1aаeеpрcсxхyуkк"; ident "Sprint";
              ident "str"; ident "ToUpper";
              ident "x"; ident "fmt"]
  | None => False
  end.
Proof. vm_compute. reflexivity. Qed.

(** ** The shape of the tree, for every configuration *)

Lemma shapeFile_skeleton (file file' : File) :
  skeletonFile file' = skeletonFile file -> shapeFile file' = shapeFile file.
Proof.
  unfold skeletonFile, shapeFile, shape. intros H.
  assert (Hpkg : eraseName (PkgName file') = eraseName (PkgName file))
    by (injection H as Hp _; unfold eraseName; rewrite Hp; reflexivity).
  assert (Hdecls : map skeleton (Decls file') = map skeleton (Decls file))
    by (injection H as _ Hd; exact Hd).
  rewrite Hpkg. f_equal.
  rewrite <- (map_map skeleton dropImportNames (Decls file')), Hdecls, map_map.
  reflexivity.
Qed.

Lemma obfuscateImports_shape (cfg : Config) (fuel : nat) (file file' : File)
  (s s' : State) :
  obfuscateImports cfg fuel file s = Some (file', s') -> shapeFile file' = shapeFile file.
Proof.
  intros H. unfold obfuscateImports in H.
  destruct (noImports cfg); [injection H as <- <-; reflexivity|].
  bind_inv H. injection H as <- <-. unfold shapeFile. cbn [PkgName Decls]. f_equal.
  eapply (mapS_map shape); [|exact E]. clear.
  intros decl s decl' s' H. unfold obfuscateImportDecl in H.
  destruct decl as [| | | | | | | | |tok specs| |];
    try (injection H as <- <-; reflexivity).
  destruct tok; try (injection H as <- <-; reflexivity).
  bind_inv H. injection H as <- <-. unfold shape. cbn [skeleton dropImportNames demote].
  f_equal. rewrite !map_map. eapply (mapS_map shape); [|exact E]. clear.
  intros spec s spec' s' H. unfold obfuscateImportSpec in H.
  destruct spec; try (injection H as <- <-; reflexivity).
  bind_inv H. injection H as <- <-. reflexivity.
Qed.

Lemma obfuscateTree_shape (cfg : Config) (fuel : nat) (file file' : File)
  (s s' : State) :
  obfuscateTree cfg fuel file s = Some (file', s') -> shapeFile file' = shapeFile file.
Proof.
  intros H. unfold obfuscateTree in H. do 5 bind_inv H.
  unfold obfuscateConsts in E.
  eapply InspectFile_skeleton in E.
  2:{ clear. intros n x n' x' Hv. destruct n; visitor_skeleton. }
  apply shapeFile_skeleton in E.
  apply obfuscateImports_shape in E0.
  unfold updateImportReferences in E1.
  assert (H2 : shapeFile a1 = shapeFile a0).
  { destruct (noImports cfg); [injection E1 as <- <-; reflexivity|].
    apply shapeFile_skeleton.
    eapply InspectFile_skeleton in E1; [exact E1|clear].
    intros n x n' x' Hv. destruct n; visitor_skeleton. }
  clear E1. unfold obfuscateStructTypes in E2.
  assert (H3 : shapeFile a2 = shapeFile a1).
  { destruct (collectFieldNameSet fuel a1) as [[? fieldNameSet]|]; [|discriminate].
    apply shapeFile_skeleton.
    eapply InspectFile_skeleton in E2; [exact E2|clear].
    intros n x n' x' Hv. destruct n; visitor_skeleton.
    cbn [skeleton]. rewrite eraseName_renameTypeIdent. reflexivity. }
  clear E2. unfold obfuscateVariables in E3.
  assert (H4 : shapeFile a3 = shapeFile a2).
  { destruct (noVars cfg); [injection E3 as <- <-; reflexivity|].
    apply shapeFile_skeleton.
    eapply InspectFile_skeleton in E3; [exact E3|clear].
    intros n x n' x' Hv. unfold renameVariable in Hv. destruct n; visitor_skeleton. }
  clear E3. unfold obfuscateFunctions in H.
  assert (H5 : shapeFile file' = shapeFile a3).
  { destruct (noFunctions cfg); [injection H as <- <-; reflexivity|].
    do 2 bind_inv H. apply shapeFile_skeleton.
    eapply InspectFile_skeleton in E1.
    2:{ clear. intros n x n' x' Hv. unfold renameFuncDecl in Hv.
        destruct n; visitor_skeleton. }
    eapply InspectFile_skeleton in E2.
    2:{ clear. intros n x n' x' Hv. unfold renameCall in Hv. destruct n; visitor_skeleton. }
    eapply InspectFile_skeleton in H.
    2:{ clear. intros n x n' x' Hv. unfold renameSelector in Hv.
        destruct n; visitor_skeleton. }
    congruence. }
  congruence.
Qed.

(** X11: for every setting of the toggles, a run of the tree stage of
    [main] that returns leaves the shape of the program as it was: the same
    declarations, statements and expressions in the same order, the same
    literals and import paths, and on every identifier the same resolved
    object.  All it changes is the spelling of identifiers, [const] into
    [var], and the names of the imports. *)
Theorem mainTree_keeps_shape (cfg : Config) (fuel : nat) (file file' : File)
  (rng : Rand) (s' : State) :
  mainTree cfg fuel file rng = Some (file', s') -> shapeFile file' = shapeFile file.
Proof.
  intros H. unfold mainTree in H. bind_inv H.
  apply collect_skeleton, shapeFile_skeleton in E.
  apply obfuscateTree_shape in H. congruence.
Qed.

Lemma mainTree_keeps_shape_witness :
  match mainTree allOn 10 qualifiedFile (draws 90) with
  | Some (file', s') => shapeFile file' = shapeFile qualifiedFile
  | None => False
  end.
Proof.
  destruct (mainTree allOn 10 qualifiedFile (draws 90)) as [[file' s']|] eqn:E.
  - apply (mainTree_keeps_shape allOn 10 qualifiedFile file' (draws 90) s' E).
  - vm_compute in E. discriminate E.
Defined.

(** ** Walks that rename identifiers one at a time *)

Section InspectIdentsRel.

Context (f : Node -> State -> option (Node * State))
        (inv : State -> State -> Prop) (R : State -> Ident -> Ident -> Prop).
Hypothesis inv_refl : forall s, inv s s.
Hypothesis inv_trans : forall s1 s2 s3, inv s1 s2 -> inv s2 s3 -> inv s1 s3.
Hypothesis R_stable : forall s s' id id', inv s s' -> R s id id' -> R s' id id'.
Hypothesis f_other : forall n s, (forall id, n <> NIdent id) -> f n s = Some (n, s).
Hypothesis f_ident : forall id s n' s',
  f (NIdent id) s = Some (n', s') -> inv s s' /\ exists id', n' = NIdent id' /\ R s' id id'.

Let W (s : State) (ids ids' : list Ident) (s' : State) : Prop :=
  inv s s' /\ Forall2 (R s') ids ids'.

Lemma W_nil (s : State) : W s [] [] s.
Proof. split; [apply inv_refl|constructor]. Qed.

Lemma W_app (s s1 s2 : State) (a a' b b' : list Ident) :
  W s a a' s1 -> W s1 b b' s2 -> W s (a ++ b) (a' ++ b') s2.
Proof.
  intros [Hi1 Ha] [Hi2 Hb]. split; [eapply inv_trans; eassumption|].
  apply Forall2_app; [|exact Hb].
  eapply Forall2_impl; [exact Ha|]. intros x y. apply R_stable. exact Hi2.
Qed.

Lemma W_nodes (g : Node -> State -> option (Node * State)) :
  (forall c s c' s', g c s = Some (c', s') ->
                     W s (identsOf (subnodes c)) (identsOf (subnodes c')) s') ->
  forall l s l' s',
    mapS g l s = Some (l', s') ->
    W s (identsOf (flat_map subnodes l)) (identsOf (flat_map subnodes l')) s'.
Proof.
  intros Hg. induction l as [|c l IH]; intros s l' s' H; cbn [mapS] in H.
  - injection H as <- <-. apply W_nil.
  - binds_inv H. cbn [flat_map]. rewrite !identsOf_app.
    eapply W_app; [eapply Hg|eapply IH]; eassumption.
Qed.

Lemma W_idents (g : Ident -> State -> option (Ident * State)) :
  (forall id s id' s', g id s = Some (id', s') -> W s [id] [id'] s') ->
  forall l s l' s', mapS g l s = Some (l', s') -> W s l l' s'.
Proof.
  intros Hg. induction l as [|c l IH]; intros s l' s' H; cbn [mapS] in H.
  - injection H as <- <-. apply W_nil.
  - binds_inv H.
    lazymatch goal with
    | |- W ?s0 _ (?x :: ?xs) ?s1 => change (W s0 ([c] ++ l) ([x] ++ xs) s1)
    end.
    eapply W_app; [eapply Hg|eapply IH]; eassumption.
Qed.

Lemma Inspect_ident_rel (fuel : nat) (id : Ident) (s : State) (n' : Node) (s' : State) :
  Inspect f fuel (NIdent id) s = Some (n', s') ->
  inv s s' /\ exists id', n' = NIdent id' /\ R s' id id'.
Proof.
  destruct fuel as [|fuel]; [discriminate|]. cbn [Inspect]. intros H. bind_inv H.
  apply f_ident in E. destruct E as (Hi & id' & -> & HR).
  injection H as <- <-. eauto.
Qed.

Lemma Inspect_idents_rel (fuel : nat) :
  forall n s n' s',
    Inspect f fuel n s = Some (n', s') ->
    W s (identsOf (subnodes n)) (identsOf (subnodes n')) s'.
Proof.
  induction fuel as [|fuel IH]; intros n s n' s' H; [discriminate|].
  cbn [Inspect] in H.
  set (walkIdent := fun (id : Ident) (s : State) =>
                      bindS (Inspect f fuel (NIdent id) s)
                            (fun n' s => Some (as_ident n' id, s))) in *.
  assert (Hid : forall id s1 id' s2,
             walkIdent id s1 = Some (id', s2) -> W s1 [id] [id'] s2).
  { intros id s1 id' s2 H2. unfold walkIdent in H2. binds_inv H2.
    apply Inspect_ident_rel in E. destruct E as (Hi & id0 & -> & HR).
    cbn [as_ident]. split; [exact Hi|]. constructor; [exact HR|constructor]. }
  pose proof (W_nodes _ IH) as Hnodes.
  pose proof (W_idents _ Hid) as Hidents.
  destruct n as [id|v|x sel|fn args|fields|names type|name path|name type
                 |names type values|tok specs|recv name type body|children];
    [ bind_inv H; apply f_ident in E; destruct E as (Hi & id' & -> & HR);
      injection H as <- <-; cbn; split; [exact Hi|];
      constructor; [exact HR|constructor]
    | rewrite f_other in H by discriminate; cbn [bindS] in H;
      injection H as <- <-; apply W_nil
    | rewrite f_other in H by discriminate; cbn [bindS] in H;
      repeat match goal with
             | o : option _ |- _ => destruct o
             end;
      cbn [optS bindS] in H; binds_inv H;
      repeat match goal with
             | E : Inspect f fuel _ _ = Some _ |- _ => apply IH in E
             | E : mapS (Inspect f fuel) _ _ = Some _ |- _ => apply Hnodes in E
             | E : mapS walkIdent _ _ = Some _ |- _ => apply Hidents in E
             | E : walkIdent _ _ = Some _ |- _ => apply Hid in E
             | E : bindS (Inspect f fuel (NIdent ?id) _) _ = Some _ |- _ =>
                 apply (Hid id) in E
             | E : bindS _ _ = Some _ |- _ =>
                 bind_inv E; cbn beta in E; injection E as <- <-
             end;
      cbn [subnodes];
      change (identsOf (?a :: ?l)) with (identsOf [a] ++ identsOf l)%list;
      rewrite ?identsOf_app;
      change (identsOf (?a :: ?l)) with (identsOf [a] ++ identsOf l)%list;
      rewrite ?identsOf_app, ?identsOf_idents;
      change (identsOf [NIdent ?i]) with [i];
      change (identsOf [_]) with (@nil Ident);
      change (identsOf []) with (@nil Ident);
      repeat first [ eassumption
                   | apply W_nil
                   | eapply W_app; [eassumption|]
                   | eapply W_app; [apply W_nil|] ] .. ].
Qed.

Lemma InspectFile_idents_rel (fuel : nat) (file file' : File) (s s' : State) :
  InspectFile f fuel file s = Some (file', s') ->
  inv s s' /\ Forall2 (R s') (fileIdents file) (fileIdents file').
Proof.
  intros H. unfold InspectFile in H. binds_inv H.
  unfold fileIdents, fileNodes. cbn [PkgName Decls].
  change (identsOf (?a :: ?l)) with (identsOf [a] ++ identsOf l)%list.
  apply Inspect_ident_rel in E. destruct E as (Hi & id0 & -> & HR).
  apply (W_nodes _ (Inspect_idents_rel fuel)) in E0.
  cbn [as_ident]. eapply W_app; [|exact E0]. split; [exact Hi|].
  change (identsOf [NIdent ?i]) with [i]. constructor; [assumption|constructor].
Qed.

End InspectIdentsRel.

(** ** [obfuscateVariables] *)

Lemma sameTables_refl (s : State) : sameTables s s.
Proof. repeat split. auto. Qed.

Lemma sameTables_trans (s1 s2 s3 : State) :
  sameTables s1 s2 -> sameTables s2 s3 -> sameTables s1 s3.
Proof.
  unfold sameTables. intros (A1 & A2 & A3 & A4 & A5 & A6 & A7 & A8)
                            (B1 & B2 & B3 & B4 & B5 & B6 & B7 & B8).
  repeat split; try congruence. auto.
Qed.

Lemma sameTables_alloc (fuel : nat) (original : string) (s s' : State) (v : string) :
  getObfuscatedName fuel original s = Some (v, s') -> sameTables s s'.
Proof.
  intros H. pose proof (getObfuscatedName_keeps _ _ _ _ _ H) as Hkeep.
  apply getObfuscatedName_cases in H.
  destruct H as [[_ ->]|(_ & _ & rng & ->)]; [apply sameTables_refl|].
  repeat split. exact Hkeep.
Qed.

Lemma protectedName_sameTables (s s' : State) (name : string) :
  sameTables s s' -> protectedName s' name = protectedName s name.
Proof.
  intros (A1 & A2 & A3 & _). unfold protectedName. rewrite A1, A2, A3. reflexivity.
Qed.

Lemma variableRenamed_stable (pv : gset string) (s s' : State) (id id' : Ident) :
  sameTables s s' ->
  variableRenamed s (nameMap s) pv id id' -> variableRenamed s' (nameMap s') pv id id'.
Proof.
  intros Hs. unfold variableRenamed. rewrite (protectedName_sameTables _ _ _ Hs).
  destruct (negb (protectedName s (Name id)) && isVariable pv id); [|auto].
  intros (v & Hv & ->). exists v. split; [|reflexivity].
  destruct Hs as (_ & _ & _ & _ & _ & _ & _ & Hkeep). auto.
Qed.

Lemma renameVariable_ident (fuel : nat) (pv : gset string) (id : Ident) (s : State)
  (n' : Node) (s' : State) :
  renameVariable fuel pv (NIdent id) s = Some (n', s') ->
  sameTables s s' /\
  exists id', n' = NIdent id' /\ variableRenamed s' (nameMap s') pv id id'.
Proof.
  unfold renameVariable, variableRenamed, protectedName, isVariable.
  destruct (reserved (Name id)); cbn [orb negb andb];
    [intros [= <- <-]; split; [apply sameTables_refl|eauto]|].
  destruct (bool_decide (Name id ∈ structTypes s)) eqn:E1.
  { cbn [orb]. intros [= <- <-]. split; [apply sameTables_refl|].
    rewrite E1. cbn. eauto. }
  destruct (bool_decide (Name id ∈ structFields s)) eqn:E2.
  { cbn [orb]. intros [= <- <-]. split; [apply sameTables_refl|].
    rewrite E1, E2. cbn. eauto. }
  cbn [orb].
  destruct (bool_decide (is_Some (typeAliasMapping s !! Name id))) eqn:E3.
  { intros [= <- <-]. split; [apply sameTables_refl|].
    rewrite E1, E2, E3. cbn. eauto. }
  assert (Hren : forall v s1,
             getObfuscatedName fuel (Name id) s = Some (v, s1) ->
             sameTables s s1 /\
             negb (bool_decide (Name id ∈ structTypes s1)
                   || bool_decide (Name id ∈ structFields s1)
                   || bool_decide (is_Some (typeAliasMapping s1 !! Name id))) = true /\
             nameMap s1 !! Name id = Some v).
  { intros v s1 Hg. pose proof (sameTables_alloc _ _ _ _ _ Hg) as Hs.
    split; [exact Hs|]. split; [|eapply getObfuscatedName_lookup; exact Hg].
    destruct Hs as (A1 & A2 & A3 & _). rewrite A1, A2, A3, E1, E2, E3. reflexivity. }
  destruct (bool_decide (Name id ∈ pv)) eqn:E4.
  { intros H. bind_inv H. injection H as <- <-.
    destruct (Hren _ _ E) as (Hs & Hp & Hl).
    split; [exact Hs|]. eexists. split; [reflexivity|].
    rewrite Hp. cbn [orb andb]. eauto. }
  cbn [orb].
  destruct (Obj id) as [[| | | | | |]|];
    try (intros [= <- <-]; split; [apply sameTables_refl|];
         rewrite ?andb_false_r; eauto).
  destruct (negb (String.eqb (Name id) "_")) eqn:E5.
  - intros H. bind_inv H. injection H as <- <-.
    destruct (Hren _ _ E) as (Hs & Hp & Hl).
    split; [exact Hs|]. eexists. split; [reflexivity|].
    rewrite Hp. cbn [andb]. eauto.
  - intros [= <- <-]. split; [apply sameTables_refl|].
    rewrite ?andb_false_r. eauto.
Qed.

(** X12: a run of [obfuscateVariables] (toggle on) that returns treats every
    identifier of the file by its spelling and resolved object alone.  An
    identifier whose spelling is a reserved name, a struct type name, a
    struct field name or a key of the alias map is left as it is, and so is
    one that is neither spelled like a package-level variable nor resolved
    to a variable, and the blank identifier.  Every other identifier is
    renamed to the replacement the name map holds for its spelling at the
    end of the pass.  The pass changes no table but the name map, which
    keeps its entries. *)
Theorem obfuscateVariables_renames (cfg : Config) (fuel : nat) (file file' : File)
  (s s' : State) :
  noVars cfg = false ->
  obfuscateVariables cfg fuel file s = Some (file', s') ->
  sameTables s s' /\
  Forall2 (variableRenamed s (nameMap s') (packageVarNames (Decls file)))
          (fileIdents file) (fileIdents file').
Proof.
  intros Hon H. unfold obfuscateVariables in H. rewrite Hon in H.
  apply (InspectFile_idents_rel _ sameTables
           (fun s id id' =>
              variableRenamed s (nameMap s) (packageVarNames (Decls file)) id id')) in H.
  - destruct H as [Hs HF]. split; [exact Hs|].
    eapply Forall2_impl; [exact HF|]. intros id id'. unfold variableRenamed.
    rewrite (protectedName_sameTables _ _ _ Hs). auto.
  - apply sameTables_refl.
  - apply sameTables_trans.
  - intros s1 s2 id id'. apply variableRenamed_stable.
  - intros n s0 Hn. destruct n; try reflexivity. exfalso. eapply Hn. reflexivity.
  - intros id s0 n' s1. apply renameVariable_ident.
Qed.

Lemma obfuscateVariables_renames_witness :
  match obfuscateVariables allOn 10 variablesFile
          (set_structFields {["n"]} (initState (draws 90))) with
  | Some (file', s') =>
      sameTables (set_structFields {["n"]} (initState (draws 90))) s' /\
      Forall2 (variableRenamed (set_structFields {["n"]} (initState (draws 90)))
                 (nameMap s') (packageVarNames (Decls variablesFile)))
              (fileIdents variablesFile) (fileIdents file')
  | None => False
  end.
Proof.
  destruct (obfuscateVariables allOn 10 variablesFile
              (set_structFields {["n"]} (initState (draws 90))))
    as [[file' s']|] eqn:E.
  - apply (obfuscateVariables_renames allOn 10 variablesFile file' _ s' eq_refl E).
  - vm_compute in E. discriminate E.
Defined.

(** On the sample file the package variable [Count] and the local [kept]
    are renamed wherever they occur; the package variable [Value] has a
    reserved spelling and stays, the parameter [n] is spelled like a struct
    field and stays, and so do the function and type names. *)
Example obfuscateVariables_ex :
  fileIdents <$> (fst <$> obfuscateVariables allOn 10 variablesFile
                            (set_structFields {["n"]} (initState (draws 90))))
  = Some [ident "p";
          identOf Var "a0olI1aаeеpрcсxхyуkк"; identOf Var "Value";
          ident "int";
          identOf Typ "T"; identOf Var "n"; ident "int";
          identOf Fun "f"; identOf Var "n"; ident "int";
          identOf Var "uВHНMМTТO0olI1aаeеpр"; identOf Var "a0olI1aаeеpрcсxхyуkк";
          identOf Var "uВHНMМTТO0olI1aаeеpр"; identOf Var "n"].
Proof. vm_compute. reflexivity. Qed.

(** ** [obfuscateFunctions] *)

(** One step of a walk: the visitor on the node, then the walk of what the
    visitor left; a top-level function declaration keeps the name the
    visitor gave it when the visitor leaves identifiers alone. *)
Lemma Inspect_step (f : Node -> State -> option (Node * State)) (fuel : nat)
  (n n' : Node) (s s' : State) :
  (forall id s, f (NIdent id) s = Some (NIdent id, s)) ->
  Inspect f fuel n s = Some (n', s') ->
  exists n1 s1,
    f n s = Some (n1, s1) /\ declFuncName n' = declFuncName n1 /\
    forall P : State -> Prop,
      (forall n s n' s', P s -> f n s = Some (n', s') -> P s') -> P s1 -> P s'.
Proof.
  intros Hid H. destruct fuel as [|fuel]; [discriminate|].
  cbn [Inspect] in H. bind_inv H. exists a, s0. split; [exact E|]. clear E.
  assert (Hname : forall (id id' : Ident) s1 s2,
             bindS (Inspect f fuel (NIdent id) s1)
                   (fun n' s => Some (as_ident n' id, s)) = Some (id', s2) -> id' = id).
  { intros id id' s1 s2 H2. bind_inv H2. injection H2 as <- <-.
    destruct fuel as [|fuel']; [discriminate|]. cbn [Inspect] in E.
    rewrite Hid in E. cbn [bindS] in E. injection E as <- <-. reflexivity. }
  split.
  - destruct a; try (binds_inv H; reflexivity).
    do 4 bind_inv H. injection H as <- <-. apply Hname in E0. subst. reflexivity.
  - intros P Hf Hs0.
    set (walkIdent := fun (id : Ident) (s : State) =>
                        bindS (Inspect f fuel (NIdent id) s)
                              (fun n' s => Some (as_ident n' id, s))) in *.
    pose proof (Inspect_state_inv P f Hf fuel) as IH.
    assert (Hid' : forall (id : Ident) s1 (id' : Ident) s2,
               P s1 -> walkIdent id s1 = Some (id', s2) -> P s2).
    { intros id s1 id' s2 H1 H2. unfold walkIdent in H2. binds_inv H2.
      eapply IH; eassumption. }
    pose proof (mapS_state_inv P _ IH) as Hnodes.
    pose proof (mapS_state_inv P _ Hid') as Hidents.
    pose proof (optS_state_inv P _ IH) as Hopt.
    pose proof (optS_state_inv P _ Hnodes) as Hoptnodes.
    pose proof (optS_state_inv P _ Hid') as Hoptid.
    destruct a; binds_inv H;
      repeat match goal with
             | E : Inspect f fuel _ ?s1 = Some (_, ?s2) |- _ =>
                 assert (P s2) by (eapply IH; [|exact E]; assumption); clear E
             | E : mapS (Inspect f fuel) _ ?s1 = Some (_, ?s2) |- _ =>
                 assert (P s2) by (eapply Hnodes; [|exact E]; assumption); clear E
             | E : mapS _ _ ?s1 = Some (_, ?s2) |- _ =>
                 assert (P s2) by (eapply Hidents; [|exact E]; assumption); clear E
             | E : optS (Inspect f fuel) _ ?s1 = Some (_, ?s2) |- _ =>
                 assert (P s2) by (eapply Hopt; [|exact E]; assumption); clear E
             | E : optS (mapS (Inspect f fuel)) _ ?s1 = Some (_, ?s2) |- _ =>
                 assert (P s2) by (eapply Hoptnodes; [|exact E]; assumption); clear E
             | E : optS _ _ ?s1 = Some (_, ?s2) |- _ =>
                 assert (P s2) by (eapply Hoptid; [|exact E]; assumption); clear E
             | E : walkIdent _ ?s1 = Some (_, ?s2) |- _ =>
                 assert (P s2) by (eapply Hid'; [|exact E]; assumption); clear E
             | E : bindS (Inspect f fuel (NIdent ?id) ?s1) _ = Some (_, ?s2) |- _ =>
                 assert (P s2) by (eapply (Hid' id); [|exact E]; assumption); clear E
             end;
      assumption.
Qed.

Lemma mapS_rel {A B : Type} (names : A -> list B)
  (inv : State -> State -> Prop) (R : State -> B -> B -> Prop)
  (g : A -> State -> option (A * State)) :
  (forall s, inv s s) ->
  (forall s1 s2 s3, inv s1 s2 -> inv s2 s3 -> inv s1 s3) ->
  (forall s s' x y, inv s s' -> R s x y -> R s' x y) ->
  (forall a s a' s', g a s = Some (a', s') ->
                     inv s s' /\ Forall2 (R s') (names a) (names a')) ->
  forall l s l' s',
    mapS g l s = Some (l', s') ->
    inv s s' /\ Forall2 (R s') (flat_map names l) (flat_map names l').
Proof.
  intros Hrefl Htrans Hstable Hg.
  induction l as [|a l IH]; intros s l' s' H; cbn [mapS] in H.
  - injection H as <- <-. split; [apply Hrefl|constructor].
  - binds_inv H. destruct (Hg _ _ _ _ E) as [Hi1 H1].
    destruct (IH _ _ _ E0) as [Hi2 H2].
    split; [eapply Htrans; eassumption|]. cbn [flat_map].
    apply Forall2_app; [|exact H2].
    eapply Forall2_impl; [exact H1|]. intros x y. apply Hstable. exact Hi2.
Qed.

Ltac visitor_tables :=
  repeat match goal with
         | H : context [match ?x with _ => _ end] |- _ => is_var x; destruct x
         | H : context [if ?b then _ else _] |- _ => destruct b eqn:?
         | H : keep _ _ = Some _ |- _ => injection H as <- <-
         | H : Some _ = Some _ |- _ => injection H as <- <-
         | H : bindS _ _ = Some _ |- _ => bind_inv H
         | H : None = Some _ |- _ => discriminate H
         | H : context [match ?x with _ => _ end] |- _ => destruct x eqn:?
         end;
  try assumption;
  try (eapply sameTables_trans; [eassumption|]; eapply sameTables_alloc; eassumption).

Lemma funcRenamed_stable (s s' : State) (old new : string) :
  sameTables s s' ->
  funcRenamed s (nameMap s) old new -> funcRenamed s' (nameMap s') old new.
Proof.
  intros (_ & _ & _ & _ & _ & A6 & A7 & Hkeep). unfold funcRenamed.
  rewrite A6, A7.
  destruct (bool_decide (old ∈ declaredFuncs s) || bool_decide (old ∈ declaredMethods s));
    auto.
Qed.

Lemma renameFuncDecl_walk (fuel0 fuel : nat) (d d' : Node) (s s' : State) :
  Inspect (renameFuncDecl fuel0) fuel d s = Some (d', s') ->
  sameTables s s' /\
  Forall2 (fun old new => funcRenamed s' (nameMap s') old new)
          (declFuncName d) (declFuncName d').
Proof.
  intros H. apply Inspect_step in H; [|reflexivity].
  destruct H as (n1 & s1 & Hf & Hname & Hinv).
  assert (Hs1 : sameTables s1 s').
  { apply (Hinv (sameTables s1)); [|apply sameTables_refl].
    clear. intros n x n' x' Hx Hv. unfold renameFuncDecl in Hv.
    destruct n; visitor_tables. }
  rewrite Hname. clear Hname Hinv. unfold renameFuncDecl in Hf.
  destruct d as [| | | | | | | | | |recv fname type body|];
    try (injection Hf as <- <-; split; [exact Hs1|constructor]).
  cbn [declFuncName].
  destruct (bool_decide (Name fname ∈ declaredFuncs s)
            || bool_decide (Name fname ∈ declaredMethods s)) eqn:Ed.
  - destruct (getObfuscatedName fuel0 (Name fname) s) as [[v sa]|] eqn:E;
      [|discriminate].
    cbn [bindS] in Hf. injection Hf as <- <-.
    pose proof (sameTables_alloc _ _ _ _ _ E) as Hs0.
    split; [eapply sameTables_trans; eassumption|].
    cbn [declFuncName setName Name]. constructor; [|constructor].
    apply (funcRenamed_stable sa s' _ _ Hs1).
    unfold funcRenamed.
    destruct Hs0 as (_ & _ & _ & _ & _ & A6 & A7 & _). rewrite A6, A7, Ed.
    eapply getObfuscatedName_lookup. exact E.
  - injection Hf as <- <-. split; [exact Hs1|].
    cbn [declFuncName]. constructor; [|constructor].
    unfold funcRenamed.
    destruct Hs1 as (_ & _ & _ & _ & _ & A6 & A7 & _). rewrite A6, A7, Ed. reflexivity.
Qed.

Lemma renameCall_walk (fuel0 fuel : nat) (d d' : Node) (s s' : State) :
  Inspect (renameCall fuel0) fuel d s = Some (d', s') ->
  sameTables s s' /\ Forall2 (fun old new => new = old) (declFuncName d) (declFuncName d').
Proof.
  intros H. apply Inspect_step in H; [|reflexivity].
  destruct H as (n1 & s1 & Hf & Hname & Hinv).
  assert (Hs1 : sameTables s1 s').
  { apply (Hinv (sameTables s1)); [|apply sameTables_refl].
    clear. intros n x n' x' Hx Hv. unfold renameCall in Hv.
    destruct n; visitor_tables. }
  rewrite Hname. clear Hname Hinv.
  assert (Hs0 : sameTables s s1 /\ declFuncName n1 = declFuncName d).
  { clear Hs1. unfold renameCall in Hf.
    destruct d; visitor_tables;
      (split; [first [apply sameTables_refl | eapply sameTables_alloc; eassumption]
              |reflexivity]). }
  destruct Hs0 as [Hs0 ->]. split; [eapply sameTables_trans; eassumption|].
  destruct d; cbn [declFuncName]; repeat constructor.
Qed.

Lemma renameSelector_walk (fuel0 fuel : nat) (d d' : Node) (s s' : State) :
  Inspect (renameSelector fuel0) fuel d s = Some (d', s') ->
  sameTables s s' /\ Forall2 (fun old new => new = old) (declFuncName d) (declFuncName d').
Proof.
  intros H. apply Inspect_step in H; [|reflexivity].
  destruct H as (n1 & s1 & Hf & Hname & Hinv).
  assert (Hs1 : sameTables s1 s').
  { apply (Hinv (sameTables s1)); [|apply sameTables_refl].
    clear. intros n x n' x' Hx Hv. unfold renameSelector in Hv.
    destruct n; visitor_tables. }
  rewrite Hname. clear Hname Hinv.
  assert (Hs0 : sameTables s s1 /\ declFuncName n1 = declFuncName d).
  { clear Hs1. unfold renameSelector in Hf.
    destruct d; visitor_tables;
      (split; [first [apply sameTables_refl | eapply sameTables_alloc; eassumption]
              |reflexivity]). }
  destruct Hs0 as [Hs0 ->]. split; [eapply sameTables_trans; eassumption|].
  destruct d; cbn [declFuncName]; repeat constructor.
Qed.

Lemma Forall2_same {A : Type} (l l' : list A) :
  Forall2 (fun old new => new = old) l l' -> l' = l.
Proof. induction 1 as [|x y l l' -> _ IH]; [reflexivity|]. rewrite IH. reflexivity. Qed.

(** X13: a run of [obfuscateFunctions] (toggle on) that returns gives every
    function declaration of the file whose name was collected in
    [declaredFuncs] or [declaredMethods] the replacement the name map holds
    for that name at the end of the pass, and leaves every other function
    declaration, those of uncollected names such as [main] and [init]
    among them, under its own name; their number and order stay.  The pass
    changes no table but the name map, which keeps its entries. *)
Theorem obfuscateFunctions_renames (cfg : Config) (fuel : nat) (file file' : File)
  (s s' : State) :
  noFunctions cfg = false ->
  obfuscateFunctions cfg fuel file s = Some (file', s') ->
  sameTables s s' /\
  Forall2 (funcRenamed s (nameMap s')) (funcDeclNames file) (funcDeclNames file').
Proof.
  intros Hon H. unfold obfuscateFunctions, InspectFile in H. rewrite Hon in H.
  destruct (Inspect (renameFuncDecl fuel) fuel (NIdent (PkgName file)) s)
    as [[p1 sa]|] eqn:P1; [|discriminate]. cbn [bindS] in H.
  destruct (mapS (Inspect (renameFuncDecl fuel) fuel) (Decls file) sa)
    as [[d1 sb]|] eqn:D1; [|discriminate]. cbn [bindS PkgName Decls] in H.
  destruct (Inspect (renameCall fuel) fuel (NIdent (as_ident p1 (PkgName file))) sb)
    as [[p2 sc]|] eqn:P2; [|discriminate]. cbn [bindS] in H.
  destruct (mapS (Inspect (renameCall fuel) fuel) d1 sc)
    as [[d2 sd]|] eqn:D2; [|discriminate]. cbn [bindS PkgName Decls] in H.
  match type of H with
  | bindS (Inspect _ _ ?pk sd) _ = _ =>
      destruct (Inspect (renameSelector fuel) fuel pk sd) as [[p3 se]|] eqn:P3;
        [|discriminate]
  end.
  cbn [bindS] in H.
  destruct (mapS (Inspect (renameSelector fuel) fuel) d2 se)
    as [[d3 sf]|] eqn:D3; [|discriminate]. cbn [bindS] in H.
  injection H as <- <-.
  apply renameFuncDecl_walk in P1. destruct P1 as [T1 _].
  apply renameCall_walk in P2. destruct P2 as [T3 _].
  apply renameSelector_walk in P3. destruct P3 as [T5 _].
  apply (mapS_rel declFuncName sameTables
           (fun s old new => funcRenamed s (nameMap s) old new)) in D1;
    [|apply sameTables_refl|apply sameTables_trans
     |intros; eapply funcRenamed_stable; eassumption
     |intros; eapply renameFuncDecl_walk; eassumption].
  apply (mapS_rel declFuncName sameTables (fun _ old new => new = old)) in D2;
    [|apply sameTables_refl|apply sameTables_trans|auto
     |intros; eapply renameCall_walk; eassumption].
  apply (mapS_rel declFuncName sameTables (fun _ old new => new = old)) in D3;
    [|apply sameTables_refl|apply sameTables_trans|auto
     |intros; eapply renameSelector_walk; eassumption].
  destruct D1 as [T2 N1], D2 as [T4 N2], D3 as [T6 N3].
  apply Forall2_same in N2, N3.
  assert (Hlate : sameTables sb sf).
  { repeat (eapply sameTables_trans; [eassumption|]). apply sameTables_refl. }
  assert (Hall : sameTables s sf).
  { do 2 (eapply sameTables_trans; [eassumption|]). exact Hlate. }
  split; [exact Hall|].
  unfold funcDeclNames. cbn [Decls].
  change (fun decl : Node => match decl with
                             | NFuncDecl _ name _ _ => [Name name]
                             | _ => []
                             end) with declFuncName.
  rewrite N3, N2.
  eapply Forall2_impl; [exact N1|]. intros old new Hr.
  apply (funcRenamed_stable _ _ _ _ Hlate) in Hr.
  unfold funcRenamed in *.
  destruct Hall as (_ & _ & _ & _ & _ & A6 & A7 & _). rewrite <- A6, <- A7. exact Hr.
Qed.

Lemma obfuscateFunctions_renames_witness :
  match obfuscateFunctions allOn 10 functionsFile
          (set_declaredMethods {["Run"]}
             (set_declaredFuncs {["helper"]} (initState (draws 90)))) with
  | Some (file', s') =>
      sameTables (set_declaredMethods {["Run"]}
                    (set_declaredFuncs {["helper"]} (initState (draws 90)))) s' /\
      Forall2 (funcRenamed (set_declaredMethods {["Run"]}
                              (set_declaredFuncs {["helper"]} (initState (draws 90))))
                           (nameMap s'))
              (funcDeclNames functionsFile) (funcDeclNames file')
  | None => False
  end.
Proof.
  destruct (obfuscateFunctions allOn 10 functionsFile
              (set_declaredMethods {["Run"]}
                 (set_declaredFuncs {["helper"]} (initState (draws 90)))))
    as [[file' s']|] eqn:E.
  - apply (obfuscateFunctions_renames allOn 10 functionsFile file' _ s' eq_refl E).
  - vm_compute in E. discriminate E.
Defined.

(** On the sample file [helper] and the method [Run] are renamed at their
    declarations and at their calls, and [main] keeps its name. *)
Example obfuscateFunctions_ex :
  fileIdents <$> (fst <$> obfuscateFunctions allOn 10 functionsFile
                            (set_declaredMethods {["Run"]}
                               (set_declaredFuncs {["helper"]} (initState (draws 90)))))
  = Some [ident "p";
          identOf Fun "a0olI1aаeеpрcсxхyуkк";
          identOf Var "t"; identOf Typ "T"; ident "uВHНMМTТO0olI1aаeеpр";
          identOf Fun "a0olI1aаeеpрcсxхyуkк";
          identOf Fun "main"; ident "x"; ident "uВHНMМTТO0olI1aаeеpр"].
Proof. vm_compute. reflexivity. Qed.

(** ** [obfuscateBacktickStrings] *)

Lemma EncodeRune_byte (c : ascii) : byteZ c < 128 -> EncodeRune (byteZ c) = String c "".
Proof.
  intros Hc. pose proof (byteZ_range c). rewrite EncodeRune_1 by lia.
  cbn [bytes_string fold_right]. rewrite byte_of_Z_byteZ. reflexivity.
Qed.

Lemma part_ok_obfuscateByte (c : ascii) (rng : Rand) :
  byteZ c < 128 -> part_ok (obfuscateByte c rng).1 (String c "").
Proof.
  intros Hc. pose proof (byteZ_range c) as Hr.
  assert (Hdec : part_ok ("string(" +:+ (fmt_d (byteZ c) +:+ ")")) (String c "")).
  { split; [rewrite append_cons; cbn [String.length]; lia|].
    intros fuel rest Hfuel. destruct fuel as [|fuel];
      [rewrite append_cons in Hfuel; cbn [String.length] in Hfuel; lia|].
    rewrite eval_conv_dec, EncodeRune_byte by assumption. reflexivity. }
  unfold obfuscateByte. destruct (Intn 3 rng) as [k rng1].
  destruct (k =? 0); [exact Hdec|].
  destruct (k =? 1).
  { cbn [fst]. split; [rewrite append_cons; cbn [String.length]; lia|].
    intros fuel rest Hfuel. destruct fuel as [|fuel];
      [rewrite append_cons in Hfuel; cbn [String.length] in Hfuel; lia|].
    rewrite eval_conv_hex, EncodeRune_byte by lia. reflexivity. }
  destruct ((32 <=? byteZ c) && (byteZ c <? 127) && negb (Ascii.eqb c dquote)
            && negb (Ascii.eqb c backslash) && negb (Ascii.eqb c squote)) eqn:E;
    [|exact Hdec].
  rewrite !andb_true_iff, !negb_true_iff in E.
  destruct E as [[[[H32 H127] Hq] Hb] _].
  apply Z.leb_le in H32. apply Z.ltb_lt in H127.
  apply Ascii.eqb_neq in Hq, Hb.
  split; [unfold quoted; cbn [fst String.length]; lia|].
  intros fuel rest Hfuel. destruct fuel as [|fuel];
    [unfold quoted in Hfuel; cbn [fst String.length] in Hfuel; lia|].
  cbn [fst]. rewrite <- (EncodeRune_byte c Hc).
  apply eval_quoted_char; [lia| |].
  - intros H34. apply Hq. rewrite <- (byte_of_Z_byteZ c), H34. reflexivity.
  - intros H92. apply Hb. rewrite <- (byte_of_Z_byteZ c), H92. reflexivity.
Qed.

Lemma obfuscateBytes_parts (s : string) :
  forall rng,
    isASCII s = true ->
    Forall2 part_ok (obfuscateBytes s rng).1 (singletons s).
Proof.
  induction s as [|c s IH]; intros rng Hs; cbn [obfuscateBytes singletons].
  - constructor.
  - unfold isASCII in Hs. cbn [string_forall] in Hs. apply andb_true_iff in Hs.
    destruct Hs as [Hc Hs]. apply Z.ltb_lt in Hc.
    pose proof (part_ok_obfuscateByte c rng Hc) as Hp.
    destruct (obfuscateByte c rng) as [p rng1]. specialize (IH rng1 Hs).
    destruct (obfuscateBytes s rng1) as [ps rng2]. constructor; assumption.
Qed.

Lemma concat_all_singletons (s : string) : concat_all (singletons s) = s.
Proof.
  induction s as [|c s IH]; [reflexivity|].
  cbn [singletons]. unfold concat_all in *. cbn [fold_right]. rewrite IH. reflexivity.
Qed.

Lemma obfuscateBytes_nonempty (s : string) (rng : Rand) :
  s <> "" -> (obfuscateBytes s rng).1 <> [].
Proof.
  destruct s as [|c s]; [congruence|]. intros _. cbn [obfuscateBytes].
  destruct (obfuscateByte c rng) as [p rng1].
  destruct (obfuscateBytes s rng1) as [ps rng2]. discriminate.
Qed.

(** The replacement function: a raw string that is short, holds a struct
    tag or does not look like code is returned as it is; any other is
    replaced by a sum of one part per byte, which evaluates to the text
    between the backticks when that text is ASCII. *)
Lemma obfuscateBacktick_gate (cfg : Config) (m : string) (rng : Rand) :
  noStrings cfg = false ->
  backtickGate cfg m (obfuscateBacktick m rng).1.
Proof.
  intros Hon. unfold backtickGate, obfuscateBacktick, keptBacktick. rewrite Hon.
  cbn [orb]. set (inner := slice m 1 (len m - 1)).
  destruct (Z.ltb_spec (len inner) 20) as [Hlen|Hlen]; [reflexivity|].
  destruct (hasStructTag inner); [reflexivity|].
  destruct (isCode inner); [|reflexivity]. cbn [orb negb].
  exists rng. destruct (obfuscateBytes inner rng) as [parts rng1] eqn:E.
  cbn [fst]. split; [reflexivity|]. intros Hascii.
  assert (Hne : inner <> "").
  { intros Hnil. rewrite Hnil in Hlen. unfold len in Hlen. cbn in Hlen. lia. }
  pose proof (obfuscateBytes_parts inner rng Hascii) as Hparts.
  pose proof (obfuscateBytes_nonempty inner rng Hne) as Hnn.
  rewrite E in Hparts, Hnn. cbn [fst] in Hparts, Hnn.
  rewrite (eval_string_text_sum parts (singletons inner) Hparts Hnn).
  rewrite concat_all_singletons. reflexivity.
Qed.

(** *** The pattern of a raw string *)

Lemma backtick_star (rest s : string) :
  closesRaw s = true ->
  match_re (RSeq (RStar (RClass (fun a => negb (Ascii.eqb a backtick)))) (RByte backtick))
           (s +:+ rest) Some = Some rest.
Proof.
  intros Hs. cbn [match_re].
  match goal with |- ?f _ _ = _ => set (loop := f) end.
  assert (Hloop : forall n s0, (String.length s0 <= n)%nat -> closesRaw s0 = true ->
                               loop n (s0 +:+ rest) = Some rest).
  { clear s Hs. induction n as [|n IH]; intros s Hlen Hc;
      (destruct s as [|a s]; [discriminate|]);
      cbn [closesRaw] in Hc; rewrite append_cons; cbn [String.length] in Hlen;
      [lia|].
    destruct (Ascii.eqb a backtick) eqn:Eq.
    - apply String.eqb_eq in Hc. subst s. rewrite append_nil_l.
      apply Ascii.eqb_eq in Eq. subst a. reflexivity.
    - cbn [loop]. rewrite Eq. cbn [negb String.length].
      destruct (Nat.ltb_spec (String.length (s +:+ rest))
                             (S (String.length (s +:+ rest)))) as [_|Hge]; [|lia].
      rewrite (IH s) by (assumption || lia). reflexivity. }
  apply Hloop; [|exact Hs]. rewrite length_append. lia.
Qed.

Lemma backtick_other (a : ascii) (s : string) :
  Ascii.eqb a backtick = false -> match_here backtickRe (String a s) = None.
Proof.
  intros Ha. unfold match_here, backtickRe.
  change (match_re (RSeq (RByte backtick) ?r) (String a s) Some)
    with (if Ascii.eqb a backtick then match_re r s Some else None).
  rewrite Ha. reflexivity.
Qed.

Lemma backtick_literal (lit rest : string) :
  isRawString lit = true -> match_here backtickRe (lit +:+ rest) = Some (String.length lit).
Proof.
  destruct lit as [|a [|b s]]; try discriminate. cbn [isRawString].
  intros H. apply andb_true_iff in H. destruct H as [H Hs].
  apply andb_true_iff in H. destruct H as [Ha Hb].
  apply Ascii.eqb_eq in Ha. subst a. rewrite !append_cons.
  unfold match_here, backtickRe, RPlus.
  change (match_re (RSeq (RByte backtick) (RSeq (RSeq (RClass ?p) ?st) ?q))
                   (String backtick (String b (s +:+ rest))) Some)
    with (if p b then match_re (RSeq st q) (s +:+ rest) Some else None).
  cbv beta. rewrite Hb, (backtick_star rest s Hs). cbn [String.length].
  rewrite length_append.
  f_equal. lia.
Qed.

(** In a text all of whose backticks belong to raw strings that are not
    empty, the matches of the scan are the raw strings. *)
Lemma segments_rawStringText (parts : list (string * string)) (tail : string) :
  rawStringText parts tail = true ->
  segments (String.length (textOf parts tail)) backtickRe (textOf parts tail)
  = (parts, tail).
Proof.
  unfold rawStringText. intros H. apply andb_true_iff in H. destruct H as [Hp Ht].
  apply (segments_textOf backtickRe backtick isRawString).
  - apply backtick_other.
  - reflexivity.
  - apply backtick_literal.
  - intros lit Hl ->. discriminate Hl.
  - exact Hp.
  - exact Ht.
  - apply (textOf_length isRawString); [intros lit Hl ->; discriminate Hl|].
    clear Ht. induction parts as [|p parts IH]; [reflexivity|].
    cbn [forallb] in *. apply andb_true_iff in Hp. destruct Hp as [Hp1 Hp].
    apply andb_true_iff in Hp1. destruct Hp1 as [_ Hl]. rewrite Hl, (IH Hp). reflexivity.
Qed.

(** The pass on any text, match by match. *)
Lemma obfuscateBacktickStrings_segments (cfg : Config) (content : string) (rng : Rand) :
  exists outs,
    Forall2 (fun seg out => backtickGate cfg seg.2 out)
            (segments (String.length content) backtickRe content).1 outs /\
    (obfuscateBacktickStrings cfg content rng).1
    = assemble (segments (String.length content) backtickRe content).1 outs
               (segments (String.length content) backtickRe content).2.
Proof.
  unfold obfuscateBacktickStrings. destruct (noStrings cfg) eqn:Hcfg.
  - exists (map snd (segments (String.length content) backtickRe content).1).
    split; [|symmetry; apply assemble_id].
    generalize (segments (String.length content) backtickRe content).1 as segs.
    induction segs as [|seg segs IH]; constructor; [|assumption].
    unfold backtickGate. rewrite Hcfg. reflexivity.
  - unfold ReplaceAllStringFunc. rewrite replaceAll_rebuild.
    destruct (rebuild_assemble obfuscateBacktick
                (segments (String.length content) backtickRe content).1
                (segments (String.length content) backtickRe content).2 rng)
      as (outs & Hall & Hout).
    exists outs. split; [|exact Hout].
    eapply Forall2_impl; [exact Hall|].
    intros seg o (st0 & ->). apply obfuscateBacktick_gate. exact Hcfg.
Qed.

(** X14: [obfuscateBacktickStrings] scans the text from the left for the
    successive non-overlapping matches of its pattern (a backtick, one
    character or more other than a backtick, a backtick), treats each
    match on its own and leaves the text between the matches as it was.
    With the string toggle off, or when the text between the backticks is
    shorter than 20 bytes, holds a struct tag or does not look like code,
    the match stays.  Any other match is replaced by a parenthesised sum
    of one part per byte, and that expression evaluates to the text
    between the backticks whenever that text is ASCII.  In a text all of
    whose backticks belong to raw strings that are not empty the matches
    are the raw strings, so that every raw string of such a text is
    treated in this way. *)
Theorem obfuscateBacktickStrings_gate (cfg : Config) (content : string) (rng : Rand) :
  (exists outs,
     Forall2 (fun seg out => backtickGate cfg seg.2 out)
             (segments (String.length content) backtickRe content).1 outs /\
     (obfuscateBacktickStrings cfg content rng).1
     = assemble (segments (String.length content) backtickRe content).1 outs
                (segments (String.length content) backtickRe content).2) /\
  (forall parts tail,
     rawStringText parts tail = true ->
     exists outs,
       Forall2 (fun (p : string * string) out => backtickGate cfg p.2 out) parts outs /\
       (obfuscateBacktickStrings cfg (textOf parts tail) rng).1 = assemble parts outs tail).
Proof.
  split; [apply obfuscateBacktickStrings_segments|].
  intros parts tail Htext.
  destruct (obfuscateBacktickStrings_segments cfg (textOf parts tail) rng)
    as (outs & Hall & Hout).
  rewrite (segments_rawStringText parts tail Htext) in Hall, Hout.
  exists outs. split; assumption.
Qed.

(** The theorem on a text with two raw strings: the query is replaced by
    an expression of its value and the short one stays. *)
Lemma obfuscateBacktickStrings_gate_witness :
  exists out,
    eval_string_text out = Some "SELECT id FROM t WHERE x" /\
    (obfuscateBacktickStrings allOn
       (textOf [("q := ", rawQuoted "SELECT id FROM t WHERE x");
                ("; r := ", rawQuoted "short")] "") [0; 1; 2]).1
    = assemble [("q := ", rawQuoted "SELECT id FROM t WHERE x");
                ("; r := ", rawQuoted "short")] [out; rawQuoted "short"] "".
Proof.
  destruct (obfuscateBacktickStrings_gate allOn "" [0; 1; 2]) as [_ Htext].
  destruct (Htext [("q := ", rawQuoted "SELECT id FROM t WHERE x");
                   ("; r := ", rawQuoted "short")] "" eq_refl)
    as (outs & Hall & Hout).
  inversion Hall as [|p1 o1 ps1 os1 H1 Hrest1]; subst.
  inversion Hrest1 as [|p2 o2 ps2 os2 H2 Hrest2]; subst.
  inversion Hrest2; subst.
  unfold backtickGate in H1, H2. cbn [snd] in H1, H2.
  change (noStrings allOn || keptBacktick (rawQuoted "SELECT id FROM t WHERE x"))
    with false in H1.
  change (noStrings allOn || keptBacktick (rawQuoted "short")) with true in H2.
  cbv iota in H1, H2. destruct H1 as (rng & -> & Heval). subst o2.
  eexists. split; [apply Heval; reflexivity|exact Hout].
Defined.

(** ** The integer sweep after the string passes *)

Lemma HasPrefix_app (s t x : string) : HasPrefix s x = true -> HasPrefix (s +:+ t) x = true.
Proof.
  revert s. induction x as [|c x IH]; intros s; [reflexivity|].
  destruct s as [|a s]; [discriminate|]. rewrite append_cons. cbn [HasPrefix].
  rewrite !andb_true_iff. intros [Ha Hs]. split; [exact Ha|apply IH; exact Hs].
Qed.

Lemma Contains_prefix (s x : string) : HasPrefix s x = true -> Contains s x = true.
Proof. intros H. destruct s; cbn [Contains]; rewrite H; reflexivity. Qed.

Lemma Contains_app_l (s t x : string) : Contains s x = true -> Contains (s +:+ t) x = true.
Proof.
  induction s as [|a s IH].
  - cbn [Contains]. rewrite orb_false_r. intros H. rewrite append_nil_l.
    apply Contains_prefix. destruct x; [reflexivity|discriminate].
  - rewrite append_cons. cbn [Contains]. rewrite !orb_true_iff. intros [H|H].
    + left. change (String a (s +:+ t)) with (String a s +:+ t).
      apply HasPrefix_app. exact H.
    + right. apply IH. exact H.
Qed.

Lemma Contains_app_r (s t x : string) : Contains t x = true -> Contains (s +:+ t) x = true.
Proof.
  intros H. induction s as [|a s IH]; [rewrite append_nil_l; exact H|].
  rewrite append_cons. cbn [Contains]. rewrite IH. apply orb_true_r.
Qed.

Lemma hasQuoting_app_l (s t : string) : hasQuoting s = true -> hasQuoting (s +:+ t) = true.
Proof.
  unfold hasQuoting. rewrite !orb_true_iff.
  intros [[[H|H]|H]|H]; [left; left; left|left; left; right|left; right|right];
    apply Contains_app_l; exact H.
Qed.

Lemma hasQuoting_app_r (s t : string) : hasQuoting t = true -> hasQuoting (s +:+ t) = true.
Proof.
  unfold hasQuoting. rewrite !orb_true_iff.
  intros [[[H|H]|H]|H]; [left; left; left|left; left; right|left; right|right];
    apply Contains_app_r; exact H.
Qed.

Lemma hasQuoting_quoted (s t : string) : hasQuoting (quoted s +:+ t) = true.
Proof.
  apply hasQuoting_app_l. unfold hasQuoting, quoted.
  replace (Contains (String dquote (s +:+ String dquote "")) (String dquote "")) with true;
    [rewrite orb_true_r; reflexivity|].
  cbn [Contains HasPrefix]. rewrite Ascii.eqb_refl. reflexivity.
Qed.

Lemma hasQuoting_conv (s : string) : hasQuoting ("string(" +:+ s) = true.
Proof. apply hasQuoting_app_l. reflexivity. Qed.

Lemma hasQuoting_Join (parts : list string) :
  parts <> [] -> Forall (fun p => hasQuoting p = true) parts ->
  hasQuoting ("(" +:+ (Join parts "+" +:+ ")")) = true.
Proof.
  intros Hne Hall. apply hasQuoting_app_r, hasQuoting_app_l.
  destruct Hall as [|p ps Hp _]; [congruence|].
  destruct ps; [exact Hp|]. cbn [Join]. apply hasQuoting_app_l. exact Hp.
Qed.

Lemma hasQuoting_obfuscateRune (r : Z) (rng : Rand) :
  hasQuoting (obfuscateRune r rng).1 = true.
Proof.
  unfold obfuscateRune. destruct (Intn 4 rng) as [c rng1].
  destruct (c =? 0); [apply hasQuoting_conv|].
  destruct (c =? 1); [apply (hasQuoting_conv ("0x" +:+ _))|].
  destruct (c =? 2); [destruct (Intn 50 rng1); apply hasQuoting_conv|].
  destruct ((r =? 34) || (r =? 92) || (127 <? r)); [apply hasQuoting_conv|].
  destruct ((32 <=? r) && (r <? 127)); [|apply hasQuoting_conv].
  cbn [fst]. rewrite <- (append_nil_r (quoted _)). apply hasQuoting_quoted.
Qed.

Lemma hasQuoting_obfuscateRunes (rs : list Z) :
  forall rng, Forall (fun p => hasQuoting p = true) (obfuscateRunes rs rng).1.
Proof.
  induction rs as [|r rs IH]; intros rng; cbn [obfuscateRunes]; [constructor|].
  pose proof (hasQuoting_obfuscateRune r rng) as Hp.
  destruct (obfuscateRune r rng) as [p rng1]. specialize (IH rng1).
  destruct (obfuscateRunes rs rng1) as [ps rng2]. constructor; assumption.
Qed.

Lemma hasQuoting_obfuscateStringLiteral (s : string) (rng : Rand) :
  hasQuoting (obfuscateStringLiteral s rng).1 = true.
Proof.
  unfold obfuscateStringLiteral. destruct (String.eqb_spec s "") as [->|Hne].
  - reflexivity.
  - pose proof (hasQuoting_obfuscateRunes (range_runes s) rng) as Hall.
    pose proof (obfuscateRunes_length (range_runes s) rng) as Hlen.
    pose proof (range_runes_nonempty s Hne) as Hrs.
    destruct (obfuscateRunes (range_runes s) rng) as [parts rng1]. cbn [fst] in *.
    apply hasQuoting_Join; [|exact Hall].
    intros ->. destruct (range_runes s); [congruence|].
    cbn [Join String.length List.length] in Hlen. lia.
Qed.

Lemma hasQuoting_obfuscateFormatString (s : string) (rng : Rand) :
  hasQuoting (obfuscateFormatString s rng).1 = true.
Proof.
  destruct (FindAllStringIndex formatRe s) as [|m ms] eqn:E.
  - unfold obfuscateFormatString. rewrite E. apply hasQuoting_obfuscateStringLiteral.
  - destruct (obfuscateFormatString_parts s rng) as (parts & vals & -> & _ & Hne & _ & _ & Hkind);
      [rewrite E; discriminate|].
    apply hasQuoting_Join; [exact Hne|].
    eapply Forall_impl; [exact Hkind|]. intros p [Hq|(lo & hi & rng0 & ->)].
    + unfold is_quoted in Hq. unfold hasQuoting.
      rewrite (Contains_prefix _ _ Hq), orb_true_r. reflexivity.
    + apply hasQuoting_obfuscateStringLiteral.
Qed.

Lemma hasQuoting_obfuscateByte (c : ascii) (rng : Rand) :
  hasQuoting (obfuscateByte c rng).1 = true.
Proof.
  unfold obfuscateByte. destruct (Intn 3 rng) as [k rng1].
  destruct (k =? 0); [apply hasQuoting_conv|].
  destruct (k =? 1); [apply (hasQuoting_conv ("0x" +:+ _))|].
  match goal with
  | |- context [if ?b then _ else _] => destruct b
  end; [|apply hasQuoting_conv].
  cbn [fst]. rewrite <- (append_nil_r (quoted _)). apply hasQuoting_quoted.
Qed.

Lemma hasQuoting_obfuscateBacktick (m : string) (rng : Rand) :
  keptBacktick m = false -> hasQuoting (obfuscateBacktick m rng).1 = true.
Proof.
  unfold keptBacktick, obfuscateBacktick. set (inner := slice m 1 (len m - 1)).
  rewrite !orb_false_iff, negb_false_iff. intros [[Hlen Htag] Hcode].
  rewrite Hlen, Htag, Hcode. cbn [negb].
  pose proof (obfuscateBytes_nonempty inner rng) as Hne.
  assert (Hall : Forall (fun p => hasQuoting p = true) (obfuscateBytes inner rng).1).
  { clear. revert rng. induction inner as [|c s IH]; intros rng;
      cbn [obfuscateBytes]; [constructor|].
    pose proof (hasQuoting_obfuscateByte c rng) as Hp.
    destruct (obfuscateByte c rng) as [p rng1]. specialize (IH rng1).
    destruct (obfuscateBytes s rng1) as [ps rng2]. constructor; assumption. }
  destruct (obfuscateBytes inner rng) as [parts rng1]. cbn [fst] in *.
  apply hasQuoting_Join; [|exact Hall]. apply Hne.
  intros Hnil. rewrite Hnil in Hlen. discriminate Hlen.
Qed.

Lemma hasQuoting_holdsEncoded (line : string) : holdsEncoded line -> hasQuoting line = true.
Proof.
  intros (front & e & back & He & ->). apply hasQuoting_app_r, hasQuoting_app_l.
  destruct He as [(s & rng & ->)|[(s & rng & ->)|(m & rng & Hk & ->)]].
  - apply hasQuoting_obfuscateStringLiteral.
  - apply hasQuoting_obfuscateFormatString.
  - apply hasQuoting_obfuscateBacktick. exact Hk.
Qed.

(** X15: the integer sweep never touches what the string passes emitted.
    Every text [obfuscateStringLiteral], [obfuscateFormatString] or the
    backtick pass emits holds a quote or a [string(] conversion, so a line
    that holds such a text is one the sweep passes over: it comes out of
    [obfuscateIntegersInText] as it went in, numeric codes included. *)
Theorem obfuscateIntegersInText_skips_encoded (cfg : Config) (content : string)
  (rng : Rand) :
  (forall e, encodedText e -> hasQuoting e = true) /\
  exists lines',
    (obfuscateIntegersInText cfg content rng).1 = JoinSep lines' newline /\
    Forall2 (fun line line' => holdsEncoded line -> line' = line)
            (Split content newline) lines'.
Proof.
  split.
  { intros e He. rewrite <- (append_nil_r e), <- (append_nil_l (e +:+ "")).
    apply hasQuoting_holdsEncoded. exists "", e, "". auto. }
  unfold obfuscateIntegersInText. destruct (noInts cfg).
  - exists (Split content newline). cbn [fst]. split; [symmetry; apply Join_Split|].
    generalize (Split content newline) as lines.
    induction lines as [|line lines IH]; constructor; auto.
  - pose proof (intLines_gate (Split content newline) rng) as H.
    destruct (intLines (Split content newline) rng) as [lines' rng1].
    exists lines'. split; [reflexivity|].
    eapply Forall2_impl; [exact H|]. intros line line' [Hq _] Henc.
    apply Hq. apply hasQuoting_holdsEncoded. exact Henc.
Qed.

(** ** The string sweep and the import block *)

Lemma Split_line (line : string) : isLine line = true -> Split line newline = [line].
Proof.
  induction line as [|a line IH]; [reflexivity|].
  unfold isLine in *. cbn [string_forall Split]. rewrite andb_true_iff, negb_true_iff.
  intros [Ha Hl]. rewrite Ha, IH by exact Hl. reflexivity.
Qed.

Lemma Split_line_app (line rest : string) :
  isLine line = true ->
  Split (line +:+ String newline rest) newline = line :: Split rest newline.
Proof.
  induction line as [|a line IH].
  - intros _. rewrite append_nil_l. cbn [Split]. rewrite Ascii.eqb_refl. reflexivity.
  - unfold isLine in *. cbn [string_forall]. rewrite andb_true_iff, negb_true_iff.
    intros [Ha Hl]. rewrite append_cons. cbn [Split]. rewrite Ha, IH by exact Hl.
    reflexivity.
Qed.

Lemma Split_JoinSep (lines : list string) :
  lines <> [] -> Forall (fun line => isLine line = true) lines ->
  Split (JoinSep lines newline) newline = lines.
Proof.
  intros Hne Hall. unfold JoinSep. induction Hall as [|line lines Hl Hall IH]; [congruence|].
  destruct lines as [|line' lines'].
  - cbn [Join]. apply Split_line. exact Hl.
  - change (Join (line :: line' :: lines') (String newline ""))
      with (line +:+ (String newline "" +:+ Join (line' :: lines') (String newline ""))).
    rewrite (append_cons newline), append_nil_l.
    rewrite Split_line_app by exact Hl. rewrite IH by discriminate. reflexivity.
Qed.

Lemma stringLines_length (lines : list string) :
  forall b rng, List.length (stringLines lines b rng).1 = List.length lines.
Proof.
  induction lines as [|line lines IH]; intros b rng; cbn [stringLines]; [reflexivity|].
  repeat match goal with
         | |- context [if ?c then _ else _] => destruct c
         end;
    repeat match goal with
           | |- context [ReplaceAllStringFunc ?r ?f ?l ?g] =>
               destruct (ReplaceAllStringFunc r f l g) as [line' rng1]
           end;
    match goal with
    | |- context [stringLines lines ?b0 ?r0] =>
        specialize (IH b0 r0); destruct (stringLines lines b0 r0) as [out rng2]
    end;
    cbn [fst List.length] in *; rewrite IH; reflexivity.
Qed.

Lemma stringLines_app (l1 l2 : list string) :
  forall b rng,
    exists b' rng',
      (stringLines (l1 ++ l2) b rng).1
      = ((stringLines l1 b rng).1 ++ (stringLines l2 b' rng').1)%list.
Proof.
  induction l1 as [|line l1 IH]; intros b rng.
  - exists b, rng. reflexivity.
  - cbn [app stringLines].
    repeat match goal with
           | |- context [if ?c then _ else _] => destruct c
           end;
      repeat match goal with
             | |- context [ReplaceAllStringFunc ?r ?f ?l ?g] =>
                 destruct (ReplaceAllStringFunc r f l g) as [line' rng1]
             end;
      match goal with
      | |- context [stringLines (l1 ++ l2) ?b0 ?r0] =>
          destruct (IH b0 r0) as (b' & rng' & Heq);
          destruct (stringLines (l1 ++ l2) b0 r0) as [out rng2];
          destruct (stringLines l1 b0 r0) as [out1 rng3]
      end;
      cbn [fst] in *; exists b', rng'; rewrite Heq; reflexivity.
Qed.

Lemma stringLines_block (block rest : list string) :
  Forall (fun line => String.eqb (TrimSpace line) ")" = false) block ->
  forall rng,
    (stringLines (block ++ rest) true rng).1 = (block ++ (stringLines rest true rng).1)%list.
Proof.
  induction 1 as [|line block Hline _ IH]; intros rng; [reflexivity|].
  cbn [app stringLines]. rewrite Hline. cbn [andb orb].
  destruct (HasPrefix (TrimSpace line) "import (");
    specialize (IH rng); destruct (stringLines (block ++ rest) true rng) as [out rng1];
    cbn [fst] in *; rewrite IH; reflexivity.
Qed.

Lemma stringLines_open (open : string) (rest : list string) (b : bool) (rng : Rand) :
  HasPrefix (TrimSpace open) "import (" = true ->
  (stringLines (open :: rest) b rng).1 = open :: (stringLines rest true rng).1.
Proof.
  intros Hopen. cbn [stringLines]. rewrite Hopen.
  destruct (stringLines rest true rng). reflexivity.
Qed.

(** X16: the string sweep never touches an import block.  In a text given
    line by line, a line whose trimmed text starts with [import (] and the
    lines that follow it, up to the first line that is a closing
    parenthesis alone, come out of [obfuscateStringsInText] exactly as they
    went in, whatever string literals they hold; the lines before and after
    keep their number. *)
Theorem obfuscateStringsInText_import_block (cfg : Config) (rng : Rand)
  (front block back : list string) (open : string) :
  Forall (fun line => isLine line = true) (front ++ open :: block ++ back) ->
  HasPrefix (TrimSpace open) "import (" = true ->
  Forall (fun line => String.eqb (TrimSpace line) ")" = false) block ->
  exists front' back',
    List.length front' = List.length front /\
    List.length back' = List.length back /\
    (obfuscateStringsInText cfg (JoinSep (front ++ open :: block ++ back) newline) rng).1
    = JoinSep (front' ++ open :: block ++ back') newline.
Proof.
  intros Hlines Hopen Hblock. unfold obfuscateStringsInText.
  destruct (noStrings cfg); [exists front, back; auto|].
  rewrite Split_JoinSep; [|destruct front; discriminate|exact Hlines].
  destruct (stringLines_app front (open :: block ++ back) false rng) as (b' & rng' & Heq).
  destruct (stringLines (front ++ open :: block ++ back) false rng) as [out rng1].
  cbn [fst] in *. subst out.
  rewrite stringLines_open by exact Hopen.
  rewrite stringLines_block by exact Hblock.
  exists (stringLines front false rng).1, (stringLines back true rng').1.
  split; [apply stringLines_length|]. split; [apply stringLines_length|reflexivity].
Qed.

Lemma obfuscateStringsInText_import_block_witness :
  exists front' back',
    List.length front' = List.length ["package p"] /\
    List.length back' = List.length [")"; "f(" +:+ quoted "hello" +:+ ")"] /\
    (obfuscateStringsInText allOn
       (JoinSep (["package p"] ++ "import (" :: [tab +:+ quoted "strings"]
                 ++ [")"; "f(" +:+ quoted "hello" +:+ ")"]) newline) [0; 0; 0; 0; 0]).1
    = JoinSep (front' ++ "import (" :: [tab +:+ quoted "strings"] ++ back') newline.
Proof.
  apply (obfuscateStringsInText_import_block allOn [0; 0; 0; 0; 0]
           ["package p"] [tab +:+ quoted "strings"]
           [")"; "f(" +:+ quoted "hello" +:+ ")"] "import (").
  - repeat constructor.
  - vm_compute. reflexivity.
  - repeat constructor.
Defined.

Example obfuscateStringsInText_import_ex :
  (obfuscateStringsInText allOn
     (JoinSep ["package p"; "import ("; tab +:+ quoted "strings"; ")";
               "f(" +:+ quoted "hello" +:+ ")"] newline) [0; 0; 0; 0; 0]).1
  = JoinSep ["package p"; "import ("; tab +:+ quoted "strings"; ")";
             "f((string(104)+string(101)+string(108)+string(108)+string(111)))"]
            newline.
Proof. vm_compute. reflexivity. Qed.

(** ** The values of the literals through the string sweep *)

Lemma obfuscateFormatString_eval (s : string) (rng : Rand) :
  eval_string_text (obfuscateFormatString s rng).1 = Some (reencode s).
Proof.
  destruct (FindAllStringIndex formatRe s) as [|m ms] eqn:E.
  - unfold obfuscateFormatString. rewrite E. apply obfuscateStringLiteral_eval.
  - destruct (obfuscateFormatString_parts s rng)
      as (parts & vals & -> & Hall & Hne & Hvals & _); [rewrite E; discriminate|].
    rewrite (eval_string_text_sum parts vals Hall Hne), Hvals. reflexivity.
Qed.

Lemma obfuscateStringLiteral_paren (s : string) (rng : Rand) :
  s <> "" -> exists t, (obfuscateStringLiteral s rng).1 = String "(" t.
Proof.
  intros Hne. unfold obfuscateStringLiteral.
  destruct (String.eqb_spec s ""); [contradiction|].
  destruct (obfuscateRunes (range_runes s) rng). eexists. reflexivity.
Qed.

Lemma obfuscateFormatString_paren (s : string) (rng : Rand) :
  s <> "" -> exists t, (obfuscateFormatString s rng).1 = String "(" t.
Proof.
  intros Hne. destruct (FindAllStringIndex formatRe s) as [|m ms] eqn:E.
  - unfold obfuscateFormatString. rewrite E. apply obfuscateStringLiteral_paren. exact Hne.
  - destruct (obfuscateFormatString_parts s rng) as (parts & vals & -> & _);
      [rewrite E; discriminate|].
    eexists. reflexivity.
Qed.

Lemma literalValue_paren (t : string) :
  literalValue (String "(" t) = eval_string_text (String "(" t).
Proof. reflexivity. Qed.

Lemma obfuscateLiteral_valueKept (isVar : bool) (m : string) (rng : Rand) :
  valueKept m (obfuscateLiteral isVar m rng).1.
Proof.
  intros s Hm Hvalid. unfold obfuscateLiteral. rewrite Hm.
  assert (Hkeep : literalValue m = Some s) by (unfold literalValue; rewrite Hm; reflexivity).
  destruct (Z.ltb_spec (len s) 3) as [Hlen|Hlen]; [exact Hkeep|].
  destruct (Contains s (String backslash "")); [exact Hkeep|].
  destruct (Contains s "://" && negb isVar); [exact Hkeep|].
  assert (Hne : s <> "").
  { intros ->. unfold len in Hlen. cbn in Hlen. lia. }
  destruct (Contains s "%").
  - destruct (obfuscateFormatString_paren s rng Hne) as [t Ht].
    rewrite Ht, literalValue_paren, <- Ht, obfuscateFormatString_eval.
    rewrite reencode_valid by exact Hvalid. reflexivity.
  - destruct (obfuscateStringLiteral_paren s rng Hne) as [t Ht].
    rewrite Ht, literalValue_paren, <- Ht, obfuscateStringLiteral_eval.
    rewrite string_of_range_runes by exact Hvalid. reflexivity.
Qed.

Lemma lineValuesKept_refl (line : string) : lineValuesKept line line.
Proof.
  exists (map snd (segments (String.length line) stringLitRe line).1).
  split; [|symmetry; apply assemble_id].
  generalize (segments (String.length line) stringLitRe line).1 as segs.
  induction segs as [|seg segs IH]; constructor; [|assumption].
  intros s Hs _. unfold literalValue. rewrite Hs. reflexivity.
Qed.

Lemma stringLines_values (lines : list string) (inImportBlock : bool) (rng : Rand) :
  Forall2 lineValuesKept lines (stringLines lines inImportBlock rng).1.
Proof.
  revert inImportBlock rng.
  induction lines as [|line lines IH]; intros inImportBlock rng; cbn [stringLines];
    [constructor|].
  repeat match goal with
         | |- context [if ?c then _ else _] =>
             destruct c;
             [match goal with
              | |- context [stringLines lines ?b ?r] =>
                  specialize (IH b r); destruct (stringLines lines b r) as [out rng1];
                  constructor; [apply lineValuesKept_refl|exact IH]
              end|]
         end.
  unfold ReplaceAllStringFunc. rewrite replaceAll_rebuild.
  destruct (rebuild_assemble (obfuscateLiteral (isVarAssignment line))
              (segments (String.length line) stringLitRe line).1
              (segments (String.length line) stringLitRe line).2 rng)
    as (outs & Hall & Hout).
  destruct (rebuild (obfuscateLiteral (isVarAssignment line)) _ _ rng) as [line' rng1].
  cbn [fst] in Hout.
  specialize (IH inImportBlock rng1).
  destruct (stringLines lines inImportBlock rng1) as [out rng2].
  constructor; [|assumption].
  exists outs. split; [|assumption].
  eapply Forall2_impl; [exact Hall|].
  intros seg o (st0 & ->). apply obfuscateLiteral_valueKept.
Qed.



(** ** The encoders on arbitrary byte strings *)

(** X18: on every byte string, valid UTF-8 or not, the expressions
    emitted by [obfuscateStringLiteral] and by [obfuscateFormatString]
    evaluate to the same string: the concatenation of the UTF-8 encodings
    of the runes a [range] loop reads from the input, where each byte that
    is not part of a well-formed sequence is read as U+FFFD.  Both encoders
    thus agree on every input, whatever strategies they draw. *)
Theorem encoders_evaluate_to_reencode (s : string) (rng1 rng2 : Rand) :
  eval_string_text (obfuscateStringLiteral s rng1).1
    = Some (string_of_runes (range_runes s)) /\
  eval_string_text (obfuscateFormatString s rng2).1
    = Some (string_of_runes (range_runes s)).
Proof.
  split; [apply obfuscateStringLiteral_eval|apply obfuscateFormatString_eval].
Qed.
